(* ===== verification/_CoqProject ===== *)
-Q . S2P
Prelude.v
GoRuntime.v
House.v
HouseState.v
BinaryData.v
Crc32.v
Protocol.v
GoStrings.v
Platform.v
Clock.v
DataFile.v
DataStream.v
Config.v
DataEngine.v
Storage.v
Router.v
Quarantine.v
Monitor.v
TcpServer.v
UdpServer.v
UdpClose.v
Intake.v
Pipeline.v
Typing.v
Unknown.v
Closing.v
Watching.v
Lifetimes.v
Server.v
Logging.v
LogPool.v
Http.v
Command.v
