(* ===== verification/Prelude.v ===== *)
(** * Verification of the Go sensor server

    The program (all paths below are under [src/]) receives messages of sensors
    over TCP and UDP, looks the device up in a reloadable configuration, and
    appends each sensor value to the file of its floor, room and sensor type;
    messages of unknown devices go to a quarantine that is replayed when the
    server starts.  A plugin keeps recent values in memory and serves them over
    HTTP.  This development models the code operation by operation in Gallina,
    with the errors, panics, machine integers, buffers and interleavings it
    has, and proves what makes each part correct.

    ** How a datum travels, and the files that model it

    - [House.v] ([sensor-server/house_floor.go], [house_room.go],
      [house_sensors.go], [house_actuators.go], [house_units.go]): the
      identifiers, their names, units and ranges; conversions stay in range
      and names are canonical.  [HouseState.v] ([house_contacts.go],
      [house_lights.go], [house_global.go], [house.go]): the records of a house
      that nothing reads yet.
    - [BinaryData.v] ([binary_data.go]): the byte cursor; [Crc32.v]: the
      checksum of [hash/crc32], bit by bit; [Protocol.v] ([protocol.go]): header
      and payload, [DecodeDatagram] for UDP, [ReadMessage] for a stream,
      [EncodeMessage].  Theorems: the datagrams accepted are exactly the wire
      images of messages; encoding and decoding are inverse; each malformed
      datagram gets the error of the first check that fails; one changed
      payload byte is always noticed; reading a stream depends on its bytes
      only, not on how they arrive.
    - [Config.v] ([config.go]): defaults, validation, MAC addresses, snapshots
      and what a reload may change; the decoded JSON value is an argument.  A
      snapshot exists exactly for the configurations that meet the documented
      conditions.
    - [Platform.v] ([platform.go]): the file system as a store of files and
      directories with a script of faults, one per call; every call of the
      interface may fail, and a write may stop in the middle.  [Clock.v], of
      the same file: the interfaces of network, timers and clock.
    - [DataFile.v] ([data-file.go]): numbered segments behind a buffered
      writer: opening with repair of a torn tail, writing with rotation,
      flushing and closing.  A data file refines an append-only log, and what
      was written is what decoding the segments gives back.
    - [DataStream.v] ([data-stream.go]): the bounded queue of a stream and its
      worker with retries and ticks, as a step machine over all interleavings
      of producers, closer and worker.  The stream is proved against the class
      [RecordWriter], whose laws [DataFile.v] discharges: nothing is lost while
      the writer can take it, the records leave in order, the counters count,
      and closing drains the queue in a bounded number of steps.
    - [DataEngine.v] ([data-engine.go]): one stream for each floor, room and
      sensor type, created under the lock, and closing; then the whole chain
      from a valid configuration to the bytes on the disk.
    - [Storage.v]: the engine, all its streams and their files on one file
      system, as one step machine.  After [Close] each directory holds exactly
      the records accepted for its key, and the others are untouched.
    - [Router.v] ([router.go]): routing one message, against the
      classes of the two writers it calls, and the registry of the current
      snapshot.
    - [Quarantine.v] ([quarantine.go]): the entries and their checksum, the
      writer with recovery and rotation, and the replay that moves known
      messages into the engine, carries unknown ones over and marks a segment
      complete.
    - [TcpServer.v] ([tcp-server.go]) and [UdpServer.v] ([udp-server.go]): the
      goroutines of the two servers as step machines: accepting, the connection
      loop, binding of a connection to a MAC address and replacement, [Close];
      the receiving goroutine, the pool of packets, the workers, [Close].
      Theorems: the limits, the bindings, which messages are routed, once and
      in order, from the bytes of a connection on; every datagram has one fate
      and every packet one holder.  [UdpClose.v]: closing the UDP server always
      ends.
    - [Intake.v]: both servers, the router they share and the reloads of the
      configuration as one step machine.  It refines a sequential store, and
      the theorem on the bytes of a TCP connection holds inside it.
    - [Pipeline.v]: the intake with the machine of [Storage.v] as its data
      writer: from routed messages to the bytes of the segments.  [Typing.v]:
      what the intake carries is well-typed from the decoder to the writers.
      [Unknown.v]: the quarantine behind the intake, its closing, opening and
      replay: from the message of an unknown device to the data writer.
      [Lifetimes.v]: the quarantine over any number of restarts refines a list
      of outstanding messages.
      [Closing.v]: both servers closed inside the intake, and what is then
      certain of every datagram, connection and message.  [Watching.v]: the
      callbacks that [main.go] sets; the plugin shows what is stored.
    - [Server.v] ([config-poller.go], [server.go]): loading and polling the
      configuration file, opening the parts with the release of those opened
      when one fails, the goroutines, their errors and the order of closing.
    - [Monitor.v] ([plugins/http/sample-ring.go], [events.go], [config.go],
      [monitor-state.go]): the ring of samples, the hub of events, the state of
      devices and the snapshots; [Http.v] ([plugins/http/http-server.go]): the
      paths, handlers, health and event stream, composed with the monitoring
      state.
    - [Logging.v] ([logging/logging.go]): levels, the header of a line, the
      loggers and the rate limiter; [LogPool.v]: the pool of buffers, which is
      shown not to be observable, and the functions on the standard logger.
    - [Command.v] ([cmd/sensor-server/main.go]): [run] over the models of its
      parts: what it acquires it gives back, in order, on every path.
    - [GoRuntime.v] and [GoStrings.v]: errors and their chains ([errors.Is],
      [errors.Join]), the three outcomes of a call, slices, [io.ReadFull], and
      the functions of [strings], [strconv], [path] and [net] the code calls.

    ** How state and operations correspond to the code

    A struct is a [Record] with the names of its fields, an operation a
    [Definition] with the name of the function.  A sequential operation is in
    the monad [M S A := S -> res A * S] of [GoRuntime.v]: it returns a value,
    an error or a panic, and the state it leaves in each case.  Code that runs
    in several goroutines is a function [action -> state -> option (events *
    state)]: an action is what one goroutine does between two points where
    another can see it (a channel operation, a critical section, an atomic
    counter), and the reachable states and traces are an inductive closure over
    all orders of the actions.  An integer is a [Z] kept in its width with
    [wrapu] and [wraps] where the code computes on it.  A definition that
    translates code is preceded by a comment that names the file and the lines.

    ** Parameters

    What the operating system, the network, the clock, the JSON decoder and the
    formatting of [fmt] answer are arguments or scripts; the theorems hold for
    every answer, or name the answers they need as hypotheses.  Go's maps are
    [gmap]s; where the code sorts what it collects from a map the result is
    shown not to depend on the order.

    ** Fuel

    Recursion on data is structural.  These loops have fuel: [decimal] (20
    digits, enough for [uint64]), the trimming of white space and the runes of
    a JSON key (the length of the text), the reading of a stream ([read_fuel]: one round for each piece that
    arrives, proved enough by the framing theorems), and [itoa] (21 rounds, one
    more than its array has bytes).  The scans over files and entries have the
    length of the data as fuel, and the lemmas about them show that the data is
    consumed entirely.

    ** Not modelled

    The operating system, [net], [time], [net/http], [encoding/json], [flag] and
    [fmt] are libraries; the address strings that the operating system
    resolves; the counters' atomicity below one access; the callbacks from the
    server to the logger are calls of that part, not steps of [Command.v];
    tests and documents.

    A call of [Route] is one step of the servers: two calls that overlap touch
    the router's counters, each atomic, and the writers, each under its own
    lock, so that only the order among them could differ.

    ** Plan

    Next: the warnings of the components as calls of the limited logger; one
    run of the whole server, from opening to closing, on one file system. *)


From Stdlib Require Export ZArith Lia.
From Stdlib Require Strings.Byte.
From stdpp Require Export base tactics option list gmap strings sorting.

#[global] Set Default Goal Selector "!".

(** ** Notation scope and hint databases *)

Declare Scope go_scope.
Delimit Scope go_scope with go.

Create HintDb go_bounds.
Create Rewrite HintDb go_rw.

(** ** Machine integers

    A Go [uintN] is a [Z] in [[0, 2^N)] and an [intN] a [Z] in
    [[-2^(N-1), 2^(N-1))]; conversions and arithmetic wrap around. *)

Definition wrapu (w z : Z) : Z := z mod 2 ^ w.
Definition wraps (w z : Z) : Z := (z + 2 ^ (w - 1)) mod 2 ^ w - 2 ^ (w - 1).

Abbreviation u8 := (wrapu 8).
Abbreviation u16 := (wrapu 16).
Abbreviation u32 := (wrapu 32).
Abbreviation u64 := (wrapu 64).
Abbreviation i32 := (wraps 32).
Abbreviation i64 := (wraps 64).

(** ** Bytes *)

Abbreviation byte := Byte.byte.

#[export] Instance byte_eq_dec : EqDecision byte := Byte.byte_eq_dec.
#[export] Instance byte_countable : Countable byte :=
  inj_countable Byte.to_N Byte.of_N Byte.of_to_N.

Definition byte_to_Z (b : byte) : Z := Z.of_N (Byte.to_N b).
Definition byte_of_Z (z : Z) : byte :=
  match Byte.of_N (Z.to_N (z mod 256)) with
  | Some b => b
  | None => Byte.x00
  end.

(** Bytes of a Go string (which is a byte sequence). *)
Definition string_bytes (s : string) : list byte := String.list_byte_of_string s.

(** Little-endian fixed-width integers, as [encoding/binary] reads and
    writes them. *)
Fixpoint le_put (n : nat) (v : Z) : list byte :=
  match n with
  | O => []
  | S n => byte_of_Z v :: le_put n (Z.shiftr v 8)
  end.

Fixpoint le_get (l : list byte) : Z :=
  match l with
  | [] => 0
  | b :: l => Z.lor (byte_to_Z b) (Z.shiftl (le_get l) 8)
  end%Z.

(** ** Tactics shared by the development *)


(** Case analysis on the innermost [match] scrutinee of the goal or of a
    hypothesis, keeping the equation. *)
Ltac case_match_eqn :=
  match goal with
  | |- context [match ?x with _ => _ end] =>
      lazymatch x with
      | context [match _ with _ => _ end] => fail
      | _ => let E := fresh "E" in destruct x eqn:E
      end
  | H : context [match ?x with _ => _ end] |- _ =>
      lazymatch x with
      | context [match _ with _ => _ end] => fail
      | _ => let E := fresh "E" in destruct x eqn:E
      end
  end.

(** Boolean comparisons of the source become propositions. *)
Ltac bool_to_prop :=
  repeat match goal with
  | H : (_ <? _)%Z = true |- _ => apply Z.ltb_lt in H
  | H : (_ <? _)%Z = false |- _ => apply Z.ltb_ge in H
  | H : (_ <=? _)%Z = true |- _ => apply Z.leb_le in H
  | H : (_ <=? _)%Z = false |- _ => apply Z.leb_gt in H
  | H : (_ =? _)%Z = true |- _ => apply Z.eqb_eq in H
  | H : (_ =? _)%Z = false |- _ => apply Z.eqb_neq in H
  | H : negb _ = true |- _ => apply negb_true_iff in H
  | H : negb _ = false |- _ => apply negb_false_iff in H
  | H : (_ && _) = true |- _ => apply andb_true_iff in H; destruct H
  | H : (_ || _) = false |- _ => apply orb_false_iff in H; destruct H
  | H : bool_decide _ = true |- _ => apply bool_decide_eq_true in H
  | H : bool_decide _ = false |- _ => apply bool_decide_eq_false in H
  end.

(** Arithmetic with division and remainder by constants. *)
Ltac mod_lia := Z.to_euclidean_division_equations; lia.

(** ** Lemmas on machine integers *)

Lemma wrapu_range w z : (0 <= w)%Z -> (0 <= wrapu w z < 2 ^ w)%Z.
Proof. intros Hw. apply Z.mod_pos_bound. lia. Qed.

Lemma wrapu_small w z : (0 <= z < 2 ^ w)%Z -> wrapu w z = z.
Proof. apply Z.mod_small. Qed.

Lemma wraps_range w z : (0 < w)%Z -> (- 2 ^ (w - 1) <= wraps w z < 2 ^ (w - 1))%Z.
Proof.
  intros Hw. unfold wraps.
  pose proof (Z.mod_pos_bound (z + 2 ^ (w - 1)) (2 ^ w)) as Hb.
  assert (2 ^ w = 2 * 2 ^ (w - 1))%Z as E.
  { rewrite <- Z.pow_succ_r by lia. f_equal. lia. }
  lia.
Qed.

Lemma wraps_small w z : (0 < w)%Z -> (- 2 ^ (w - 1) <= z < 2 ^ (w - 1))%Z -> wraps w z = z.
Proof.
  intros Hw Hz. unfold wraps.
  assert (2 ^ w = 2 * 2 ^ (w - 1))%Z as E.
  { rewrite <- Z.pow_succ_r by lia. f_equal. lia. }
  rewrite Z.mod_small; lia.
Qed.

Lemma wrapu_wrapu w z : wrapu w (wrapu w z) = wrapu w z.
Proof. apply Zmod_mod. Qed.

Lemma wrapu_add_l w a b : wrapu w (wrapu w a + b) = wrapu w (a + b).
Proof. apply Zplus_mod_idemp_l. Qed.

Lemma wraps_wrapu w z : (0 < w)%Z -> wraps w (wrapu w z) = wraps w z.
Proof. intros Hw. unfold wraps, wrapu. by rewrite Zplus_mod_idemp_l. Qed.

Lemma wrapu_wraps w z : (0 < w)%Z -> wrapu w (wraps w z) = wrapu w z.
Proof.
  intros Hw. unfold wraps, wrapu. rewrite Zminus_mod_idemp_l. f_equal. lia.
Qed.

(** ** Lemmas on bytes *)

Lemma byte_to_Z_range b : (0 <= byte_to_Z b < 256)%Z.
Proof.
  unfold byte_to_Z. pose proof (Byte.to_N_bounded b). lia.
Qed.

Lemma byte_to_of_Z z : byte_to_Z (byte_of_Z z) = (z mod 256)%Z.
Proof.
  unfold byte_to_Z, byte_of_Z.
  pose proof (Z.mod_pos_bound z 256 ltac:(lia)) as Hz.
  destruct (Byte.of_N (Z.to_N (z mod 256))) as [b|] eqn:E.
  - apply Byte.to_of_N in E. rewrite E. lia.
  - apply Byte.of_N_None_iff in E. lia.
Qed.

Lemma byte_of_to_Z b : byte_of_Z (byte_to_Z b) = b.
Proof.
  unfold byte_to_Z, byte_of_Z. rewrite Z.mod_small.
  - by rewrite N2Z.id, Byte.of_to_N.
  - apply byte_to_Z_range.
Qed.

#[export] Instance byte_to_Z_inj : Inj (=) (=) byte_to_Z.
Proof. intros a b H. by rewrite <- (byte_of_to_Z a), H, byte_of_to_Z. Qed.

Lemma byte_of_Z_mod z : byte_of_Z (z mod 256) = byte_of_Z z.
Proof. apply (inj byte_to_Z). rewrite !byte_to_of_Z. apply Zmod_mod. Qed.

#[export] Hint Resolve byte_to_Z_range wrapu_range wraps_range : go_bounds.

Lemma lor_shift_add a b n :
  (0 <= n)%Z -> (0 <= a < 2 ^ n)%Z -> Z.lor a (Z.shiftl b n) = (a + b * 2 ^ n)%Z.
Proof.
  intros Hn Ha.
  assert (Z.land a (Z.shiftl b n) = 0%Z) as E.
  { apply Z.bits_inj'. intros i Hi. rewrite Z.land_spec, Z.bits_0.
    destruct (Z.ltb_spec i n).
    - rewrite (Z.shiftl_spec_low b n i) by lia. apply andb_false_r.
    - rewrite <- (Z.mod_small a (2 ^ n)) by lia.
      rewrite Z.mod_pow2_bits_high by lia. done. }
  rewrite <- Z.add_nocarry_lor by done. rewrite Z.shiftl_mul_pow2; lia.
Qed.

Lemma le_get_cons b l : le_get (b :: l) = (byte_to_Z b + 256 * le_get l)%Z.
Proof.
  simpl. rewrite lor_shift_add; change (2 ^ 8)%Z with 256%Z; [lia|lia|].
  apply byte_to_Z_range.
Qed.

Lemma le_put_length n v : length (le_put n v) = n.
Proof. revert v. induction n as [|n IH]; intros v; simpl; [done|]. by rewrite IH. Qed.

Lemma le_get_put n v : le_get (le_put n v) = (v mod 2 ^ (8 * Z.of_nat n))%Z.
Proof.
  revert v. induction n as [|n IH]; intros v.
  - simpl. by rewrite Z.mod_1_r.
  - cbn [le_put]. rewrite le_get_cons, IH, byte_to_of_Z, Z.shiftr_div_pow2 by lia.
    replace (2 ^ (8 * Z.of_nat (S n)))%Z with (256 * 2 ^ (8 * Z.of_nat n))%Z.
    + change (2 ^ 8)%Z with 256%Z. rewrite Z.rem_mul_r; lia.
    + replace (8 * Z.of_nat (S n))%Z with (8 + 8 * Z.of_nat n)%Z by lia.
      rewrite Z.pow_add_r by lia. done.
Qed.

Lemma le_get_range l : (0 <= le_get l < 2 ^ (8 * Z.of_nat (length l)))%Z.
Proof.
  induction l as [|b l IH]; [simpl; lia|].
  rewrite le_get_cons. cbn [length].
  replace (8 * Z.of_nat (S (length l)))%Z with (8 + 8 * Z.of_nat (length l))%Z by lia.
  rewrite Z.pow_add_r by lia. pose proof (byte_to_Z_range b). lia.
Qed.

Lemma le_put_get l : le_put (length l) (le_get l) = l.
Proof.
  induction l as [|b l IH]; [done|].
  cbn [length le_put]. rewrite le_get_cons. f_equal.
  - rewrite <- byte_of_Z_mod.
    replace ((byte_to_Z b + 256 * le_get l) mod 256)%Z with (byte_to_Z b).
    + apply byte_of_to_Z.
    + pose proof (byte_to_Z_range b). mod_lia.
  - rewrite Z.shiftr_div_pow2 by lia. change (2 ^ 8)%Z with 256%Z.
    replace ((byte_to_Z b + 256 * le_get l) `div` 256)%Z with (le_get l); [done|].
    pose proof (byte_to_Z_range b). mod_lia.
Qed.

Lemma le_get_small n v : (0 <= v < 2 ^ (8 * Z.of_nat n))%Z -> le_get (le_put n v) = v.
Proof. intros Hv. rewrite le_get_put. by apply Z.mod_small. Qed.

Lemma le_put_mod n v : le_put n (v mod 2 ^ (8 * Z.of_nat n)) = le_put n v.
Proof.
  rewrite <- (le_put_get (le_put n v)). by rewrite le_put_length, le_get_put.
Qed.

#[export] Hint Rewrite le_put_length byte_to_of_Z byte_of_to_Z : go_rw.

(** ** Lists *)

Lemma take_drop_slice {A} (l : list A) lo n :
  lo + n <= length l -> length (take n (drop lo l)) = n.
Proof. intros H. rewrite length_take, length_drop. lia. Qed.

Lemma length_zero_nil {A} (l : list A) : length l = 0 -> l = [].
Proof. by destruct l. Qed.
