(* ===== verification/GoRuntime.v ===== *)
(** * Go runtime vocabulary

    What the Go sources take from the language and its standard library:
    error values with [errors.Is] and [errors.Join], run-time panics, a
    state monad in which a call returns, fails with an error or panics,
    slices with spare capacity, and byte streams read through [io.Reader]. *)

From S2P Require Import Prelude.
Open Scope Z_scope.

(** ** Errors *)

(** The package-level error values the program compares with [errors.Is]. *)
Inductive sentinel : Set :=
| ErrInvalidMagic | ErrUnsupportedType | ErrPayloadTooLarge
| ErrInvalidPayload | ErrChecksumMismatch | ErrDatagramSize
| ErrUnknownDevice | ErrUnknownSensor
| ErrDataStreamClosed | ErrDataStreamFull
| ErrDataFileClosed | ErrDataEngineClosed
| ErrInvalidQuarantineEntry | ErrQuarantineClosed
| ErrInvalidConfiguration | ErrRestartRequired
| io_EOF | io_ErrUnexpectedEOF | io_ErrShortWrite
| net_ErrClosed | context_Canceled | context_DeadlineExceeded.

#[export] Instance sentinel_eq_dec : EqDecision sentinel.
Proof. solve_decision. Defined.

(** [ErrNew] is a sentinel, [ErrText] an error with a message only,
    [ErrWrap] is [fmt.Errorf] with a [%w] verb, [ErrJoin] is the value of
    [errors.Join], [ErrExternal] an error of the operating system or the
    network. Formatted message texts keep only their fixed part. *)
#[warnings="-register-all"]
Inductive error : Type :=
| ErrNew (s : sentinel)
| ErrText (msg : string)
| ErrWrap (msg : string) (e : error)
| ErrJoin (es : list error)
| ErrExternal (code : Z).

Fixpoint errors_Is (e : error) (target : sentinel) : bool :=
  match e with
  | ErrNew s => bool_decide (s = target)
  | ErrText _ => false
  | ErrWrap _ e => errors_Is e target
  | ErrJoin es => existsb (fun e => errors_Is e target) es
  | ErrExternal _ => false
  end.

(** [errors.Is] on an error value that may be nil. *)
Definition err_Is (e : option error) (target : sentinel) : bool :=
  match e with
  | Some e => errors_Is e target
  | None => false
  end.

(** [errors.Join]: nil when every argument is nil. *)
Definition errors_Join (es : list (option error)) : option error :=
  match omap id es with
  | [] => None
  | es => Some (ErrJoin es)
  end.

(** ** Outcomes and the state monad *)

Inductive panic : Set :=
| PanicIndex           (* index or slice bounds out of range *)
| PanicNil             (* nil pointer or nil interface dereference *)
| PanicClosedChannel.  (* send on a closed channel *)

Inductive res (A : Type) : Type :=
| Ret (a : A)
| Fail (e : error)
| Panic (p : panic).
Arguments Ret {A} _.
Arguments Fail {A} _.
Arguments Panic {A} _.

(** A call on a state [S]: the state is kept whatever the outcome, as the
    mutated objects are when a Go function returns an error. *)
Definition M (S A : Type) : Type := S -> res A * S.

#[export] Instance M_ret {S} : MRet (M S) := fun A a s => (Ret a, s).
#[export] Instance M_bind {S} : MBind (M S) := fun A B f m s =>
  match m s with
  | (Ret a, s') => f a s'
  | (Fail e, s') => (Fail e, s')
  | (Panic p, s') => (Panic p, s')
  end.

Definition fail {S A} (e : error) : M S A := fun s => (Fail e, s).
Definition throw {S A} (p : panic) : M S A := fun s => (Panic p, s).
Definition get {S} : M S S := fun s => (Ret s, s).
Definition gets {S A} (f : S -> A) : M S A := fun s => (Ret (f s), s).
Definition put {S} (s : S) : M S unit := fun _ => (Ret tt, s).
Definition modify {S} (f : S -> S) : M S unit := fun s => (Ret tt, f s).

(** [x, err := m()] followed by a test on [err]. *)
Definition attempt {S A} (m : M S A) : M S (A + error) := fun s =>
  match m s with
  | (Ret a, s') => (Ret (inl a), s')
  | (Fail e, s') => (Ret (inr e), s')
  | (Panic p, s') => (Panic p, s')
  end.

(** [err := m()], the value being ignored. *)
Definition attempt_err {S A} (m : M S A) : M S (option error) := fun s =>
  match m s with
  | (Ret _, s') => (Ret None, s')
  | (Fail e, s') => (Ret (Some e), s')
  | (Panic p, s') => (Panic p, s')
  end.

(** [if err := m(); err != nil { return fmt.Errorf("msg: %w", err) }] *)
Definition wrap_err {S A} (msg : string) (m : M S A) : M S A := fun s =>
  match m s with
  | (Fail e, s') => (Fail (ErrWrap msg e), s')
  | r => r
  end.

Definition return_err {S} (e : option error) : M S unit :=
  match e with
  | None => mret tt
  | Some e => fail e
  end.

(** Run a call on a component [T] of a larger state [S]. *)
Definition zoom {S T A} (view : S -> T) (update : T -> S -> S) (m : M T A) : M S A :=
  fun s => let '(r, t) := m (view s) in (r, update t s).

(** A pure call inside a stateful one. *)
Definition lift {S A} (r : res A) : M S A := fun s => (r, s).

Definition result {S A} (p : res A * S) : res A := fst p.
Definition final {S A} (p : res A * S) : S := snd p.

(** ** Slices

    [arr] holds the array from the start of the slice to its capacity and
    [len] the length; an index expression is bounded by the length, a slice
    expression by the capacity. *)

Record slice : Type := Slice { arr : list byte; len : nat }.

Definition slice_of (l : list byte) : slice := Slice l (length l).
Definition slice_data (s : slice) : list byte := take (len s) (arr s).
Definition slice_cap (s : slice) : Z := Z.of_nat (length (arr s)).
Definition slice_len (s : slice) : Z := Z.of_nat (len s).
Definition slice_ok (s : slice) : Prop := (len s <= length (arr s))%nat.

(** [s[i]] *)
Definition slice_index (s : slice) (i : Z) : option byte :=
  if (0 <=? i) && (i <? slice_len s) then arr s !! Z.to_nat i else None.

(** [s[lo:hi]] *)
Definition slice_expr (s : slice) (lo hi : Z) : option slice :=
  if (0 <=? lo) && (lo <=? hi) && (hi <=? slice_cap s)
  then Some (Slice (drop (Z.to_nat lo) (arr s)) (Z.to_nat (hi - lo)))
  else None.

(** Store of bytes at offset [lo] of the array behind a slice; the stores of
    the program come after a slice expression that checked the bounds. *)
Definition slice_store (s : slice) (lo : Z) (bs : list byte) : slice :=
  let n := Z.to_nat lo in
  Slice (take n (arr s) ++ bs ++ drop (n + length bs) (arr s)) (len s).

(** ** io.Reader

    A stream delivers its bytes in chunks of any size (empty ones included);
    when they are used up every read returns the final error. *)

Record Reader : Type := mkReader { chunks : list (list byte); read_err : error }.

(** One [Read] call into a buffer of [n] bytes: the bytes delivered, the
    error and the stream after the call. *)
Definition Read (n : nat) (r : Reader) : list byte * option error * Reader :=
  match chunks r with
  | [] => ([], Some (read_err r), r)
  | c :: cs =>
      if (length c <=? n)%nat
      then (c, None, mkReader cs (read_err r))
      else (take n c, None, mkReader (drop n c :: cs) (read_err r))
  end.

(** The loop of [io.ReadAtLeast]: [for n < min && err == nil]. *)
Fixpoint read_loop (fuel : nat) (min : nat) (acc : list byte) (r : Reader)
    : option (list byte * option error * Reader) :=
  if (min <=? length acc)%nat then Some (acc, None, r) else
  match fuel with
  | O => None
  | S fuel =>
      match Read (min - length acc) r with
      | (bs, None, r') => read_loop fuel min (acc ++ bs) r'
      | (bs, Some e, r') => Some (acc ++ bs, Some e, r')
      end
  end.

(** Enough iterations for the loop: each one consumes a chunk, completes the
    buffer or ends with the final error. *)
Definition read_fuel (min : nat) (r : Reader) : nat := S (length (chunks r)).

(** [io.ReadFull(reader, buf)] with [len(buf) = min]. *)
Definition ReadFull (min : nat) : M Reader (list byte) := fun r =>
  match read_loop (read_fuel min r) min [] r with
  | None => (Panic PanicIndex, r)
  | Some (bs, err, r') =>
      if (min <=? length bs)%nat then (Ret bs, r') else
      match err with
      | None => (Panic PanicIndex, r')
      | Some e =>
          if (0 <? length bs)%nat && errors_Is e io_EOF
          then (Fail (ErrNew io_ErrUnexpectedEOF), r')
          else (Fail e, r')
      end
  end.

(** The bytes a stream still holds. *)
Definition pending (r : Reader) : list byte := concat (chunks r).

(** ** Lemmas: errors *)

Lemma errors_Join_None es : errors_Join es = None <-> Forall (fun e => e = None) es.
Proof.
  unfold errors_Join. induction es as [|[e|] es IH]; simpl.
  - split; [constructor|done].
  - rewrite Forall_cons. split; [done|]. by intros [? _].
  - rewrite Forall_cons, IH. tauto.
Qed.

Lemma errors_Join_is es target :
  err_Is (errors_Join es) target = existsb (fun e => err_Is e target) es.
Proof.
  unfold errors_Join.
  assert (existsb (fun e => errors_Is e target) (omap id es)
          = existsb (fun e => err_Is e target) es) as E.
  { induction es as [|[e|] es IH]; [done| |]; cbn; [by rewrite <- IH|done]. }
  rewrite <- E. by destruct (omap id es).
Qed.

(** ** Lemmas: slices *)

Lemma slice_of_data l : slice_data (slice_of l) = l.
Proof. apply firstn_all. Qed.

Lemma slice_of_ok l : slice_ok (slice_of l).
Proof. unfold slice_ok. simpl. lia. Qed.

Lemma slice_store_length s lo bs :
  0 <= lo -> lo + Z.of_nat (length bs) <= slice_cap s ->
  length (arr (slice_store s lo bs)) = length (arr s).
Proof.
  unfold slice_cap, slice_store. intros. simpl.
  rewrite !length_app, length_take, length_drop. lia.
Qed.

#[export] Hint Rewrite slice_of_data : go_rw.
#[export] Hint Resolve slice_of_ok : go_bounds.

(** ** Lemmas: io.ReadFull does not depend on the chunking *)

Lemma Read_pending n r bs r' :
  Read n r = (bs, None, r') -> pending r = bs ++ pending r' /\ read_err r' = read_err r.
Proof.
  unfold Read, pending. destruct (chunks r) as [|c cs] eqn:E; [done|].
  destruct (_ <=? _)%nat; intros H; inv H; simpl; [done|].
  by rewrite app_assoc, take_drop.
Qed.

Lemma read_loop_S fuel min acc r :
  read_loop (S fuel) min acc r =
  if (min <=? length acc)%nat then Some (acc, None, r) else
  match Read (min - length acc) r with
  | (bs, None, r') => read_loop fuel min (acc ++ bs) r'
  | (bs, Some e, r') => Some (acc ++ bs, Some e, r')
  end.
Proof. reflexivity. Qed.

Lemma read_loop_done fuel min acc r :
  (min <= length acc)%nat -> read_loop fuel min acc r = Some (acc, None, r).
Proof. intros H. destruct fuel; simpl; by rewrite (proj2 (Nat.leb_le _ _)) by lia. Qed.

Lemma read_loop_spec fuel min acc r :
  (length (chunks r) < fuel)%nat -> (length acc <= min)%nat ->
  exists r', read_err r' = read_err r /\
  if (min <=? length acc + length (pending r))%nat
  then read_loop fuel min acc r = Some (acc ++ take (min - length acc) (pending r), None, r')
       /\ pending r' = drop (min - length acc) (pending r)
  else read_loop fuel min acc r = Some (acc ++ pending r, Some (read_err r), r')
       /\ chunks r' = [].
Proof.
  revert acc r. induction fuel as [|fuel IH]; intros acc r Hf Ha; [lia|].
  destruct (Nat.leb_spec min (length acc)) as [Hm|Hm].
  { exists r. split; [done|]. rewrite read_loop_done by lia.
    rewrite (proj2 (Nat.leb_le _ _)) by lia.
    replace (min - length acc)%nat with 0%nat by lia.
    by rewrite take_0, drop_0, app_nil_r. }
  rewrite read_loop_S, (proj2 (Nat.leb_gt min (length acc))) by lia.
  unfold Read, pending. destruct (chunks r) as [|c cs] eqn:E.
  { exists r. simpl. rewrite (proj2 (Nat.leb_gt _ _)) by lia. done. }
  destruct (Nat.leb_spec (length c) (min - length acc)) as [Hc|Hc].
  - destruct (IH (acc ++ c) (mkReader cs (read_err r))) as (r' & He & Hr').
    { simpl in *. lia. }
    { rewrite length_app. lia. }
    exists r'. split; [done|]. unfold pending in Hr'.
    cbn [chunks read_err concat] in *.
    rewrite length_app, Nat.sub_add_distr, <- !app_assoc in Hr'.
    rewrite length_app, Nat.add_assoc, take_app_ge, drop_app_ge by lia.
    exact Hr'.
  - exists (mkReader (drop (min - length acc) c :: cs) (read_err r)).
    split; [done|]. cbn [chunks concat].
    rewrite length_app. rewrite (proj2 (Nat.leb_le _ _)) by lia.
    rewrite take_app_le, drop_app_le by lia. split; [|done].
    apply read_loop_done. rewrite length_app, length_take. lia.
Qed.

(** [io.ReadFull] returns the first [min] bytes of the stream, however the
    stream is cut into chunks; a shorter stream gives its final error, or
    [io.ErrUnexpectedEOF] when some bytes had been read before [io.EOF]. *)
Lemma ReadFull_spec min r :
  exists r', read_err r' = read_err r /\
  if (min <=? length (pending r))%nat
  then ReadFull min r = (Ret (take min (pending r)), r') /\ pending r' = drop min (pending r)
  else chunks r' = [] /\
       ReadFull min r =
       (Fail (if (0 <? length (pending r))%nat && errors_Is (read_err r) io_EOF
              then ErrNew io_ErrUnexpectedEOF else read_err r), r').
Proof.
  destruct (read_loop_spec (read_fuel min r) min [] r) as (r' & He & Hr');
    [unfold read_fuel; lia|simpl; lia|].
  exists r'. split; [done|]. unfold ReadFull.
  cbn [length Nat.add app] in Hr'. rewrite Nat.sub_0_r in Hr'.
  destruct (Nat.leb_spec min (length (pending r))) as [Hm|Hm].
  - destruct Hr' as [-> Hp]. split; [|done].
    rewrite length_take, (proj2 (Nat.leb_le _ _)) by lia. done.
  - destruct Hr' as [-> Hp]. split; [done|].
    rewrite (proj2 (Nat.leb_gt _ _)) by lia. by destruct (_ && _).
Qed.

(** ** Transitions of stateful calls

    [steps R m]: whatever [m] returns, it takes the state to an [R]-related
    one.  For a preorder [R] the rule for a sequence is transitivity. *)

Definition steps {S A} (R : S -> S -> Prop) (m : M S A) : Prop := forall s, R s (final (m s)).

Create HintDb go_steps.

Section steps.
Context {S : Type} (R : S -> S -> Prop) `{!PreOrder R}.

Lemma steps_ret {A} (a : A) : steps R (mret a).
Proof. intros s. cbn. reflexivity. Qed.

Lemma steps_fail {A} e : steps R (fail (A:=A) e).
Proof. intros s. cbn. reflexivity. Qed.

Lemma steps_throw {A} p : steps R (throw (A:=A) p).
Proof. intros s. cbn. reflexivity. Qed.

Lemma steps_gets {A} (f : S -> A) : steps R (gets f).
Proof. intros s. cbn. reflexivity. Qed.

Lemma steps_bind {A B} (m : M S A) (k : A -> M S B) :
  steps R m -> (forall a, steps R (k a)) -> steps R (m ≫= k).
Proof.
  intros Hm Hk s. unfold mbind, M_bind. specialize (Hm s).
  destruct (m s) as [[a|e|p] s']; cbn in *; [|done..].
  etrans; [exact Hm|]. apply Hk.
Qed.

Lemma steps_wrap_err {A} msg (m : M S A) : steps R m -> steps R (wrap_err msg m).
Proof. intros Hm s. unfold wrap_err. specialize (Hm s). by destruct (m s) as [[] ?]. Qed.

Lemma steps_attempt {A} (m : M S A) : steps R m -> steps R (attempt m).
Proof. intros Hm s. unfold attempt. specialize (Hm s). by destruct (m s) as [[] ?]. Qed.

Lemma steps_attempt_err {A} (m : M S A) : steps R m -> steps R (attempt_err m).
Proof. intros Hm s. unfold attempt_err. specialize (Hm s). by destruct (m s) as [[] ?]. Qed.

Lemma steps_if {A} (b : bool) (m m' : M S A) :
  steps R m -> steps R m' -> steps R (if b then m else m').
Proof. by destruct b. Qed.

Lemma steps_modify f : (forall s, R s (f s)) -> steps R (modify f).
Proof. intros H s. apply H. Qed.
End steps.

Lemma steps_zoom {S T A} (R : S -> S -> Prop) (Q : T -> T -> Prop)
    (view : S -> T) (upd : T -> S -> S) (m : M T A) :
  steps Q m -> (forall s t, Q (view s) t -> R s (upd t s)) -> steps R (zoom view upd m).
Proof.
  intros Hm HR s. unfold zoom. specialize (Hm (view s)).
  destruct (m (view s)) as [r t]. by apply HR.
Qed.

#[export] Hint Resolve steps_ret steps_fail steps_throw steps_gets steps_bind steps_wrap_err
  steps_attempt steps_attempt_err steps_if steps_modify : go_steps.
