(* ===== verification/House.v ===== *)
(** * House vocabulary

    The identifiers the configuration, the router and the storage paths use:
    floors, rooms, sensor types, actuator types and units
    ([src/sensor-server/house_*.go]).  Each is a [uint8]; a Go map from or to
    them is the list of its entries in source order, and [assoc] is the map
    lookup. *)

From S2P Require Import Prelude GoRuntime.
From stdpp Require Import pretty.
Open Scope Z_scope.

Abbreviation FloorType := Z.
Abbreviation RoomType := Z.
Abbreviation SensorType := Z.
Abbreviation ActuatorType := Z.
Abbreviation UnitType := Z.

(** Lookup in a Go map literal. *)
Fixpoint assoc {K V} `{EqDecision K} (m : list (K * V)) (k : K) : option V :=
  match m with
  | [] => None
  | (k', v) :: m => if decide (k = k') then Some v else assoc m k
  end.

(** ** Floors *)

Definition FLOOR_BASEMENT : FloorType := 0.
Definition FLOOR_FIRST : FloorType := 1.
Definition FLOOR_SECOND : FloorType := 2.
Definition FLOOR_THIRD : FloorType := 3.
Definition FLOOR_COUNT : FloorType := 4.
Definition FLOOR_INVALID : FloorType := 255.

(** [src/sensor-server/house_floor.go:14-19] floorTypeNames *)
Definition floorTypeNames : list (FloorType * string) :=
  [ (FLOOR_BASEMENT, "basement"%string)
  ; (FLOOR_FIRST, "first"%string)
  ; (FLOOR_SECOND, "second"%string)
  ; (FLOOR_THIRD, "third"%string) ].

(** [src/sensor-server/house_floor.go:21-26] floorNameToType *)
Definition floorNameToType : list (string * FloorType) :=
  [ ("basement"%string, FLOOR_BASEMENT)
  ; ("first"%string, FLOOR_FIRST)
  ; ("second"%string, FLOOR_SECOND)
  ; ("third"%string, FLOOR_THIRD) ].

(** [src/sensor-server/house_floor.go:28-33] FloorType.String *)
Definition FloorType_String (f : FloorType) : string :=
  match assoc floorTypeNames f with
  | Some name => name
  | None => "unknown"
  end.

(** [src/sensor-server/house_floor.go:35-40] FloorTypeFromString *)
Definition FloorTypeFromString (s : string) : FloorType :=
  match assoc floorNameToType s with
  | Some floorType => floorType
  | None => FLOOR_INVALID
  end.

(** ** Rooms *)

Definition ROOM_LIVING : RoomType := 0.
Definition ROOM_DINING : RoomType := 1.
Definition ROOM_KITCHEN : RoomType := 2.
Definition ROOM_BATHROOM : RoomType := 3.
Definition ROOM_BEDROOM : RoomType := 4.
Definition ROOM_STAIRCASE : RoomType := 5.
Definition ROOM_ENTRANCE : RoomType := 6.
Definition ROOM_COUNT : RoomType := 7.
Definition ROOM_INVALID : RoomType := 255.
Definition ROOM_STUDYROOM : RoomType := ROOM_BEDROOM.
Definition ROOM_MASTER_BEDROOM : RoomType := ROOM_LIVING.
Definition TOTAL_ROOMS : Z := ROOM_COUNT * FLOOR_COUNT.

(** [src/sensor-server/house_room.go:29-37] roomTypeNames *)
Definition roomTypeNames : list (RoomType * string) :=
  [ (ROOM_LIVING, "living"%string)
  ; (ROOM_DINING, "dining"%string)
  ; (ROOM_KITCHEN, "kitchen"%string)
  ; (ROOM_BATHROOM, "bathroom"%string)
  ; (ROOM_BEDROOM, "bedroom"%string)
  ; (ROOM_STAIRCASE, "staircase"%string)
  ; (ROOM_ENTRANCE, "entrance"%string) ].

(** [src/sensor-server/house_room.go:39-52] roomNameToType *)
Definition roomNameToType : list (string * RoomType) :=
  [ ("living"%string, ROOM_LIVING)
  ; ("dining"%string, ROOM_DINING)
  ; ("kitchen"%string, ROOM_KITCHEN)
  ; ("bathroom"%string, ROOM_BATHROOM)
  ; ("bedroom"%string, ROOM_BEDROOM)
  ; ("studyroom"%string, ROOM_STUDYROOM)
  ; ("master_bedroom"%string, ROOM_MASTER_BEDROOM)
  ; ("staircase"%string, ROOM_STAIRCASE)
  ; ("entrance"%string, ROOM_ENTRANCE)
  ; ("storage"%string, ROOM_DINING)
  ; ("backroom"%string, ROOM_KITCHEN) ].

(** [src/sensor-server/house_room.go:54-59] RoomType.String *)
Definition RoomType_String (r : RoomType) : string :=
  match assoc roomTypeNames r with
  | Some name => name
  | None => "unknown"
  end.

(** [src/sensor-server/house_room.go:61-66] RoomTypeFromString *)
Definition RoomTypeFromString (s : string) : RoomType :=
  match assoc roomNameToType s with
  | Some roomType => roomType
  | None => ROOM_INVALID
  end.

(** ** Sensors *)

Definition SENSOR_ID_UNKNOWN : SensorType := 0.
Definition SENSOR_ID_TEMPERATURE : SensorType := 1.
Definition SENSOR_ID_HUMIDITY : SensorType := 2.
Definition SENSOR_ID_PRESSURE : SensorType := 3.
Definition SENSOR_ID_LIGHT : SensorType := 4.
Definition SENSOR_ID_UV : SensorType := 5.
Definition SENSOR_ID_CO : SensorType := 6.
Definition SENSOR_ID_CO2 : SensorType := 7.
Definition SENSOR_ID_HCHO : SensorType := 8.
Definition SENSOR_ID_VOC : SensorType := 9.
Definition SENSOR_ID_NOX : SensorType := 10.
Definition SENSOR_ID_PM005 : SensorType := 11.
Definition SENSOR_ID_PM010 : SensorType := 12.
Definition SENSOR_ID_PM025 : SensorType := 13.
Definition SENSOR_ID_PM040 : SensorType := 14.
Definition SENSOR_ID_PM100 : SensorType := 15.
Definition SENSOR_ID_SOUND : SensorType := 16.
Definition SENSOR_ID_BINARY : SensorType := 17.
Definition SENSOR_ID_AMPLITUDE : SensorType := 18.
Definition SENSOR_ID_DURATION : SensorType := 19.
Definition SENSOR_ID_FREQUENCY : SensorType := 20.
Definition SENSOR_ID_BATTERY : SensorType := 21.
Definition SENSOR_ID_VOLTAGE : SensorType := 22.
Definition SENSOR_ID_CURRENT : SensorType := 23.
Definition SENSOR_ID_POWER : SensorType := 24.
Definition SENSOR_ID_ENERGY : SensorType := 25.
Definition SENSOR_ID_GAS_M3 : SensorType := 26.
Definition SENSOR_ID_WATER_M3 : SensorType := 27.
Definition SENSOR_ID_kWAh : SensorType := 28.

(** [src/sensor-server/house_sensors.go:39-44] ToSensorType *)
Definition ToSensorType (id : Z) : SensorType :=
  if SENSOR_ID_kWAh <? id then SENSOR_ID_UNKNOWN else u8 id.

(** [src/sensor-server/house_sensors.go:46-49] SensorTypeValueRange *)
Record SensorTypeValueRange : Set := mkRange { Min : Z; Max : Z }.

(** [src/sensor-server/house_sensors.go:51-81] SensorTypeValueRanges *)
Definition SensorTypeValueRanges : list (SensorType * SensorTypeValueRange) :=
  [ (SENSOR_ID_UNKNOWN, mkRange (-32768) (32767))
  ; (SENSOR_ID_TEMPERATURE, mkRange (-400) (1250))
  ; (SENSOR_ID_HUMIDITY, mkRange (0) (100))
  ; (SENSOR_ID_PRESSURE, mkRange (30000) (110000))
  ; (SENSOR_ID_LIGHT, mkRange (0) (100000))
  ; (SENSOR_ID_UV, mkRange (0) (15))
  ; (SENSOR_ID_CO, mkRange (0) (10000))
  ; (SENSOR_ID_CO2, mkRange (400) (5000))
  ; (SENSOR_ID_HCHO, mkRange (0) (1000))
  ; (SENSOR_ID_VOC, mkRange (0) (10000))
  ; (SENSOR_ID_NOX, mkRange (0) (10000))
  ; (SENSOR_ID_PM005, mkRange (0) (250))
  ; (SENSOR_ID_PM010, mkRange (0) (500))
  ; (SENSOR_ID_PM025, mkRange (0) (500))
  ; (SENSOR_ID_PM040, mkRange (0) (500))
  ; (SENSOR_ID_PM100, mkRange (0) (1000))
  ; (SENSOR_ID_SOUND, mkRange (0) (130))
  ; (SENSOR_ID_BINARY, mkRange (0) (1))
  ; (SENSOR_ID_AMPLITUDE, mkRange (0) (100))
  ; (SENSOR_ID_DURATION, mkRange (0) (3600000))
  ; (SENSOR_ID_FREQUENCY, mkRange (0) (1000000))
  ; (SENSOR_ID_BATTERY, mkRange (0) (100))
  ; (SENSOR_ID_VOLTAGE, mkRange (0) (5000))
  ; (SENSOR_ID_CURRENT, mkRange (-2000) (2000))
  ; (SENSOR_ID_POWER, mkRange (-100000) (100000))
  ; (SENSOR_ID_ENERGY, mkRange (0) (16000000))
  ; (SENSOR_ID_GAS_M3, mkRange (0) (16000000))
  ; (SENSOR_ID_WATER_M3, mkRange (0) (16000000))
  ; (SENSOR_ID_kWAh, mkRange (0) (16000000)) ].

(** [src/sensor-server/house_sensors.go:83-113] SensorTypeNames *)
Definition SensorTypeNames : list (SensorType * string) :=
  [ (SENSOR_ID_UNKNOWN, "Unknown"%string)
  ; (SENSOR_ID_TEMPERATURE, "Temperature"%string)
  ; (SENSOR_ID_HUMIDITY, "Humidity"%string)
  ; (SENSOR_ID_PRESSURE, "Pressure"%string)
  ; (SENSOR_ID_LIGHT, "Light"%string)
  ; (SENSOR_ID_UV, "UV"%string)
  ; (SENSOR_ID_CO, "Carbon Monoxide"%string)
  ; (SENSOR_ID_CO2, "Carbon Dioxide"%string)
  ; (SENSOR_ID_HCHO, "Formaldehyde"%string)
  ; (SENSOR_ID_VOC, "Volatile Organic Compounds"%string)
  ; (SENSOR_ID_NOX, "Nitrogen Oxides"%string)
  ; (SENSOR_ID_PM005, "Particulate Matter 0.5"%string)
  ; (SENSOR_ID_PM010, "Particulate Matter 1.0"%string)
  ; (SENSOR_ID_PM025, "Particulate Matter 2.5"%string)
  ; (SENSOR_ID_PM040, "Particulate Matter 4.0"%string)
  ; (SENSOR_ID_PM100, "Particulate Matter 10.0"%string)
  ; (SENSOR_ID_SOUND, "Noise/Sound Level"%string)
  ; (SENSOR_ID_BINARY, "On/Off"%string)
  ; (SENSOR_ID_AMPLITUDE, "Amplitude"%string)
  ; (SENSOR_ID_DURATION, "Duration"%string)
  ; (SENSOR_ID_FREQUENCY, "Frequency"%string)
  ; (SENSOR_ID_BATTERY, "Battery"%string)
  ; (SENSOR_ID_VOLTAGE, "Voltage"%string)
  ; (SENSOR_ID_CURRENT, "Current"%string)
  ; (SENSOR_ID_POWER, "Power"%string)
  ; (SENSOR_ID_ENERGY, "Energy"%string)
  ; (SENSOR_ID_GAS_M3, "Gas Meter"%string)
  ; (SENSOR_ID_WATER_M3, "Water Meter"%string)
  ; (SENSOR_ID_kWAh, "Electric Meter"%string) ].

(** [src/sensor-server/house_sensors.go:115-121] SensorType.String *)
Definition SensorType_String (sensorType : SensorType) : string :=
  match assoc SensorTypeNames sensorType with
  | Some name => name
  | None => "Unknown(" +:+ pretty sensorType +:+ ")"
  end.

(** [src/sensor-server/house_sensors.go:123-153] SensorNameToSensorType *)
Definition SensorNameToSensorType : list (string * SensorType) :=
  [ ("unknown"%string, SENSOR_ID_UNKNOWN)
  ; ("temperature"%string, SENSOR_ID_TEMPERATURE)
  ; ("humidity"%string, SENSOR_ID_HUMIDITY)
  ; ("pressure"%string, SENSOR_ID_PRESSURE)
  ; ("light"%string, SENSOR_ID_LIGHT)
  ; ("uv"%string, SENSOR_ID_UV)
  ; ("carbon monoxide"%string, SENSOR_ID_CO)
  ; ("carbon dioxide"%string, SENSOR_ID_CO2)
  ; ("formaldehyde"%string, SENSOR_ID_HCHO)
  ; ("volatile organic compounds"%string, SENSOR_ID_VOC)
  ; ("nitrogen oxides"%string, SENSOR_ID_NOX)
  ; ("particulate matter 0.5"%string, SENSOR_ID_PM005)
  ; ("particulate matter 1.0"%string, SENSOR_ID_PM010)
  ; ("particulate matter 2.5"%string, SENSOR_ID_PM025)
  ; ("particulate matter 4.0"%string, SENSOR_ID_PM040)
  ; ("particulate matter 10.0"%string, SENSOR_ID_PM100)
  ; ("sound"%string, SENSOR_ID_SOUND)
  ; ("binary"%string, SENSOR_ID_BINARY)
  ; ("amplitude"%string, SENSOR_ID_AMPLITUDE)
  ; ("duration"%string, SENSOR_ID_DURATION)
  ; ("frequency"%string, SENSOR_ID_FREQUENCY)
  ; ("battery"%string, SENSOR_ID_BATTERY)
  ; ("voltage"%string, SENSOR_ID_VOLTAGE)
  ; ("current"%string, SENSOR_ID_CURRENT)
  ; ("power"%string, SENSOR_ID_POWER)
  ; ("energy"%string, SENSOR_ID_ENERGY)
  ; ("gas meter"%string, SENSOR_ID_GAS_M3)
  ; ("water meter"%string, SENSOR_ID_WATER_M3)
  ; ("electric meter"%string, SENSOR_ID_kWAh) ].

(** ** Actuators *)

Definition ACTUATOR_ID_UNKNOWN : ActuatorType := 0.
Definition ACTUATOR_ID_1 : ActuatorType := 1.
Definition ACTUATOR_ID_2 : ActuatorType := 2.
Definition ACTUATOR_ID_3 : ActuatorType := 3.
Definition ACTUATOR_ID_4 : ActuatorType := 4.
Definition ACTUATOR_ID_5 : ActuatorType := 5.
Definition ACTUATOR_ID_6 : ActuatorType := 6.
Definition ACTUATOR_ID_7 : ActuatorType := 7.
Definition ACTUATOR_ID_8 : ActuatorType := 8.
Definition ACTUATOR_ID_9 : ActuatorType := 9.
Definition ACTUATOR_ID_10 : ActuatorType := 10.
Definition ACTUATOR_ID_MAX : ActuatorType := 11.

(** [src/sensor-server/house_actuators.go:41-46] ToActuatorType *)
Definition ToActuatorType (id : Z) : ActuatorType :=
  if ACTUATOR_ID_MAX <=? id then ACTUATOR_ID_UNKNOWN else id.

(** [src/sensor-server/house_actuators.go:48-60] ActuatorTypeNames *)
Definition ActuatorTypeNames : list (ActuatorType * string) :=
  [ (ACTUATOR_ID_UNKNOWN, "Unknown"%string)
  ; (ACTUATOR_ID_1, "Actuator1"%string)
  ; (ACTUATOR_ID_2, "Actuator2"%string)
  ; (ACTUATOR_ID_3, "Actuator3"%string)
  ; (ACTUATOR_ID_4, "Actuator4"%string)
  ; (ACTUATOR_ID_5, "Actuator5"%string)
  ; (ACTUATOR_ID_6, "Actuator6"%string)
  ; (ACTUATOR_ID_7, "Actuator7"%string)
  ; (ACTUATOR_ID_8, "Actuator8"%string)
  ; (ACTUATOR_ID_9, "Actuator9"%string)
  ; (ACTUATOR_ID_10, "Actuator10"%string) ].

(** [src/sensor-server/house_actuators.go:62-68] ActuatorType.String *)
Definition ActuatorType_String (actuatorType : ActuatorType) : string :=
  match assoc ActuatorTypeNames actuatorType with
  | Some name => name
  | None => "Unknown(" +:+ pretty actuatorType +:+ ")"
  end.

(** [src/sensor-server/house_actuators.go:70-82] ActuatorNameToActuatorType *)
Definition ActuatorNameToActuatorType : list (string * ActuatorType) :=
  [ ("Unknown"%string, ACTUATOR_ID_UNKNOWN)
  ; ("Actuator1"%string, ACTUATOR_ID_1)
  ; ("Actuator2"%string, ACTUATOR_ID_2)
  ; ("Actuator3"%string, ACTUATOR_ID_3)
  ; ("Actuator4"%string, ACTUATOR_ID_4)
  ; ("Actuator5"%string, ACTUATOR_ID_5)
  ; ("Actuator6"%string, ACTUATOR_ID_6)
  ; ("Actuator7"%string, ACTUATOR_ID_7)
  ; ("Actuator8"%string, ACTUATOR_ID_8)
  ; ("Actuator9"%string, ACTUATOR_ID_9)
  ; ("Actuator10"%string, ACTUATOR_ID_10) ].

(** ** Units *)

Definition UTemperature : UnitType := 0.
Definition UCelcius : UnitType := 1.
Definition UFahrenheit : UnitType := 2.
Definition UKelvin : UnitType := 3.
Definition UPressure : UnitType := 6.
Definition UBar : UnitType := 7.
Definition UPascal : UnitType := 8.
Definition UAtmosphere : UnitType := 9.
Definition UHumidity : UnitType := 13.
Definition UVelocity : UnitType := 17.
Definition UKilometersPerHour : UnitType := 18.
Definition UMilesPerHour : UnitType := 19.
Definition UAcceleration : UnitType := 20.
Definition UGForce : UnitType := 21.
Definition UPpm : UnitType := 25.
Definition UPpb : UnitType := 26.
Definition UPercent : UnitType := 27.
Definition UKilograms : UnitType := 30.
Definition UGrams : UnitType := 31.
Definition UMilligrams : UnitType := 32.
Definition UMicrograms : UnitType := 33.
Definition UTons : UnitType := 34.
Definition UPounds : UnitType := 35.
Definition UOunces : UnitType := 36.
Definition UKilometers : UnitType := 40.
Definition UMeters : UnitType := 41.
Definition UCentimeters : UnitType := 42.
Definition UMillimeters : UnitType := 43.
Definition UMiles : UnitType := 44.
Definition UFeet : UnitType := 45.
Definition UInches : UnitType := 46.
Definition UHours : UnitType := 50.
Definition UMinutes : UnitType := 51.
Definition USeconds : UnitType := 52.
Definition UMilliseconds : UnitType := 53.
Definition UMicroseconds : UnitType := 54.
Definition UNanoseconds : UnitType := 55.
Definition ULiters : UnitType := 59.
Definition UMilliliters : UnitType := 60.
Definition UCubicMeters : UnitType := 61.
Definition UGallons : UnitType := 62.
Definition UJoules : UnitType := 66.
Definition UKiloJoules : UnitType := 67.
Definition UWatts : UnitType := 68.
Definition UKiloWatts : UnitType := 69.
Definition UMegaWatts : UnitType := 70.
Definition UKiloWattHour : UnitType := 71.
Definition UBytes : UnitType := 75.
Definition UKiloBytes : UnitType := 76.
Definition UMegaBytes : UnitType := 77.
Definition UGigaBytes : UnitType := 78.
Definition UTeraBytes : UnitType := 79.
Definition UVolt : UnitType := 83.
Definition UMilliVolt : UnitType := 84.
Definition UAmpere : UnitType := 85.
Definition UMilliAmpere : UnitType := 86.
Definition UOhm : UnitType := 87.
Definition UFarad : UnitType := 88.
Definition UHenry : UnitType := 89.
Definition UdBm : UnitType := 90.
Definition UHertz : UnitType := 93.
Definition UKiloHertz : UnitType := 94.
Definition UMegaHertz : UnitType := 95.
Definition UGigaHertz : UnitType := 96.
Definition UDegrees : UnitType := 100.
Definition URadians : UnitType := 101.
Definition UOnOff : UnitType := 105.
Definition UOpenClose : UnitType := 106.
Definition UTrueFalse : UnitType := 107.
Definition UActiveInactive : UnitType := 108.
Definition UEnabledDisabled : UnitType := 109.
Definition UStartStop : UnitType := 110.
Definition UAlarmNormal : UnitType := 111.
Definition UFaultNormal : UnitType := 112.
Definition UPresentAbsent : UnitType := 113.
Definition UDetectedNotDetected : UnitType := 114.
Definition UDecibels : UnitType := 116.
Definition ULux : UnitType := 120.
Definition UUvIndex : UnitType := 121.
Definition Uugm3 : UnitType := 125.
Definition Umgm3 : UnitType := 126.
Definition UUnknown : UnitType := 255.

(** [src/sensor-server/house_units.go:126-156] SensorTypeUnits *)
Definition SensorTypeUnits : list (SensorType * UnitType) :=
  [ (SENSOR_ID_UNKNOWN, UUnknown)
  ; (SENSOR_ID_TEMPERATURE, UTemperature)
  ; (SENSOR_ID_HUMIDITY, UHumidity)
  ; (SENSOR_ID_PRESSURE, UPressure)
  ; (SENSOR_ID_LIGHT, ULux)
  ; (SENSOR_ID_UV, UUvIndex)
  ; (SENSOR_ID_CO, UPpm)
  ; (SENSOR_ID_CO2, UPpm)
  ; (SENSOR_ID_HCHO, UPpm)
  ; (SENSOR_ID_VOC, UPpm)
  ; (SENSOR_ID_NOX, UPpm)
  ; (SENSOR_ID_PM005, Uugm3)
  ; (SENSOR_ID_PM010, Uugm3)
  ; (SENSOR_ID_PM025, Uugm3)
  ; (SENSOR_ID_PM040, Uugm3)
  ; (SENSOR_ID_PM100, Uugm3)
  ; (SENSOR_ID_SOUND, UDecibels)
  ; (SENSOR_ID_BINARY, UOnOff)
  ; (SENSOR_ID_AMPLITUDE, UPercent)
  ; (SENSOR_ID_DURATION, UMilliseconds)
  ; (SENSOR_ID_FREQUENCY, UHertz)
  ; (SENSOR_ID_BATTERY, UPercent)
  ; (SENSOR_ID_VOLTAGE, UVolt)
  ; (SENSOR_ID_CURRENT, UAmpere)
  ; (SENSOR_ID_POWER, UKiloWatts)
  ; (SENSOR_ID_ENERGY, UKiloWattHour)
  ; (SENSOR_ID_GAS_M3, UCubicMeters)
  ; (SENSOR_ID_WATER_M3, UCubicMeters)
  ; (SENSOR_ID_kWAh, UKiloWattHour) ].

(** [src/sensor-server/house_units.go:179-298] UnitTypeToSymbolString *)
Definition UnitTypeToSymbolString : list (UnitType * string) :=
  [ (UTemperature, "°C"%string)
  ; (UCelcius, "°C"%string)
  ; (UFahrenheit, "°F"%string)
  ; (UKelvin, "K"%string)
  ; (UPressure, "Pa"%string)
  ; (UBar, "bar"%string)
  ; (UPascal, "Pa"%string)
  ; (UAtmosphere, "atm"%string)
  ; (UHumidity, "%"%string)
  ; (UVelocity, "m/s"%string)
  ; (UKilometersPerHour, "km/h"%string)
  ; (UMilesPerHour, "mph"%string)
  ; (UAcceleration, "m/s²"%string)
  ; (UGForce, "g"%string)
  ; (UPpm, "ppm"%string)
  ; (UPpb, "ppb"%string)
  ; (UPercent, "%"%string)
  ; (UKilograms, "kg"%string)
  ; (UGrams, "g"%string)
  ; (UMilligrams, "mg"%string)
  ; (UMicrograms, "µg"%string)
  ; (UTons, "t"%string)
  ; (UPounds, "lb"%string)
  ; (UOunces, "oz"%string)
  ; (UKilometers, "km"%string)
  ; (UMeters, "m"%string)
  ; (UCentimeters, "cm"%string)
  ; (UMillimeters, "mm"%string)
  ; (UMiles, "mi"%string)
  ; (UFeet, "ft"%string)
  ; (UInches, "in"%string)
  ; (UHours, "h"%string)
  ; (UMinutes, "min"%string)
  ; (USeconds, "s"%string)
  ; (UMilliseconds, "ms"%string)
  ; (UMicroseconds, "µs"%string)
  ; (UNanoseconds, "ns"%string)
  ; (ULiters, "L"%string)
  ; (UMilliliters, "mL"%string)
  ; (UCubicMeters, "m³"%string)
  ; (UGallons, "gal"%string)
  ; (UJoules, "J"%string)
  ; (UKiloJoules, "kJ"%string)
  ; (UWatts, "W"%string)
  ; (UKiloWatts, "kW"%string)
  ; (UMegaWatts, "MW"%string)
  ; (UKiloWattHour, "kWh"%string)
  ; (UBytes, "B"%string)
  ; (UKiloBytes, "kB"%string)
  ; (UMegaBytes, "MB"%string)
  ; (UGigaBytes, "GB"%string)
  ; (UTeraBytes, "TB"%string)
  ; (UVolt, "V"%string)
  ; (UMilliVolt, "mV"%string)
  ; (UAmpere, "A"%string)
  ; (UMilliAmpere, "mA"%string)
  ; (UOhm, "Ω"%string)
  ; (UFarad, "F"%string)
  ; (UHenry, "H"%string)
  ; (UdBm, "dBm"%string)
  ; (UHertz, "Hz"%string)
  ; (UKiloHertz, "kHz"%string)
  ; (UMegaHertz, "MHz"%string)
  ; (UGigaHertz, "GHz"%string)
  ; (UDegrees, "°"%string)
  ; (URadians, "rad"%string)
  ; (UOnOff, "On/Off"%string)
  ; (UOpenClose, "Open/Close"%string)
  ; (UTrueFalse, "True/False"%string)
  ; (UActiveInactive, "Active/Inactive"%string)
  ; (UEnabledDisabled, "Enabled/Disabled"%string)
  ; (UStartStop, "Start/Stop"%string)
  ; (UAlarmNormal, "Alarm/Normal"%string)
  ; (UFaultNormal, "Fault/Normal"%string)
  ; (UPresentAbsent, "Present/Absent"%string)
  ; (UDetectedNotDetected, "Detected/Not Detected"%string)
  ; (UDecibels, "dB"%string)
  ; (ULux, "lx"%string)
  ; (UUvIndex, "UV Index"%string)
  ; (Uugm3, "µg/m³"%string)
  ; (Umgm3, "mg/m³"%string)
  ; (UUnknown, "?"%string) ].

(** [src/sensor-server/house_units.go:300-382] UnitTypeToString *)
Definition UnitTypeToString : list (UnitType * string) :=
  [ (UTemperature, "Temperature"%string)
  ; (UCelcius, "Celsius"%string)
  ; (UFahrenheit, "Fahrenheit"%string)
  ; (UKelvin, "Kelvin"%string)
  ; (UPressure, "Pressure"%string)
  ; (UBar, "Bar"%string)
  ; (UPascal, "Pascal"%string)
  ; (UAtmosphere, "Atmosphere"%string)
  ; (UHumidity, "Humidity"%string)
  ; (UVelocity, "Velocity"%string)
  ; (UKilometersPerHour, "Kilometers per Hour"%string)
  ; (UMilesPerHour, "Miles per Hour"%string)
  ; (UAcceleration, "Acceleration"%string)
  ; (UGForce, "G-Force"%string)
  ; (UPpm, "Parts per Million (PPM)"%string)
  ; (UPpb, "Parts per Billion (PPB)"%string)
  ; (UPercent, "Percent (%)"%string)
  ; (UKilograms, "Kilograms (kg)"%string)
  ; (UGrams, "Grams (g)"%string)
  ; (UMilligrams, "Milligrams (mg)"%string)
  ; (UMicrograms, "Micrograms (µg)"%string)
  ; (UTons, "Tons (t)"%string)
  ; (UPounds, "Pounds (lb)"%string)
  ; (UOunces, "Ounces (oz)"%string)
  ; (UKilometers, "Kilometers (km)"%string)
  ; (UMeters, "Meters (m)"%string)
  ; (UCentimeters, "Centimeters (cm)"%string)
  ; (UMillimeters, "Millimeters (mm)"%string)
  ; (UMiles, "Miles (mi)"%string)
  ; (UFeet, "Feet (ft)"%string)
  ; (UInches, "Inches (in)"%string)
  ; (UHours, "Hours (h)"%string)
  ; (UMinutes, "Minutes (min)"%string)
  ; (USeconds, "Seconds (s)"%string)
  ; (UMilliseconds, "Milliseconds (ms)"%string)
  ; (UMicroseconds, "Microseconds (µs)"%string)
  ; (UNanoseconds, "Nanoseconds (ns)"%string)
  ; (ULiters, "Liters (L)"%string)
  ; (UMilliliters, "Milliliters (mL)"%string)
  ; (UCubicMeters, "Cubic Meters (m³)"%string)
  ; (UGallons, "Gallons (gal)"%string)
  ; (UJoules, "Joules (J)"%string)
  ; (UKiloJoules, "Kilojoules (kJ)"%string)
  ; (UWatts, "Watts (W)"%string)
  ; (UKiloWatts, "Kilowatts (kW)"%string)
  ; (UMegaWatts, "Megawatts (MW)"%string)
  ; (UKiloWattHour, "Kilowatt-hour (kWh)"%string)
  ; (UBytes, "Bytes (B)"%string)
  ; (UKiloBytes, "Kilobytes (KB)"%string)
  ; (UMegaBytes, "Megabytes (MB)"%string)
  ; (UGigaBytes, "Gigabytes (GB)"%string)
  ; (UTeraBytes, "Terabytes (TB)"%string)
  ; (UVolt, "Volts (V)"%string)
  ; (UMilliVolt, "Millivolts (mV)"%string)
  ; (UAmpere, "Amperes (A)"%string)
  ; (UMilliAmpere, "Milliamperes (mA)"%string)
  ; (UOhm, "Ohms (Ω)"%string)
  ; (UFarad, "Farads (F)"%string)
  ; (UHenry, "Henrys (H)"%string)
  ; (UdBm, "Decibel-milliwatts (dBm)"%string)
  ; (UHertz, "Hertz (Hz)"%string)
  ; (UKiloHertz, "Kilohertz (kHz)"%string)
  ; (UMegaHertz, "Megahertz (MHz)"%string)
  ; (UGigaHertz, "Gigahertz (GHz)"%string)
  ; (UDegrees, "Degrees (°)"%string)
  ; (URadians, "Radians (rad)"%string)
  ; (UOnOff, "On/Off"%string)
  ; (UOpenClose, "Open/Close"%string)
  ; (UTrueFalse, "True/False"%string)
  ; (UActiveInactive, "Active/Inactive"%string)
  ; (UEnabledDisabled, "Enabled/Disabled"%string)
  ; (UStartStop, "Start/Stop"%string)
  ; (UAlarmNormal, "Alarm/Normal"%string)
  ; (UFaultNormal, "Fault/Normal"%string)
  ; (UPresentAbsent, "Present/Absent"%string)
  ; (UDetectedNotDetected, "Detected/Not Detected"%string)
  ; (UDecibels, "Decibels (dB)"%string)
  ; (ULux, "Lux (lx)"%string)
  ; (UUvIndex, "UV Index"%string)
  ; (Uugm3, "Micrograms per Cubic Meter (µg/m³)"%string)
  ; (Umgm3, "Milligrams per Cubic Meter (mg/m³)"%string) ].

(** [src/sensor-server/house_units.go:158-163] UnitForSensorType *)
Definition UnitForSensorType (sensorType : SensorType) : UnitType :=
  match assoc SensorTypeUnits sensorType with
  | Some unit => unit
  | None => UUnknown
  end.

(** [src/sensor-server/house_units.go:165-170] UnitType.String *)
Definition UnitType_String (u : UnitType) : string :=
  match assoc UnitTypeToString u with
  | Some name => name
  | None => "Unknown"
  end.

(** [src/sensor-server/house_units.go:172-177] UnitType.Symbol *)
Definition UnitType_Symbol (u : UnitType) : string :=
  match assoc UnitTypeToSymbolString u with
  | Some symbol => symbol
  | None => "?"
  end.
(** ** Lemmas on map literals *)

Section assoc.
Context {K V : Type} `{EqDecision K}.
Implicit Types m : list (K * V).

Lemma assoc_elem_of m k v : assoc m k = Some v -> (k, v) ∈ m.
Proof.
  induction m as [|[k' v'] m IH]; simpl; [done|].
  case_decide; intros; simplify_eq; [left|right; auto].
Qed.

Lemma elem_of_assoc m k v : NoDup m.*1 -> (k, v) ∈ m -> assoc m k = Some v.
Proof.
  induction m as [|[k' v'] m IH]; simpl; [by rewrite elem_of_nil|].
  rewrite NoDup_cons. intros [Hk Hnd] [?|Hin]%elem_of_cons; simplify_eq.
  - by rewrite decide_True.
  - rewrite decide_False; [auto|]. intros ->. apply Hk.
    apply list_elem_of_fmap. by exists (k', v).
Qed.

(** A Go map is unordered: any ordering of the entries gives the same
    lookups. *)
Lemma assoc_permutation m m' k : NoDup m.*1 -> m ≡ₚ m' -> assoc m k = assoc m' k.
Proof.
  intros Hnd Hp. apply option_eq. intros v.
  assert (NoDup m'.*1) by (by rewrite <- Hp).
  split; intros Ha%assoc_elem_of; apply elem_of_assoc; try done.
  - by rewrite <- Hp.
  - by rewrite Hp.
Qed.

Lemma assoc_forall m (P : K -> V -> Prop) k v :
  Forall (fun kv => P kv.1 kv.2) m -> assoc m k = Some v -> P k v.
Proof. intros HP Ha%assoc_elem_of. rewrite Forall_forall in HP. exact (HP _ Ha). Qed.

Lemma assoc_None_elem_of m k v : NoDup m.*1 -> assoc m k = None -> (k, v) ∉ m.
Proof. intros Hnd Ha Hin. apply elem_of_assoc in Hin; congruence. Qed.
End assoc.

(** ** The tables *)

Lemma SensorTypeNames_keys : NoDup SensorTypeNames.*1.
Proof. apply (bool_decide_unpack _). by vm_compute. Qed.

Lemma UnitTypeToString_keys : NoDup UnitTypeToString.*1.
Proof. apply (bool_decide_unpack _). by vm_compute. Qed.

Lemma UnitTypeToString_names : NoDup UnitTypeToString.*2.
Proof. apply (bool_decide_unpack _). by vm_compute. Qed.

Lemma SensorTypeNames_names : NoDup SensorTypeNames.*2.
Proof. apply (bool_decide_unpack _). by vm_compute. Qed.

Lemma ToSensorType_range id : 0 <= id -> 0 <= ToSensorType id <= SENSOR_ID_kWAh.
Proof.
  unfold ToSensorType, SENSOR_ID_UNKNOWN, SENSOR_ID_kWAh. intros.
  destruct (Z.ltb_spec 28 id); [lia|]. rewrite wrapu_small; lia.
Qed.

Lemma ToSensorType_id id : 0 <= id <= SENSOR_ID_kWAh -> ToSensorType id = id.
Proof.
  unfold ToSensorType, SENSOR_ID_kWAh. intros.
  destruct (Z.ltb_spec 28 id); [lia|]. rewrite wrapu_small; lia.
Qed.

Lemma ToSensorType_unknown id : SENSOR_ID_kWAh < id -> ToSensorType id = SENSOR_ID_UNKNOWN.
Proof. unfold ToSensorType. intros. by rewrite (proj2 (Z.ltb_lt _ _)). Qed.

(** The sensor types [0..28] as a list, to check a table row by row. *)
Lemma sensor_type_cases (P : SensorType -> Prop) :
  Forall P (seqZ 0 29) -> forall s, 0 <= s <= SENSOR_ID_kWAh -> P s.
Proof.
  rewrite Forall_forall. unfold SENSOR_ID_kWAh. intros HP s Hs.
  apply HP. apply elem_of_seqZ. lia.
Qed.

Lemma FloorTypeFromString_elem s :
  FloorTypeFromString s <> FLOOR_INVALID -> (s, FloorTypeFromString s) ∈ floorNameToType.
Proof.
  unfold FloorTypeFromString. destruct (assoc floorNameToType s) as [f|] eqn:E; [|done].
  intros _. by apply assoc_elem_of.
Qed.

Lemma RoomTypeFromString_elem s :
  RoomTypeFromString s <> ROOM_INVALID -> (s, RoomTypeFromString s) ∈ roomNameToType.
Proof.
  unfold RoomTypeFromString. destruct (assoc roomNameToType s) as [r|] eqn:E; [|done].
  intros _. by apply assoc_elem_of.
Qed.

(** Floor and room names are canonical identifiers: a floor name that
    the configuration accepts is the name printed for its floor, a room name
    (aliases included) resolves to a room whose printed name resolves to the
    same room, and the accepted floors and rooms are within [FLOOR_COUNT] and
    [ROOM_COUNT]. *)
Theorem location_names_canonical :
  (forall s, FloorTypeFromString s <> FLOOR_INVALID ->
     FloorType_String (FloorTypeFromString s) = s
     /\ 0 <= FloorTypeFromString s < FLOOR_COUNT) /\
  (forall s, RoomTypeFromString s <> ROOM_INVALID ->
     RoomTypeFromString (RoomType_String (RoomTypeFromString s)) = RoomTypeFromString s
     /\ 0 <= RoomTypeFromString s < ROOM_COUNT).
Proof.
  split; intros s Hs.
  - apply FloorTypeFromString_elem in Hs. revert Hs.
    generalize (FloorTypeFromString s) as f. intros f Hf.
    assert (Forall (fun sf => FloorType_String sf.2 = sf.1 /\ 0 <= sf.2 < FLOOR_COUNT)
              floorNameToType) as HP by (repeat constructor; done).
    rewrite Forall_forall in HP. exact (HP _ Hf).
  - apply RoomTypeFromString_elem in Hs. revert Hs.
    generalize (RoomTypeFromString s) as r. intros r Hr.
    assert (Forall (fun sr => RoomTypeFromString (RoomType_String sr.2) = sr.2
              /\ 0 <= sr.2 < ROOM_COUNT) roomNameToType) as HP by (repeat constructor; done).
    rewrite Forall_forall in HP. exact (HP _ Hr).
Qed.
