(* ===== verification/HouseState.v ===== *)
(** * House state

    The data of a house beside the vocabulary of [House.v]: contacts, lights,
    rooms, the global state and its queries
    ([src/sensor-server/house_contacts.go], [house_lights.go], [house_room.go],
    [house_global.go], [house.go]).  The server does not read them yet; the
    integers are [Z], with the widths of the source as well-formedness. *)

From S2P Require Import Prelude GoRuntime House.
Open Scope Z_scope.

(** ** Contacts *)

Abbreviation ContactType := Z.

Definition CONTACT_1 : ContactType := 0.
Definition CONTACT_2 : ContactType := 1.
Definition CONTACT_3 : ContactType := 2.
Definition CONTACT_4 : ContactType := 3.
Definition CONTACT_5 : ContactType := 4.
Definition CONTACT_6 : ContactType := 5.
Definition CONTACT_7 : ContactType := 6.
Definition CONTACT_8 : ContactType := 7.
Definition CONTACT_9 : ContactType := 8.
Definition CONTACT_10 : ContactType := 9.
Definition CONTACT_11 : ContactType := 10.
Definition CONTACT_12 : ContactType := 11.
Definition CONTACT_13 : ContactType := 12.
Definition CONTACT_14 : ContactType := 13.
Definition CONTACT_15 : ContactType := 14.
Definition CONTACT_16 : ContactType := 15.
Definition CONTACT_17 : ContactType := 16.
Definition CONTACT_18 : ContactType := 17.
Definition CONTACT_19 : ContactType := 18.
Definition CONTACT_20 : ContactType := 19.
Definition CONTACT_21 : ContactType := 20.
Definition CONTACT_22 : ContactType := 21.
Definition CONTACT_23 : ContactType := 22.
Definition CONTACT_24 : ContactType := 23.
Definition CONTACT_25 : ContactType := 24.
Definition CONTACT_26 : ContactType := 25.
Definition CONTACT_27 : ContactType := 26.
Definition CONTACT_28 : ContactType := 27.
Definition CONTACT_29 : ContactType := 28.
Definition CONTACT_30 : ContactType := 29.
Definition CONTACT_31 : ContactType := 30.
Definition CONTACT_32 : ContactType := 31.
Definition CONTACT_COUNT : ContactType := 32.

(** [src/sensor-server/house_contacts.go:3-7] Contact *)
Record Contact : Type := mkContact { ContactAndBatteryLevel : Z; RSSI : Z; BootTime : Z }.

(** ** Lights *)

Abbreviation LightFeatures := Z.
Abbreviation LightMode := Z.
Abbreviation LightID := Z.

(** [1 << iota] *)
Definition LIGHT_FEATURE_COLOR : LightFeatures := Z.shiftl 1 0.
Definition LIGHT_FEATURE_WHITE : LightFeatures := Z.shiftl 1 1.
Definition LIGHT_FEATURE_KELVIN : LightFeatures := Z.shiftl 1 2.
Definition LIGHT_FEATURE_BRIGHTNESS : LightFeatures := Z.shiftl 1 3.

(** [iota] *)
Definition LIGHT_MODE_COLOR : LightMode := 0.
Definition LIGHT_MODE_WHITE : LightMode := 1.
Definition LIGHT_MODE_KELVIN : LightMode := 2.

(** [src/sensor-server/house_lights.go:29-35] LightSettings *)
Record LightSettings : Type := mkLightSettings {
  Brightness : Z; HSV : Z * Z * Z; ColorTemperature : Z; ls_Features : LightFeatures; ls_Mode : LightMode }.
(** [src/sensor-server/house_lights.go:37-41] LightKey *)
Record LightKey : Set := mkLightKey { lk_Floor : FloorType; lk_Room : RoomType; lk_LightID : LightID }.
#[export] Instance LightKey_eq_dec : EqDecision LightKey.
Proof. solve_decision. Defined.
#[export] Instance LightKey_countable : Countable LightKey.
Proof.
  refine (inj_countable' (fun k => (lk_Floor k, lk_Room k, lk_LightID k)) (fun p => mkLightKey p.1.1 p.1.2 p.2) _).
  by intros [].
Defined.
(** [src/sensor-server/house_lights.go:43-47] Light *)
Record Light : Type := mkLight { l_Name : string; l_Key : LightKey; l_Light : LightSettings }.
(** [src/sensor-server/house_lights.go:49-52] HouseLighting; the pointers of
    [Router] are indices into [Lights] *)
Record HouseLighting : Type := mkHouseLighting { Lights : list Light; hl_Router : gmap LightKey nat }.

(** ** Rooms and the whole house *)

(** [src/sensor-server/house_room.go:3-7] Room *)
Record Room : Type := mkRoom { SensorCount : Z; SensorOccupancy : Z; SensorValueOffsets : list Z }.

(** [src/sensor-server/house_global.go:3-5] HOUSE_GLOBAL_VERSION *)
Definition HOUSE_GLOBAL_VERSION : Z := 0x00010000.

(** [src/sensor-server/house_global.go:7-29] HouseGlobal *)
Record HouseGlobal : Type := mkHouseGlobal {
  Version : Z; Year : Z; Month : Z; Day : Z; DayOfWeek : Z; Hour : Z; Minute : Z; Second : Z;
  OutsideHumidity : Z; OutsideTemperature : Z; OutsidePressure : Z; OutsideLux : Z; OutsideSunPercentage : Z;
  OutsideCloudCover : Z; OutsideWindSpeed : Z; OutsideWindDirection : Z; OutsideRainPercentage : Z;
  OutsideSnowPercentage : Z; ObjectsActive : Z;
  PresenceState : list Z;      (* FLOOR_COUNT words, a bit per room *)
  ContactState : list Contact  (* CONTACT_COUNT *) }.

(** [src/sensor-server/house.go:12-15] House *)
Record House : Type := mkHouse { Global : option HouseGlobal; Rooms : list Room }.

(** [src/sensor-server/house_global.go:31-35] GetRoomAirQuality *)
Definition GetRoomAirQuality (floorID roomID : Z) : Z := 100.
(** [src/sensor-server/house_global.go:37-40] RoomHasDeviceWithLowBattery *)
Definition RoomHasDeviceWithLowBattery (floorID roomID : Z) : bool := false.
(** [src/sensor-server/house_global.go:42-45] FloorHasDeviceWithLowBattery *)
Definition FloorHasDeviceWithLowBattery (floorID : Z) : bool := false.
(** [src/sensor-server/house_global.go:47-50] HouseHasDeviceWithLowBattery *)
Definition HouseHasDeviceWithLowBattery : bool := false.

(** ** Well-formedness *)

(** The arrays have the lengths of their types, the words their widths. *)
Record global_ok (g : HouseGlobal) : Prop := mkGlobalOk {
  go_presence : length (PresenceState g) = Z.to_nat FLOOR_COUNT;
  go_words : Forall (fun w => 0 <= w < 2 ^ 16) (PresenceState g);
  go_contacts : length (ContactState g) = Z.to_nat CONTACT_COUNT }.

(** Every room of every floor has a bit of its own in the presence words. *)
Lemma presence_bits g f r : global_ok g -> 0 <= f < FLOOR_COUNT -> 0 <= r < ROOM_COUNT ->
  exists w, PresenceState g !! Z.to_nat f = Some w /\ 0 <= Z.lor w (Z.shiftl 1 r) < 2 ^ 16 /\
    forall r', 0 <= r' < ROOM_COUNT -> Z.testbit (Z.lor w (Z.shiftl 1 r)) r' = (r =? r') || Z.testbit w r'.
Proof.
  unfold FLOOR_COUNT, ROOM_COUNT. intros [Hl Hw _] Hf Hr. unfold FLOOR_COUNT in Hl.
  destruct (PresenceState g !! Z.to_nat f) as [w|] eqn:E; [|apply lookup_ge_None in E; lia].
  exists w. split; [done|]. pose proof (Forall_lookup_1 _ _ _ _ Hw E) as Hb. cbn beta in Hb. split.
  - split; [apply Z.lor_nonneg; split; [lia|apply Z.shiftl_nonneg; lia]|].
    destruct (decide (Z.lor w (Z.shiftl 1 r) = 0)) as [->|Hn]; [lia|].
    apply Z.log2_lt_pow2; [pose proof (proj2 (Z.lor_nonneg w (Z.shiftl 1 r))); rewrite Z.shiftl_nonneg in *; lia|].
    rewrite Z.log2_lor by (try apply Z.shiftl_nonneg; lia). rewrite Z.shiftl_1_l, Z.log2_pow2 by lia.
    destruct (decide (w = 0)) as [->|]; [cbn; lia|]. pose proof (proj1 (Z.log2_lt_pow2 w 16 ltac:(lia)) ltac:(lia)). lia.
  - intros r' Hr'. rewrite Z.lor_spec, Z.shiftl_1_l, Z.pow2_bits_eqb by lia. apply orb_comm.
Qed.

(** The features of a light are independent bits. *)
Lemma light_features_independent : Forall (fun p => Z.land p.1 p.2 = 0)
  [(LIGHT_FEATURE_COLOR, LIGHT_FEATURE_WHITE); (LIGHT_FEATURE_COLOR, LIGHT_FEATURE_KELVIN);
   (LIGHT_FEATURE_COLOR, LIGHT_FEATURE_BRIGHTNESS); (LIGHT_FEATURE_WHITE, LIGHT_FEATURE_KELVIN);
   (LIGHT_FEATURE_WHITE, LIGHT_FEATURE_BRIGHTNESS); (LIGHT_FEATURE_KELVIN, LIGHT_FEATURE_BRIGHTNESS)].
Proof. by repeat constructor. Qed.
