(* ===== verification/BinaryData.v ===== *)
(** * BinaryData: a cursor over a byte slice

    Model of [src/sensor-server/binary_data.go].  A [BinaryData] is a slice
    and an offset; a read or a write outside of the slice panics, an index
    expression being bounded by the length and a slice expression by the
    capacity, as in Go.  [encoding/binary]'s little-endian conversions are
    [le_get] and [le_put]. *)

From S2P Require Import Prelude GoRuntime.
Open Scope Z_scope.

(** ** State *)

(** [src/sensor-server/binary_data.go:7-10] BinaryData *)
Record BinaryData : Type := mkBinaryData { buf : slice; off : Z }.

(** [src/sensor-server/protocol.go:35-35] MACAddress *)
Definition MACAddress : Set := (byte * byte * byte * byte * byte * byte)%type.

#[export] Instance MACAddress_eq_dec : EqDecision MACAddress := _.
#[export] Instance MACAddress_countable : Countable MACAddress := _.

(** The array [mac[:]] as a list, and [copy(mac[:], l)] into a zero array. *)
Definition mac_bytes (mac : MACAddress) : list byte :=
  let '(a, b, c, d, e, f) := mac in [a; b; c; d; e; f].
Definition mac_of_list (l : list byte) : MACAddress :=
  let nth i := default Byte.x00 (l !! i) in
  (nth 0, nth 1, nth 2, nth 3, nth 4, nth 5)%nat.

(** ** Operations *)

(** [data.buf[lo:hi]], read as bytes. *)
Definition sub_bytes (lo hi : Z) : M BinaryData (list byte) := fun d =>
  match slice_expr (buf d) lo hi with
  | Some s => (Ret (slice_data s), d)
  | None => (Panic PanicIndex, d)
  end.

(** [data.buf[i]] *)
Definition index_byte (i : Z) : M BinaryData Z := fun d =>
  match slice_index (buf d) i with
  | Some b => (Ret (byte_to_Z b), d)
  | None => (Panic PanicIndex, d)
  end.

(** A store into [data.buf[lo:lo+len(bs)]]. *)
Definition store_bytes (lo : Z) (bs : list byte) : M BinaryData unit := fun d =>
  match slice_expr (buf d) lo (lo + Z.of_nat (length bs)) with
  | Some _ => (Ret tt, mkBinaryData (slice_store (buf d) lo bs) (off d))
  | None => (Panic PanicIndex, d)
  end.

(** [src/sensor-server/binary_data.go:12-14] SkipBytes *)
Definition SkipBytes (length : Z) : M BinaryData unit :=
  modify (fun d => mkBinaryData (buf d) (off d + length)).

(** [src/sensor-server/binary_data.go:15-20] ReadMAC *)
Definition ReadMAC : M BinaryData MACAddress :=
  o ← gets off;
  bs ← sub_bytes o (o + 6);
  SkipBytes 6;;
  mret (mac_of_list bs).

(** [src/sensor-server/binary_data.go:21-25] ReadUint8 *)
Definition ReadUint8 : M BinaryData Z :=
  o ← gets off;
  value ← index_byte o;
  SkipBytes 1;;
  mret value.

(** [src/sensor-server/binary_data.go:26-30] ReadUint16 *)
Definition ReadUint16 : M BinaryData Z :=
  o ← gets off;
  bs ← sub_bytes o (o + 2);
  SkipBytes 2;;
  mret (le_get bs).

(** [src/sensor-server/binary_data.go:31-36] ReadInt24 *)
Definition ReadInt24 : M BinaryData Z :=
  o ← gets off;
  b0 ← index_byte o;
  b1 ← index_byte (o + 1);
  b2 ← index_byte (o + 2);
  let value := i32 (Z.lor (Z.lor (u32 (Z.shiftl b0 8)) (u32 (Z.shiftl b1 16)))
                          (u32 (Z.shiftl b2 24))) in
  SkipBytes 3;;
  mret (Z.shiftr value 8).

(** [src/sensor-server/binary_data.go:37-41] ReadUint32 *)
Definition ReadUint32 : M BinaryData Z :=
  o ← gets off;
  bs ← sub_bytes o (o + 4);
  SkipBytes 4;;
  mret (le_get bs).

(** [src/sensor-server/binary_data.go:42-46] ReadUint64 *)
Definition ReadUint64 : M BinaryData Z :=
  o ← gets off;
  bs ← sub_bytes o (o + 8);
  SkipBytes 8;;
  mret (le_get bs).

(** [src/sensor-server/binary_data.go:47-52] ReadBytes *)
Definition ReadBytes (length : Z) : M BinaryData (list byte) :=
  if length <? 0 then throw PanicIndex else
  o ← gets off;
  bs ← sub_bytes o (o + length);
  SkipBytes length;;
  mret bs.

(** [src/sensor-server/binary_data.go:54-57] WriteUint8 *)
Definition WriteUint8 (value : Z) : M BinaryData unit :=
  o ← gets off;
  index_byte o;;
  store_bytes o [byte_of_Z value];;
  SkipBytes 1.

(** [src/sensor-server/binary_data.go:58-61] WriteUint16 *)
Definition WriteUint16 (value : Z) : M BinaryData unit :=
  o ← gets off;
  store_bytes o (le_put 2 value);;
  SkipBytes 2.

(** [src/sensor-server/binary_data.go:62-65] WriteUint32 *)
Definition WriteUint32 (value : Z) : M BinaryData unit :=
  o ← gets off;
  store_bytes o (le_put 4 value);;
  SkipBytes 4.

(** [src/sensor-server/binary_data.go:66-68] WriteUint32At *)
Definition WriteUint32At (value offset : Z) : M BinaryData unit :=
  store_bytes offset (le_put 4 value).

(** [src/sensor-server/binary_data.go:69-72] WriteUint64 *)
Definition WriteUint64 (value : Z) : M BinaryData unit :=
  o ← gets off;
  store_bytes o (le_put 8 value);;
  SkipBytes 8.

(** [src/sensor-server/binary_data.go:73-76] WriteBytes *)
Definition WriteBytes (bytes : list byte) : M BinaryData unit :=
  o ← gets off;
  store_bytes o bytes;;
  SkipBytes (Z.of_nat (length bytes)).

(** ** Cursor view

    [cursor pre rest n]: the bytes [pre] are behind the offset, [rest] ahead
    of it (up to the capacity), and the slice has length [n]. *)
Definition cursor (pre rest : list byte) (n : nat) : BinaryData :=
  mkBinaryData (Slice (pre ++ rest) n) (Z.of_nat (length pre)).

Lemma slice_expr_cursor pre bs rest n lo hi :
  lo = Z.of_nat (length pre) -> hi = lo + Z.of_nat (length bs) ->
  exists s, slice_expr (Slice (pre ++ bs ++ rest) n) lo hi = Some s /\ slice_data s = bs.
Proof.
  intros -> ->. unfold slice_expr, slice_cap. cbn [arr].
  rewrite !length_app, (proj2 (Z.leb_le _ _)), (proj2 (Z.leb_le _ _)), (proj2 (Z.leb_le _ _)) by lia.
  eexists. split; [done|]. unfold slice_data. cbn [arr len].
  rewrite Nat2Z.id, drop_app_length.
  replace (Z.to_nat _) with (length bs) by lia. apply take_app_length.
Qed.

Lemma sub_bytes_cursor pre bs rest n lo hi :
  lo = Z.of_nat (length pre) -> hi = lo + Z.of_nat (length bs) ->
  sub_bytes lo hi (cursor pre (bs ++ rest) n) = (Ret bs, cursor pre (bs ++ rest) n).
Proof.
  intros Hlo Hhi. destruct (slice_expr_cursor pre bs rest n lo hi Hlo Hhi) as (s & E & D).
  unfold sub_bytes, cursor. cbn [buf]. by rewrite E, D.
Qed.

Lemma index_byte_cursor pre bs b rest n i :
  i = Z.of_nat (length pre + length bs) -> (length pre + length bs < n)%nat ->
  index_byte i (cursor pre (bs ++ b :: rest) n)
  = (Ret (byte_to_Z b), cursor pre (bs ++ b :: rest) n).
Proof.
  intros -> Hn. unfold index_byte, slice_index, slice_len, cursor. cbn [buf arr len].
  rewrite (proj2 (Z.leb_le _ _)), (proj2 (Z.ltb_lt _ _)) by lia. cbn [andb].
  rewrite Nat2Z.id, app_assoc, <- length_app.
  by rewrite list_lookup_middle by done.
Qed.

Lemma index_byte_cursor_eq pre bs b rest l n i :
  l = bs ++ b :: rest -> i = Z.of_nat (length pre + length bs) ->
  (length pre + length bs < n)%nat ->
  index_byte i (cursor pre l n) = (Ret (byte_to_Z b), cursor pre l n).
Proof. intros ->. apply index_byte_cursor. Qed.

Lemma store_bytes_cursor pre old bs rest n lo :
  lo = Z.of_nat (length pre) -> length old = length bs ->
  store_bytes lo bs (cursor pre (old ++ rest) n) = (Ret tt, cursor pre (bs ++ rest) n).
Proof.
  intros -> Hl. unfold store_bytes, cursor. cbn [buf off].
  destruct (slice_expr_cursor pre old rest n (Z.of_nat (length pre))
    (Z.of_nat (length pre) + Z.of_nat (length bs))) as (s & E & _); [done|lia|].
  rewrite E. unfold slice_store. cbn [arr len].
  rewrite Nat2Z.id, take_app_length, <- Hl.
  by rewrite <- drop_drop, !drop_app_length.
Qed.

Lemma SkipBytes_cursor pre bs rest n k :
  k = Z.of_nat (length bs) ->
  SkipBytes k (cursor pre (bs ++ rest) n) = (Ret tt, cursor (pre ++ bs) rest n).
Proof.
  intros ->. unfold SkipBytes, modify, cursor. cbn [buf off].
  by rewrite <- app_assoc, length_app, Nat2Z.inj_add.
Qed.

Lemma SkipBytes_cursor_eq pre bs rest l n k :
  l = bs ++ rest -> k = Z.of_nat (length bs) ->
  SkipBytes k (cursor pre l n) = (Ret tt, cursor (pre ++ bs) rest n).
Proof. intros -> ->. by apply SkipBytes_cursor. Qed.

(** ** Reading *)

Ltac run_cursor :=
  unfold mbind, M_bind, gets, mret, M_ret; cbn [off cursor];
  repeat first
    [ rewrite sub_bytes_cursor by (cbn [length]; lia)
    | rewrite store_bytes_cursor by (cbn [length]; rewrite ?le_put_length; lia)
    | rewrite SkipBytes_cursor by (cbn [length]; rewrite ?le_put_length; lia) ];
  try done.

Lemma ReadUint16_cursor pre bs rest n :
  length bs = 2%nat ->
  ReadUint16 (cursor pre (bs ++ rest) n) = (Ret (le_get bs), cursor (pre ++ bs) rest n).
Proof. intros H. unfold ReadUint16. run_cursor. Qed.

Lemma ReadUint32_cursor pre bs rest n :
  length bs = 4%nat ->
  ReadUint32 (cursor pre (bs ++ rest) n) = (Ret (le_get bs), cursor (pre ++ bs) rest n).
Proof. intros H. unfold ReadUint32. run_cursor. Qed.

Lemma ReadUint64_cursor pre bs rest n :
  length bs = 8%nat ->
  ReadUint64 (cursor pre (bs ++ rest) n) = (Ret (le_get bs), cursor (pre ++ bs) rest n).
Proof. intros H. unfold ReadUint64. run_cursor. Qed.

Lemma ReadMAC_cursor pre bs rest n :
  length bs = 6%nat ->
  ReadMAC (cursor pre (bs ++ rest) n) = (Ret (mac_of_list bs), cursor (pre ++ bs) rest n).
Proof. intros H. unfold ReadMAC. run_cursor. Qed.

Lemma ReadBytes_cursor pre bs rest n k :
  k = Z.of_nat (length bs) ->
  ReadBytes k (cursor pre (bs ++ rest) n) = (Ret bs, cursor (pre ++ bs) rest n).
Proof.
  intros ->. unfold ReadBytes. rewrite (proj2 (Z.ltb_ge _ _)) by lia. run_cursor.
Qed.

Lemma ReadUint8_cursor pre b rest n :
  (length pre < n)%nat ->
  ReadUint8 (cursor pre (b :: rest) n) = (Ret (byte_to_Z b), cursor (pre ++ [b]) rest n).
Proof.
  intros H. unfold ReadUint8. unfold mbind, M_bind, gets. cbn [off cursor].
  rewrite (index_byte_cursor_eq pre [] b rest) by first [done | cbn [length]; lia].
  by rewrite (SkipBytes_cursor_eq pre [b] rest) by done.
Qed.

Lemma int24_bits b0 b1 b2 :
  Z.shiftr (i32 (Z.lor (Z.lor (u32 (Z.shiftl (byte_to_Z b0) 8))
                              (u32 (Z.shiftl (byte_to_Z b1) 16)))
                       (u32 (Z.shiftl (byte_to_Z b2) 24)))) 8
  = wraps 24 (le_get [b0; b1; b2]).
Proof.
  pose proof (byte_to_Z_range b0). pose proof (byte_to_Z_range b1).
  pose proof (byte_to_Z_range b2).
  rewrite !(Z.shiftl_mul_pow2 (byte_to_Z _)) by lia.
  rewrite !wrapu_small by (change (2 ^ 8) with 256; change (2 ^ 16) with 65536;
    change (2 ^ 24) with 16777216; change (2 ^ 32) with 4294967296; lia).
  rewrite <- (Z.shiftl_mul_pow2 (byte_to_Z b1)), <- (Z.shiftl_mul_pow2 (byte_to_Z b2)) by lia.
  rewrite (lor_shift_add (byte_to_Z b0 * 2 ^ 8) _ 16) by lia.
  rewrite lor_shift_add by lia.
  rewrite Z.shiftr_div_pow2 by lia.
  rewrite !le_get_cons. change (le_get []) with 0. unfold wraps.
  change (2 ^ (32 - 1)) with 2147483648. change (2 ^ 32) with 4294967296.
  change (2 ^ (24 - 1)) with 8388608. change (2 ^ 24) with 16777216.
  change (2 ^ 8) with 256. change (2 ^ 16) with 65536.
  mod_lia.
Qed.

Lemma ReadInt24_cursor pre b0 b1 b2 rest n :
  (length pre + 3 <= n)%nat ->
  ReadInt24 (cursor pre (b0 :: b1 :: b2 :: rest) n)
  = (Ret (wraps 24 (le_get [b0; b1; b2])), cursor (pre ++ [b0; b1; b2]) rest n).
Proof.
  intros H. unfold ReadInt24. unfold mbind, M_bind, gets. cbn [off cursor].
  rewrite (index_byte_cursor_eq pre [] b0 (b1 :: b2 :: rest)) by first [done | cbn [length]; lia].
  rewrite (index_byte_cursor_eq pre [b0] b1 (b2 :: rest)) by first [done | cbn [length]; lia].
  rewrite (index_byte_cursor_eq pre [b0; b1] b2 rest) by first [done | cbn [length]; lia].
  rewrite (SkipBytes_cursor_eq pre [b0; b1; b2] rest) by done.
  unfold mret, M_ret. by rewrite int24_bits.
Qed.

(** ** Writing *)

Lemma WriteUint8_cursor pre b rest n v :
  (length pre < n)%nat ->
  WriteUint8 v (cursor pre (b :: rest) n) = (Ret tt, cursor (pre ++ [byte_of_Z v]) rest n).
Proof.
  intros H. unfold WriteUint8. unfold mbind, M_bind, gets. cbn [off cursor].
  rewrite (index_byte_cursor_eq pre [] b rest) by first [done | cbn [length]; lia].
  change (b :: rest) with ([b] ++ rest).
  rewrite store_bytes_cursor by done. by apply SkipBytes_cursor.
Qed.

Lemma WriteUint16_cursor pre old rest n v :
  length old = 2%nat ->
  WriteUint16 v (cursor pre (old ++ rest) n) = (Ret tt, cursor (pre ++ le_put 2 v) rest n).
Proof. intros H. unfold WriteUint16. run_cursor. Qed.

Lemma WriteUint32_cursor pre old rest n v :
  length old = 4%nat ->
  WriteUint32 v (cursor pre (old ++ rest) n) = (Ret tt, cursor (pre ++ le_put 4 v) rest n).
Proof. intros H. unfold WriteUint32. run_cursor. Qed.

Lemma WriteUint64_cursor pre old rest n v :
  length old = 8%nat ->
  WriteUint64 v (cursor pre (old ++ rest) n) = (Ret tt, cursor (pre ++ le_put 8 v) rest n).
Proof. intros H. unfold WriteUint64. run_cursor. Qed.

Lemma WriteBytes_cursor pre old rest n bs :
  length old = length bs ->
  WriteBytes bs (cursor pre (old ++ rest) n) = (Ret tt, cursor (pre ++ bs) rest n).
Proof. intros H. unfold WriteBytes. run_cursor. Qed.

Lemma WriteUint32At_spec v o l n o' mid :
  length mid = 4%nat -> (o <= length l)%nat -> take 4 (drop o l) = mid ->
  WriteUint32At v (Z.of_nat o) (mkBinaryData (Slice l n) o')
  = (Ret tt, mkBinaryData (Slice (take o l ++ le_put 4 v ++ drop (o + 4) l) n) o').
Proof.
  intros Hm Ho Hmid.
  assert (length (drop o l) >= 4)%nat as Hd.
  { rewrite <- Hmid, length_take in Hm. lia. }
  rewrite length_drop in Hd.
  unfold WriteUint32At, store_bytes, slice_expr, slice_cap. cbn [buf arr off].
  rewrite le_put_length.
  rewrite (proj2 (Z.leb_le _ _)), (proj2 (Z.leb_le _ _)), (proj2 (Z.leb_le _ _)) by lia.
  unfold slice_store. cbn [andb arr len]. by rewrite le_put_length, Nat2Z.id.
Qed.

(** ** MAC addresses *)

Lemma mac_bytes_length mac : length (mac_bytes mac) = 6%nat.
Proof. by destruct mac as [[[[[? ?] ?] ?] ?] ?]. Qed.

Lemma mac_of_bytes mac : mac_of_list (mac_bytes mac) = mac.
Proof. by destruct mac as [[[[[? ?] ?] ?] ?] ?]. Qed.

Lemma mac_bytes_of l : length l = 6%nat -> mac_bytes (mac_of_list l) = l.
Proof. intros H. do 7 (destruct l as [|? l]; try discriminate H). reflexivity. Qed.

#[export] Hint Rewrite mac_bytes_length mac_of_bytes : go_rw.

(** ** Properties *)

(** A cursor has [k] bytes ahead of its offset within the capacity. *)
Definition ahead (d : BinaryData) (k : nat) : Prop :=
  0 <= off d /\ off d + Z.of_nat k <= slice_cap (buf d).

Lemma ahead_cursor d k :
  ahead d k ->
  exists pre bs rest, d = cursor pre (bs ++ rest) (len (buf d)) /\ length bs = k
    /\ Z.of_nat (length pre) = off d.
Proof.
  destruct d as [[l n] o]. unfold ahead, slice_cap. cbn [buf off arr len]. intros [H0 H1].
  exists (take (Z.to_nat o) l), (take k (drop (Z.to_nat o) l)), (drop k (drop (Z.to_nat o) l)).
  unfold cursor. rewrite !take_drop, !length_take, length_drop.
  split; [|split; lia]. f_equal; lia.
Qed.

Lemma sub_bytes_panic d k lo :
  lo = off d -> 0 <= off d -> ~ ahead d k ->
  sub_bytes lo (lo + Z.of_nat k) d = (Panic PanicIndex, d).
Proof.
  intros -> Ho Hk. unfold sub_bytes, slice_expr.
  rewrite (proj2 (Z.leb_le 0 _)), (proj2 (Z.leb_le (off d) _)) by lia. cbn [andb].
  destruct (Z.leb_spec (off d + Z.of_nat k) (slice_cap (buf d))); [|done].
  unfold ahead in Hk. lia.
Qed.

(** A 24-bit sensor value is read with its sign: wherever three bytes
    remain in the slice, [ReadInt24] consumes exactly these bytes and returns
    the number in [[-2^23, 2^23)] whose little-endian two's complement
    encoding they are. *)
Theorem ReadInt24_sign_extends pre b0 b1 b2 rest n :
  (length pre + 3 <= n)%nat ->
  exists v, ReadInt24 (cursor pre (b0 :: b1 :: b2 :: rest) n)
            = (Ret v, cursor (pre ++ [b0; b1; b2]) rest n)
    /\ - 2 ^ 23 <= v < 2 ^ 23 /\ le_put 3 v = [b0; b1; b2].
Proof.
  intros Hn. exists (wraps 24 (le_get [b0; b1; b2])).
  split; [by apply ReadInt24_cursor|]. split; [by apply (wraps_range 24)|].
  rewrite <- le_put_mod. change (_ mod _) with (wrapu 24 (wraps 24 (le_get [b0; b1; b2]))).
  rewrite wrapu_wraps by lia.
  transitivity (le_put 3 (le_get [b0; b1; b2])); [apply (le_put_mod 3)|].
  apply (le_put_get [b0; b1; b2]).
Qed.

Lemma ReadInt24_sign_extends_witness :
  exists v, ReadInt24 (cursor [] [Byte.xff; Byte.xff; Byte.xff] 3)
            = (Ret v, cursor [Byte.xff; Byte.xff; Byte.xff] [] 3)
    /\ - 2 ^ 23 <= v < 2 ^ 23 /\ le_put 3 v = [Byte.xff; Byte.xff; Byte.xff].
Proof.
  exact (ReadInt24_sign_extends [] Byte.xff Byte.xff Byte.xff [] 3 ltac:(cbn; lia)).
Defined.

(** A read of [k] bytes decoded by [conv]: it returns and advances when [k]
    bytes are ahead of the offset, and panics without moving otherwise. *)
Definition reads {A} (m : M BinaryData A) (k : nat) (ok : A -> Prop) : Prop :=
  forall d, 0 <= off d ->
    (ahead d k -> exists v, m d = (Ret v, mkBinaryData (buf d) (off d + Z.of_nat k)) /\ ok v) /\
    (~ ahead d k -> m d = (Panic PanicIndex, d)).

Lemma reads_intro {A} (conv : list byte -> A) k (ok : A -> Prop) :
  (forall bs, length bs = k -> ok (conv bs)) ->
  reads (o ← gets off; bs ← sub_bytes o (o + Z.of_nat k); SkipBytes (Z.of_nat k);; mret (conv bs))
        k ok.
Proof.
  intros Hok d Ho. split; intros Hk.
  - destruct (ahead_cursor d k Hk) as (pre & bs & rest & Hd & Hl & Hp).
    exists (conv bs). split; [|by apply Hok].
    rewrite Hd. unfold mbind, M_bind, gets. cbn [off cursor].
    rewrite sub_bytes_cursor by lia. rewrite SkipBytes_cursor by lia.
    unfold mret, M_ret, cursor. cbn [buf off].
    by rewrite <- app_assoc, length_app, Nat2Z.inj_add, Hl.
  - unfold mbind, M_bind, gets. by rewrite sub_bytes_panic.
Qed.

Lemma le_get_range' bs k : length bs = k -> 0 <= le_get bs < 2 ^ (8 * Z.of_nat k).
Proof. intros <-. apply le_get_range. Qed.

(** The multi-byte reads of the cursor stay in bounds: with enough bytes
    before the capacity each of them returns a value of its width and moves
    the offset by its size, leaving the buffer alone; otherwise it panics and
    the cursor is unchanged. *)
Theorem cursor_reads_bounded :
  reads ReadUint16 2 (fun v => 0 <= v < 2 ^ 16) /\
  reads ReadUint32 4 (fun v => 0 <= v < 2 ^ 32) /\
  reads ReadUint64 8 (fun v => 0 <= v < 2 ^ 64) /\
  reads ReadMAC 6 (fun mac => length (mac_bytes mac) = 6%nat).
Proof.
  split; [|split; [|split]].
  - exact (reads_intro le_get 2 _ (fun bs => le_get_range' bs 2)).
  - exact (reads_intro le_get 4 _ (fun bs => le_get_range' bs 4)).
  - exact (reads_intro le_get 8 _ (fun bs => le_get_range' bs 8)).
  - exact (reads_intro mac_of_list 6 _ (fun bs _ => mac_bytes_length _)).
Qed.
