(* ===== verification/Crc32.v ===== *)
(** * CRC-32 (IEEE)

    [hash/crc32]'s [ChecksumIEEE], computed bit by bit with the reflected
    polynomial [0xEDB88320]: the checksum of protocol payloads and of
    quarantine entries. *)

From S2P Require Import Prelude.
Open Scope Z_scope.

Definition crc_poly : Z := 0xEDB88320.
Definition crc_ones : Z := 0xFFFFFFFF.

Definition crc_bit (c : Z) : Z :=
  if Z.odd c then Z.lxor (Z.shiftr c 1) crc_poly else Z.shiftr c 1.

Definition crc_byte (c : Z) (b : byte) : Z :=
  Nat.iter 8 crc_bit (Z.lxor c (byte_to_Z b)).

Definition crc_update (c : Z) (l : list byte) : Z := fold_left crc_byte l c.

Definition ChecksumIEEE (l : list byte) : Z := Z.lxor (crc_update crc_ones l) crc_ones.

(** The inverse of [crc_bit] on 32-bit states. *)
Definition crc_unbit (c : Z) : Z :=
  if Z.testbit c 31 then Z.lor (Z.shiftl (Z.lxor c crc_poly) 1) 1 else Z.shiftl c 1.

(** The standard check value of the algorithm. *)
Example ChecksumIEEE_check :
  ChecksumIEEE (string_bytes "123456789") = 0xCBF43926.
Proof. vm_compute. reflexivity. Qed.

(** ** Ranges *)

Lemma lxor_range n a b : 0 <= n -> 0 <= a < 2 ^ n -> 0 <= b < 2 ^ n -> 0 <= Z.lxor a b < 2 ^ n.
Proof.
  intros Hn Ha Hb. split; [apply Z.lxor_nonneg; lia|].
  assert (Z.lxor a b = Z.lxor a b mod 2 ^ n) as ->; [|apply Z.mod_pos_bound; lia].
  apply Z.bits_inj'. intros i Hi.
  destruct (Z.ltb_spec i n); [by rewrite Z.mod_pow2_bits_low|].
  rewrite Z.mod_pow2_bits_high, Z.lxor_spec by lia.
  rewrite <- (Z.mod_small a (2 ^ n)), <- (Z.mod_small b (2 ^ n)) by lia.
  by rewrite !Z.mod_pow2_bits_high by lia.
Qed.

Lemma crc_bit_range c : 0 <= c < 2 ^ 32 -> 0 <= crc_bit c < 2 ^ 32.
Proof.
  intros Hc. unfold crc_bit.
  assert (0 <= Z.shiftr c 1 < 2 ^ 32) by (rewrite Z.shiftr_div_pow2 by lia; mod_lia).
  destruct (Z.odd c); [|done]. by apply lxor_range.
Qed.

Lemma crc_bits_range k c : 0 <= c < 2 ^ 32 -> 0 <= Nat.iter k crc_bit c < 2 ^ 32.
Proof. intros Hc. induction k as [|k IH]; [done|]. by apply crc_bit_range. Qed.

Lemma crc_byte_range c b : 0 <= c < 2 ^ 32 -> 0 <= crc_byte c b < 2 ^ 32.
Proof.
  intros Hc. apply crc_bits_range, lxor_range; [done|done|].
  pose proof (byte_to_Z_range b). lia.
Qed.

Lemma crc_update_range l c : 0 <= c < 2 ^ 32 -> 0 <= crc_update c l < 2 ^ 32.
Proof.
  revert c. induction l as [|b l IH]; intros c Hc; [done|]. by apply IH, crc_byte_range.
Qed.

Lemma ChecksumIEEE_range l : 0 <= ChecksumIEEE l < 2 ^ 32.
Proof. apply lxor_range; [done|by apply crc_update_range|done]. Qed.

#[export] Hint Resolve ChecksumIEEE_range : go_bounds.

(** ** Injectivity *)

Lemma crc_unbit_bit c : 0 <= c < 2 ^ 32 -> crc_unbit (crc_bit c) = c.
Proof.
  intros Hc. unfold crc_bit.
  assert (Z.testbit (Z.shiftr c 1) 31 = false) as Hb.
  { rewrite Z.shiftr_spec by lia. rewrite <- (Z.mod_small c (2 ^ 32)) by lia.
    apply Z.mod_pow2_bits_high. lia. }
  pose proof (Z.div2_odd c) as Hd. rewrite Z.div2_spec in Hd.
  destruct (Z.odd c) eqn:Ho; cbn [Z.b2z] in Hd; unfold crc_unbit.
  - rewrite Z.lxor_spec, Hb. change (Z.testbit crc_poly 31) with true. cbn [xorb].
    rewrite Z.lxor_assoc, Z.lxor_nilpotent, Z.lxor_0_r, Z.lor_comm.
    rewrite lor_shift_add by lia. lia.
  - rewrite Hb. rewrite Z.shiftl_mul_pow2 by lia. lia.
Qed.

Lemma crc_bits_inj k c c' :
  0 <= c < 2 ^ 32 -> 0 <= c' < 2 ^ 32 ->
  Nat.iter k crc_bit c = Nat.iter k crc_bit c' -> c = c'.
Proof.
  intros Hc Hc'. induction k as [|k IH]; [done|]. intros E. apply IH.
  change (crc_bit (Nat.iter k crc_bit c) = crc_bit (Nat.iter k crc_bit c')) in E.
  rewrite <- (crc_unbit_bit (Nat.iter k crc_bit c)), E by by apply crc_bits_range.
  by apply crc_unbit_bit, crc_bits_range.
Qed.

Lemma crc_byte_inj c c' b b' :
  0 <= c < 2 ^ 32 -> 0 <= c' < 2 ^ 32 -> crc_byte c b = crc_byte c' b' ->
  Z.lxor c (byte_to_Z b) = Z.lxor c' (byte_to_Z b').
Proof.
  intros Hc Hc'. pose proof (byte_to_Z_range b). pose proof (byte_to_Z_range b').
  apply crc_bits_inj; apply lxor_range; lia.
Qed.

Lemma lxor_cancel_l a b c : Z.lxor a b = Z.lxor a c -> b = c.
Proof.
  intros H. rewrite <- (Z.lxor_0_l b), <- (Z.lxor_0_l c), <- (Z.lxor_nilpotent a).
  by rewrite !Z.lxor_assoc, H.
Qed.

Lemma lxor_cancel_r a b c : Z.lxor a c = Z.lxor b c -> a = b.
Proof. rewrite !(Z.lxor_comm _ c). apply lxor_cancel_l. Qed.

Lemma crc_update_inj l c c' :
  0 <= c < 2 ^ 32 -> 0 <= c' < 2 ^ 32 -> crc_update c l = crc_update c' l -> c = c'.
Proof.
  revert c c'. induction l as [|b l IH]; intros c c' Hc Hc' E; [done|].
  apply IH in E; [|by apply crc_byte_range..].
  apply crc_byte_inj in E; [|done..]. by apply lxor_cancel_r in E.
Qed.

Lemma crc_update_app c l l' : crc_update c (l ++ l') = crc_update (crc_update c l) l'.
Proof. apply fold_left_app. Qed.

(** Changing one byte of a message changes its checksum. *)
Lemma ChecksumIEEE_byte_change pre b b' post :
  b <> b' -> ChecksumIEEE (pre ++ b :: post) <> ChecksumIEEE (pre ++ b' :: post).
Proof.
  intros Hb E. apply lxor_cancel_r in E. rewrite !crc_update_app in E.
  assert (0 <= crc_update crc_ones pre < 2 ^ 32) as Hr by by apply crc_update_range.
  cbn [crc_update fold_left] in E. fold (crc_update crc_ones pre) in E.
  change (crc_update (crc_byte (crc_update crc_ones pre) b) post
          = crc_update (crc_byte (crc_update crc_ones pre) b') post) in E.
  apply crc_update_inj in E; [|by apply crc_byte_range..].
  apply crc_byte_inj in E; [|done..]. apply lxor_cancel_l in E.
  by apply (inj byte_to_Z) in E.
Qed.
