(* ===== verification/Protocol.v ===== *)
(** * Wire protocol

    Model of [src/sensor-server/protocol.go]: the 16-byte header, the sensor
    payload, decoding from a datagram and from a TCP byte stream, and
    encoding.  The specification side gives the wire image of a message
    ([wire]), the records of a payload ([sensors_of]) and the verdict on an
    arbitrary datagram ([datagram_verdict]). *)

From S2P Require Import Prelude GoRuntime House BinaryData Crc32.
Open Scope Z_scope.

(** ** Data *)

(** [src/sensor-server/protocol.go:12-12] MessageMagic *)
Definition MessageMagic : Z := 0xF00D.
(** [src/sensor-server/protocol.go:13-13] MessageHeaderSize *)
Definition MessageHeaderSize : Z := 16.
(** [src/sensor-server/protocol.go:14-14] SensorRecordSize *)
Definition SensorRecordSize : Z := 4.
(** [src/sensor-server/protocol.go:15-15] MaximumPayloadSize *)
Definition MaximumPayloadSize : Z := 8 * 1024.

Abbreviation MessageType := Z.
(** [src/sensor-server/protocol.go:21-21] MessageTypeInvalid *)
Definition MessageTypeInvalid : MessageType := 0.
(** [src/sensor-server/protocol.go:22-22] MessageTypeSensorData *)
Definition MessageTypeSensorData : MessageType := 1.
(** [src/sensor-server/protocol.go:23-23] MessageTypeActuatorData *)
Definition MessageTypeActuatorData : MessageType := 2.

(** [src/sensor-server/protocol.go:37-43] MessageHeader *)
Record MessageHeader : Type := mkHeader {
  Magic : Z;
  HType : MessageType;
  PayloadLength : Z;
  MAC : MACAddress;
  Checksum : Z }.

(** [src/sensor-server/protocol.go:45-48] SensorRecord *)
Record SensorRecord : Type := mkSensorRecord { RType : SensorType; RValue : Z }.

(** [src/sensor-server/protocol.go:50-54] ActuatorRecord *)
Record ActuatorRecord : Type := mkActuatorRecord { ar_Type : SensorType; ar_Authority : Z; ar_Value : Z }.

(** [src/sensor-server/protocol.go:56-60] Message *)
Record Message : Type := mkMessage {
  Header : MessageHeader;
  Payload : list byte;
  Sensors : list SensorRecord }.

#[export] Instance MessageHeader_eq_dec : EqDecision MessageHeader.
Proof. solve_decision. Defined.
#[export] Instance SensorRecord_eq_dec : EqDecision SensorRecord.
Proof. solve_decision. Defined.
#[export] Instance Message_eq_dec : EqDecision Message.
Proof. solve_decision. Defined.

(** ** Decoding *)

(** [src/sensor-server/protocol.go:63-91] DecodeHeader *)
Definition DecodeHeader (data : slice) : res MessageHeader :=
  if negb (slice_len data =? MessageHeaderSize)
  then Fail (ErrWrap "decode header: size" (ErrNew io_ErrUnexpectedEOF)) else
  result ((
    hdrMagic ← ReadUint16;
    hdrType ← ReadUint16;
    payloadLength ← ReadUint16;
    mac ← ReadMAC;
    checksum ← ReadUint32;
    let header := mkHeader hdrMagic hdrType payloadLength mac checksum in
    if negb (Magic header =? MessageMagic)
    then fail (ErrWrap "decode header" (ErrNew ErrInvalidMagic)) else
    if MaximumPayloadSize <? PayloadLength header
    then fail (ErrWrap "decode header" (ErrNew ErrPayloadTooLarge)) else
    mret header) (mkBinaryData data 0)).

(** [src/sensor-server/protocol.go:115-121] DecodeMessage, the record loop *)
Fixpoint decode_sensors (n : nat) : M BinaryData (list SensorRecord) :=
  match n with
  | O => mret []
  | S n =>
      sensorTypeValue ← ReadUint8;
      value ← ReadInt24;
      rest ← decode_sensors n;
      mret (mkSensorRecord (ToSensorType (u16 sensorTypeValue)) value :: rest)
  end.

(** [src/sensor-server/protocol.go:94-124] DecodeMessage *)
Definition DecodeMessage (header : MessageHeader) (payload : slice) : res Message :=
  if negb (slice_len payload =? PayloadLength header)
  then Fail (ErrWrap "decode payload: size" (ErrNew ErrInvalidPayload)) else
  if negb (HType header =? MessageTypeSensorData)
  then Fail (ErrWrap "decode payload: type" (ErrNew ErrUnsupportedType)) else
  if negb (PayloadLength header mod SensorRecordSize =? 0)
  then Fail (ErrWrap "decode payload: sensor payload length" (ErrNew ErrInvalidPayload)) else
  if negb (ChecksumIEEE (slice_data payload) =? Checksum header)
  then Fail (ErrWrap "decode payload" (ErrNew ErrChecksumMismatch)) else
  result ((
    sensors ← decode_sensors (Z.to_nat (slice_len payload / SensorRecordSize));
    mret (mkMessage header (slice_data payload) sensors)) (mkBinaryData payload 0)).

(** [src/sensor-server/protocol.go:127-142] ReadMessage *)
Definition ReadMessage : M Reader Message :=
  headerBytes ← wrap_err "read header" (ReadFull (Z.to_nat MessageHeaderSize));
  header ← lift (DecodeHeader (slice_of headerBytes));
  payload ← wrap_err "read payload" (ReadFull (Z.to_nat (PayloadLength header)));
  lift (DecodeMessage header (slice_of payload)).

(** [datagram[lo:hi]] of a parameter slice. *)
Definition subslice (s : slice) (lo hi : Z) : res slice :=
  match slice_expr s lo hi with
  | Some s => Ret s
  | None => Panic PanicIndex
  end.

(** [src/sensor-server/protocol.go:145-158] DecodeDatagram *)
Definition DecodeDatagram (datagram : slice) : res Message :=
  if slice_len datagram <? MessageHeaderSize
  then Fail (ErrWrap "decode datagram" (ErrNew ErrDatagramSize)) else
  result ((
    headerBytes ← lift (subslice datagram 0 MessageHeaderSize);
    header ← lift (DecodeHeader headerBytes);
    let expectedSize := MessageHeaderSize + PayloadLength header in
    if negb (slice_len datagram =? expectedSize)
    then fail (ErrWrap "decode datagram" (ErrNew ErrDatagramSize)) else
    payload ← lift (subslice datagram MessageHeaderSize (slice_len datagram));
    lift (DecodeMessage header payload)) tt).

(** [src/sensor-server/protocol.go:162-186] EncodeMessage *)
Definition EncodeMessage (messageType : MessageType) (mac : MACAddress) (payload : list byte)
    : res (list byte) :=
  let size := Z.of_nat (length payload) in
  if MaximumPayloadSize <? size then Fail (ErrNew ErrPayloadTooLarge) else
  if negb (messageType =? MessageTypeSensorData) then Fail (ErrNew ErrUnsupportedType) else
  if negb (size mod SensorRecordSize =? 0) then Fail (ErrNew ErrInvalidPayload) else
  let h0 := slice_of (replicate (Z.to_nat MessageHeaderSize) Byte.x00) in
  let h1 := slice_store h0 0 (le_put 2 MessageMagic) in
  let h2 := slice_store h1 2 (le_put 2 (u16 messageType)) in
  let h3 := slice_store h2 4 (le_put 2 (u16 size)) in
  let h4 := slice_store h3 6 (mac_bytes mac) in
  let headerBytes := slice_store h4 12 (le_put 4 (ChecksumIEEE payload)) in
  match DecodeHeader headerBytes with
  | Ret _ => Ret (slice_data headerBytes ++ payload)
  | Fail e => Fail e
  | Panic p => Panic p
  end.

(** ** Specification *)

(** The header bytes of a header value, and the header value of 16 bytes. *)
Definition header_bytes (h : MessageHeader) : list byte :=
  le_put 2 (Magic h) ++ le_put 2 (HType h) ++ le_put 2 (PayloadLength h)
  ++ mac_bytes (MAC h) ++ le_put 4 (Checksum h).

Definition parse_header (l : list byte) : MessageHeader :=
  mkHeader (le_get (take 2 l)) (le_get (take 2 (drop 2 l))) (le_get (take 2 (drop 4 l)))
           (mac_of_list (take 6 (drop 6 l))) (le_get (take 4 (drop 12 l))).

(** The sensor records of a payload. *)
Fixpoint sensors_of (l : list byte) : list SensorRecord :=
  match l with
  | t :: a :: b :: c :: l =>
      mkSensorRecord (ToSensorType (byte_to_Z t)) (wraps 24 (le_get [a; b; c])) :: sensors_of l
  | _ => []
  end.

(** The message a device sends for [payload]: header and wire image. *)
Definition header_of (mac : MACAddress) (payload : list byte) : MessageHeader :=
  mkHeader MessageMagic MessageTypeSensorData (Z.of_nat (length payload)) mac
           (ChecksumIEEE payload).
Definition message_of (mac : MACAddress) (payload : list byte) : Message :=
  mkMessage (header_of mac payload) payload (sensors_of payload).
Definition wire (mac : MACAddress) (payload : list byte) : list byte :=
  header_bytes (header_of mac payload) ++ payload.

(** The payloads the protocol admits: whole records, at most 8 KiB. *)
Definition valid_payload (payload : list byte) : Prop :=
  Z.of_nat (length payload) <= MaximumPayloadSize /\
  Z.of_nat (length payload) mod SensorRecordSize = 0.

(** The reason to reject a datagram, if any, by the bytes at their offsets. *)
Definition datagram_verdict (l : list byte) : option sentinel :=
  let size := Z.of_nat (length l) in
  let field o n := le_get (take n (drop o l)) in
  if size <? 16 then Some ErrDatagramSize
  else if negb (field 0%nat 2%nat =? 0xF00D) then Some ErrInvalidMagic
  else if 8192 <? field 4%nat 2%nat then Some ErrPayloadTooLarge
  else if negb (size =? 16 + field 4%nat 2%nat) then Some ErrDatagramSize
  else if negb (field 2%nat 2%nat =? 1) then Some ErrUnsupportedType
  else if negb (field 4%nat 2%nat mod 4 =? 0) then Some ErrInvalidPayload
  else if negb (ChecksumIEEE (drop 16 l) =? field 12%nat 4%nat) then Some ErrChecksumMismatch
  else None.

(** [err] is recognised by [errors.Is] as [target] and as nothing else. *)
Definition is_exactly (err : error) (target : sentinel) : Prop :=
  forall t, errors_Is err t = bool_decide (target = t).

(** ** Lemmas: headers *)

(** A slice seen as a cursor at its start. *)
Lemma slice_cursor l n : mkBinaryData (Slice l n) 0 = cursor [] l n.
Proof. reflexivity. Qed.

Lemma split_header (l : list byte) :
  length l = 16%nat ->
  l = take 2 l ++ take 2 (drop 2 l) ++ take 2 (drop 4 l) ++ take 6 (drop 6 l) ++ take 4 (drop 12 l).
Proof.
  intros Hl. do 16 (destruct l as [|? l]; [discriminate Hl|]).
  destruct l; [reflexivity|discriminate Hl].
Qed.

(** The guards of [DecodeHeader] on a header value. *)
Definition check_header (h : MessageHeader) : res MessageHeader :=
  if negb (Magic h =? MessageMagic)
  then Fail (ErrWrap "decode header" (ErrNew ErrInvalidMagic)) else
  if MaximumPayloadSize <? PayloadLength h
  then Fail (ErrWrap "decode header" (ErrNew ErrPayloadTooLarge)) else
  Ret h.

Lemma DecodeHeader_fields a b c m k spare :
  length a = 2%nat -> length b = 2%nat -> length c = 2%nat -> length m = 6%nat ->
  length k = 4%nat ->
  DecodeHeader (Slice (a ++ b ++ c ++ m ++ k ++ spare) 16)
  = check_header (mkHeader (le_get a) (le_get b) (le_get c) (mac_of_list m) (le_get k)).
Proof.
  intros Ha Hb Hc Hm Hk. unfold DecodeHeader.
  change (negb (slice_len _ =? MessageHeaderSize)) with false. cbv iota.
  rewrite slice_cursor. unfold mbind, M_bind.
  rewrite ReadUint16_cursor by done. rewrite ReadUint16_cursor by done.
  rewrite ReadUint16_cursor by done. rewrite ReadMAC_cursor by done.
  rewrite ReadUint32_cursor by done.
  unfold check_header. by repeat case_match_eqn.
Qed.

Lemma DecodeHeader_spec l spare :
  length l = 16%nat ->
  DecodeHeader (Slice (l ++ spare) 16) = check_header (parse_header l).
Proof.
  intros Hl. rewrite (split_header l Hl) at 1. rewrite <- !app_assoc.
  apply DecodeHeader_fields; rewrite length_take, ?length_drop; lia.
Qed.

Lemma parse_header_bytes h :
  0 <= Magic h < 2 ^ 16 -> 0 <= HType h < 2 ^ 16 -> 0 <= PayloadLength h < 2 ^ 16 ->
  0 <= Checksum h < 2 ^ 32 -> parse_header (header_bytes h) = h.
Proof.
  intros H1 H2 H3 H4. destruct h as [g t p m c]. unfold header_bytes, parse_header. cbn in *.
  destruct m as [[[[[m0 m1] m2] m3] m4] m5].
  change (mkHeader (le_get (le_put 2 g)) (le_get (le_put 2 t)) (le_get (le_put 2 p))
    (m0, m1, m2, m3, m4, m5) (le_get (le_put 4 c)) = mkHeader g t p (m0, m1, m2, m3, m4, m5) c).
  by rewrite !le_get_small by done.
Qed.

Lemma header_bytes_parse l : length l = 16%nat -> header_bytes (parse_header l) = l.
Proof.
  intros Hl. unfold header_bytes, parse_header. cbn [Magic HType PayloadLength MAC Checksum].
  assert (forall n k, (k + n <= 16)%nat ->
    le_put n (le_get (take n (drop k l))) = take n (drop k l)) as Hput.
  { intros n k Hk. rewrite <- (le_put_get (take n (drop k l))) at 2.
    by rewrite take_drop_slice by lia. }
  rewrite mac_bytes_of by (apply take_drop_slice; lia).
  rewrite !Hput by lia.
  change (take 2 l) with (take 2 (drop 0 l)). rewrite Hput by lia.
  symmetry. by apply split_header.
Qed.

Lemma header_bytes_length h : length (header_bytes h) = 16%nat.
Proof. unfold header_bytes. rewrite !length_app, !le_put_length, mac_bytes_length. done. Qed.

Lemma parse_header_range l :
  length l = 16%nat ->
  let h := parse_header l in
  0 <= Magic h < 2 ^ 16 /\ 0 <= HType h < 2 ^ 16 /\ 0 <= PayloadLength h < 2 ^ 16 /\
  0 <= Checksum h < 2 ^ 32.
Proof.
  intros Hl. cbn. split; [|split; [|split]].
  - apply (le_get_range' (take 2 l) 2). rewrite length_take. lia.
  - apply (le_get_range' _ 2). apply take_drop_slice. lia.
  - apply (le_get_range' _ 2). apply take_drop_slice. lia.
  - apply (le_get_range' _ 4). apply take_drop_slice. lia.
Qed.

(** ** Lemmas: payloads *)

Lemma decode_sensors_spec n l pre rest k :
  length l = (4 * n)%nat -> (length pre + length l <= k)%nat ->
  decode_sensors n (cursor pre (l ++ rest) k) = (Ret (sensors_of l), cursor (pre ++ l) rest k).
Proof.
  revert l pre. induction n as [|n IH]; intros l pre Hl Hk.
  { apply length_zero_nil in Hl as ->. by rewrite app_nil_r. }
  do 4 (destruct l as [|? l]; [simpl in Hl; lia|]). cbn [decode_sensors app length] in *.
  unfold mbind, M_bind.
  rewrite ReadUint8_cursor by lia.
  rewrite ReadInt24_cursor by (rewrite length_app; simpl; lia).
  rewrite <- app_assoc. cbn [app].
  rewrite IH by (rewrite ?length_app; simpl; lia).
  unfold mret, M_ret. rewrite <- app_assoc.
  rewrite wrapu_small; [done|]. pose proof (byte_to_Z_range b). lia.
Qed.

Lemma sensors_of_length l n : length l = (4 * n)%nat -> length (sensors_of l) = n.
Proof.
  revert n. induction l as [l IH] using (induction_ltof1 _ (@length byte)). intros n Hl.
  destruct n as [|n]; [by apply length_zero_nil in Hl as ->|].
  do 4 (destruct l as [|? l]; [simpl in Hl; lia|]). cbn [sensors_of length] in *.
  f_equal. apply IH; [unfold ltof; simpl; lia|lia].
Qed.

(** The guards of [DecodeMessage]. *)
Definition check_payload (h : MessageHeader) (l : list byte) : option error :=
  if negb (Z.of_nat (length l) =? PayloadLength h)
  then Some (ErrWrap "decode payload: size" (ErrNew ErrInvalidPayload)) else
  if negb (HType h =? MessageTypeSensorData)
  then Some (ErrWrap "decode payload: type" (ErrNew ErrUnsupportedType)) else
  if negb (PayloadLength h mod SensorRecordSize =? 0)
  then Some (ErrWrap "decode payload: sensor payload length" (ErrNew ErrInvalidPayload)) else
  if negb (ChecksumIEEE l =? Checksum h)
  then Some (ErrWrap "decode payload" (ErrNew ErrChecksumMismatch)) else
  None.

Lemma slice_data_app l spare : slice_data (Slice (l ++ spare) (length l)) = l.
Proof. unfold slice_data. apply take_app_length. Qed.

Lemma slice_ok_app s : slice_ok s -> s = Slice (slice_data s ++ drop (len s) (arr s)) (len s)
  /\ length (slice_data s) = len s.
Proof.
  destruct s as [a n]. unfold slice_ok, slice_data. cbn. intros Hn.
  rewrite take_drop, length_take. split; [done|lia].
Qed.

Lemma DecodeMessage_spec h l spare :
  DecodeMessage h (Slice (l ++ spare) (length l)) =
  match check_payload h l with
  | Some e => Fail e
  | None => Ret (mkMessage h l (sensors_of l))
  end.
Proof.
  unfold DecodeMessage, check_payload. rewrite slice_data_app. unfold slice_len. cbn [len].
  repeat (case_match_eqn; [done|]). bool_to_prop.
  unfold SensorRecordSize in *. rewrite slice_cursor. unfold mbind, M_bind.
  rewrite (decode_sensors_spec _ l [] spare); [done| |simpl; lia].
  rewrite <- E in E1. mod_lia.
Qed.

Lemma DecodeMessage_slice_of h l :
  DecodeMessage h (slice_of l) =
  match check_payload h l with
  | Some e => Fail e
  | None => Ret (mkMessage h l (sensors_of l))
  end.
Proof. rewrite <- (DecodeMessage_spec h l []). by rewrite app_nil_r. Qed.

Lemma DecodeHeader_slice_of l :
  length l = 16%nat -> DecodeHeader (slice_of l) = check_header (parse_header l).
Proof.
  intros Hl. rewrite <- (DecodeHeader_spec l []) by done.
  unfold slice_of. by rewrite app_nil_r, Hl.
Qed.

(** ** Lemmas: datagrams *)

(** Decoding of a datagram on its bytes alone. *)
Definition decode_bytes (l : list byte) : res Message :=
  if Z.of_nat (length l) <? MessageHeaderSize
  then Fail (ErrWrap "decode datagram" (ErrNew ErrDatagramSize)) else
  match check_header (parse_header (take 16 l)) with
  | Ret h =>
      if negb (Z.of_nat (length l) =? MessageHeaderSize + PayloadLength h)
      then Fail (ErrWrap "decode datagram" (ErrNew ErrDatagramSize)) else
      match check_payload h (drop 16 l) with
      | Some e => Fail e
      | None => Ret (mkMessage h (drop 16 l) (sensors_of (drop 16 l)))
      end
  | Fail e => Fail e
  | Panic p => Panic p
  end.

Lemma DecodeDatagram_spec s : slice_ok s -> DecodeDatagram s = decode_bytes (slice_data s).
Proof.
  intros Hok. destruct (slice_ok_app s Hok) as [Es Hlen]. rewrite Es.
  generalize (drop (len s) (arr s)) as spare. rewrite <- Hlen.
  generalize (slice_data s) as l. clear. intros l spare.
  rewrite slice_data_app. unfold DecodeDatagram, decode_bytes.
  unfold slice_len at 1. cbn [len].
  destruct (Z.ltb_spec (Z.of_nat (length l)) MessageHeaderSize) as [|Hl]; [done|].
  unfold MessageHeaderSize in Hl.
  assert (subslice (Slice (l ++ spare) (length l)) 0 MessageHeaderSize
    = Ret (Slice (take 16 l ++ (drop 16 l ++ spare)) 16)) as ->.
  { unfold subslice, slice_expr, slice_cap, MessageHeaderSize. cbn [arr].
    rewrite length_app, (proj2 (Z.leb_le 16 _)) by lia. cbn.
    by rewrite app_assoc, take_drop. }
  cbn [mbind M_bind lift]. unfold mbind, M_bind, lift.
  rewrite DecodeHeader_spec by (rewrite length_take; lia).
  destruct (check_header _) as [h|e|p]; [|done..].
  unfold slice_len. cbn [len].
  destruct (negb _) eqn:E; [done|].
  assert (subslice (Slice (l ++ spare) (length l)) MessageHeaderSize (Z.of_nat (length l))
    = Ret (Slice (drop 16 l ++ spare) (length (drop 16 l)))) as ->.
  { unfold subslice, slice_expr, slice_cap, MessageHeaderSize. cbn [arr].
    rewrite length_app, (proj2 (Z.leb_le 16 _)), (proj2 (Z.leb_le (Z.of_nat (length l)) _)) by lia.
    cbn [andb Z.leb Z.compare]. do 2 f_equal.
    - change (Z.to_nat 16) with 16%nat. by rewrite drop_app_le by lia.
    - rewrite length_drop. lia. }
  rewrite DecodeMessage_spec. by destruct (check_payload _ _).
Qed.

Lemma check_header_Ret h : check_header h = Ret h <->
  Magic h = MessageMagic /\ PayloadLength h <= MaximumPayloadSize.
Proof. unfold check_header. repeat case_match_eqn; bool_to_prop; split; intros; try done; lia. Qed.

Lemma check_header_inv h r : check_header h = r ->
  (r = Ret h /\ Magic h = MessageMagic /\ PayloadLength h <= MaximumPayloadSize)
  \/ exists e, r = Fail e.
Proof. unfold check_header. repeat case_match_eqn; bool_to_prop; intros <-; eauto. Qed.

Lemma check_payload_None h l : check_payload h l = None <->
  Z.of_nat (length l) = PayloadLength h /\ HType h = MessageTypeSensorData /\
  PayloadLength h mod SensorRecordSize = 0 /\ ChecksumIEEE l = Checksum h.
Proof. unfold check_payload. repeat case_match_eqn; bool_to_prop; intuition congruence. Qed.

Lemma decode_bytes_Ret l m :
  decode_bytes l = Ret m <->
  exists mac payload, valid_payload payload /\ l = wire mac payload /\ m = message_of mac payload.
Proof.
  unfold decode_bytes, MessageHeaderSize. split.
  - destruct (Z.ltb_spec (Z.of_nat (length l)) 16) as [|Hl]; [done|].
    set (h := parse_header (take 16 l)).
    destruct (check_header_inv h _ eq_refl) as [(-> & Hm & Hp)|[e ->]]; [|done].
    destruct (negb _) eqn:E; [done|]. destruct (check_payload _ _) eqn:C; [done|].
    apply check_payload_None in C as (C1 & C2 & C3 & C4). intros [= <-].
    assert (h = header_of (MAC h) (drop 16 l)) as Hh.
    { unfold header_of. rewrite <- Hm, <- C2, C1, C4. by destruct h. }
    exists (MAC h), (drop 16 l). split; [split; [lia|]|split].
    + by rewrite C1.
    + unfold wire. rewrite <- Hh. unfold h.
      rewrite header_bytes_parse by (rewrite length_take; lia). by rewrite take_drop.
    + unfold message_of. by rewrite <- Hh.
  - intros (mac & payload & [Hv1 Hv2] & -> & ->).
    unfold wire, MaximumPayloadSize in *.
    pose proof (header_bytes_length (header_of mac payload)) as Hl.
    rewrite length_app, Hl, (proj2 (Z.ltb_ge _ _)) by lia.
    rewrite (take_app_length' _ payload 16 (eq_sym Hl)), (drop_app_length' _ payload 16 (eq_sym Hl)).
    rewrite parse_header_bytes;
      [|cbn; (split; [done|done]) || (pose proof (ChecksumIEEE_range payload); lia)..].
    rewrite (proj2 (check_header_Ret _)) by (cbn; unfold MaximumPayloadSize; lia).
    rewrite (proj2 (negb_false_iff _)) by (apply Z.eqb_eq; cbn; lia).
    by rewrite (proj2 (check_payload_None _ _)).
Qed.

(** ** Lemmas: encoding *)

Lemma encoded_header g t p mac c :
  slice_store (slice_store (slice_store (slice_store (slice_store
    (slice_of (replicate 16 Byte.x00)) 0 (le_put 2 g)) 2 (le_put 2 t)) 4 (le_put 2 p))
    6 (mac_bytes mac)) 12 (le_put 4 c)
  = slice_of (header_bytes (mkHeader g t p mac c)).
Proof. destruct mac as [[[[[? ?] ?] ?] ?] ?]. reflexivity. Qed.

Lemma header_of_range mac payload :
  valid_payload payload ->
  let h := header_of mac payload in
  0 <= Magic h < 2 ^ 16 /\ 0 <= HType h < 2 ^ 16 /\ 0 <= PayloadLength h < 2 ^ 16 /\
  0 <= Checksum h < 2 ^ 32.
Proof.
  unfold valid_payload, MaximumPayloadSize. intros [Hv _]. cbn.
  pose proof (ChecksumIEEE_range payload). unfold MessageMagic, MessageTypeSensorData. lia.
Qed.

Lemma parse_header_of mac payload :
  valid_payload payload -> parse_header (header_bytes (header_of mac payload)) = header_of mac payload.
Proof. intros Hv. apply parse_header_bytes; apply (header_of_range mac payload Hv). Qed.

Lemma check_header_of mac payload :
  valid_payload payload -> check_header (header_of mac payload) = Ret (header_of mac payload).
Proof. intros [Hv _]. by apply check_header_Ret. Qed.

Lemma check_payload_of mac payload :
  valid_payload payload -> check_payload (header_of mac payload) payload = None.
Proof. intros [_ Hv]. by apply check_payload_None. Qed.

Lemma DecodeHeader_of mac payload :
  valid_payload payload ->
  DecodeHeader (slice_of (header_bytes (header_of mac payload))) = Ret (header_of mac payload).
Proof.
  intros Hv.
  rewrite DecodeHeader_slice_of, parse_header_of by (done || apply header_bytes_length).
  by apply check_header_of.
Qed.

Lemma EncodeMessage_valid mac payload :
  valid_payload payload -> EncodeMessage MessageTypeSensorData mac payload = Ret (wire mac payload).
Proof.
  intros Hv. pose proof Hv as [Hv1 Hv2]. unfold EncodeMessage.
  rewrite (proj2 (Z.ltb_ge _ _)) by done.
  change (negb (MessageTypeSensorData =? MessageTypeSensorData)) with false. cbv iota.
  rewrite (proj2 (negb_false_iff _)) by (by apply Z.eqb_eq). cbv zeta.
  change (Z.to_nat MessageHeaderSize) with 16%nat.
  rewrite encoded_header, !wrapu_small
    by (unfold MaximumPayloadSize, MessageTypeSensorData in *; lia).
  change (mkHeader _ _ _ _ _) with (header_of mac payload).
  rewrite DecodeHeader_of by done. by rewrite slice_of_data.
Qed.

Lemma EncodeMessage_Ret t mac payload enc :
  EncodeMessage t mac payload = Ret enc ->
  t = MessageTypeSensorData /\ valid_payload payload /\ enc = wire mac payload.
Proof.
  intros H. assert (t = MessageTypeSensorData /\ valid_payload payload) as [-> Hv].
  { revert H. unfold EncodeMessage, valid_payload.
    repeat (case_match_eqn; [done|]). bool_to_prop. done. }
  split; [done|]. split; [done|]. rewrite EncodeMessage_valid in H by done. congruence.
Qed.

Lemma decode_wire mac payload :
  valid_payload payload -> decode_bytes (wire mac payload) = Ret (message_of mac payload).
Proof. intros Hv. apply decode_bytes_Ret. eauto. Qed.

Lemma wire_length mac payload : length (wire mac payload) = (16 + length payload)%nat.
Proof. unfold wire. by rewrite length_app, header_bytes_length. Qed.

Lemma wire_inj mac mac' p p' :
  valid_payload p -> valid_payload p' -> wire mac p = wire mac' p' -> mac = mac' /\ p = p'.
Proof.
  intros Hv Hv' H. assert (message_of mac p = message_of mac' p') as E.
  { pose proof (decode_wire mac p Hv) as E1. pose proof (decode_wire mac' p' Hv') as E2.
    rewrite H in E1. congruence. }
  split; [exact (f_equal (MAC ∘ Header) E)|exact (f_equal Payload E)].
Qed.

(** ** Lemmas: byte streams *)

(** Decoding of one message at the start of a byte sequence: the message and
    the bytes after it. *)
Lemma ReadMessage_wire r mac payload rest :
  valid_payload payload -> pending r = wire mac payload ++ rest ->
  exists r', ReadMessage r = (Ret (message_of mac payload), r')
    /\ pending r' = rest /\ read_err r' = read_err r.
Proof.
  intros Hv Hp. unfold ReadMessage, mbind, M_bind, wrap_err.
  change (Z.to_nat MessageHeaderSize) with 16%nat.
  destruct (ReadFull_spec 16 r) as (r1 & He1 & H1).
  rewrite Hp, length_app, wire_length, (proj2 (Nat.leb_le _ _)) in H1 by lia.
  destruct H1 as [E1 P1]. rewrite E1. unfold wire in P1 |- *.
  pose proof (header_bytes_length (header_of mac payload)) as Hl.
  rewrite <- !app_assoc in P1 |- *.
  rewrite (drop_app_length' _ _ 16 (eq_sym Hl)) in P1.
  rewrite (take_app_length' _ _ 16 (eq_sym Hl)). unfold lift.
  rewrite DecodeHeader_of by done. cbn [PayloadLength header_of]. rewrite Nat2Z.id.
  destruct (ReadFull_spec (length payload) r1) as (r2 & He2 & H2).
  rewrite P1, length_app, (proj2 (Nat.leb_le _ _)) in H2 by lia.
  destruct H2 as [E2 P2]. rewrite E2, take_app_length.
  rewrite DecodeMessage_slice_of, check_payload_of by done.
  exists r2. split; [done|]. rewrite P2, drop_app_length. split; [done|congruence].
Qed.

(** [io.ReadFull] and [ReadMessage] as functions of the bytes still to come
    and of the final error of the stream. *)
Definition read_full_bytes (min : nat) (l : list byte) (e : error) : res (list byte) * list byte :=
  if (min <=? length l)%nat then (Ret (take min l), drop min l)
  else (Fail (if (0 <? length l)%nat && errors_Is e io_EOF
              then ErrNew io_ErrUnexpectedEOF else e), []).

Definition read_message_bytes (l : list byte) (e : error) : res Message * list byte :=
  match read_full_bytes 16 l e with
  | (Ret hb, l1) =>
      match check_header (parse_header hb) with
      | Ret h =>
          match read_full_bytes (Z.to_nat (PayloadLength h)) l1 e with
          | (Ret p, l2) =>
              (match check_payload h p with
               | Some err => Fail err
               | None => Ret (mkMessage h p (sensors_of p))
               end, l2)
          | (Fail err, l2) => (Fail (ErrWrap "read payload" err), l2)
          | (Panic q, l2) => (Panic q, l2)
          end
      | Fail err => (Fail err, l1)
      | Panic q => (Panic q, l1)
      end
  | (Fail err, l1) => (Fail (ErrWrap "read header" err), l1)
  | (Panic q, l1) => (Panic q, l1)
  end.

Lemma ReadFull_bytes min r :
  exists r', ReadFull min r = ((read_full_bytes min (pending r) (read_err r)).1, r')
    /\ pending r' = (read_full_bytes min (pending r) (read_err r)).2
    /\ read_err r' = read_err r.
Proof.
  destruct (ReadFull_spec min r) as (r' & He & H). exists r'. unfold read_full_bytes.
  destruct (Nat.leb min (length (pending r))).
  - by destruct H as [-> ->].
  - destruct H as [Hc ->]. split; [done|]. split; [|done]. unfold pending. by rewrite Hc.
Qed.

Lemma read_full_length min l e bs l' :
  read_full_bytes min l e = (Ret bs, l') -> length bs = min.
Proof.
  unfold read_full_bytes. destruct (Nat.leb_spec min (length l)); [|done].
  intros [= <- _]. rewrite length_take. lia.
Qed.

Lemma ReadMessage_bytes r :
  exists r', ReadMessage r = ((read_message_bytes (pending r) (read_err r)).1, r')
    /\ pending r' = (read_message_bytes (pending r) (read_err r)).2
    /\ read_err r' = read_err r.
Proof.
  unfold ReadMessage, mbind, M_bind, wrap_err, read_message_bytes.
  change (Z.to_nat MessageHeaderSize) with 16%nat.
  destruct (ReadFull_bytes 16 r) as (r1 & E1 & P1 & R1). rewrite E1.
  destruct (read_full_bytes 16 _ _) as [[hb|e|p] l1] eqn:F1; cbn [fst snd] in *; [|by eauto..].
  unfold lift. rewrite DecodeHeader_slice_of by (by eapply read_full_length).
  destruct (check_header _) as [h|e|p]; [|by eauto..].
  destruct (ReadFull_bytes (Z.to_nat (PayloadLength h)) r1) as (r2 & E2 & P2 & R2).
  rewrite E2. rewrite P1, R1 in *.
  destruct (read_full_bytes _ l1 _) as [[pl|e|p] l2] eqn:F2; cbn [fst snd] in *;
    [|exists r2; split_and!; congruence..].
  rewrite DecodeMessage_slice_of. exists r2. split_and!; congruence.
Qed.

(** ** Properties *)

(** C1. The datagram decoder accepts exactly the wire images of messages: a
    datagram decodes to a message iff, for some MAC and some payload of whole
    records of at most 8 KiB, it is the header (magic, type, length, MAC,
    CRC-32) followed by the payload, and the message is then that header, the
    payload and its sensor records.  Spare capacity behind the datagram has
    no influence. *)
Theorem DecodeDatagram_accepts_wire s m :
  slice_ok s ->
  (DecodeDatagram s = Ret m <->
   exists mac payload, valid_payload payload /\ slice_data s = wire mac payload
     /\ m = message_of mac payload).
Proof. intros Hs. rewrite DecodeDatagram_spec by done. apply decode_bytes_Ret. Qed.

(** A temperature record of value 42 from device 02:00:00:ab:cd:ef. *)
Definition sample_mac : MACAddress :=
  (Byte.x02, Byte.x00, Byte.x00, Byte.xab, Byte.xcd, Byte.xef).
Definition sample_payload : list byte := [Byte.x01; Byte.x2a; Byte.x00; Byte.x00].

Lemma sample_payload_valid : valid_payload sample_payload.
Proof. split; vm_compute; congruence. Qed.

Lemma DecodeDatagram_accepts_wire_witness :
  DecodeDatagram (slice_of (wire sample_mac sample_payload))
  = Ret (message_of sample_mac sample_payload).
Proof.
  apply DecodeDatagram_accepts_wire; [apply slice_of_ok|].
  exists sample_mac, sample_payload.
  split; [apply sample_payload_valid|]. split; [apply slice_of_data|reflexivity].
Defined.

(** C2. Encoding and decoding are inverse: [EncodeMessage] succeeds exactly on
    sensor-data messages with a valid payload, what it returns decodes, as a
    datagram and at the start of a byte stream, to a message with the given
    MAC and payload, and every message a datagram decodes to is re-encoded to
    that datagram. *)
Theorem EncodeMessage_DecodeDatagram t mac payload :
  ((exists enc, EncodeMessage t mac payload = Ret enc) <->
   t = MessageTypeSensorData /\ valid_payload payload) /\
  (forall enc, EncodeMessage t mac payload = Ret enc ->
     DecodeDatagram (slice_of enc) = Ret (message_of mac payload) /\
     fst (ReadMessage (mkReader [enc] (ErrNew io_EOF))) = Ret (message_of mac payload)) /\
  (forall s m, slice_ok s -> DecodeDatagram s = Ret m ->
     EncodeMessage (HType (Header m)) (MAC (Header m)) (Payload m) = Ret (slice_data s)).
Proof.
  split; [|split].
  - split.
    + intros [enc H%EncodeMessage_Ret]. tauto.
    + intros [-> Hv]. eexists. by apply EncodeMessage_valid.
  - intros enc (-> & Hv & ->)%EncodeMessage_Ret. split.
    + rewrite DecodeDatagram_spec, slice_of_data by apply slice_of_ok. by apply decode_wire.
    + destruct (ReadMessage_wire (mkReader [wire mac payload] (ErrNew io_EOF)) mac payload [])
        as (r' & -> & _); done.
  - intros s m Hs H. rewrite DecodeDatagram_spec in H by done.
    apply decode_bytes_Ret in H as (mac' & p & Hv & -> & ->). by apply EncodeMessage_valid.
Qed.

Lemma verdict_header l :
  (16 <= length l)%nat ->
  parse_header (take 16 l)
  = mkHeader (le_get (take 2 (drop 0 l))) (le_get (take 2 (drop 2 l))) (le_get (take 2 (drop 4 l)))
      (MAC (parse_header (take 16 l))) (le_get (take 4 (drop 12 l))).
Proof.
  intros Hl. do 16 (destruct l as [|? l]; [simpl in Hl; lia|]). reflexivity.
Qed.

Lemma is_exactly_wrap msg s : is_exactly (ErrWrap msg (ErrNew s)) s.
Proof. done. Qed.

(** C25. Every datagram gets a verdict, and malformed ones are classified: the
    decoder never panics, fails on exactly the datagrams that
    [datagram_verdict] rejects, and the error it returns is recognised by
    [errors.Is] as the sentinel of the first failed check and no other. *)
Theorem DecodeDatagram_verdict s :
  slice_ok s ->
  match datagram_verdict (slice_data s) with
  | None => exists m, DecodeDatagram s = Ret m
  | Some v => exists err, DecodeDatagram s = Fail err /\ is_exactly err v
  end.
Proof.
  intros Hs. rewrite DecodeDatagram_spec by done. generalize (slice_data s) as l. clear.
  intros l. unfold decode_bytes, datagram_verdict, MessageHeaderSize. cbv zeta.
  destruct (Z.ltb_spec (Z.of_nat (length l)) 16) as [|Hl]; [eauto using is_exactly_wrap|].
  rewrite verdict_header by lia. set (h := mkHeader _ _ _ _ _).
  change (le_get (take 2 (drop 0 l))) with (Magic h).
  change (le_get (take 2 (drop 2 l))) with (HType h).
  change (le_get (take 2 (drop 4 l))) with (PayloadLength h).
  change (le_get (take 4 (drop 12 l))) with (Checksum h).
  unfold check_header, MessageMagic, MaximumPayloadSize. change (8 * 1024) with 8192.
  destruct (negb (Magic h =? 0xF00D)); [eauto using is_exactly_wrap|].
  destruct (8192 <? PayloadLength h); [eauto using is_exactly_wrap|].
  destruct (negb (Z.of_nat (length l) =? 16 + PayloadLength h)) eqn:E;
    [eauto using is_exactly_wrap|].
  unfold check_payload, MessageTypeSensorData, SensorRecordSize.
  bool_to_prop. replace (Z.of_nat (length (drop 16 l))) with (PayloadLength h)
    by (rewrite length_drop; lia).
  rewrite Z.eqb_refl. cbn [negb].
  destruct (negb (HType h =? 1)); [eauto using is_exactly_wrap|].
  destruct (negb (PayloadLength h mod 4 =? 0)); [eauto using is_exactly_wrap|].
  destruct (negb (ChecksumIEEE (drop 16 l) =? Checksum h)); eauto using is_exactly_wrap.
Qed.

Lemma DecodeDatagram_verdict_witness :
  exists err, DecodeDatagram (slice_of [Byte.x0d; Byte.xf0]) = Fail err
    /\ is_exactly err ErrDatagramSize.
Proof. exact (DecodeDatagram_verdict (slice_of [Byte.x0d; Byte.xf0]) (slice_of_ok _)). Defined.

(** C26. A corrupted payload byte is always detected: replacing one byte of
    the payload of a wire image by a different one gives a datagram that is
    rejected with [ErrChecksumMismatch]. *)
Theorem corrupted_payload_rejected mac pre b b' post spare :
  valid_payload (pre ++ b :: post) -> b <> b' ->
  let corrupted := header_bytes (header_of mac (pre ++ b :: post)) ++ pre ++ b' :: post in
  exists err, DecodeDatagram (Slice (corrupted ++ spare) (length corrupted)) = Fail err
    /\ is_exactly err ErrChecksumMismatch.
Proof.
  intros Hv Hb. cbv zeta. set (h := header_of _ _).
  assert (length (pre ++ b' :: post) = length (pre ++ b :: post)) as Hlen
    by (by rewrite !length_app).
  pose proof (header_bytes_length h) as Hl.
  rewrite DecodeDatagram_spec by (unfold slice_ok; cbn [arr len]; rewrite (length_app _ spare); lia).
  rewrite slice_data_app. unfold decode_bytes, MessageHeaderSize.
  rewrite length_app, Hl, Hlen, (proj2 (Z.ltb_ge _ _)) by lia.
  rewrite (take_app_length' _ _ 16 (eq_sym Hl)), (drop_app_length' _ _ 16 (eq_sym Hl)).
  unfold h at 1. rewrite parse_header_of, check_header_of by done.
  rewrite (proj2 (negb_false_iff _)) by (apply Z.eqb_eq; cbn [PayloadLength header_of]; lia).
  unfold check_payload. cbn [PayloadLength HType Checksum header_of].
  rewrite Hlen, Z.eqb_refl. cbn [negb]. destruct Hv as [_ Hv]. rewrite Hv.
  change (negb (MessageTypeSensorData =? MessageTypeSensorData)) with false.
  change (negb (0 =? 0)) with false. cbv iota.
  destruct (negb _) eqn:E; [eauto using is_exactly_wrap|]. bool_to_prop.
  exfalso. by eapply (ChecksumIEEE_byte_change pre b b' post).
Qed.

Lemma corrupted_payload_rejected_witness :
  exists err, DecodeDatagram (slice_of
      (header_bytes (header_of sample_mac sample_payload) ++ [Byte.x01; Byte.x2b; Byte.x00; Byte.x00]))
      = Fail err /\ is_exactly err ErrChecksumMismatch.
Proof.
  exact (corrupted_payload_rejected sample_mac [Byte.x01] Byte.x2a Byte.x2b [Byte.x00; Byte.x00] []
    sample_payload_valid ltac:(discriminate)).
Defined.

(** C27. TCP framing does not depend on how the bytes arrive: two streams with
    the same bytes to come, cut into chunks in any way, give the same result
    and leave the same bytes; and from a stream that starts with the wire
    image of a message exactly that message is read, every following byte
    being left for the next call. *)
Theorem ReadMessage_framing :
  (forall r1 r2, pending r1 = pending r2 -> read_err r1 = read_err r2 ->
     result (ReadMessage r1) = result (ReadMessage r2) /\
     pending (final (ReadMessage r1)) = pending (final (ReadMessage r2))) /\
  (forall r mac payload rest, valid_payload payload -> pending r = wire mac payload ++ rest ->
     result (ReadMessage r) = Ret (message_of mac payload) /\
     pending (final (ReadMessage r)) = rest).
Proof.
  split.
  - intros r1 r2 Hp He.
    destruct (ReadMessage_bytes r1) as (r1' & -> & P1 & _).
    destruct (ReadMessage_bytes r2) as (r2' & -> & P2 & _).
    cbn [result final fst snd]. by rewrite P1, P2, Hp, He.
  - intros r mac payload rest Hv Hp.
    destruct (ReadMessage_wire r mac payload rest Hv Hp) as (r' & -> & Hr' & _). by split.
Qed.

Lemma ReadMessage_framing_witness :
  result (ReadMessage (mkReader [take 3 (wire sample_mac sample_payload); [];
                                 drop 3 (wire sample_mac sample_payload) ++ [Byte.x0d]]
                                (ErrNew io_EOF)))
  = Ret (message_of sample_mac sample_payload).
Proof.
  destruct ReadMessage_framing as [_ H].
  apply (H _ _ _ [Byte.x0d] sample_payload_valid). reflexivity.
Defined.
