(* ===== verification/GoStrings.v ===== *)
(** * Strings

    The string functions of the standard library the program uses, on the
    byte sequence of a Go string: decimal formatting and parsing
    ([fmt]'s [%0Nd], [strconv.ParseUint]), prefixes and suffixes, hexadecimal
    formatting, white space. *)

From S2P Require Import Prelude.
From Stdlib Require Import Ascii.
Open Scope Z_scope.

(** ** Definitions *)

Definition chars (s : string) : list Ascii.ascii := String.list_ascii_of_string s.
Definition of_chars (l : list Ascii.ascii) : string := String.string_of_list_ascii l.

Definition digit_char (d : Z) : Ascii.ascii := Ascii.ascii_of_N (Z.to_N (48 + d)).
Definition digit_value (c : Ascii.ascii) : option Z :=
  let v := Z.of_N (Ascii.N_of_ascii c) in
  if (48 <=? v) && (v <=? 57) then Some (v - 48) else None.

(** Decimal digits of a number, most significant first; [fuel] bounds their
    number (20 digits are enough for a [uint64]). *)
Fixpoint decimal (fuel : nat) (n : Z) : list Ascii.ascii :=
  match fuel with
  | O => []
  | S fuel => if n <? 10 then [digit_char n]
              else decimal fuel (n / 10) ++ [digit_char (n mod 10)]
  end.

(** [fmt.Sprintf("%0wd", n)] for a [uint64]. *)
Definition format_0d (w : nat) (n : Z) : list Ascii.ascii :=
  let d := decimal 20 n in replicate (w - length d) (digit_char 0) ++ d.

(** [strconv.ParseUint(s, 10, bits)]: digits only, no sign, no overflow. *)
Fixpoint parse_digits (acc : Z) (l : list Ascii.ascii) : option Z :=
  match l with
  | [] => Some acc
  | c :: l => match digit_value c with
              | Some d => parse_digits (10 * acc + d) l
              | None => None
              end
  end.

Definition ParseUint (bits : Z) (l : list Ascii.ascii) : option Z :=
  match l with
  | [] => None
  | _ => match parse_digits 0 l with
         | Some v => if v <? 2 ^ bits then Some v else None
         | None => None
         end
  end.

(** [strings.HasPrefix] and [strings.HasSuffix]. *)
Definition has_prefix (l p : list Ascii.ascii) : bool :=
  bool_decide (take (length p) l = p).
Definition has_suffix (l s : list Ascii.ascii) : bool :=
  bool_decide ((length s <= length l)%nat /\ drop (length l - length s) l = s).

(** [fmt.Sprintf("%x", s)] on a string: two lowercase digits per byte. *)
Definition hex_digit (d : Z) : Ascii.ascii :=
  if d <? 10 then digit_char d else Ascii.ascii_of_N (Z.to_N (87 + d)).
Definition hex_char (c : Ascii.ascii) : list Ascii.ascii :=
  let v := Z.of_N (Ascii.N_of_ascii c) in [hex_digit (v / 16); hex_digit (v mod 16)].
Definition hex_string (l : list Ascii.ascii) : list Ascii.ascii := concat (map hex_char l).

(** The white space rune at the head of a UTF-8 string, as a length:
    [unicode.IsSpace] on the decoded rune. *)
Definition space_rune (l : list Z) : nat :=
  match l with
  | 0xC2 :: 0x85 :: _ | 0xC2 :: 0xA0 :: _ => 2%nat
  | 0xE1 :: 0x9A :: 0x80 :: _ | 0xE2 :: 0x81 :: 0x9F :: _ | 0xE3 :: 0x80 :: 0x80 :: _ => 3%nat
  | 0xE2 :: 0x80 :: c :: _ =>
      if (0x80 <=? c) && (c <=? 0x8A) || (c =? 0xA8) || (c =? 0xA9) || (c =? 0xAF)
      then 3%nat else 0%nat
  | c :: _ => if (9 <=? c) && (c <=? 13) || (c =? 32) then 1%nat else 0%nat
  | [] => 0%nat
  end.

Definition char_codes (l : list Ascii.ascii) : list Z := map (fun c => Z.of_N (Ascii.N_of_ascii c)) l.

Fixpoint trim_left (fuel : nat) (l : list Ascii.ascii) : list Ascii.ascii :=
  match fuel with
  | O => l
  | S fuel => match space_rune (char_codes l) with
              | O => l
              | n => trim_left fuel (drop n l)
              end
  end.

(** The white space rune at the end: one, two or three bytes. *)
Definition space_rune_end (l : list Ascii.ascii) : nat :=
  let sp n := bool_decide (space_rune (char_codes (drop (length l - n) l)) = n) &&
              (n <=? length l)%nat in
  if sp 1%nat then 1%nat else if sp 2%nat then 2%nat else if sp 3%nat then 3%nat else 0%nat.

Fixpoint trim_right (fuel : nat) (l : list Ascii.ascii) : list Ascii.ascii :=
  match fuel with
  | O => l
  | S fuel => match space_rune_end l with
              | O => l
              | n => trim_right fuel (take (length l - n) l)
              end
  end.

(** [strings.TrimSpace] *)
Definition TrimSpace (l : list Ascii.ascii) : list Ascii.ascii :=
  let l := trim_left (length l) l in trim_right (length l) l.

(** ** Lemmas *)

Lemma of_chars_chars s : of_chars (chars s) = s.
Proof. apply String.string_of_list_ascii_of_string. Qed.

Lemma chars_of_chars l : chars (of_chars l) = l.
Proof. apply String.list_ascii_of_string_of_list_ascii. Qed.

#[export] Instance of_chars_inj : Inj (=) (=) of_chars.
Proof. intros a b H. by rewrite <- (chars_of_chars a), H, chars_of_chars. Qed.

#[export] Instance chars_inj : Inj (=) (=) chars.
Proof. intros a b H. by rewrite <- (of_chars_chars a), H, of_chars_chars. Qed.

#[export] Hint Rewrite of_chars_chars chars_of_chars : go_rw.

Lemma digit_value_char d : 0 <= d < 10 -> digit_value (digit_char d) = Some d.
Proof.
  intros Hd. unfold digit_value, digit_char.
  rewrite Ascii.N_ascii_embedding by lia. rewrite Z2N.id by lia.
  rewrite (proj2 (Z.leb_le _ _)), (proj2 (Z.leb_le _ _)) by lia. cbn. f_equal. lia.
Qed.

Lemma parse_digits_app acc l l' :
  parse_digits acc (l ++ l') =
  match parse_digits acc l with Some v => parse_digits v l' | None => None end.
Proof.
  revert acc. induction l as [|c l IH]; intros acc; [done|]. cbn.
  by destruct (digit_value c).
Qed.

Lemma parse_digits_zeros k l : parse_digits 0 (replicate k (digit_char 0) ++ l) = parse_digits 0 l.
Proof. induction k as [|k IH]; [done|]. exact IH. Qed.

Lemma parse_digits_decimal fuel n :
  0 <= n < 10 ^ Z.of_nat fuel -> parse_digits 0 (decimal fuel n) = Some n.
Proof.
  revert n. induction fuel as [|fuel IH]; intros n Hn; [simpl in *; f_equal; lia|].
  cbn [decimal]. destruct (Z.ltb_spec n 10).
  - cbn. rewrite digit_value_char by lia. done.
  - rewrite parse_digits_app, IH.
    + cbn [parse_digits]. rewrite digit_value_char by mod_lia. f_equal. mod_lia.
    + replace (Z.of_nat (S fuel)) with (1 + Z.of_nat fuel) in Hn by lia.
      rewrite Z.pow_add_r in Hn by lia. mod_lia.
Qed.

Lemma parse_digits_bound l acc v :
  0 <= acc -> parse_digits acc l = Some v ->
  0 <= v < (acc + 1) * 10 ^ Z.of_nat (length l).
Proof.
  revert acc. induction l as [|c l IH]; intros acc Ha; [intros [= <-]; simpl; lia|].
  cbn [parse_digits]. unfold digit_value.
  destruct (_ && _) eqn:E; [|done]. bool_to_prop. intros Hv%IH; [|lia].
  cbn [length]. replace (Z.of_nat (S (length l))) with (1 + Z.of_nat (length l)) by lia.
  rewrite Z.pow_add_r by lia. nia.
Qed.

Lemma decimal_length fuel n k :
  0 <= n < 10 ^ Z.of_nat k -> (0 < k)%nat -> (length (decimal fuel n) <= k)%nat.
Proof.
  revert n k. induction fuel as [|fuel IH]; intros n k Hn Hk; [simpl; lia|].
  cbn [decimal]. destruct (Z.ltb_spec n 10); [simpl; lia|].
  destruct k as [|k]; [lia|].
  replace (Z.of_nat (S k)) with (1 + Z.of_nat k) in Hn by lia.
  rewrite Z.pow_add_r in Hn by lia.
  rewrite length_app. simpl.
  assert (length (decimal fuel (n / 10)) <= k)%nat; [|lia].
  apply IH; [mod_lia|]. destruct k; [simpl in Hn; lia|lia].
Qed.

Lemma decimal_length_ge fuel n k :
  10 ^ Z.of_nat k <= n -> n < 10 ^ Z.of_nat fuel -> (k < length (decimal fuel n))%nat.
Proof.
  revert n k. induction fuel as [|fuel IH]; intros n k Hk Hn.
  { assert (0 < 10 ^ Z.of_nat k) by lia. simpl in Hn. lia. }
  cbn [decimal]. destruct (Z.ltb_spec n 10).
  - destruct k as [|k]; [simpl; lia|].
    replace (Z.of_nat (S k)) with (1 + Z.of_nat k) in Hk by lia.
    rewrite Z.pow_add_r in Hk by lia. assert (0 < 10 ^ Z.of_nat k) by lia. lia.
  - rewrite length_app. cbn [length].
    replace (Z.of_nat (S fuel)) with (1 + Z.of_nat fuel) in Hn by lia.
    rewrite Z.pow_add_r in Hn by lia.
    destruct k as [|k]; [lia|].
    replace (Z.of_nat (S k)) with (1 + Z.of_nat k) in Hk by lia.
    rewrite Z.pow_add_r in Hk by lia.
    assert (k < length (decimal fuel (n / 10)))%nat; [|lia].
    apply IH; mod_lia.
Qed.

Lemma parse_format_0d w n : 0 <= n < 2 ^ 64 -> parse_digits 0 (format_0d w n) = Some n.
Proof.
  intros Hn. unfold format_0d. rewrite parse_digits_zeros.
  apply parse_digits_decimal. change (10 ^ Z.of_nat 20) with 100000000000000000000. lia.
Qed.

Lemma format_0d_inj w n m :
  0 <= n < 2 ^ 64 -> 0 <= m < 2 ^ 64 -> format_0d w n = format_0d w m -> n = m.
Proof.
  intros Hn Hm E. apply (f_equal (parse_digits 0)) in E.
  rewrite !parse_format_0d in E by done. congruence.
Qed.

Lemma format_0d_length w n :
  0 <= n < 10 ^ Z.of_nat w -> (0 < w)%nat -> length (format_0d w n) = w.
Proof.
  intros Hn Hw. unfold format_0d. rewrite length_app, length_replicate.
  pose proof (decimal_length 20 n w Hn Hw). lia.
Qed.

Lemma format_0d_length_ge w n :
  10 ^ Z.of_nat w <= n < 2 ^ 64 -> (w < length (format_0d w n))%nat.
Proof.
  intros Hn. unfold format_0d. rewrite length_app, length_replicate.
  assert (w < length (decimal 20 n))%nat; [|lia].
  apply decimal_length_ge; [lia|]. change (10 ^ Z.of_nat 20) with 100000000000000000000. lia.
Qed.

Lemma has_suffix_app l s : has_suffix (l ++ s) s = true.
Proof.
  unfold has_suffix. apply bool_decide_eq_true. rewrite length_app. split; [lia|].
  replace (_ - _)%nat with (length l) by lia. apply drop_app_length.
Qed.

Lemma has_prefix_app p l : has_prefix (p ++ l) p = true.
Proof. unfold has_prefix. apply bool_decide_eq_true, take_app_length. Qed.

Lemma hex_digit_inj d d' : 0 <= d < 16 -> 0 <= d' < 16 -> hex_digit d = hex_digit d' -> d = d'.
Proof.
  intros Hd Hd' E. apply (f_equal Ascii.N_of_ascii) in E. revert E.
  unfold hex_digit, digit_char.
  destruct (Z.ltb_spec d 10), (Z.ltb_spec d' 10);
    rewrite !Ascii.N_ascii_embedding by lia; lia.
Qed.

Lemma N_of_ascii_range c : 0 <= Z.of_N (Ascii.N_of_ascii c) < 256.
Proof. pose proof (Ascii.N_ascii_bounded c). lia. Qed.

Lemma hex_char_inj c c' : hex_char c = hex_char c' -> c = c'.
Proof.
  pose proof (N_of_ascii_range c). pose proof (N_of_ascii_range c').
  unfold hex_char. intros [= E1 E2].
  apply hex_digit_inj in E1; [|mod_lia..]. apply hex_digit_inj in E2; [|mod_lia..].
  rewrite <- (Ascii.ascii_N_embedding c), <- (Ascii.ascii_N_embedding c'). f_equal. mod_lia.
Qed.

Lemma hex_string_inj l l' : hex_string l = hex_string l' -> l = l'.
Proof.
  revert l'. induction l as [|c l IH]; intros [|c' l']; try done.
  unfold hex_string. cbn [map concat]. intros E.
  apply app_inj_1 in E as [E1 E2]; [|done]. f_equal; [by apply hex_char_inj|by apply IH].
Qed.

(** ** Fixed-width formatting and parsing are inverse *)

Lemma decimal_fuel f1 f2 n :
  0 <= n -> n < 10 ^ Z.of_nat (S f1) -> n < 10 ^ Z.of_nat (S f2) ->
  decimal (S f1) n = decimal (S f2) n.
Proof.
  revert f2 n. induction f1 as [|f1 IH]; intros f2 n Hn H1 H2.
  - change (10 ^ Z.of_nat 1) with 10 in H1. cbn [decimal].
    by rewrite (proj2 (Z.ltb_lt _ _)) by done.
  - destruct f2 as [|f2].
    + change (10 ^ Z.of_nat 1) with 10 in H2. cbn [decimal].
      by rewrite (proj2 (Z.ltb_lt _ _)) by done.
    + change (decimal (S (S f1)) n) with
        (if n <? 10 then [digit_char n] else decimal (S f1) (n / 10) ++ [digit_char (n mod 10)]).
      change (decimal (S (S f2)) n) with
        (if n <? 10 then [digit_char n] else decimal (S f2) (n / 10) ++ [digit_char (n mod 10)]).
      destruct (n <? 10); [done|]. f_equal.
      rewrite (Nat2Z.inj_succ (S f1)), Z.pow_succ_r in H1 by lia.
      rewrite (Nat2Z.inj_succ (S f2)), Z.pow_succ_r in H2 by lia.
      apply IH; mod_lia.
Qed.

Lemma format_0d_snoc w n :
  (0 < w)%nat -> 0 <= n < 2 ^ 64 ->
  format_0d (S w) n = format_0d w (n / 10) ++ [digit_char (n mod 10)].
Proof.
  intros Hw Hn. unfold format_0d.
  change (decimal 20 n) with
    (if n <? 10 then [digit_char n] else decimal 19 (n / 10) ++ [digit_char (n mod 10)]).
  destruct (Z.ltb_spec n 10) as [Hlt|Hge].
  - rewrite (Z.mod_small n 10), (Z.div_small n 10) by lia.
    change (decimal 20 0) with [digit_char 0]. cbn [length].
    rewrite app_nil_r || idtac.
    replace (S w - 1)%nat with w by lia. f_equal.
    destruct w as [|w]; [lia|]. replace (S w - 1)%nat with w by lia.
    by rewrite <- replicate_cons_app.
  - rewrite (decimal_fuel 19 18 (n / 10)) by (try mod_lia;
      change (10 ^ Z.of_nat 20) with 100000000000000000000;
      change (10 ^ Z.of_nat 19) with 10000000000000000000; mod_lia).
    rewrite length_app. cbn [length]. rewrite app_assoc. do 2 f_equal. f_equal. lia.
Qed.

Lemma digit_value_Some c d : digit_value c = Some d -> 0 <= d < 10 /\ c = digit_char d.
Proof.
  unfold digit_value, digit_char. destruct (_ && _) eqn:E; [|done].
  bool_to_prop. intros [= <-]. split; [lia|].
  replace (48 + (Z.of_N (Ascii.N_of_ascii c) - 48)) with (Z.of_N (Ascii.N_of_ascii c)) by lia.
  by rewrite N2Z.id, Ascii.ascii_N_embedding.
Qed.

(** A string of at most 19 digits is the fixed-width format of its value. *)
Lemma format_parse_digits l v :
  (0 < length l <= 19)%nat -> parse_digits 0 l = Some v -> format_0d (length l) v = l.
Proof.
  revert v. induction l as [|c l IH] using rev_ind; intros v Hl Hv; [simpl in Hl; lia|].
  rewrite length_app in *. cbn [length] in *. rewrite parse_digits_app in Hv.
  destruct (parse_digits 0 l) as [u|] eqn:Hu; [|done]. cbn [parse_digits] in Hv.
  destruct (digit_value c) as [d|] eqn:Hd; [|done]. injection Hv as <-.
  apply digit_value_Some in Hd as [Hd ->].
  pose proof (parse_digits_bound l 0 u ltac:(lia) Hu) as Hb.
  assert (10 ^ Z.of_nat (length l) <= 10 ^ 18) by (apply Z.pow_le_mono_r; lia).
  destruct (decide (l = [])) as [->|Hne].
  - injection Hu as <-. cbn [length app Nat.add]. unfold format_0d.
    change (decimal 20 (10 * 0 + d)) with
      (if 10 * 0 + d <? 10 then [digit_char (10 * 0 + d)]
       else decimal 19 ((10 * 0 + d) / 10) ++ [digit_char ((10 * 0 + d) mod 10)]).
    rewrite (proj2 (Z.ltb_lt _ _)) by lia. done.
  - assert (0 < length l)%nat by (destruct l; [done|simpl; lia]).
    rewrite Nat.add_1_r, format_0d_snoc by lia.
    replace ((10 * u + d) / 10) with u by mod_lia.
    replace ((10 * u + d) mod 10) with d by mod_lia.
    by rewrite IH by (done || lia).
Qed.

Lemma has_suffix_split l s : has_suffix l s = true -> l = take (length l - length s) l ++ s.
Proof.
  unfold has_suffix. intros H%bool_decide_eq_true. destruct H as [H1 H2].
  rewrite <- (take_drop (length l - length s) l) at 1. by rewrite H2.
Qed.

Lemma has_prefix_split l p : has_prefix l p = true -> l = p ++ drop (length p) l.
Proof.
  unfold has_prefix. intros H%bool_decide_eq_true. rewrite <- H at 1. by rewrite take_drop.
Qed.

Lemma ParseUint_format w n :
  (0 < w)%nat -> 0 <= n < 2 ^ 64 -> ParseUint 64 (format_0d w n) = Some n.
Proof.
  intros Hw Hn. unfold ParseUint. rewrite parse_format_0d by done.
  rewrite (proj2 (Z.ltb_lt _ _)) by lia.
  destruct (format_0d w n) eqn:E; [|done].
  apply (f_equal length) in E. unfold format_0d in E.
  rewrite length_app, length_replicate in E. change (length []) with 0%nat in E. lia.
Qed.

Lemma ParseUint_Some bits l v :
  ParseUint bits l = Some v -> l <> [] /\ parse_digits 0 l = Some v.
Proof.
  unfold ParseUint. destruct l; [done|].
  destruct (parse_digits 0 _); [|done]. destruct (_ <? _); [|done].
  intros [= <-]. done.
Qed.

(** ** Splitting, addresses, paths and letter case *)

(** [strings.Split(s, sep)] for a separator of one byte. *)
Fixpoint split_on (sep : Ascii.ascii) (l : list Ascii.ascii) : list (list Ascii.ascii) :=
  match l with
  | [] => [[]]
  | c :: l =>
      if Ascii.eqb c sep then [] :: split_on sep l else
      match split_on sep l with
      | part :: parts => (c :: part) :: parts
      | [] => [[c]]
      end
  end.

(** [strings.IndexByte] and the last index of a byte. *)
Fixpoint index_byte (c : Ascii.ascii) (l : list Ascii.ascii) : option nat :=
  match l with
  | [] => None
  | c' :: l => if Ascii.eqb c' c then Some 0%nat else S <$> index_byte c l
  end.
Definition last_byte (c : Ascii.ascii) (l : list Ascii.ascii) : option nat :=
  (fun i => length l - S i)%nat <$> index_byte c (rev l).

Definition contains_byte (c : Ascii.ascii) (l : list Ascii.ascii) : bool :=
  existsb (fun c' => Ascii.eqb c' c) l.

(** [net.SplitHostPort]: host and port, or nothing for any of its errors. *)
Definition SplitHostPort (l : list Ascii.ascii) : option (list Ascii.ascii * list Ascii.ascii) :=
  match last_byte ":" l with
  | None => None
  | Some i =>
      let port := drop (S i) l in
      match l with
      | "["%char :: _ =>
          match index_byte "]" l with
          | None => None
          | Some e =>
              if negb (S e =? i)%nat then None else
              if contains_byte "[" (drop 1 l) || contains_byte "]" (drop (S e) l)
              then None else Some (take (e - 1) (drop 1 l), port)
          end
      | _ =>
          let host := take i l in
          if contains_byte ":" host || contains_byte "[" l || contains_byte "]" l
          then None else Some (host, port)
      end
  end.

(** The elements that [filepath.Clean] keeps, innermost first. *)
Fixpoint clean_parts (rooted : bool) (stack parts : list (list Ascii.ascii)) : list (list Ascii.ascii) :=
  match parts with
  | [] => stack
  | p :: parts =>
      let dotdot := chars ".." in
      clean_parts rooted
        (if bool_decide (p = []) || bool_decide (p = chars ".") then stack else
         if bool_decide (p = dotdot) then
           match stack with
           | q :: stack' => if bool_decide (q = dotdot) then p :: stack else stack'
           | [] => if rooted then [] else [p]
           end
         else p :: stack) parts
  end.

(** [filepath.Clean(path) == "."] *)
Definition clean_is_dot (l : list Ascii.ascii) : bool :=
  negb (has_prefix l (chars "/")) &&
  bool_decide (clean_parts false [] (split_on "/" l) = []).

(** [strings.ToLower], as far as a comparison with ASCII text goes: besides
    the ASCII letters, two other runes have an ASCII lower case, U+0130 (i)
    and U+212A (k); every other byte above 127 stays above 127. *)
Definition lower_char (c : Ascii.ascii) : Ascii.ascii :=
  let n := Ascii.N_of_ascii c in
  if ((65 <=? n) && (n <=? 90))%N then Ascii.ascii_of_N (n + 32) else c.

Fixpoint ToLower (l : list Ascii.ascii) : list Ascii.ascii :=
  match l with
  | "196"%char :: "176"%char :: l => "i"%char :: ToLower l
  | "226"%char :: "132"%char :: "170"%char :: l => "k"%char :: ToLower l
  | c :: l => lower_char c :: ToLower l
  | [] => []
  end.

Example SplitHostPort_1 : SplitHostPort (chars "127.0.0.1:80") = Some (chars "127.0.0.1", chars "80").
Proof. reflexivity. Qed.
Example SplitHostPort_2 : SplitHostPort (chars "[::1]:80") = Some (chars "::1", chars "80").
Proof. reflexivity. Qed.
Example SplitHostPort_3 : SplitHostPort (chars "::1:80") = None.
Proof. reflexivity. Qed.
Example clean_1 : map (fun s => clean_is_dot (chars s)) ["."; "a/.."; "./"; "a"; ".."; "/"; "../a/.."]%string
  = [true; true; true; false; false; false; false].
Proof. reflexivity. Qed.
Example ToLower_1 : ToLower (chars "WaRN") = chars "warn".
Proof. reflexivity. Qed.

Lemma split_on_nil sep l : split_on sep l <> [].
Proof. destruct l as [|c l]; cbn; [done|]. destruct (Ascii.eqb c sep); [done|]. by destruct (split_on sep l). Qed.

(** A part without the separator, then the separator. *)
Lemma split_on_app sep p l :
  Forall (fun c => Ascii.eqb c sep = false) p -> split_on sep (p ++ sep :: l) = p :: split_on sep l.
Proof.
  induction 1 as [|c p Hc _ IH]; cbn; [by rewrite Ascii.eqb_refl|]. by rewrite Hc, IH.
Qed.

Lemma split_on_one sep p :
  Forall (fun c => Ascii.eqb c sep = false) p -> split_on sep p = [p].
Proof. induction 1 as [|c p Hc _ IH]; cbn; [done|]. by rewrite Hc, IH. Qed.
