(* ===== verification/Platform.v ===== *)
(** * Platform: the file system and buffered writing

    Model of [src/sensor-server/platform.go]: the [File] and [FileSystem]
    interfaces with [OSFileSystem]'s behaviour.  A file system is the map
    from file paths to contents and the set of directories, with a script of
    faults: each call takes one entry of the script, [None] (or the end of
    the script) being a call that is executed and [Some] a call that fails; a
    failing [Write] may have written a part of its bytes.  A path is a
    directory and a base name, which is what [filepath.Join(dir, name)]
    denotes; an open file is identified by its path, the program never
    renaming or removing a file it has open.  [bufio.Writer] follows the
    standard library's code. *)

From S2P Require Import Prelude GoRuntime.
Open Scope Z_scope.

(** ** Paths and flags *)

Abbreviation dir_path := (list string).
Abbreviation file_path := (dir_path * string)%type.

(** [src/sensor-server/platform.go:11-16] open flags *)
Inductive open_flag : Set :=
| readOnlyFlags
| readWriteFlags
| createAppendReadWriteFlags
| createTruncateReadWriteFlags.

Record fault : Type := mkFault { fault_error : error; fault_written : nat }.

(** [src/sensor-server/platform.go:29-36] FileSystem *)
Record FS : Type := mkFS {
  files : gmap file_path (list byte);
  dirs : gset dir_path;
  faults : list (option fault) }.

Definition set_files (m : gmap file_path (list byte)) (fs : FS) : FS :=
  mkFS m (dirs fs) (faults fs).

(** Content of a file, empty when it does not exist. *)
Definition content (fs : FS) (p : file_path) : list byte := default [] (files fs !! p).

(** errno values of the operating system *)
Definition ENOENT : error := ErrExternal 2.
Definition ENOTDIR : error := ErrExternal 20.
Definition EISDIR : error := ErrExternal 21.

(** ** Calls *)

(** Take the next entry of the fault script. *)
Definition next_fault : M FS (option fault) := fun fs =>
  match faults fs with
  | [] => (Ret None, fs)
  | f :: l => (Ret f, mkFS (files fs) (dirs fs) l)
  end.

(** A call that may fail as a whole. *)
Definition fs_call {A} (m : M FS A) : M FS A :=
  f ← next_fault;
  match f with
  | Some f => fail (fault_error f)
  | None => m
  end.

(** [src/sensor-server/platform.go:41-43] OSFileSystem.OpenFile *)
Definition OpenFile (p : file_path) (flag : open_flag) : M FS unit := fs_call (fun fs =>
  if bool_decide (p.1 ++ [p.2] ∈ dirs fs) then (Fail EISDIR, fs) else
  match flag, files fs !! p with
  | (readOnlyFlags | readWriteFlags), None => (Fail ENOENT, fs)
  | (readOnlyFlags | readWriteFlags | createAppendReadWriteFlags), Some _ => (Ret tt, fs)
  | createTruncateReadWriteFlags, Some _ => (Ret tt, set_files (<[p := []]> (files fs)) fs)
  | (createAppendReadWriteFlags | createTruncateReadWriteFlags), None =>
      if bool_decide (p.1 ∈ dirs fs)
      then (Ret tt, set_files (<[p := []]> (files fs)) fs)
      else (Fail ENOENT, fs)
  end).

(** The non-empty prefixes of a directory path. *)
Definition ancestors (d : dir_path) : list dir_path :=
  map (fun n => take (S n) d) (seq 0 (length d)).

(** A directory path that names an existing regular file. *)
Definition is_file (fs : FS) (d : dir_path) : bool :=
  match last d with
  | Some name => bool_decide (is_Some (files fs !! (take (length d - 1) d, name)))
  | None => false
  end.

(** [src/sensor-server/platform.go:45-47] OSFileSystem.MkdirAll *)
Definition MkdirAll (d : dir_path) : M FS unit := fs_call (fun fs =>
  if existsb (is_file fs) (ancestors d) then (Fail ENOTDIR, fs) else
  (Ret tt, mkFS (files fs) (list_to_set (ancestors d) ∪ dirs fs) (faults fs))).

(** A directory entry: its name and whether it is a directory. *)
Definition dir_entry : Type := string * bool.

Definition file_entries (fs : FS) (d : dir_path) : list dir_entry :=
  omap (fun '(p, _) => if decide (p.1 = d) then Some (p.2, false) else None)
       (map_to_list (files fs)).

Definition subdir_entries (fs : FS) (d : dir_path) : list dir_entry :=
  omap (fun p : dir_path =>
          match last p with
          | Some name => if decide (p = d ++ [name]) then Some (name, true) else None
          | None => None
          end)
       (elements (dirs fs)).

(** The order of [os.ReadDir]: by name, as byte strings. *)
Definition entry_le (e1 e2 : dir_entry) : Prop := String.leb e1.1 e2.1 = true.

#[export] Instance entry_le_dec : RelDecision entry_le.
Proof. intros e1 e2. unfold entry_le. apply _. Defined.

(** [src/sensor-server/platform.go:49-51] OSFileSystem.ReadDir: the entries
    sorted by name *)
Definition ReadDir (d : dir_path) : M FS (list dir_entry) := fs_call (fun fs =>
  if bool_decide (d ∈ dirs fs)
  then (Ret (merge_sort entry_le (file_entries fs d ++ subdir_entries fs d)), fs)
  else (Fail ENOENT, fs)).

(** [src/sensor-server/platform.go:53-55] OSFileSystem.Stat: the size of a
    regular file *)
Definition Stat (p : file_path) : M FS Z := fs_call (fun fs =>
  match files fs !! p with
  | Some c => (Ret (Z.of_nat (length c)), fs)
  | None => if bool_decide (p.1 ++ [p.2] ∈ dirs fs) then (Ret 0, fs) else (Fail ENOENT, fs)
  end).

(** [src/sensor-server/platform.go:57-59] OSFileSystem.Rename *)
Definition Rename (oldPath newPath : file_path) : M FS unit := fs_call (fun fs =>
  match files fs !! oldPath with
  | Some c => (Ret tt, set_files (<[newPath := c]> (delete oldPath (files fs))) fs)
  | None => (Fail ENOENT, fs)
  end).

(** [src/sensor-server/platform.go:61-63] OSFileSystem.Remove *)
Definition Remove (p : file_path) : M FS unit := fs_call (fun fs =>
  match files fs !! p with
  | Some _ => (Ret tt, set_files (delete p (files fs)) fs)
  | None => (Fail ENOENT, fs)
  end).

(** [file.Write]: every file the program writes was opened with [O_APPEND] or
    has just been truncated, so the bytes go to its end.  The count of written
    bytes and the error are both returned. *)
Definition file_append (p : file_path) (bs : list byte) (fs : FS) : FS :=
  set_files (<[p := content fs p ++ bs]> (files fs)) fs.

Definition file_Write (p : file_path) (bs : list byte) (fs : FS) : (nat * option error) * FS :=
  match faults fs with
  | Some f :: l =>
      let n := min (fault_written f) (length bs) in
      ((n, Some (fault_error f)), file_append p (take n bs) (mkFS (files fs) (dirs fs) l))
  | None :: l => ((length bs, None), file_append p bs (mkFS (files fs) (dirs fs) l))
  | [] => ((length bs, None), file_append p bs fs)
  end.

Definition file_Sync (p : file_path) : M FS unit := fs_call (mret tt).
Definition file_Close (p : file_path) : M FS unit := fs_call (mret tt).

Definition file_Truncate (p : file_path) (size : Z) : M FS unit := fs_call (fun fs =>
  if size <? 0 then (Fail (ErrExternal 22), fs) else
  let c := content fs p in
  let n := Z.to_nat size in
  (Ret tt, set_files (<[p := take n c ++ replicate (n - length c) Byte.x00]> (files fs)) fs)).

Definition file_ReadAll (p : file_path) : M FS (list byte) := fs_call (fun fs =>
  (Ret (content fs p), fs)).

(** ** bufio.Writer

    [bw_buf] holds the [n] buffered bytes, [bw_size] is [len(b.buf)]. *)

Record Writer : Type := mkWriter {
  bw_file : file_path;
  bw_buf : list byte;
  bw_size : nat;
  bw_err : option error }.

(** [bufio.NewWriterSize] *)
Definition NewWriterSize (p : file_path) (size : Z) : Writer :=
  mkWriter p [] (if size <=? 0 then 4096%nat else Z.to_nat size) None.

(** [Writer.Flush] *)
Definition bufio_Flush (b : Writer) (fs : FS) : option error * Writer * FS :=
  match bw_err b with
  | Some e => (Some e, b, fs)
  | None =>
      match bw_buf b with
      | [] => (None, b, fs)
      | buf =>
          let '((n, e), fs') := file_Write (bw_file b) buf fs in
          let e := match e with
                   | None => if (n <? length buf)%nat then Some (ErrNew io_ErrShortWrite) else None
                   | e => e
                   end in
          match e with
          | Some e => (Some e, mkWriter (bw_file b) (drop n buf) (bw_size b) (Some e), fs')
          | None => (None, mkWriter (bw_file b) [] (bw_size b) None, fs')
          end
      end
  end.

Definition bw_available (b : Writer) : nat := (bw_size b - length (bw_buf b))%nat.

(** [Writer.Write] loops while the bytes do not fit and there is no error.
    An iteration on a non-empty buffer fills and flushes it; after it, or on
    an empty buffer, the iteration writes the bytes directly; after that one
    nothing is left.  The two possible iterations are the two stages here. *)
Definition bufio_fill (p : list byte) (b : Writer) (fs : FS) : list byte * Writer * FS :=
  if (bw_available b <? length p)%nat && bool_decide (bw_err b = None)
     && negb (bool_decide (bw_buf b = []))
  then
    let n := bw_available b in
    let '(_, b', fs') :=
      bufio_Flush (mkWriter (bw_file b) (bw_buf b ++ take n p) (bw_size b) (bw_err b)) fs in
    (drop n p, b', fs')
  else (p, b, fs).

Definition bufio_direct (p : list byte) (b : Writer) (fs : FS) : list byte * Writer * FS :=
  if (bw_available b <? length p)%nat && bool_decide (bw_err b = None)
  then
    let '((n, e), fs') := file_Write (bw_file b) p fs in
    (drop n p, mkWriter (bw_file b) (bw_buf b) (bw_size b) e, fs')
  else (p, b, fs).

Definition bufio_Write (p : list byte) (b : Writer) (fs : FS) : option error * Writer * FS :=
  let '(p, b, fs) := bufio_fill p b fs in
  let '(p, b, fs) := bufio_direct p b fs in
  match bw_err b with
  | Some e => (Some e, b, fs)
  | None => (None, mkWriter (bw_file b) (bw_buf b ++ p) (bw_size b) None, fs)
  end.

(** ** Relations between file systems *)

(** No call will fail. *)
Definition no_faults (fs : FS) : Prop := Forall (fun f => f = None) (faults fs).

(** Files are only created or extended. *)
Definition grows (fs fs' : FS) : Prop :=
  forall q c, files fs !! q = Some c -> exists w, files fs' !! q = Some (c ++ w).

(** [w] is appended to [p]; every other file, the directories and the absence
    of faults are preserved. *)
Record extends (p : file_path) (w : list byte) (fs fs' : FS) : Prop := mkExtends {
  ext_content : content fs' p = content fs p ++ w;
  ext_exists : is_Some (files fs !! p) -> is_Some (files fs' !! p);
  ext_other : forall q, q <> p -> files fs' !! q = files fs !! q;
  ext_dirs : dirs fs' = dirs fs;
  ext_faults : no_faults fs -> no_faults fs' }.

(** ** Lemmas *)

#[export] Instance grows_refl : Reflexive grows.
Proof. intros fs q c H. exists []. by rewrite app_nil_r. Qed.

#[export] Instance grows_trans : Transitive grows.
Proof.
  intros fs1 fs2 fs3 H1 H2 q c [w Hw]%H1. destruct (H2 _ _ Hw) as [w' Hw'].
  exists (w ++ w'). by rewrite app_assoc.
Qed.

Lemma content_files fs p c : files fs !! p = Some c -> content fs p = c.
Proof. unfold content. by intros ->. Qed.

Lemma files_content fs p : is_Some (files fs !! p) -> files fs !! p = Some (content fs p).
Proof. unfold content. by intros [c ->]. Qed.

Lemma extends_refl p fs : extends p [] fs fs.
Proof. constructor; try done. by rewrite app_nil_r. Qed.

Lemma extends_trans p w w' fs1 fs2 fs3 :
  extends p w fs1 fs2 -> extends p w' fs2 fs3 -> extends p (w ++ w') fs1 fs3.
Proof.
  intros [c1 e1 o1 d1 f1] [c2 e2 o2 d2 f2]. constructor; eauto.
  - by rewrite c2, c1, app_assoc.
  - intros q Hq. by rewrite o2, o1.
  - by rewrite d2.
Qed.

Lemma extends_grows p w fs fs' : extends p w fs fs' -> grows fs fs'.
Proof.
  intros [c e o d f] q c0 Hq. destruct (decide (q = p)) as [->|Hne].
  - exists w. rewrite files_content by eauto. by rewrite c, (content_files _ _ _ Hq).
  - exists []. rewrite app_nil_r. by rewrite o.
Qed.

Lemma file_append_extends p w fs : extends p w fs (file_append p w fs).
Proof.
  constructor; try done.
  - unfold file_append, set_files, content at 1. cbn. by rewrite lookup_insert_eq.
  - intros _. unfold file_append, set_files. cbn. rewrite lookup_insert_eq. eauto.
  - intros q Hq. unfold file_append, set_files. cbn. by rewrite lookup_insert_ne.
Qed.

Lemma no_faults_inv fs : no_faults fs ->
  faults fs = [] \/ exists l, faults fs = None :: l /\ no_faults (mkFS (files fs) (dirs fs) l).
Proof.
  unfold no_faults. destruct (faults fs) as [|f l]; [by left|].
  rewrite Forall_cons. intros [-> H]. right. eauto.
Qed.

Lemma no_faults_next fs : no_faults fs ->
  exists fs', next_fault fs = (Ret None, fs') /\ files fs' = files fs /\ dirs fs' = dirs fs
    /\ no_faults fs'.
Proof.
  intros H. unfold next_fault. destruct (no_faults_inv fs H) as [E|(l & E & Hl)]; rewrite E; eauto.

Qed.

(** What a call does when no fault is scheduled, on a state with the same
    files and directories. *)
Lemma fs_call_ok {A} (m : M FS A) fs :
  no_faults fs ->
  exists fs0, fs_call m fs = m fs0 /\ files fs0 = files fs /\ dirs fs0 = dirs fs /\ no_faults fs0.
Proof.
  intros H. destruct (no_faults_next fs H) as (fs' & E & ?).
  exists fs'. unfold fs_call, mbind, M_bind. by rewrite E.
Qed.

(** Whatever the script says, a call runs its body or fails without effect. *)
Lemma fs_call_cases {A} (m : M FS A) fs :
  exists fs0, files fs0 = files fs /\ dirs fs0 = dirs fs /\ (no_faults fs -> no_faults fs0) /\
    (fs_call m fs = m fs0 \/ exists e, ~ no_faults fs /\ fs_call m fs = (Fail e, fs0)).
Proof.
  unfold fs_call, mbind, M_bind, next_fault.
  destruct (faults fs) as [|[f|] l] eqn:E.
  - exists fs. auto 6.
  - exists (mkFS (files fs) (dirs fs) l). split_and!; try done.
    + unfold no_faults. rewrite E, Forall_cons. by intros [? _].
    + right. exists (fault_error f). split; [|done].
      unfold no_faults. rewrite E, Forall_cons. by intros [? _].
  - exists (mkFS (files fs) (dirs fs) l). split_and!; auto.
    unfold no_faults. rewrite E, Forall_cons. by intros [_ ?].
Qed.

Lemma file_Write_spec p bs fs :
  exists n e fs', file_Write p bs fs = ((n, e), fs') /\ extends p (take n bs) fs fs' /\
    (n <= length bs)%nat /\ (e = None -> n = length bs) /\ (no_faults fs -> e = None).
Proof.
  unfold file_Write. destruct (faults fs) as [|[f|] l] eqn:E.
  - do 3 eexists. split; [done|]. split_and!; try done.
    rewrite firstn_all. apply file_append_extends.
  - do 3 eexists. split; [done|]. split_and!; try done; [|lia|].
    + destruct (file_append_extends p (take (fault_written f `min` length bs) bs)
        (mkFS (files fs) (dirs fs) l)) as [c e o d g].
      constructor; try done. unfold no_faults. rewrite E, Forall_cons. by intros [? _].
    + unfold no_faults. rewrite E, Forall_cons. by intros [? _].
  - do 3 eexists. split; [done|]. split_and!; try done.
    rewrite firstn_all.
    destruct (file_append_extends p bs (mkFS (files fs) (dirs fs) l)) as [c e o d g].
    constructor; try done. unfold no_faults. rewrite E, Forall_cons. by intros [_ ?].
Qed.

(** ** Lemmas: bufio.Writer *)

Definition writer_ok (b : Writer) : Prop := (length (bw_buf b) <= bw_size b)%nat.

(** The same writer in another buffering state. *)
Record same_writer (b b' : Writer) : Prop := mkSameWriter {
  sw_file : bw_file b' = bw_file b;
  sw_size : bw_size b' = bw_size b }.

#[export] Instance same_writer_refl : Reflexive same_writer.
Proof. done. Qed.

#[export] Instance same_writer_trans : Transitive same_writer.
Proof. intros b1 b2 b3 [? ?] [? ?]. split; congruence. Qed.

Lemma bufio_Flush_spec b fs :
  exists e b' fs' w, bufio_Flush b fs = (e, b', fs') /\ same_writer b b' /\
    extends (bw_file b) w fs fs' /\ w ++ bw_buf b' = bw_buf b /\
    e = bw_err b' /\ (e = None -> bw_buf b' = []) /\
    (bw_err b = None -> no_faults fs -> e = None) /\ (e = None -> bw_err b = None).
Proof.
  unfold bufio_Flush. destruct (bw_err b) as [e|] eqn:Eb.
  { exists (Some e), b, fs, []. split_and!; try done. apply extends_refl. }
  destruct (bw_buf b) as [|c buf] eqn:Ebuf.
  { exists None, b, fs, []. split_and!; try done. apply extends_refl. }
  destruct (file_Write_spec (bw_file b) (c :: buf) fs) as (n & e & fs' & -> & He & Hn & Hok & Hnf).
  destruct e as [e|].
  - do 4 eexists. split; [done|]. split_and!; try done.
    apply take_drop.
  - rewrite (Hok eq_refl) in *. rewrite firstn_all in He.
    rewrite (proj2 (Nat.ltb_ge _ _)) by done.
    do 4 eexists. split; [done|]. split_and!; try done. apply app_nil_r.
Qed.

(** A stage of [Write]: [w] reaches the file, and the bytes buffered before
    followed by those to write are [w], the bytes buffered after and those
    still to write, as long as no error occurred. *)
Record stage (p : list byte) (b : Writer) (fs : FS)
    (p' : list byte) (b' : Writer) (fs' : FS) : Prop := mkStage {
  st_writer : same_writer b b';
  st_bytes : exists w, extends (bw_file b) w fs fs' /\ w `prefix_of` bw_buf b ++ p /\
    (bw_err b' = None -> bw_err b = None /\ w ++ bw_buf b' ++ p' = bw_buf b ++ p);
  st_reliable : bw_err b = None -> no_faults fs -> bw_err b' = None }.

Lemma stage_refl p b fs : stage p b fs p b fs.
Proof.
  split; try done. exists []. split_and!; [apply extends_refl|apply prefix_nil|done].
Qed.

Lemma stage_trans p1 b1 fs1 p2 b2 fs2 p3 b3 fs3 :
  stage p1 b1 fs1 p2 b2 fs2 ->
  (bw_err b2 <> None -> (p3, b3, fs3) = (p2, b2, fs2)) ->
  stage p2 b2 fs2 p3 b3 fs3 -> stage p1 b1 fs1 p3 b3 fs3.
Proof.
  intros [Hs1 (w1 & Hx1 & Hp1 & Hw1) Hr1] Hstop [Hs2 (w2 & Hx2 & Hp2 & Hw2) Hr2].
  destruct (bw_err b2) as [e|] eqn:He2.
  { specialize (Hstop ltac:(done)). injection Hstop as -> -> ->. split; [done| |].
    - exists w1. split_and!; [done|done|by rewrite He2].
    - by rewrite He2. }
  destruct (Hw1 eq_refl) as [He1 Eq1]. split; [by etrans| |].
  - exists (w1 ++ w2). rewrite (sw_file _ _ Hs1) in Hx2. split_and!.
    + by eapply extends_trans.
    + rewrite <- Eq1. by apply prefix_app.
    + intros He3. destruct (Hw2 He3) as [_ Eq2]. by rewrite <- Eq1, <- Eq2, !app_assoc.
  - intros H1 H2. apply Hr2; [done|]. by apply (ext_faults _ _ _ _ Hx1).
Qed.

Lemma bufio_fill_stage p b fs :
  exists p' b' fs', bufio_fill p b fs = (p', b', fs') /\ stage p b fs p' b' fs' /\
    (writer_ok b -> writer_ok b') /\
    (bw_err b' = None -> (bw_available b' < length p')%nat -> bw_buf b' = []).
Proof.
  unfold bufio_fill. destruct (_ && _) eqn:E.
  - bool_to_prop. set (b0 := mkWriter _ _ _ _).
    destruct (bufio_Flush_spec b0 fs) as (e & b' & fs' & w & -> & Hs & Hx & Hw & He & Hn & Hr & _).
    do 3 eexists. split; [done|]. split_and!.
    + split; [by destruct Hs; split|exists w; split_and!|].
      * done.
      * exists (bw_buf b' ++ drop (bw_available b) p). rewrite app_assoc, Hw. cbn [b0 bw_buf].
        by rewrite <- app_assoc, take_drop.
      * intros _. split; [done|]. rewrite app_assoc, Hw. cbn [b0 bw_buf].
        by rewrite <- app_assoc, take_drop.
      * rewrite <- He. intros. by apply Hr.
    + unfold writer_ok. intros Hok. rewrite (sw_size _ _ Hs). cbn [b0 bw_size].
      apply (f_equal length) in Hw. cbn [b0 bw_buf] in Hw.
      rewrite !length_app, length_take in Hw. unfold bw_available in Hw. lia.
    + rewrite <- He. intros Hnone _. by apply Hn.
  - do 3 eexists. split; [done|]. split_and!; [apply stage_refl|done|].
    intros He Ha. rewrite (proj2 (Nat.ltb_lt _ _)), bool_decide_eq_true_2 in E by done.
    cbn in E. by bool_to_prop.
Qed.

Lemma bufio_direct_stage p b fs :
  (bw_err b = None -> (bw_available b < length p)%nat -> bw_buf b = []) ->
  exists p' b' fs', bufio_direct p b fs = (p', b', fs') /\ stage p b fs p' b' fs' /\
    (bw_err b <> None -> (p', b', fs') = (p, b, fs)) /\ bw_buf b' = bw_buf b /\
    (bw_err b' = None -> writer_ok b -> (length (bw_buf b') + length p' <= bw_size b)%nat).
Proof.
  intros Hempty. unfold bufio_direct. destruct (_ && _) eqn:E.
  - bool_to_prop. apply Nat.ltb_lt in H. specialize (Hempty H0 H).
    destruct (file_Write_spec (bw_file b) p fs) as (n & e & fs' & -> & Hx & Hn & Hok & Hnf).
    do 3 eexists. split; [done|]. split_and!; [|by rewrite H0|done|].
    + split; [done| |done]. exists (take n p). rewrite Hempty. split_and!; [done| |].
      * exists (drop n p). by rewrite take_drop.
      * cbn [bw_err bw_buf]. intros ->. split; [done|].
        by rewrite ?Hempty, (Hok eq_refl), firstn_all, drop_all, app_nil_r.
    + cbn [bw_err bw_buf]. intros -> _. rewrite Hempty, (Hok eq_refl), drop_all. simpl. lia.
  - do 3 eexists. split; [done|]. split_and!; [apply stage_refl|done|done|].
    intros He Hok. rewrite bool_decide_eq_true_2, andb_true_r in E by done.
    apply Nat.ltb_ge in E. unfold bw_available, writer_ok in *. lia.
Qed.

(** One call of [Write]: [w] reaches the file; without an error the buffered
    bytes followed by [p] are [w] followed by what is now buffered. *)
Lemma bufio_Write_spec p b fs :
  exists e b' fs' w, bufio_Write p b fs = (e, b', fs') /\ same_writer b b' /\
    (writer_ok b -> writer_ok b') /\
    bw_err b' = e /\ extends (bw_file b) w fs fs' /\ w `prefix_of` bw_buf b ++ p /\
    (e = None -> bw_err b = None /\ w ++ bw_buf b' = bw_buf b ++ p) /\
    (bw_err b = None -> no_faults fs -> e = None).
Proof.
  unfold bufio_Write.
  destruct (bufio_fill_stage p b fs) as (p1 & b1 & fs1 & -> & S1 & O1 & Em).
  destruct (bufio_direct_stage p1 b1 fs1 Em) as (p2 & b2 & fs2 & -> & S2 & St & Hb & Hfit).
  pose proof (stage_trans _ _ _ _ _ _ _ _ _ S1 St S2) as [Hs (w & Hx & Hp & Hw) Hr].
  assert (bw_size b2 = bw_size b1) as Hsz by apply S2.
  assert (writer_ok b -> writer_ok b2) as O2
    by (intros Hok; specialize (O1 Hok); unfold writer_ok in *; by rewrite Hb, Hsz).
  destruct (bw_err b2) as [e|] eqn:E.
  - exists (Some e), b2, fs2, w. by split_and!.
  - exists None. do 2 eexists. exists w. split; [done|]. split_and!; try done.
    + by destruct Hs.
    + intros Hok. unfold writer_ok. cbn. rewrite length_app, Hsz. apply Hfit; auto.
Qed.

(** ** Every call of the program but truncation makes files grow *)

Section grows.

Lemma grows_of_files fs fs' : files fs' = files fs -> grows fs fs'.
Proof. intros E q c H. exists []. by rewrite E, app_nil_r. Qed.

#[export] Instance grows_preorder : PreOrder grows.
Proof. split; apply _. Qed.

Lemma steps_fs_call {A} (m : M FS A) : steps grows m -> steps grows (fs_call m).
Proof.
  intros Hm. unfold fs_call. apply steps_bind; [apply _| |].
  - intros fs. unfold next_fault. destruct (faults fs); by apply grows_of_files.
  - intros [f|]; [|done]. apply steps_fail, _.
Qed.

Lemma steps_OpenFile p flag :
  flag <> createTruncateReadWriteFlags -> steps grows (OpenFile p flag).
Proof.
  intros Hf. apply steps_fs_call. intros fs.
  destruct (bool_decide _); [reflexivity|].
  destruct flag, (files fs !! p) eqn:E; try done; try reflexivity.
  destruct (bool_decide _); [|reflexivity].
  intros q c Hq. exists []. cbn. rewrite app_nil_r, lookup_insert_ne; [done|congruence].
Qed.

Lemma steps_file_Sync p : steps grows (file_Sync p).
Proof. apply steps_fs_call, steps_ret, _. Qed.

Lemma steps_file_Close p : steps grows (file_Close p).
Proof. apply steps_fs_call, steps_ret, _. Qed.
End grows.

#[export] Hint Resolve steps_OpenFile steps_file_Sync steps_file_Close : go_steps.

(** ** Runs without faults

    [clean F D fs]: the state has the files [F] and the directories [D], and
    no scheduled fault; what each call does to such a state. *)
Definition clean (F : gmap file_path (list byte)) (D : gset dir_path) (fs : FS) : Prop :=
  files fs = F /\ dirs fs = D /\ no_faults fs.

Lemma clean_intro fs : no_faults fs -> clean (files fs) (dirs fs) fs.
Proof. done. Qed.

Lemma fs_call_clean {A} F D (m : M FS A) fs :
  clean F D fs -> exists fs0, fs_call m fs = m fs0 /\ clean F D fs0.
Proof.
  intros (<- & <- & Hn). destruct (fs_call_ok m fs Hn) as (fs0 & -> & Hf & Hd & Hn0).
  exists fs0. by split_and!.
Qed.

Lemma set_files_clean F F' D fs : clean F D fs -> clean F' D (set_files F' fs).
Proof. by intros (_ & <- & Hn). Qed.

Lemma Stat_clean F D p c fs :
  clean F D fs -> F !! p = Some c ->
  exists fs', Stat p fs = (Ret (Z.of_nat (length c)), fs') /\ clean F D fs'.
Proof.
  intros H Hp. unfold Stat.
  match goal with |- context [fs_call ?m fs] =>
    destruct (fs_call_clean F D m fs H) as (fs0 & -> & H0) end.
  pose proof H0 as (Hf & _ & _). rewrite Hf, Hp. eauto.
Qed.

Lemma OpenFile_clean F D p flag c fs :
  clean F D fs -> F !! p = Some c -> p.1 ++ [p.2] ∉ D -> flag <> createTruncateReadWriteFlags ->
  exists fs', OpenFile p flag fs = (Ret tt, fs') /\ clean F D fs'.
Proof.
  intros H Hp Hd Hfl. unfold OpenFile.
  match goal with |- context [fs_call ?m fs] =>
    destruct (fs_call_clean F D m fs H) as (fs0 & -> & H0) end.
  pose proof H0 as (Hf & HD & _).
  rewrite bool_decide_eq_false_2, Hf, Hp by (by rewrite HD). destruct flag; by eauto.
Qed.

Lemma OpenFile_create_clean F D p flag fs :
  clean F D fs -> F !! p = None -> p.1 ∈ D -> p.1 ++ [p.2] ∉ D ->
  flag = createTruncateReadWriteFlags \/ flag = createAppendReadWriteFlags ->
  exists fs', OpenFile p flag fs = (Ret tt, fs') /\ clean (<[p := []]> F) D fs'.
Proof.
  intros H Hp Hin Hd Hfl. unfold OpenFile.
  match goal with |- context [fs_call ?m fs] =>
    destruct (fs_call_clean F D m fs H) as (fs0 & -> & H0) end.
  pose proof H0 as (Hf & HD & _).
  rewrite bool_decide_eq_false_2, Hf, Hp by (by rewrite HD).
  rewrite bool_decide_eq_true_2 by (by rewrite HD).
  destruct Hfl as [->| ->]; (eexists; split; [done|]; by eapply set_files_clean).
Qed.

Lemma OpenFile_truncate_clean F D p c fs :
  clean F D fs -> F !! p = Some c -> p.1 ++ [p.2] ∉ D ->
  exists fs', OpenFile p createTruncateReadWriteFlags fs = (Ret tt, fs') /\
    clean (<[p := []]> F) D fs'.
Proof.
  intros H Hp Hd. unfold OpenFile.
  match goal with |- context [fs_call ?m fs] =>
    destruct (fs_call_clean F D m fs H) as (fs0 & -> & H0) end.
  pose proof H0 as (Hf & HD & _).
  rewrite bool_decide_eq_false_2, Hf, Hp by (by rewrite HD).
  eexists. split; [done|]. by eapply set_files_clean.
Qed.

Lemma Truncate_clean F D p n c fs :
  clean F D fs -> F !! p = Some c -> 0 <= n <= Z.of_nat (length c) ->
  exists fs', file_Truncate p n fs = (Ret tt, fs') /\
    clean (<[p := take (Z.to_nat n) c]> F) D fs'.
Proof.
  intros H Hp Hn. unfold file_Truncate.
  match goal with |- context [fs_call ?m fs] =>
    destruct (fs_call_clean F D m fs H) as (fs0 & -> & H0) end.
  pose proof H0 as (Hf & HD & _).
  destruct (Z.ltb_spec n 0); [lia|]. eexists. split; [done|].
  unfold content. rewrite Hf, Hp. cbn [default from_option]. unfold id.
  replace (Z.to_nat n - length c)%nat with 0%nat by lia.
  change (replicate 0 Byte.x00) with (@nil byte). rewrite app_nil_r. by eapply set_files_clean.
Qed.

Lemma Sync_clean F D p fs :
  clean F D fs -> exists fs', file_Sync p fs = (Ret tt, fs') /\ clean F D fs'.
Proof. intros H. destruct (fs_call_clean F D (mret tt) fs H) as (fs0 & E & H0). by exists fs0. Qed.

Lemma Close_clean F D p fs :
  clean F D fs -> exists fs', file_Close p fs = (Ret tt, fs') /\ clean F D fs'.
Proof. intros H. destruct (fs_call_clean F D (mret tt) fs H) as (fs0 & E & H0). by exists fs0. Qed.

Lemma file_Write_clean F D p c bs fs :
  clean F D fs -> F !! p = Some c ->
  exists n fs', file_Write p bs fs = ((n, None), fs') /\ clean (<[p := c ++ bs]> F) D fs'.
Proof.
  intros (Hf & HD & Hn) Hp. unfold file_Write.
  assert (content fs p = c) as Hc by (unfold content; by rewrite Hf, Hp).
  destruct (no_faults_inv fs Hn) as [-> | (l & -> & Hl)]; do 2 eexists; (split; [done|]);
    unfold file_append, content in *; cbn [files set_files dirs]; rewrite Hc, Hf;
    split_and!; done.
Qed.

Lemma ReadAll_clean F D p c fs :
  clean F D fs -> F !! p = Some c ->
  exists fs', file_ReadAll p fs = (Ret c, fs') /\ clean F D fs'.
Proof.
  intros H Hp. unfold file_ReadAll.
  match goal with |- context [fs_call ?m fs] =>
    destruct (fs_call_clean F D m fs H) as (fs0 & -> & H0) end.
  pose proof H0 as (Hf & _ & _). unfold content. rewrite Hf, Hp. eauto.
Qed.

Lemma Stat_absent F D p fs :
  clean F D fs -> F !! p = None -> p.1 ++ [p.2] ∉ D ->
  exists fs', Stat p fs = (Fail ENOENT, fs') /\ clean F D fs'.
Proof.
  intros H Hp Hd. unfold Stat.
  match goal with |- context [fs_call ?m fs] =>
    destruct (fs_call_clean F D m fs H) as (fs0 & -> & H0) end.
  pose proof H0 as (Hf & HD & _). rewrite Hf, Hp, bool_decide_eq_false_2 by (by rewrite HD). eauto.
Qed.

Lemma Rename_clean F D p q c fs :
  clean F D fs -> F !! p = Some c ->
  exists fs', Rename p q fs = (Ret tt, fs') /\ clean (<[q := c]> (delete p F)) D fs'.
Proof.
  intros H Hp. unfold Rename.
  match goal with |- context [fs_call ?m fs] =>
    destruct (fs_call_clean F D m fs H) as (fs0 & -> & H0) end.
  pose proof H0 as (Hf & _ & _). rewrite Hf, Hp.
  eexists. split; [done|]. by eapply set_files_clean.
Qed.

Lemma MkdirAll_clean F D d fs :
  clean F D fs -> existsb (is_file fs) (ancestors d) = false ->
  exists fs', MkdirAll d fs = (Ret tt, fs') /\ clean F (list_to_set (ancestors d) ∪ D) fs'.
Proof.
  intros H Hno. unfold MkdirAll.
  match goal with |- context [fs_call ?m fs] =>
    destruct (fs_call_clean F D m fs H) as (fs0 & -> & H0) end.
  pose proof H as (Hf & _ & _). pose proof H0 as (Hf0 & HD & Hn).
  assert (existsb (is_file fs0) (ancestors d) = false) as ->.
  { rewrite <- Hno. unfold is_file. by rewrite Hf0, Hf. }
  eexists. split; [done|]. unfold clean. cbn. by rewrite Hf0, HD.
Qed.

Lemma ancestors_self d : d <> [] -> d ∈ ancestors d.
Proof.
  intros Hd. unfold ancestors. apply list_elem_of_fmap. exists (length d - 1)%nat.
  destruct d as [|x d]; [done|]. split.
  - symmetry. apply firstn_all2. cbn. lia.
  - apply elem_of_seq. cbn. lia.
Qed.

Lemma elem_of_file_entries fs d name :
  (name, false) ∈ file_entries fs d <-> is_Some (files fs !! (d, name)).
Proof.
  unfold file_entries. rewrite list_elem_of_omap. split.
  - intros ([[d' n'] c] & Hin%elem_of_map_to_list & E). cbn in E.
    destruct (decide (d' = d)); [|done]. simplify_eq. eauto.
  - intros [c Hc]. exists ((d, name), c). split; [by apply elem_of_map_to_list|].
    cbn. by rewrite decide_True.
Qed.

Lemma subdir_entries_dir fs d e : e ∈ subdir_entries fs d -> e.2 = true.
Proof.
  unfold subdir_entries. rewrite list_elem_of_omap. intros (p & _ & E).
  destruct (last p) as [x|]; [|done]. destruct (decide _); [|done]. by simplify_eq.
Qed.

(** The regular files of a directory listing. *)
Lemma ReadDir_clean F D d fs :
  clean F D fs -> d ∈ D ->
  exists es fs', ReadDir d fs = (Ret es, fs') /\ clean F D fs' /\
    forall name, (name, false) ∈ es <-> is_Some (F !! (d, name)).
Proof.
  intros H Hd. unfold ReadDir.
  match goal with |- context [fs_call ?m fs] =>
    destruct (fs_call_clean F D m fs H) as (fs0 & -> & H0) end.
  pose proof H0 as (Hf & HD & _).
  rewrite bool_decide_eq_true_2 by (by rewrite HD).
  do 2 eexists. split; [done|]. split; [done|]. intros name.
  rewrite merge_sort_Permutation, elem_of_app, elem_of_file_entries, Hf.
  split; [|by left]. intros [?|Hs]; [done|]. by apply subdir_entries_dir in Hs.
Qed.
