(* ===== verification/Clock.v ===== *)
(** * Network and clock

    The rest of [src/sensor-server/platform.go]: the interfaces the program
    takes its listeners, timers and tickers through, as records of operations,
    and the values that delegate them to the packages [net] and [time].  Those
    packages are parameters: [W] is the state they work on. *)

From S2P Require Import Prelude GoRuntime.
Open Scope Z_scope.

Section platform.
Context {W : Type}.
(** A channel of times, a listener, a packet connection. *)
Context {Channel Listener PacketConn : Type}.

(** ** Interfaces *)

(** [src/sensor-server/platform.go:67-70] Network *)
Record Network : Type := mkNetwork {
  Listen : string -> string -> M W Listener;
  ListenPacket : string -> string -> M W PacketConn }.

(** [src/sensor-server/platform.go:84-88] Timer *)
Record Timer : Type := mkTimer { C : Channel; Stop : M W bool; Reset : Z -> M W bool }.

(** [src/sensor-server/platform.go:91-94] Ticker *)
Record Ticker : Type := mkTicker { ticker_C : Channel; ticker_Stop : M W unit }.

(** [src/sensor-server/platform.go:97-101] Clock *)
Record Clock : Type := mkClock { Now : M W Z; NewTimer : Z -> M W Timer; NewTicker : Z -> M W Ticker }.

(** ** The standard packages *)

Context (net_Listen : string -> string -> M W Listener) (net_ListenPacket : string -> string -> M W PacketConn).
Context {time_Timer time_Ticker : Type} (time_Now : M W Z).
Context (time_NewTimer : Z -> M W time_Timer) (time_NewTicker : Z -> M W time_Ticker).
Context (timer_C : time_Timer -> Channel) (timer_Stop : time_Timer -> M W bool) (timer_Reset : time_Timer -> Z -> M W bool).
Context (time_ticker_C : time_Ticker -> Channel) (time_ticker_Stop : time_Ticker -> M W unit).

(** [src/sensor-server/platform.go:73-81] StandardNetwork *)
Definition StandardNetwork : Network := mkNetwork net_Listen net_ListenPacket.

(** [src/sensor-server/platform.go:118-132] systemTimer, with its methods *)
Definition systemTimer (timer : time_Timer) : Timer := mkTimer (timer_C timer) (timer_Stop timer) (timer_Reset timer).

(** [src/sensor-server/platform.go:134-144] systemTicker, with its methods *)
Definition systemTicker (ticker : time_Ticker) : Ticker := mkTicker (time_ticker_C ticker) (time_ticker_Stop ticker).

(** [src/sensor-server/platform.go:104-116] SystemClock, with its methods *)
Definition SystemClock : Clock :=
  mkClock time_Now
    (fun duration => timer ← time_NewTimer duration; mret (systemTimer timer))
    (fun duration => ticker ← time_NewTicker duration; mret (systemTicker ticker)).
End platform.
