(* ===== verification/DataFile.v ===== *)
(** * DataFile: segmented record files

    Model of [src/sensor-server/data-file.go]: a data file appends 12-byte
    records to the numbered segments of a directory through a write buffer,
    rotates before a segment would exceed the rotation size, and on opening
    discovers the highest segment and truncates incomplete records. *)

From S2P Require Import Prelude GoRuntime GoStrings Platform.
Open Scope Z_scope.

(** ** Data *)

(** [src/sensor-server/config.go:345-345] SensorDataRecordSize *)
Definition SensorDataRecordSize : Z := 12.
(** [src/sensor-server/data-file.go:15-15] firstSegmentSequence *)
Definition firstSegmentSequence : Z := 1.
(** [src/sensor-server/config.go:18-18] DefaultWriteBufferSize *)
Definition DefaultWriteBufferSize : Z := 64 * 1024.
(** [src/sensor-server/config.go:19-19] DefaultRotationSize *)
Definition DefaultRotationSize : Z := 64 * 1024 * 1024.

(** [src/sensor-server/data-file.go:19-25] DataFileOptions *)
Record DataFileOptions : Type := mkDataFileOptions {
  Directory : dir_path;
  BufferSize : Z;
  RotationSize : Z;
  DirectoryMode : Z;
  FileMode : Z }.

(** [src/sensor-server/data-file.go:32-40] DefaultDataFileOptions (493 is
    0o755 and 420 is 0o644) *)
Definition DefaultDataFileOptions (directory : dir_path) : DataFileOptions :=
  mkDataFileOptions directory DefaultWriteBufferSize DefaultRotationSize 493 420.

(** [src/sensor-server/data-file.go:27-30] DataFileCounters *)
Record DataFileCounters : Type := mkDataFileCounters { BytesWritten : Z; Rotations : Z }.

(** [src/sensor-server/data-file.go:44-54] DataFile *)
Record DataFile : Type := mkDataFile {
  options : DataFileOptions;
  file : option file_path;
  buffer : option Writer;
  sequence : Z;
  size : Z;
  closed : bool;
  bytesWritten : Z;
  rotations : Z }.

(** A data file and the file system it writes to. *)
Abbreviation St := (DataFile * FS)%type.

(** ** Segment names *)

(** [src/sensor-server/data-file.go:224-226] segmentName *)
Definition segmentName (sequence : Z) : string :=
  of_chars (format_0d 8 sequence ++ chars ".dat").

(** [src/sensor-server/data-file.go:228-234] parseSegmentName *)
Definition parseSegmentName (name : string) : option Z :=
  let cs := chars name in
  if negb (bool_decide (length cs = length (chars "00000001.dat"))) ||
     negb (has_suffix cs (chars ".dat"))
  then None
  else match ParseUint 64 (take 8 cs) with
       | Some sequence => if firstSegmentSequence <=? sequence then Some sequence else None
       | None => None
       end.

(** [src/sensor-server/data-file.go:174-176] segmentPath *)
Definition segmentPath (f : DataFile) : file_path :=
  (Directory (options f), segmentName (sequence f)).

(** ** Operations *)

Definition fsop {A} (m : M FS A) : M St A := zoom snd (fun fs s => (s.1, fs)) m.
Definition update (g : DataFile -> DataFile) : M St unit := modify (fun s => (g s.1, s.2)).

Definition set_file (p : option file_path) (b : option Writer) (f : DataFile) : DataFile :=
  mkDataFile (options f) p b (sequence f) (size f) (closed f) (bytesWritten f) (rotations f).
Definition set_closed (c : bool) (f : DataFile) : DataFile :=
  mkDataFile (options f) (file f) (buffer f) (sequence f) (size f) c (bytesWritten f) (rotations f).
Definition next_segment (f : DataFile) : DataFile :=
  mkDataFile (options f) (file f) (buffer f) (u64 (sequence f + 1)) 0 (closed f)
    (bytesWritten f) (u64 (rotations f + 1)).
Definition count_record (f : DataFile) : DataFile :=
  mkDataFile (options f) (file f) (buffer f) (sequence f) (i64 (size f + SensorDataRecordSize))
    (closed f) (u64 (bytesWritten f + SensorDataRecordSize)) (rotations f).

(** [dataFile.buffer.Write(bs)] and [dataFile.buffer.Flush()]; a nil buffer
    is a nil pointer dereference. *)
Definition buffer_call (call : Writer -> FS -> option error * Writer * FS) : M St unit :=
  fun '(f, fs) =>
    match buffer f with
    | None => (Panic PanicNil, (f, fs))
    | Some b =>
        let '(e, b', fs') := call b fs in
        let s' := (set_file (file f) (Some b') f, fs') in
        match e with
        | None => (Ret tt, s')
        | Some e => (Fail e, s')
        end
    end.

(** [src/sensor-server/data-file.go:146-154] openCurrentSegment *)
Definition openCurrentSegment : M St unit :=
  f ← gets fst;
  wrap_err "open data segment" (fsop (OpenFile (segmentPath f) createAppendReadWriteFlags));;
  update (fun f => set_file (Some (segmentPath f))
                     (Some (NewWriterSize (segmentPath f) (BufferSize (options f)))) f).

(** [src/sensor-server/data-file.go:156-172] closeCurrentSegment *)
Definition closeCurrentSegment : M St unit :=
  f ← gets fst;
  match file f with
  | None => mret tt
  | Some p =>
      r1 ← match buffer f with
           | None => mret None
           | Some _ => attempt_err (buffer_call bufio_Flush)
           end;
      r2 ← attempt_err (fsop (file_Sync p));
      r3 ← attempt_err (fsop (file_Close p));
      update (set_file None None);;
      match errors_Join [r1; r2; r3] with
      | Some e => fail (ErrWrap "close data segment" e)
      | None => mret tt
      end
  end.

(** [src/sensor-server/data-file.go:133-144] rotate *)
Definition rotate : M St unit :=
  closeCurrentSegment;;
  update next_segment;;
  wrap_err "rotate data segment" openCurrentSegment.

(** The 12 bytes of a record. *)
Definition encode_record (timestamp value : Z) : list byte :=
  le_put 8 (u64 timestamp) ++ le_put 4 (u32 value).

(** [src/sensor-server/data-file.go:90-109] WriteRecord *)
Definition WriteRecord (timestamp value : Z) : M St unit :=
  f ← gets fst;
  if closed f then fail (ErrNew ErrDataFileClosed) else
  (if RotationSize (options f) <? i64 (size f + SensorDataRecordSize)
   then rotate else mret tt);;
  let encoded := encode_record timestamp value in
  wrap_err "write data segment" (buffer_call (bufio_Write encoded));;
  update count_record.

(** [src/sensor-server/data-file.go:111-113] Counters *)
Definition Counters (f : DataFile) : DataFileCounters :=
  mkDataFileCounters (bytesWritten f) (rotations f).

(** [src/sensor-server/data-file.go:115-123] Flush *)
Definition Flush : M St unit :=
  f ← gets fst;
  if closed f then fail (ErrNew ErrDataFileClosed) else
  wrap_err "flush data segment" (buffer_call bufio_Flush).

(** [src/sensor-server/data-file.go:125-131] Close *)
Definition Close : M St unit :=
  f ← gets fst;
  if closed f then mret tt else
  update (set_closed true);;
  closeCurrentSegment.

(** [src/sensor-server/data-file.go:196-211] discoverAndRepairSegments, the
    repair of one segment: its size without an incomplete trailing record *)
Definition repairSegment (path : file_path) : M FS Z :=
  size ← wrap_err "stat data segment" (Stat path);
  let remainder := Z.rem size SensorDataRecordSize in
  if negb (remainder =? 0) then
    let repairedSize := size - remainder in
    wrap_err "open data segment for repair" (OpenFile path readWriteFlags);;
    t ← attempt_err (file_Truncate path repairedSize);
    match t with
    | Some err => attempt_err (file_Close path);; fail (ErrWrap "truncate data segment" err)
    | None =>
        e1 ← attempt_err (file_Sync path);
        e2 ← attempt_err (file_Close path);
        match errors_Join [e1; e2] with
        | Some err => fail (ErrWrap "close repaired data segment" err)
        | None => mret repairedSize
        end
    end
  else mret size.

(** The loop over the directory entries; the accumulator is the highest
    segment found so far, with its size. *)
Fixpoint discover_loop (dir : dir_path) (entries : list dir_entry) (best : option (Z * Z))
    : M FS (option (Z * Z)) :=
  match entries with
  | [] => mret best
  | (name, isdir) :: entries =>
      match parseSegmentName name with
      | Some entrySequence =>
          if isdir then discover_loop dir entries best else
          size ← repairSegment (dir, name);
          discover_loop dir entries
            (match best with
             | Some (sequence, _) => if sequence <? entrySequence
                                     then Some (entrySequence, size) else best
             | None => Some (entrySequence, size)
             end)
      | None => discover_loop dir entries best
      end
  end.

(** [src/sensor-server/data-file.go:178-222] discoverAndRepairSegments *)
Definition discoverAndRepairSegments (opts : DataFileOptions) : M FS (Z * Z) :=
  entries ← wrap_err "read data directory" (ReadDir (Directory opts));
  best ← discover_loop (Directory opts) entries None;
  mret (default (firstSegmentSequence, 0) best).

(** The string of a path, and the guard against an empty one. *)
Definition path_string (d : dir_path) : string := String.concat "/" d.
Definition blank_path (d : dir_path) : bool :=
  bool_decide (TrimSpace (chars (path_string d)) = []).

(** [src/sensor-server/data-file.go:83-87] OpenDataFile, its last step: the
    data file is returned when its segment opens *)
Definition openDataFileAt (opts : DataFileOptions) (sequence size : Z) : M FS DataFile := fun fs =>
  let dataFile := mkDataFile opts None None sequence size false 0 0 in
  match openCurrentSegment (dataFile, fs) with
  | (Ret _, (f, fs)) => (Ret f, fs)
  | (Fail e, (_, fs)) => (Fail e, fs)
  | (Panic p, (_, fs)) => (Panic p, fs)
  end.

(** [src/sensor-server/data-file.go:56-88] OpenDataFile *)
Definition OpenDataFile (opts : DataFileOptions) : M FS DataFile :=
  if blank_path (Directory opts) then fail (ErrText "open data file: empty directory") else
  if BufferSize opts <? 1 then fail (ErrText "open data file: buffer size") else
  if RotationSize opts <? SensorDataRecordSize
  then fail (ErrText "open data file: rotation size") else
  let opts := mkDataFileOptions (Directory opts) (BufferSize opts) (RotationSize opts)
    (if DirectoryMode opts =? 0 then 493 else DirectoryMode opts)
    (if FileMode opts =? 0 then 420 else FileMode opts) in
  wrap_err "create data directory" (MkdirAll (Directory opts));;
  found ← discoverAndRepairSegments opts;
  openDataFileAt opts found.1 found.2.

(** ** Lemmas: segment names *)

Lemma segmentName_inj n m :
  0 <= n < 2 ^ 64 -> 0 <= m < 2 ^ 64 -> segmentName n = segmentName m -> n = m.
Proof.
  intros Hn Hm E. apply (inj of_chars) in E.
  apply (app_inj_2 _ _ _ _ eq_refl) in E as [E _]. by apply format_0d_inj in E.
Qed.

Lemma parseSegmentName_segmentName n :
  1 <= n <= 99999999 -> parseSegmentName (segmentName n) = Some n.
Proof.
  intros Hn. unfold parseSegmentName, segmentName. rewrite chars_of_chars.
  assert (length (format_0d 8 n) = 8%nat) as Hl
    by (apply format_0d_length; [change (10 ^ Z.of_nat 8) with 100000000; lia|lia]).
  rewrite has_suffix_app, bool_decide_eq_true_2 by (rewrite length_app, Hl; done).
  cbn [negb orb]. rewrite (take_app_length' _ _ 8 (eq_sym Hl)).
  rewrite ParseUint_format by lia. unfold firstSegmentSequence.
  by rewrite (proj2 (Z.leb_le _ _)) by lia.
Qed.

Lemma parseSegmentName_Some name n :
  parseSegmentName name = Some n -> name = segmentName n /\ 1 <= n <= 99999999.
Proof.
  unfold parseSegmentName, segmentName, firstSegmentSequence. cbv zeta.
  destruct (_ || _) eqn:E; [done|]. bool_to_prop.
  destruct (ParseUint 64 _) as [v|] eqn:P; [|done].
  destruct (Z.leb_spec 1 v); [|done]. intros [= <-].
  apply ParseUint_Some in P as [_ P].
  assert (length (chars name) = 12%nat) as Hl by done.
  assert (length (take 8 (chars name)) = 8%nat) as H8 by (rewrite length_take; lia).
  pose proof (parse_digits_bound _ 0 _ (Z.le_refl 0) P) as Hb. rewrite H8 in Hb.
  change (10 ^ Z.of_nat 8) with 100000000 in Hb.
  split; [|lia].
  rewrite <- (of_chars_chars name). f_equal.
  match goal with Hs : has_suffix _ _ = true |- _ => apply has_suffix_split in Hs; rewrite Hs end.
  rewrite Hl. change (12 - length (chars ".dat"))%nat with 8%nat. f_equal.
  pose proof (format_parse_digits (take 8 (chars name)) v ltac:(lia) P) as Hf.
  by rewrite H8 in Hf.
Qed.

(** Sequences of nine digits or more give names that are not recognised. *)
Lemma parseSegmentName_overflow n :
  100000000 <= n < 2 ^ 64 -> parseSegmentName (segmentName n) = None.
Proof.
  intros Hn. destruct (parseSegmentName _) as [m|] eqn:E; [|done].
  apply parseSegmentName_Some in E as [E Hm]. apply segmentName_inj in E; lia.
Qed.

(** ** Lemmas: whatever fails, written data stays *)

(** The file system grows, the data file being arbitrary. *)
Definition appends (s s' : St) : Prop := grows s.2 s'.2.

#[export] Instance appends_preorder : PreOrder appends.
Proof.
  split; [intros s; unfold appends; reflexivity|].
  intros s1 s2 s3 H1 H2. unfold appends in *. by etrans.
Qed.

Lemma steps_fsop {A} (m : M FS A) : steps grows m -> steps appends (fsop m).
Proof. intros Hm. by apply (steps_zoom _ grows). Qed.

Lemma steps_update g : steps appends (update g).
Proof. intros s. unfold appends. cbn. reflexivity. Qed.

Lemma steps_Flush_call : steps appends (buffer_call bufio_Flush).
Proof.
  intros [f fs]. unfold buffer_call, appends. destruct (buffer f) as [b|]; [|reflexivity].
  destruct (bufio_Flush_spec b fs) as (e & b' & fs' & w & -> & _ & Hx & _).
  destruct e; by eapply extends_grows.
Qed.

#[export] Hint Resolve appends_preorder steps_fsop steps_update steps_Flush_call : go_steps.

Lemma steps_open : steps appends openCurrentSegment.
Proof. unfold openCurrentSegment. eauto 10 with go_steps. Qed.

Lemma steps_Write_call bs : steps appends (buffer_call (bufio_Write bs)).
Proof.
  intros [f fs]. unfold buffer_call, appends. destruct (buffer f) as [b|]; [|reflexivity].
  destruct (bufio_Write_spec bs b fs) as (e & b' & fs' & w & -> & _ & _ & _ & Hx & _).
  destruct e; by eapply extends_grows.
Qed.

Lemma steps_close : steps appends closeCurrentSegment.
Proof.
  unfold closeCurrentSegment. apply steps_bind; [apply _|auto with go_steps|].
  intros f. destruct (file f) as [p|]; [|auto with go_steps].
  apply steps_bind; [apply _|destruct (buffer f); auto with go_steps|]. intros r1.
  apply steps_bind; [apply _|auto with go_steps|]. intros r2.
  apply steps_bind; [apply _|auto with go_steps|]. intros r3.
  apply steps_bind; [apply _|auto with go_steps|]. intros _.
  destruct (errors_Join _); auto with go_steps.
Qed.

#[export] Hint Resolve steps_open steps_Write_call steps_close : go_steps.

Lemma steps_rotate : steps appends rotate.
Proof. unfold rotate. auto 10 with go_steps. Qed.

#[export] Hint Resolve steps_rotate : go_steps.

(** ** Lemmas: the invariant of a data file *)

(** An open file is the current segment and its buffer writes to it. *)
Definition wf (f : DataFile) : Prop :=
  match file f, buffer f with
  | None, None => True
  | Some p, Some b => p = segmentPath f /\ bw_file b = p /\ writer_ok b
  | _, _ => False
  end.

(** The bytes waiting in the buffer, and whether the buffer accepts more. *)
Definition buffered (f : DataFile) : list byte :=
  match buffer f with Some b => bw_buf b | None => [] end.
Definition healthy (f : DataFile) : Prop :=
  match buffer f with Some b => bw_err b = None | None => True end.

(** Directories do not hide the segment of a data file. *)
Definition segment_free (f : DataFile) (fs : FS) : Prop :=
  Directory (options f) ∈ dirs fs /\ (segmentPath f).1 ++ [(segmentPath f).2] ∉ dirs fs.

Definition no_panic {A} (r : res A) : Prop := forall p, r <> Panic p.

Lemma extends_of_files p fs fs' :
  files fs' = files fs -> dirs fs' = dirs fs -> (no_faults fs -> no_faults fs') ->
  extends p [] fs fs'.
Proof.
  intros Hf Hd Hn. constructor; try done.
  - unfold content. by rewrite Hf, app_nil_r.
  - by rewrite Hf.
  - intros q _. by rewrite Hf.
Qed.

Lemma fs_ret_spec fs :
  exists r fs', fs_call (mret tt) fs = (r, fs') /\ no_panic r /\
    (forall p, extends p [] fs fs') /\ (no_faults fs -> r = Ret tt).
Proof.
  destruct (fs_call_cases (mret tt) fs) as (fs0 & Hf & Hd & Hn & [->|(e & Hnf & ->)]).
  - exists (Ret tt), fs0. split_and!; try done. intros p. by apply extends_of_files.
  - exists (Fail e), fs0. split_and!; try done. intros p. by apply extends_of_files.
Qed.

Lemma attempt_fs_ret f fs :
  exists e fs', attempt_err (fsop (fs_call (mret tt))) (f, fs) = (Ret e, (f, fs')) /\
    (forall p, extends p [] fs fs') /\ (no_faults fs -> e = None).
Proof.
  destruct (fs_ret_spec fs) as (r & fs' & E & Hp & Hx & Hn).
  unfold attempt_err, fsop, zoom. cbn [fst snd]. rewrite E.
  destruct r as [[]|e|p]; [exists None|exists (Some e)|by destruct (Hp p)];
    eexists; (split; [done|]; split; [done|]; intros Hf; try done; by apply Hn in Hf).
Qed.

Lemma set_file_set_file p b p' b' f : set_file p b (set_file p' b' f) = set_file p b f.
Proof. done. Qed.

Lemma set_file_id f : set_file (file f) (buffer f) f = f.
Proof. by destruct f. Qed.

Lemma Flush_call_spec f fs b :
  buffer f = Some b ->
  exists e b' fs' w,
    buffer_call bufio_Flush (f, fs)
    = (match e with None => Ret tt | Some e => Fail e end, (set_file (file f) (Some b') f, fs')) /\
    same_writer b b' /\ extends (bw_file b) w fs fs' /\ w ++ bw_buf b' = bw_buf b /\
    e = bw_err b' /\ (e = None -> bw_buf b' = [] /\ bw_err b = None) /\
    (bw_err b = None -> no_faults fs -> e = None).
Proof.
  intros Hb. unfold buffer_call. rewrite Hb.
  destruct (bufio_Flush_spec b fs) as (e & b' & fs' & w & -> & Hs & Hx & Hw & He & Hn & Hr & Hn').
  exists e, b', fs', w. destruct e; split_and!; auto.
Qed.

Lemma Write_call_spec bs f fs b :
  buffer f = Some b ->
  exists e b' fs' w,
    buffer_call (bufio_Write bs) (f, fs)
    = (match e with None => Ret tt | Some e => Fail e end, (set_file (file f) (Some b') f, fs')) /\
    same_writer b b' /\ (writer_ok b -> writer_ok b') /\ bw_err b' = e /\
    extends (bw_file b) w fs fs' /\ w `prefix_of` bw_buf b ++ bs /\
    (e = None -> bw_err b = None /\ w ++ bw_buf b' = bw_buf b ++ bs) /\
    (bw_err b = None -> no_faults fs -> e = None).
Proof.
  intros Hb. unfold buffer_call. rewrite Hb.
  destruct (bufio_Write_spec bs b fs) as (e & b' & fs' & w & -> & H).
  exists e, b', fs', w. by destruct e.
Qed.

(** Closing the current segment: some prefix of the buffered bytes reaches
    it, all of them when nothing fails. *)
Lemma closeCurrentSegment_spec f fs :
  wf f ->
  exists r fs' w, closeCurrentSegment (f, fs) = (r, (set_file None None f, fs')) /\
    extends (segmentPath f) w fs fs' /\ w `prefix_of` buffered f /\ no_panic r /\
    (healthy f -> no_faults fs -> r = Ret tt /\ w = buffered f).
Proof.
  intros Hwf. unfold closeCurrentSegment, mbind, M_bind, gets. cbn [fst].
  unfold wf in Hwf. destruct (file f) as [p|] eqn:Ef, (buffer f) as [b|] eqn:Eb; try done.
  2: { exists (Ret tt), fs, []. unfold buffered. rewrite Eb.
       split_and!; [|apply extends_refl|done|done|done].
       rewrite <- Ef at 1. rewrite <- Eb at 1. by rewrite set_file_id. }
  destruct Hwf as (-> & Hp & Hok).
  destruct (Flush_call_spec f fs b Eb) as (e & b' & fs1 & w & E1 & Hs & Hx & Hw & He & Hn & Hr).
  unfold attempt_err at 1. rewrite E1.
  set (f1 := set_file (file f) (Some b') f).
  assert (exists r1, match (match e with None => Ret tt | Some e => Fail e end, (f1, fs1)) with
    | (Ret _, s') => (Ret None, s') | (Fail e, s') => (Ret (Some e), s')
    | (Panic p, s') => (Panic p, s') end = (Ret r1, (f1, fs1)) /\ r1 = e) as (r1 & -> & ->)
    by (destruct e; eauto).
  unfold file_Sync, file_Close.
  destruct (attempt_fs_ret f1 fs1) as (e2 & fs2 & -> & Hx2 & Hn2).
  destruct (attempt_fs_ret f1 fs2) as (e3 & fs3 & -> & Hx3 & Hn3).
  unfold update, modify. cbn [fst snd].
  assert (extends (segmentPath f) w fs fs3) as Hx'.
  { rewrite <- Hp. rewrite <- (app_nil_r w), <- (app_nil_r (w ++ [])).
    eapply extends_trans; [|apply Hx3]. eapply extends_trans; [exact Hx|apply Hx2]. }
  assert (w `prefix_of` buffered f) as Hw'.
  { unfold buffered. rewrite Eb, <- Hw. by exists (bw_buf b'). }
  unfold f1. rewrite set_file_set_file.
  destruct (errors_Join _) as [je|] eqn:Ej.
  - do 3 eexists. split; [done|]. split_and!; try done.
    unfold healthy. rewrite Eb. intros Hh Hf. exfalso.
    assert (no_faults fs1) as F1 by by apply (ext_faults _ _ _ _ Hx).
    assert (no_faults fs2) as F2 by by apply (ext_faults _ _ _ _ (Hx2 (segmentPath f))).
    rewrite (Hr Hh Hf), (Hn2 F1), (Hn3 F2) in Ej. done.
  - do 3 eexists. split; [done|]. split_and!; try done.
    intros _ _. split; [done|]. apply errors_Join_None in Ej.
    rewrite Forall_cons in Ej. destruct Ej as [Ee _]. destruct (Hn Ee) as [Hb' _].
    unfold buffered. by rewrite Eb, <- Hw, Hb', app_nil_r.
Qed.

(** Opening the current segment creates it when it is missing and changes no
    bytes; it succeeds when nothing fails and the directory is there. *)
Lemma OpenFile_append_spec p fs :
  exists r fs', OpenFile p createAppendReadWriteFlags fs = (r, fs') /\ no_panic r /\
    extends p [] fs fs' /\
    (no_faults fs -> p.1 ∈ dirs fs -> p.1 ++ [p.2] ∉ dirs fs ->
     r = Ret tt /\ is_Some (files fs' !! p)).
Proof.
  unfold OpenFile.
  match goal with |- context [fs_call ?m fs] =>
    destruct (fs_call_cases m fs) as (fs0 & Hf & Hd & Hn & [->|(e & Hnf & ->)]) end.
  - case_bool_decide as Hdir.
    { do 2 eexists. split; [done|]. split_and!; [done|by apply extends_of_files|].
      rewrite <- Hd. done. }
    destruct (files fs0 !! p) as [c|] eqn:E.
    { do 2 eexists. split; [done|]. split_and!; [done|by apply extends_of_files|eauto]. }
    case_bool_decide as Hin.
    2: { do 2 eexists. split; [done|]. split_and!; [done|by apply extends_of_files|].
         rewrite <- Hd. done. }
    do 2 eexists. split; [done|]. split_and!; [done| |].
    + constructor; cbn.
      * unfold content. cbn. rewrite lookup_insert_eq. rewrite <- Hf, E. done.
      * intros _. rewrite lookup_insert_eq. eauto.
      * intros q Hq. rewrite lookup_insert_ne by done. by rewrite Hf.
      * done.
      * done.
    + intros _ _ _. split; [done|]. cbn. rewrite lookup_insert_eq. eauto.
  - do 2 eexists. split; [done|]. split_and!; [done|by apply extends_of_files|done].
Qed.

Lemma openCurrentSegment_spec f fs :
  file f = None -> buffer f = None ->
  exists r f' fs', openCurrentSegment (f, fs) = (r, (f', fs')) /\ no_panic r /\
    extends (segmentPath f) [] fs fs' /\ wf f' /\
    (r = Ret tt ->
     f' = set_file (Some (segmentPath f))
            (Some (NewWriterSize (segmentPath f) (BufferSize (options f)))) f) /\
    (r <> Ret tt -> f' = f) /\
    (no_faults fs -> segment_free f fs -> r = Ret tt /\ is_Some (files fs' !! segmentPath f)).
Proof.
  intros Ef Eb. unfold openCurrentSegment, mbind, M_bind, gets, wrap_err, fsop, zoom.
  cbn [fst snd].
  destruct (OpenFile_append_spec (segmentPath f) fs) as (r & fs' & -> & Hp & Hx & Hok).
  assert (wf f) as Hwf by (unfold wf; by rewrite Ef, Eb).
  destruct r as [[]|e|p]; [| |by destruct (Hp p)].
  - do 3 eexists. split; [done|]. split_and!; try done.
    + unfold wf, writer_ok. cbn. split; [done|]. split; [done|lia].
    + intros Hf [H1 H2]. split; [done|]. by apply Hok.
  - do 3 eexists. split; [done|]. split_and!; try done.
    intros Hf [H1 H2]. by destruct (Hok Hf H1 H2).
Qed.

(** Rotation: the buffered bytes go to the old segment, the next one is
    opened; a failure leaves the data file without an open segment. *)
Lemma rotate_spec f fs :
  wf f ->
  exists r f' fs1 fs' w, rotate (f, fs) = (r, (f', fs')) /\ no_panic r /\ wf f' /\
    options f' = options f /\ closed f' = closed f /\ w `prefix_of` buffered f /\
    extends (segmentPath f) w fs fs1 /\
    extends (segmentPath (next_segment f)) [] fs1 fs' /\
    (segmentPath f' = segmentPath f /\ fs' = fs1 \/
     segmentPath f' = segmentPath (next_segment f)) /\
    (r = Ret tt ->
     f' = set_file (Some (segmentPath (next_segment f)))
            (Some (NewWriterSize (segmentPath (next_segment f)) (BufferSize (options f))))
            (next_segment f)) /\
    (healthy f -> no_faults fs -> segment_free (next_segment f) fs ->
     r = Ret tt /\ w = buffered f /\ is_Some (files fs' !! segmentPath f')).
Proof.
  intros Hwf. unfold rotate.
  destruct (closeCurrentSegment_spec f fs Hwf) as (r1 & fs1 & w & E1 & Hx & Hw & Hp & Hok).
  unfold mbind at 1, M_bind at 1. rewrite E1. destruct r1 as [[]|e|p]; [| |by destruct (Hp p)].
  2: { do 5 eexists. split; [done|]. split_and!; try done.
       - by apply extends_refl.
       - by left.
       - intros Hh Hf _. by destruct (Hok Hh Hf). }
  unfold mbind, M_bind. cbn [update modify fst snd]. unfold update, modify. cbn [fst snd].
  set (f1 := next_segment (set_file None None f)).
  destruct (openCurrentSegment_spec f1 fs1 eq_refl eq_refl)
    as (r2 & f2 & fs2 & E2 & Hp2 & Hx2 & Hwf2 & Hret & Hne & Hok2).
  unfold wrap_err. rewrite E2.
  destruct r2 as [[]|e|p]; [| |by destruct (Hp2 p)].
  - specialize (Hret eq_refl). do 5 eexists. split; [done|]. split_and!; try done.
    + by rewrite Hret.
    + by rewrite Hret.
    + right. by rewrite Hret.
    + intros Hh Hf Hfree. destruct (Hok Hh Hf) as [_ Hwb]. split; [done|]. split; [done|].
      assert (segmentPath f2 = segmentPath f1) as -> by by rewrite Hret.
      apply Hok2; [by apply (ext_faults _ _ _ _ Hx)|].
      unfold segment_free in *. by rewrite (ext_dirs _ _ _ _ Hx).
  - specialize (Hne ltac:(done)). subst f2. do 5 eexists. split; [done|]. split_and!; try done.
    + by right.
    + intros Hh Hf Hfree. exfalso.
      destruct Hok2 as [? _]; [by apply (ext_faults _ _ _ _ Hx)| |done].
      unfold segment_free in *. by rewrite (ext_dirs _ _ _ _ Hx).
Qed.

(** The current segment must be left before the next record. *)
Definition full (f : DataFile) : bool :=
  RotationSize (options f) <? i64 (size f + SensorDataRecordSize).

Lemma wf_buffer f b' :
  wf f -> forall b, buffer f = Some b -> same_writer b b' -> (writer_ok b -> writer_ok b') ->
  wf (set_file (file f) (Some b') f).
Proof.
  unfold wf. intros Hwf b Hb Hs Hok. rewrite Hb in Hwf. cbn.
  destruct (file f); [|done]. destruct Hwf as (-> & Hp & Hw).
  split_and!; [done|by rewrite (sw_file _ _ Hs)|auto].
Qed.

(** The write of the encoded record, once the segment is settled. *)
Lemma append_record_spec bs f fs :
  wf f ->
  exists r f' fs' w,
    (wrap_err "write data segment" (buffer_call (bufio_Write bs));; update count_record) (f, fs)
    = (r, (f', fs')) /\
    wf f' /\ options f' = options f /\ closed f' = closed f /\ segmentPath f' = segmentPath f /\
    extends (segmentPath f) w fs fs' /\
    (healthy f -> no_faults fs -> is_Some (buffer f) ->
     r = Ret tt /\ healthy f' /\ is_Some (buffer f') /\ w ++ buffered f' = buffered f ++ bs /\
     sequence f' = sequence f /\ size f' = i64 (size f + SensorDataRecordSize) /\
     bytesWritten f' = u64 (bytesWritten f + SensorDataRecordSize) /\ rotations f' = rotations f).
Proof.
  intros Hwf. unfold mbind, M_bind, wrap_err.
  destruct (buffer f) as [b|] eqn:Eb.
  2: { unfold buffer_call. rewrite Eb. do 4 eexists. split; [done|].
       split_and!; try done. apply extends_refl. }
  destruct (Write_call_spec bs f fs b Eb)
    as (e & b' & fs' & w & -> & Hs & Hok & He & Hx & Hw & Hn & Hr).
  assert (bw_file b = segmentPath f) as Hp.
  { unfold wf in Hwf. rewrite Eb in Hwf. destruct (file f); [|done].
    by destruct Hwf as (-> & -> & _). }
  rewrite Hp in Hx. pose proof (wf_buffer f b' Hwf b Eb Hs Hok) as Hwf'.
  destruct e as [e|].
  - do 4 eexists. split; [done|]. split_and!; try done.
    unfold healthy. rewrite Eb. intros Hh Hf. by specialize (Hr Hh Hf).
  - do 4 eexists. split; [done|]. split_and!; try done.
    intros _ _ _. destruct (Hn eq_refl) as [_ Hb]. unfold healthy, buffered. rewrite Eb.
    cbn. split_and!; eauto.
Qed.

Lemma WriteRecord_unfold ts v f fs :
  closed f = false ->
  WriteRecord ts v (f, fs) =
  match (if full f then rotate else mret tt) (f, fs) with
  | (Ret _, s) => (wrap_err "write data segment" (buffer_call (bufio_Write (encode_record ts v)));;
                   update count_record) s
  | (Fail e, s) => (Fail e, s)
  | (Panic p, s) => (Panic p, s)
  end.
Proof.
  intros Hc. unfold WriteRecord, full. unfold mbind at 1, M_bind at 1, gets. cbn [fst].
  rewrite Hc. unfold mbind at 1, M_bind at 1. done.
Qed.

(** ** Properties: the invariant under any fault *)

(** Single ownership of the current segment, whatever fails: from a
    well-formed data file every operation leaves a well-formed one; only the
    current segment and, after a rotation, the next one are touched, so that
    completed segments are immutable; and files are only created or
    extended. *)
Theorem data_file_invariant ts v f fs :
  wf f ->
  (let '(_, (f', fs')) := WriteRecord ts v (f, fs) in
   wf f' /\ options f' = options f /\ grows fs fs' /\
   forall q, q <> segmentPath f -> q <> segmentPath f' -> files fs' !! q = files fs !! q) /\
  (let '(_, (f', fs')) := Flush (f, fs) in
   wf f' /\ grows fs fs' /\ forall q, q <> segmentPath f -> files fs' !! q = files fs !! q) /\
  (let '(_, (f', fs')) := Close (f, fs) in
   wf f' /\ closed f' = true /\ grows fs fs' /\
   forall q, q <> segmentPath f -> files fs' !! q = files fs !! q).
Proof.
  intros Hwf. split; [|split].
  - destruct (closed f) eqn:Hc.
    { unfold WriteRecord, mbind, M_bind, gets. cbn [fst]. rewrite Hc. by split_and!. }
    rewrite WriteRecord_unfold by done. destruct (full f).
    + destruct (rotate_spec f fs Hwf)
        as (r & f1 & fs0 & fs1 & w & -> & Hp & Hwf1 & Ho & _ & _ & Hx0 & Hx1 & Hseg & _).
      assert (grows fs fs1) as Hg by (etrans; eapply extends_grows; eassumption).
      assert (forall q, q <> segmentPath f -> q <> segmentPath f1 -> files fs1 !! q = files fs !! q)
        as Hloc.
      { intros q Hq Hq1. destruct Hseg as [[_ ->]|Hs]; [by apply (ext_other _ _ _ _ Hx0)|].
        rewrite (ext_other _ _ _ _ Hx1) by (by rewrite <- Hs).
        by apply (ext_other _ _ _ _ Hx0). }
      destruct r as [[]|e|p]; [|by split_and!|by destruct (Hp p)].
      destruct (append_record_spec (encode_record ts v) f1 fs1 Hwf1)
        as (r2 & f2 & fs2 & w2 & -> & Hwf2 & Ho2 & _ & Hs2 & Hx2 & _).
      split_and!; [done|congruence|etrans; [exact Hg|by eapply extends_grows]|].
      rewrite Hs2. intros q Hq Hq1. rewrite (ext_other _ _ _ _ Hx2) by done. by apply Hloc.
    + cbn [mret M_ret]. unfold mret, M_ret.
      destruct (append_record_spec (encode_record ts v) f fs Hwf)
        as (r2 & f2 & fs2 & w2 & -> & Hwf2 & Ho2 & _ & Hs2 & Hx2 & _).
      split_and!; [done..|by eapply extends_grows|].
      intros q Hq _. by apply (ext_other _ _ _ _ Hx2).
  - unfold Flush, mbind, M_bind, gets, wrap_err. cbn [fst].
    destruct (closed f); [by split_and!|].
    destruct (buffer f) as [b|] eqn:Eb; [|unfold buffer_call; rewrite Eb; by split_and!].
    destruct (Flush_call_spec f fs b Eb) as (e & b' & fs1 & w & -> & Hs & Hx & Hw & He & Hn & Hr).
    assert (bw_file b = segmentPath f) as Hp.
    { unfold wf in Hwf. rewrite Eb in Hwf. destruct (file f); [|done].
      by destruct Hwf as (-> & -> & _). }
    assert (wf (set_file (file f) (Some b') f)) as Hwf'.
    { eapply wf_buffer; try done. unfold writer_ok. rewrite (sw_size _ _ Hs), <- Hw, length_app. lia. }
    rewrite Hp in Hx. destruct e; cbv beta iota zeta; (split_and!; [done|by eapply extends_grows|];
      intros q Hq; by apply (ext_other _ _ _ _ Hx)).
  - unfold Close. unfold mbind at 1, M_bind at 1, gets. cbn [fst].
    destruct (closed f) eqn:Hc; [by split_and!|].
    unfold mbind, M_bind, update, modify. cbn [fst snd].
    destruct (closeCurrentSegment_spec (set_closed true f) fs Hwf)
      as (r & fs' & w & -> & Hx & Hw & Hp & Hok).
    split_and!; [done|done|by eapply extends_grows|].
    intros q Hq. by apply (ext_other _ _ _ _ Hx).
Qed.

(** ** Specification: an append-only log

    The log of a data file is the content of its segments in sequence order
    followed by the buffered bytes. *)

Definition segment (f : DataFile) (n : Z) : file_path := (Directory (options f), segmentName n).

Definition disk_log (f : DataFile) (fs : FS) : list byte :=
  concat (map (fun n => content fs (segment f n)) (seqZ 1 (sequence f))).

Definition log (f : DataFile) (fs : FS) : list byte := disk_log f fs ++ buffered f.

(** A data file that works: open, its buffer free of errors, its size
    accounting for the bytes of its segment, nothing after its segment. *)
Record live (f : DataFile) (fs : FS) : Prop := mkLive {
  live_wf : wf f;
  live_open : closed f = false;
  live_buffer : is_Some (buffer f);
  live_healthy : healthy f;
  live_faults : no_faults fs;
  live_size : size f = Z.of_nat (length (content fs (segmentPath f) ++ buffered f));
  live_bound : size f + SensorDataRecordSize < 2 ^ 63;
  live_rotation : SensorDataRecordSize <= RotationSize (options f) < 2 ^ 63 - SensorDataRecordSize;
  live_sequence : 1 <= sequence f < 2 ^ 64;
  live_fresh : forall n, sequence f < n < 2 ^ 64 -> content fs (segment f n) = [];
  live_dir : Directory (options f) ∈ dirs fs;
  live_names : forall n, Directory (options f) ++ [segmentName n] ∉ dirs fs }.

(** Records in sequence, as the owner of the data file writes them. *)
Fixpoint write_all (rs : list (Z * Z)) : M St unit :=
  match rs with
  | [] => mret tt
  | (ts, v) :: rs => WriteRecord ts v;; write_all rs
  end.

Definition encode_records (rs : list (Z * Z)) : list byte :=
  concat (map (fun r => encode_record r.1 r.2) rs).

(** Reading records back: twelve bytes each. *)
Fixpoint decode_records (n : nat) (l : list byte) : list (Z * Z) :=
  match n with
  | O => []
  | S n => (i64 (le_get (take 8 l)), i32 (le_get (take 4 (drop 8 l)))) :: decode_records n (drop 12 l)
  end.

Lemma encode_record_length ts v : length (encode_record ts v) = 12%nat.
Proof. unfold encode_record. by rewrite length_app, !le_put_length. Qed.

Lemma segmentPath_segment f : segmentPath f = segment f (sequence f).
Proof. done. Qed.

Lemma segment_inj f n m :
  0 <= n < 2 ^ 64 -> 0 <= m < 2 ^ 64 -> segment f n = segment f m -> n = m.
Proof. intros Hn Hm [= E]. by apply segmentName_inj in E. Qed.

Lemma segments_last f fs :
  1 <= sequence f ->
  disk_log f fs =
  concat (map (fun n => content fs (segment f n)) (seqZ 1 (sequence f - 1)))
  ++ content fs (segmentPath f).
Proof.
  intros Hs. unfold disk_log.
  replace (sequence f) with ((sequence f - 1) + 1) at 1 by lia.
  rewrite seqZ_app by lia. rewrite map_app, concat_app.
  replace (1 + (sequence f - 1)) with (sequence f) by lia.
  change (seqZ (sequence f) 1) with [0 + sequence f]. rewrite Z.add_0_l.
  cbn [map concat]. by rewrite app_nil_r.
Qed.

Lemma segments_before f fs fs' k :
  1 <= k <= 2 ^ 64 -> (forall n, 1 <= n < k -> content fs' (segment f n) = content fs (segment f n)) ->
  concat (map (fun n => content fs' (segment f n)) (seqZ 1 (k - 1))) =
  concat (map (fun n => content fs (segment f n)) (seqZ 1 (k - 1))).
Proof.
  intros Hk H. f_equal. apply map_ext_Forall, Forall_forall. intros n Hn%elem_of_seqZ.
  apply H. lia.
Qed.

Lemma disk_log_extends f fs fs' w :
  1 <= sequence f < 2 ^ 64 -> extends (segmentPath f) w fs fs' ->
  disk_log f fs' = disk_log f fs ++ w.
Proof.
  intros Hs Hx. rewrite !segments_last by lia.
  rewrite (ext_content _ _ _ _ Hx), app_assoc. f_equal. f_equal.
  apply segments_before; [lia|]. intros n Hn. unfold content.
  rewrite (ext_other _ _ _ _ Hx); [done|]. intros E. apply segment_inj in E; lia.
Qed.

(** ** Lemmas: a working data file refines the log *)

Lemma content_other p w fs fs' q : extends p w fs fs' -> q <> p -> content fs' q = content fs q.
Proof. intros Hx Hq. unfold content. by rewrite (ext_other _ _ _ _ Hx). Qed.

Lemma segment_ne f n m :
  0 <= n < 2 ^ 64 -> 0 <= m < 2 ^ 64 -> n <> m -> segment f n <> segment f m.
Proof. intros Hn Hm Hne E. by apply segment_inj in E. Qed.

Lemma append_live bs f fs :
  live f fs -> length bs = 12%nat -> full f = false ->
  exists f' fs',
    (wrap_err "write data segment" (buffer_call (bufio_Write bs));; update count_record) (f, fs)
    = (Ret tt, (f', fs')) /\
    live f' fs' /\ log f' fs' = log f fs ++ bs /\ options f' = options f /\
    sequence f' = sequence f /\ size f' = size f + SensorDataRecordSize /\
    bytesWritten f' = u64 (bytesWritten f + SensorDataRecordSize) /\ rotations f' = rotations f /\
    (forall n, 0 <= n < 2 ^ 64 -> n <> sequence f -> content fs' (segment f n) = content fs (segment f n)).
Proof.
  intros [Hwf Ho Hb Hh Hf Hsz Hbd Hrot Hseq Hfr Hd Hn] Hl Hfull.
  destruct (append_record_spec bs f fs Hwf)
    as (r & f' & fs' & w & -> & Hwf' & Hopt & Hcl & Hsp & Hx & Hok).
  destruct (Hok Hh Hf Hb) as (-> & Hh' & Hb' & Hw & Hs' & Hz' & Hbw & Hr).
  unfold full, SensorDataRecordSize in *. apply Z.ltb_ge in Hfull.
  rewrite wraps_small in Hz', Hfull by lia.
  exists f', fs'. split; [done|]. split_and!; try done.
  - constructor; try done.
    + congruence.
    + by apply (ext_faults _ _ _ _ Hx).
    + rewrite Hz', Hsz, Hsp, (ext_content _ _ _ _ Hx), <- app_assoc, Hw, !length_app, Hl. lia.
    + rewrite Hz'. unfold SensorDataRecordSize. lia.
    + by rewrite Hopt.
    + by rewrite Hs'.
    + intros n Hn'. rewrite Hs' in Hn'. unfold segment. rewrite Hopt.
      rewrite (content_other _ _ _ _ _ Hx); [by apply Hfr|].
      apply (segment_ne f n (sequence f)); lia.
    + by rewrite Hopt, (ext_dirs _ _ _ _ Hx).
    + intros n. rewrite Hopt, (ext_dirs _ _ _ _ Hx). apply Hn.
  - unfold log. rewrite <- app_assoc, <- Hw, app_assoc. f_equal.
    rewrite <- (disk_log_extends f fs fs' w) by (done || lia).
    unfold disk_log, segment. by rewrite Hs', Hopt.
  - intros n Hn' Hne. apply (content_other _ _ _ _ _ Hx). apply (segment_ne f n (sequence f)); lia.
Qed.

Lemma rotate_live f fs :
  live f fs -> sequence f + 1 < 2 ^ 64 ->
  exists f' fs', rotate (f, fs) = (Ret tt, (f', fs')) /\
    live f' fs' /\ log f' fs' = log f fs /\ options f' = options f /\
    sequence f' = sequence f + 1 /\ size f' = 0 /\
    bytesWritten f' = bytesWritten f /\ rotations f' = u64 (rotations f + 1) /\
    content fs' (segmentPath f) = content fs (segmentPath f) ++ buffered f /\
    (forall n, 0 <= n < 2 ^ 64 -> n <> sequence f -> content fs' (segment f n) = content fs (segment f n)).
Proof.
  intros [Hwf Ho Hb Hh Hf Hsz Hbd Hrot Hseq Hfr Hd Hn] Hs1.
  destruct (rotate_spec f fs Hwf)
    as (r & f' & fs0 & fs' & w & E & Hp & Hwf' & Hopt & Hcl & Hw & Hx0 & Hx1 & _ & Hret & Hok).
  destruct Hok as (-> & -> & Hex); [done|done| |].
  { split; [done|]. unfold segment_free. cbn. apply Hn. }
  specialize (Hret eq_refl).
  assert (sequence f' = sequence f + 1) as Hseq'.
  { rewrite Hret. cbn. apply wrapu_small. lia. }
  assert (segmentPath (next_segment f) = segment f (sequence f + 1)) as Hsp.
  { unfold segmentPath, segment. cbn. by rewrite wrapu_small by lia. }
  rewrite Hsp in Hx1.
  assert (forall n, 0 <= n < 2 ^ 64 -> n <> sequence f -> content fs' (segment f n) = content fs (segment f n))
    as Hother.
  { intros n Hn0 Hne. destruct (decide (n = sequence f + 1)) as [->|Hne1].
    - rewrite (ext_content _ _ _ _ Hx1), app_nil_r.
      apply (content_other _ _ _ _ _ Hx0). apply segment_ne; lia.
    - rewrite (content_other _ _ _ _ _ Hx1) by (apply segment_ne; lia).
      apply (content_other _ _ _ _ _ Hx0). apply segment_ne; lia. }
  exists f', fs'. split; [done|]. split_and!; try (rewrite Hret; done); try done.
  - constructor; try done.
    + by rewrite Hret.
    + by rewrite Hret.
    + by rewrite Hret.
    + apply (ext_faults _ _ _ _ Hx1), (ext_faults _ _ _ _ Hx0), Hf.
    + rewrite segmentPath_segment. unfold segment at 1. rewrite Hopt.
      change (Directory (options f), segmentName (sequence f')) with (segment f (sequence f')).
      rewrite Hseq', Hother, Hfr by lia. rewrite Hret. done.
    + rewrite Hret. cbn. unfold SensorDataRecordSize. lia.
    + by rewrite Hopt.
    + lia.
    + intros n Hn'. rewrite Hseq' in Hn'. unfold segment. rewrite Hopt.
      change (content fs' (segment f n) = []). rewrite Hother by lia. apply Hfr. lia.
    + by rewrite Hopt, (ext_dirs _ _ _ _ Hx1), (ext_dirs _ _ _ _ Hx0).
    + intros n. rewrite Hopt, (ext_dirs _ _ _ _ Hx1), (ext_dirs _ _ _ _ Hx0). apply Hn.
  - unfold log. assert (buffered f' = []) as -> by (by rewrite Hret). rewrite app_nil_r.
    rewrite segments_last by lia. unfold segmentPath, segment. rewrite Hopt, Hseq'.
    change (concat (map (fun n => content fs' (segment f n)) (seqZ 1 (sequence f + 1 - 1)))
      ++ content fs' (segment f (sequence f + 1)) = disk_log f fs ++ buffered f).
    rewrite (Hother (sequence f + 1)), Hfr, app_nil_r by lia.
    replace (sequence f + 1 - 1) with (sequence f) by lia.
    change (disk_log f fs' = disk_log f fs ++ buffered f).
    rewrite <- (disk_log_extends f fs fs0) by (done || lia).
    unfold disk_log. f_equal. apply map_ext_Forall, Forall_forall. intros n Hn0%elem_of_seqZ.
    unfold content. rewrite (ext_other _ _ _ _ Hx1); [done|]. apply segment_ne; lia.
  - rewrite (content_other _ _ _ _ _ Hx1); [by rewrite (ext_content _ _ _ _ Hx0)|].
    apply (segment_ne f (sequence f)); lia.
Qed.

Lemma full_false f fs :
  live f fs -> full f = false -> size f + SensorDataRecordSize <= RotationSize (options f).
Proof.
  intros Hl Hf. unfold full in Hf. apply Z.ltb_ge in Hf.
  pose proof (live_size _ _ Hl). pose proof (live_bound _ _ Hl).
  rewrite wraps_small in Hf; unfold SensorDataRecordSize in *; lia.
Qed.

Lemma full_empty f fs : live f fs -> size f = 0 -> full f = false.
Proof.
  intros Hl Hz. unfold full. rewrite Hz. pose proof (live_rotation _ _ Hl).
  apply Z.ltb_ge. change (i64 (0 + SensorDataRecordSize)) with SensorDataRecordSize. lia.
Qed.

Lemma WriteRecord_live ts v f fs :
  live f fs -> sequence f + 1 < 2 ^ 64 ->
  exists f' fs', WriteRecord ts v (f, fs) = (Ret tt, (f', fs')) /\
    live f' fs' /\ log f' fs' = log f fs ++ encode_record ts v /\ options f' = options f /\
    sequence f <= sequence f' <= sequence f + 1 /\
    size f' <= RotationSize (options f) /\
    size f' = (if full f then 0 else size f) + SensorDataRecordSize /\
    bytesWritten f' = u64 (bytesWritten f + SensorDataRecordSize) /\
    rotations f' = (if full f then u64 (rotations f + 1) else rotations f) /\
    (sequence f' = sequence f \/
     Z.of_nat (length (content fs' (segmentPath f))) = size f) /\
    (forall n, 0 <= n < 2 ^ 64 -> n <> sequence f -> n <> sequence f' ->
     content fs' (segment f n) = content fs (segment f n)).
Proof.
  intros Hl Hs. rewrite WriteRecord_unfold by apply Hl.
  destruct (full f) eqn:Ef; unfold mret, M_ret.
  - destruct (rotate_live f fs Hl Hs) as (f1 & fs1 & -> & Hl1 & Hlog1 & Ho1 & Hs1 & Hz1 & Hb1 & Hr1 & Hold & Hc1).
    destruct (append_live (encode_record ts v) f1 fs1 Hl1) as
      (f' & fs' & -> & Hl' & Hlog & Ho & Hs' & Hz & Hb & Hr & Hc); [apply encode_record_length| |].
    { by apply (full_empty f1 fs1). }
    exists f', fs'. rewrite Hz, Hz1, Hlog, Hlog1, Hb, Hb1, Hr, Hr1, Ho, Ho1.
    pose proof (live_rotation _ _ Hl) as Hrot. pose proof (live_sequence _ _ Hl).
    unfold segment in Hc. rewrite Ho1 in Hc. unfold SensorDataRecordSize in *.
    split_and!; try (done || lia).
    + right. unfold segmentPath. rewrite Hc by lia. by rewrite (live_size _ _ Hl), <- Hold.
    + intros n Hn Hne Hne'. unfold segment. rewrite Hc by lia. by apply Hc1.
  - destruct (append_live (encode_record ts v) f fs Hl) as
      (f' & fs' & -> & Hl' & Hlog & Ho & Hs' & Hz & Hb & Hr & Hc); [apply encode_record_length|done|].
    exists f', fs'. rewrite Hz, Hlog, Hb, Hr, Ho.
    pose proof (full_false f fs Hl Ef) as Hfit. unfold SensorDataRecordSize in *.
    split_and!; try (done || lia). intros n Hn Hne _. by apply Hc.
Qed.

(** Segments of whole records, none above the rotation size; for the current
    one its [size] stands for its content and the buffered bytes. *)
Definition framed_size (f : DataFile) (n : Z) : Prop :=
  n <= RotationSize (options f) /\ (SensorDataRecordSize | n).

Definition framed (f : DataFile) (fs : FS) : Prop :=
  framed_size f (size f) /\
  forall n, 0 <= n < 2 ^ 64 -> n <> sequence f ->
  framed_size f (Z.of_nat (length (content fs (segment f n)))).

Lemma WriteRecord_framed ts v f fs :
  live f fs -> sequence f + 1 < 2 ^ 64 -> framed f fs ->
  let '(f', fs') := (WriteRecord ts v (f, fs)).2 in framed f' fs'.
Proof.
  intros Hl Hs [Hz Hfr].
  destruct (WriteRecord_live ts v f fs Hl Hs)
    as (f' & fs' & -> & _ & _ & Ho & Hs' & Hle & Hz' & _ & _ & Hcur & Hc).
  pose proof (live_sequence _ _ Hl). cbn [snd]. unfold framed, framed_size, segment in *.
  rewrite Ho in *.
  split.
  - split; [done|]. rewrite Hz'. apply Z.divide_add_r; [|apply Z.divide_refl].
    destruct (full f); [apply Z.divide_0_r|apply Hz].
  - intros n Hn Hne. destruct (decide (n = sequence f)) as [->|Hne'].
    + destruct Hcur as [E|E]; [congruence|]. unfold segmentPath in E. by rewrite E.
    + rewrite Hc by done. by apply Hfr.
Qed.

Lemma write_all_live rs f fs :
  live f fs -> framed f fs -> sequence f + Z.of_nat (length rs) < 2 ^ 64 ->
  exists f' fs', write_all rs (f, fs) = (Ret tt, (f', fs')) /\
    live f' fs' /\ framed f' fs' /\ log f' fs' = log f fs ++ encode_records rs /\
    options f' = options f /\ sequence f <= sequence f' /\
    u64 (bytesWritten f') = u64 (bytesWritten f + SensorDataRecordSize * Z.of_nat (length rs)).
Proof.
  revert f fs. induction rs as [|[ts v] rs IH]; intros f fs Hl Hfr Hs; cbn [write_all length] in *.
  { exists f, fs. unfold mret, M_ret, encode_records. cbn [map concat].
    rewrite app_nil_r, Z.mul_0_r, Z.add_0_r. split_and!; done. }
  pose proof (WriteRecord_framed ts v f fs Hl ltac:(lia) Hfr) as Hfr1.
  destruct (WriteRecord_live ts v f fs Hl ltac:(lia))
    as (f1 & fs1 & E & Hl1 & Hlog1 & Ho1 & Hs1 & _ & _ & Hb1 & _).
  unfold mbind, M_bind. rewrite E in *. cbn [snd] in Hfr1.
  destruct (IH f1 fs1 Hl1 Hfr1 ltac:(lia)) as (f' & fs' & -> & Hl' & Hfr' & Hlog' & Ho' & Hs' & Hb').
  exists f', fs'. split; [done|]. split_and!; try done.
  - rewrite Hlog', Hlog1, <- app_assoc. done.
  - congruence.
  - lia.
  - rewrite Hb', Hb1, wrapu_add_l. f_equal. unfold SensorDataRecordSize. lia.
Qed.

(** Flushing moves the buffered bytes to the disk. *)
Lemma Flush_live f fs :
  live f fs -> framed f fs ->
  exists f' fs', Flush (f, fs) = (Ret tt, (f', fs')) /\ live f' fs' /\ framed f' fs' /\
    disk_log f' fs' = log f fs /\ buffered f' = [] /\ sequence f' = sequence f /\
    options f' = options f /\ bytesWritten f' = bytesWritten f /\ rotations f' = rotations f.
Proof.
  intros Hl [Hz Hfr]. pose proof Hl as [Hwf Ho [b Hb] Hh Hf Hsz Hbd Hrot Hseq Hfresh Hd Hn].
  unfold Flush. unfold mbind, M_bind, gets. cbn [fst]. rewrite Ho.
  destruct (Flush_call_spec f fs b Hb) as (e & b' & fs' & w & E & Hs & Hx & Hw & He & Hn' & Hr).
  assert (bw_err b = None) as Hbe by (unfold healthy in Hh; by rewrite Hb in Hh).
  assert (e = None) as Hno by auto. rewrite Hno in *. destruct (Hn' eq_refl) as [Hb' _].
  rewrite Hb', app_nil_r in Hw.
  assert (bw_file b = segmentPath f) as Hp.
  { unfold wf in Hwf. rewrite Hb in Hwf. destruct (file f); [|done]. by destruct Hwf as (-> & -> & _). }
  assert (buffered f = w) as Hbw by (unfold buffered; by rewrite Hb, Hw).
  rewrite Hp in Hx. unfold wrap_err. rewrite E. do 2 eexists. split; [done|].
  assert (forall n, 0 <= n < 2 ^ 64 -> n <> sequence f ->
            content fs' (segment f n) = content fs (segment f n)) as Hc.
  { intros n Hn0 Hne. apply (content_other _ _ _ _ _ Hx). apply (segment_ne f n (sequence f)); lia. }
  split_and!; try done.
  - constructor; cbn -[Z.pow]; try done.
    + eapply wf_buffer; try done. unfold writer_ok. rewrite (sw_size _ _ Hs), Hb', <- Hw. cbn. lia.
    + by apply (ext_faults _ _ _ _ Hx).
    + unfold buffered. cbn. rewrite Hb', app_nil_r.
      change (segmentPath (set_file _ _ f)) with (segmentPath f).
      by rewrite (ext_content _ _ _ _ Hx), <- Hbw.
    + intros n Hn0. change (content fs' (segment f n) = []). rewrite Hc by lia. by apply Hfresh.
    + by rewrite (ext_dirs _ _ _ _ Hx).
    + intros n. rewrite (ext_dirs _ _ _ _ Hx). apply Hn.
  - split; [done|]. intros n Hn0 Hne. change (framed_size f (Z.of_nat (length (content fs' (segment f n))))).
    rewrite Hc by done. by apply Hfr.
  - change (disk_log f fs' = log f fs). unfold log. rewrite Hbw. by apply disk_log_extends.
Qed.

(** Closing leaves the whole log on disk. *)
Lemma Close_live f fs :
  live f fs -> framed f fs ->
  exists f' fs', Close (f, fs) = (Ret tt, (f', fs')) /\ f' = set_file None None (set_closed true f) /\
    disk_log f fs' = log f fs /\
    forall n, 0 <= n < 2 ^ 64 -> framed_size f (Z.of_nat (length (content fs' (segment f n)))).
Proof.
  intros Hl [Hz Hfr]. unfold Close. unfold mbind at 1, M_bind at 1, gets. cbn [fst].
  rewrite (live_open _ _ Hl). unfold mbind, M_bind, update, modify. cbn [fst snd].
  destruct (closeCurrentSegment_spec (set_closed true f) fs (live_wf _ _ Hl))
    as (r & fs' & w & -> & Hx & Hw & Hp & Hok).
  destruct Hok as [-> ->]; [apply Hl..|]. do 2 eexists. split; [done|].
  pose proof (live_sequence _ _ Hl).
  change (segmentPath (set_closed true f)) with (segmentPath f) in Hx.
  change (buffered (set_closed true f)) with (buffered f) in Hx.
  split_and!; [done|by apply disk_log_extends|].
  intros n Hn. destruct (decide (n = sequence f)) as [->|Hne].
  - change (segment f (sequence f)) with (segmentPath f).
    rewrite (ext_content _ _ _ _ Hx), <- (live_size _ _ Hl). done.
  - rewrite (content_other _ _ _ _ _ Hx) by (apply segment_ne; lia). by apply Hfr.
Qed.

Lemma decode_encode_records rs :
  Forall (fun r => - 2 ^ 63 <= r.1 < 2 ^ 63 /\ - 2 ^ 31 <= r.2 < 2 ^ 31) rs ->
  decode_records (length rs) (encode_records rs) = rs.
Proof.
  induction 1 as [|[ts v] rs [Ht Hv] _ IH]; [done|]. cbn [fst snd] in *.
  cbn [length decode_records]. unfold encode_records. cbn [map concat].
  change (concat (map _ rs)) with (encode_records rs). cbn [fst snd].
  unfold encode_record at 1. rewrite <- !app_assoc.
  rewrite take_app_length' by (by rewrite le_put_length).
  rewrite (le_get_small 8) by (by apply wrapu_range).
  unfold encode_record at 1. rewrite <- !app_assoc.
  rewrite (drop_app_length' (le_put 8 _)) by (by rewrite le_put_length).
  rewrite take_app_length' by (by rewrite le_put_length).
  rewrite (le_get_small 4) by (by apply wrapu_range).
  rewrite drop_app_length' by (by rewrite encode_record_length).
  rewrite IH. f_equal. f_equal; (rewrite wraps_wrapu by lia; by apply wraps_small).
Qed.


(** ** Lemmas: discovery and repair *)

(** A segment without its incomplete trailing record. *)
Definition repaired (c : list byte) : list byte :=
  take (length c - length c mod 12) c.

Lemma repaired_length c : length (repaired c) = (length c - length c mod 12)%nat.
Proof. unfold repaired. rewrite length_take. lia. Qed.

Lemma repaired_whole c : (SensorDataRecordSize | Z.of_nat (length (repaired c))).
Proof.
  rewrite repaired_length. exists (Z.of_nat (length c / 12)).
  pose proof (Nat.div_mod_eq (length c) 12). unfold SensorDataRecordSize. lia.
Qed.

Lemma repaired_idemp c : repaired (repaired c) = repaired c.
Proof.
  unfold repaired at 1. rewrite repaired_length.
  rewrite firstn_all2; [done|]. rewrite repaired_length.
  pose proof (Nat.div_mod_eq (length c) 12) as E.
  replace (length c - length c mod 12)%nat with (length c / 12 * 12)%nat by lia.
  rewrite Nat.Div0.mod_mul. lia.
Qed.

Lemma repair_size c :
  Z.of_nat (length (repaired c)) =
  Z.of_nat (length c) - Z.rem (Z.of_nat (length c)) SensorDataRecordSize.
Proof.
  rewrite repaired_length. unfold SensorDataRecordSize.
  rewrite Z.rem_mod_nonneg by lia.
  pose proof (Nat.Div0.mod_le (length c) 12). rewrite Nat2Z.inj_sub, Nat2Z.inj_mod by lia. done.
Qed.

Lemma repairSegment_clean F D p c fs :
  clean F D fs -> F !! p = Some c -> p.1 ++ [p.2] ∉ D ->
  exists fs', repairSegment p fs = (Ret (Z.of_nat (length (repaired c))), fs') /\
    clean (<[p := repaired c]> F) D fs'.
Proof.
  intros H Hp Hd. unfold repairSegment. unfold mbind at 1, M_bind at 1, wrap_err at 1.
  destruct (Stat_clean F D p c fs H Hp) as (fs1 & -> & H1). cbv zeta.
  rewrite repair_size.
  destruct (Z.eqb_spec (Z.rem (Z.of_nat (length c)) SensorDataRecordSize) 0) as [E|E]; cbn [negb].
  { exists fs1. unfold mret, M_ret. rewrite E, Z.sub_0_r. split; [done|].
    replace (repaired c) with c; [by rewrite insert_id|].
    unfold repaired. rewrite firstn_all2; [done|].
    pose proof (repair_size c). rewrite repaired_length in *. lia. }
  unfold mbind, M_bind, wrap_err.
  destruct (OpenFile_clean F D p readWriteFlags c fs1) as (fs2 & -> & H2); [done..|].
  unfold attempt_err.
  pose proof (repair_size c) as Hsz.
  destruct (Truncate_clean F D p (Z.of_nat (length (repaired c))) c fs2) as (fs3 & E3 & H3);
    [done|done|rewrite repaired_length; lia|].
  rewrite <- Hsz, E3. rewrite Nat2Z.id, repaired_length in H3. fold (repaired c) in H3.
  destruct (Sync_clean _ D p fs3 H3) as (fs4 & -> & H4).
  destruct (Close_clean _ D p fs4 H4) as (fs5 & -> & H5).
  exists fs5. done.
Qed.

(** The files after the repair of the entries [es] of [d]. *)
Definition repaired_in (d : dir_path) (es : list dir_entry) (F F' : gmap file_path (list byte)) : Prop :=
  forall q, F' !! q =
    if decide (q.1 = d /\ (q.2, false) ∈ es /\ is_Some (parseSegmentName q.2))
    then repaired <$> F !! q else F !! q.

(** [best] is the highest segment among [es] and the segment [b0] found
    before, with its repaired size. *)
Definition highest (d : dir_path) (es : list dir_entry) (F : gmap file_path (list byte))
    (b0 best : option (Z * Z)) : Prop :=
  (best = b0 \/ exists n name c, (name, false) ∈ es /\ parseSegmentName name = Some n /\
     F !! (d, name) = Some c /\ best = Some (n, Z.of_nat (length (repaired c)))) /\
  (forall n name, (name, false) ∈ es -> parseSegmentName name = Some n ->
     exists b s, best = Some (b, s) /\ n <= b) /\
  (forall n s, b0 = Some (n, s) -> exists b s', best = Some (b, s') /\ n <= b).

Lemma repaired_in_skip d e es F F' :
  (e.2 = true \/ parseSegmentName e.1 = None) ->
  repaired_in d es F F' -> repaired_in d (e :: es) F F'.
Proof.
  intros He H q. rewrite (H q). destruct e as [name b]. cbn in He.
  destruct (decide (q.1 = d /\ (q.2, false) ∈ es /\ _)) as [(H1 & H2 & H3)|Hn].
  - rewrite decide_True; [done|]. split; [done|]. split; [by right|done].
  - rewrite decide_False; [done|]. intros (H1 & H2 & H3). apply elem_of_cons in H2 as [[= <- <-]|H2].
    + destruct He as [He|He]; [done|]. rewrite He in H3. by destruct H3.
    + by apply Hn.
Qed.

Lemma repaired_in_cons d name c es F F' :
  F !! (d, name) = Some c -> is_Some (parseSegmentName name) ->
  repaired_in d es (<[(d, name) := repaired c]> F) F' -> repaired_in d ((name, false) :: es) F F'.
Proof.
  intros Hc Hs H q. rewrite (H q). destruct (decide (q = (d, name))) as [->|Hne].
  - rewrite lookup_insert_eq, Hc. cbn [fst snd].
    rewrite (decide_True (P := d = d /\ (name, false) ∈ (name, false) :: es /\ _))
      by (split; [done|]; split; [by left|done]).
    cbn. rewrite repaired_idemp. by destruct (decide _).
  - rewrite lookup_insert_ne by done.
    destruct (decide (q.1 = d /\ (q.2, false) ∈ es /\ _)) as [(H1 & H2 & H3)|Hn].
    + rewrite decide_True; [done|]. split; [done|]. split; [by right|done].
    + rewrite decide_False; [done|]. intros (H1 & H2 & H3).
      apply elem_of_cons in H2 as [[= E]|H2]; [|by apply Hn].
      apply Hne. destruct q. cbn in *. by subst.
Qed.

Lemma highest_skip d e es F b0 best :
  (e.2 = true \/ parseSegmentName e.1 = None) -> highest d es F b0 best -> highest d (e :: es) F b0 best.
Proof.
  intros He (H1 & H2 & H3). destruct e as [name b]. cbn in He. split_and!; [|..|done].
  - destruct H1 as [?|(n & m & c & Hin & ?)]; [by left|right].
    exists n, m, c. split; [by right|done].
  - intros n m Hin Hp. apply elem_of_cons in Hin as [[= <- <-]|Hin]; [|by eapply H2].
    destruct He as [?|He]; [done|congruence].
Qed.

(** One more segment of the listing: the step of the loop. *)
Definition better (best : option (Z * Z)) (n size : Z) : option (Z * Z) :=
  match best with
  | Some (sequence, _) => if sequence <? n then Some (n, size) else best
  | None => Some (n, size)
  end.

Lemma highest_cons d name n c es F b0 best :
  F !! (d, name) = Some c -> parseSegmentName name = Some n ->
  highest d es (<[(d, name) := repaired c]> F) (better b0 n (Z.of_nat (length (repaired c)))) best ->
  highest d ((name, false) :: es) F b0 best.
Proof.
  intros Hc Hp (H1 & H2 & H3).
  set (s0 := Z.of_nat (length (repaired c))) in *.
  assert (exists b s, better b0 n s0 = Some (b, s) /\ n <= b /\
            forall m s', b0 = Some (m, s') -> m <= b) as (b1 & s1 & Eb & Hb & Hm).
  { unfold better. destruct b0 as [[b s]|]; [destruct (Z.ltb_spec b n)|];
      (do 2 eexists; split; [done|]; split; [lia|]; intros m s' [= <- <-]; lia). }
  split_and!.
  - destruct H1 as [->|(m & name' & c' & Hin & Hp' & Hc' & ->)].
    + unfold better. destruct b0 as [[b s]|]; [destruct (Z.ltb_spec b n)|]; try by left.
      * right. exists n, name, c. split_and!; try done. by left.
      * right. exists n, name, c. split_and!; try done. by left.
    + right. destruct (decide (name' = name)) as [->|Hne].
      * rewrite lookup_insert_eq in Hc'. injection Hc' as <-. rewrite repaired_idemp.
        exists m, name, c. split_and!; try done. by left.
      * rewrite lookup_insert_ne in Hc' by congruence.
        exists m, name', c'. split_and!; try done. by right.
  - intros m name' Hin Hp'. apply elem_of_cons in Hin as [[= ->]|Hin]; [|by eapply H2].
    destruct (H3 _ _ Eb) as (b & s & -> & Hle). rewrite Hp in Hp'. injection Hp' as <-.
    do 2 eexists. split; [done|]. lia.
  - intros m s' E. destruct (H3 _ _ Eb) as (b & s & -> & Hle).
    do 2 eexists. split; [done|]. specialize (Hm _ _ E). lia.
Qed.

Lemma discover_loop_clean d D es F best fs :
  clean F D fs -> (forall n, d ++ [segmentName n] ∉ D) ->
  (forall name, (name, false) ∈ es -> is_Some (F !! (d, name))) ->
  exists best' F' fs', discover_loop d es best fs = (Ret best', fs') /\ clean F' D fs' /\
    repaired_in d es F F' /\ highest d es F best best'.
Proof.
  intros H Hd. revert F best fs H. induction es as [|[name isdir] es IH]; intros F best fs H Hes.
  { exists best, F, fs. split; [done|]. split; [done|]. split.
    - intros q. destruct (decide _) as [(_ & Hin & _)|]; [|done]. by apply not_elem_of_nil in Hin.
    - split_and!; [by left|intros n name Hin; by apply not_elem_of_nil in Hin|].
      intros n s ->. do 2 eexists. split; [done|lia]. }
  assert (forall name', (name', false) ∈ es -> is_Some (F !! (d, name'))) as Hes'
    by (intros name' Hin; apply Hes; by right).
  cbn [discover_loop]. destruct (parseSegmentName name) as [n|] eqn:Ep; [destruct isdir|].
  - destruct (IH F best fs H Hes') as (best' & F' & fs' & -> & Hc & Hr & Hh).
    exists best', F', fs'. split_and!; [done..| |].
    + apply repaired_in_skip; [by left|done].
    + apply highest_skip; [by left|done].
  - destruct (Hes name ltac:(by left)) as [c Hc].
    unfold mbind, M_bind.
    destruct (repairSegment_clean F D (d, name) c fs H Hc) as (fs1 & -> & H1).
    { cbn. pose proof (parseSegmentName_Some name n Ep) as [-> _]. apply Hd. }
    edestruct (IH (<[(d, name) := repaired c]> F)
      (better best n (Z.of_nat (length (repaired c)))) fs1 H1)
      as (best' & F' & fs' & E & Hcl & Hr & Hh).
    { intros name' Hin. destruct (decide (name' = name)) as [->|Hne].
      - rewrite lookup_insert_eq. eauto.
      - rewrite lookup_insert_ne by congruence. by apply Hes'. }
    exists best', F', fs'. split_and!; [exact E|done| |].
    + eapply repaired_in_cons; [done|by eexists|done].
    + by eapply highest_cons.
  - destruct (IH F best fs H Hes') as (best' & F' & fs' & -> & Hc & Hr & Hh).
    exists best', F', fs'. split_and!; [done..| |].
    + apply repaired_in_skip; [by right|done].
    + apply highest_skip; [by right|done].
Qed.

(** A directory a data file can be opened in, no call failing. *)
Record openable (opts : DataFileOptions) (fs : FS) : Prop := mkOpenable {
  op_faults : no_faults fs;
  op_path : blank_path (Directory opts) = false;
  op_buffer : 1 <= BufferSize opts;
  op_rotation : SensorDataRecordSize <= RotationSize opts < 2 ^ 63 - SensorDataRecordSize;
  op_parents : existsb (is_file fs) (ancestors (Directory opts)) = false;
  op_names : forall n, Directory opts ++ [segmentName n] ∉ dirs fs;
  op_sizes : forall n c, files fs !! (Directory opts, segmentName n) = Some c -> Z.of_nat (length c) < 2 ^ 62;
  op_long : forall n, 100000000 <= n < 2 ^ 64 -> files fs !! (Directory opts, segmentName n) = None }.

Lemma ancestors_length d e : e ∈ ancestors d -> (length e <= length d)%nat.
Proof.
  unfold ancestors. rewrite list_elem_of_fmap. intros (n & -> & _). rewrite length_take. lia.
Qed.

Lemma blank_path_nil d : blank_path d = false -> d <> [].
Proof. intros H ->. by vm_compute in H. Qed.

Lemma wrap_err_ret {S A} msg (m : M S A) s a s' :
  m s = (Ret a, s') -> wrap_err msg m s = (Ret a, s').
Proof. unfold wrap_err. by intros ->. Qed.

(** The highest segment found, with its repaired size, on a directory. *)
Lemma discoverAndRepairSegments_clean F D opts fs :
  clean F D fs -> (forall n, Directory opts ++ [segmentName n] ∉ D) -> Directory opts ∈ D ->
  exists es best F' fs',
    discoverAndRepairSegments opts fs = (Ret (default (firstSegmentSequence, 0) best), fs') /\
    clean F' D fs' /\ (forall name, (name, false) ∈ es <-> is_Some (F !! (Directory opts, name))) /\
    repaired_in (Directory opts) es F F' /\ highest (Directory opts) es F None best.
Proof.
  intros H Hn Hd. unfold discoverAndRepairSegments, mbind, M_bind.
  destruct (ReadDir_clean F D (Directory opts) fs H Hd) as (es & fs1 & E & H1 & Hes).
  rewrite (wrap_err_ret _ _ _ _ _ E).
  destruct (discover_loop_clean (Directory opts) D es F None fs1 H1 Hn)
    as (best & F' & fs' & -> & Hc & Hr & Hh).
  { intros name Hin. by apply Hes. }
  exists es, best, F', fs'. by split_and!.
Qed.

Lemma repaired_in_segment d es F F' n :
  (forall name, (name, false) ∈ es <-> is_Some (F !! (d, name))) ->
  repaired_in d es F F' -> 1 <= n <= 99999999 ->
  F' !! (d, segmentName n) = repaired <$> F !! (d, segmentName n).
Proof.
  intros Hes Hr Hn. rewrite (Hr (d, segmentName n)). cbn [fst snd].
  destruct (F !! (d, segmentName n)) as [c|] eqn:E; [|by destruct (decide _)].
  rewrite decide_True; [done|]. split; [done|]. split; [apply Hes; eauto|].
  rewrite parseSegmentName_segmentName by done. eauto.
Qed.

Lemma repaired_in_other d es F F' q :
  repaired_in d es F F' -> q.1 <> d \/ parseSegmentName q.2 = None -> F' !! q = F !! q.
Proof.
  intros Hr Hq. rewrite (Hr q). rewrite decide_False; [done|].
  intros (H1 & _ & [x H2]). destruct Hq; congruence.
Qed.

Lemma OpenDataFile_unfold opts fs F D :
  clean F D fs -> blank_path (Directory opts) = false -> 1 <= BufferSize opts ->
  SensorDataRecordSize <= RotationSize opts ->
  existsb (is_file fs) (ancestors (Directory opts)) = false ->
  exists opts' fs',
    Directory opts' = Directory opts /\ BufferSize opts' = BufferSize opts /\
    RotationSize opts' = RotationSize opts /\
    clean F (list_to_set (ancestors (Directory opts)) ∪ D) fs' /\
    OpenDataFile opts fs =
      (found ← discoverAndRepairSegments opts'; openDataFileAt opts' found.1 found.2) fs'.
Proof.
  intros H Hp Hb Hr Hf. unfold OpenDataFile. rewrite Hp.
  destruct (Z.ltb_spec (BufferSize opts) 1); [lia|].
  destruct (Z.ltb_spec (RotationSize opts) SensorDataRecordSize); [lia|]. cbv zeta.
  set (opts' := mkDataFileOptions _ _ _ _ _).
  destruct (MkdirAll_clean F D (Directory opts') fs H Hf) as (fs1 & E & HC1).
  exists opts', fs1. split_and!; try done.
  unfold mbind at 1, M_bind at 1. by rewrite (wrap_err_ret _ _ _ _ _ E).
Qed.

Lemma openDataFileAt_spec opts n z fs :
  no_faults fs -> segment_free (mkDataFile opts None None n z false 0 0) fs ->
  exists f fs', openDataFileAt opts n z fs = (Ret f, fs') /\
    f = mkDataFile opts (Some (Directory opts, segmentName n))
          (Some (NewWriterSize (Directory opts, segmentName n) (BufferSize opts))) n z false 0 0 /\
    wf f /\ extends (Directory opts, segmentName n) [] fs fs'.
Proof.
  intros Hn Hs. unfold openDataFileAt.
  destruct (openCurrentSegment_spec (mkDataFile opts None None n z false 0 0) fs eq_refl eq_refl)
    as (r & f & fs' & -> & _ & Hx & Hwf & Hret & _ & Hok).
  destruct (Hok Hn Hs) as [-> _]. exists f, fs'. split_and!; [done|by apply Hret|done|exact Hx].
Qed.

(** The sequence and size that discovery returns. *)
Lemma highest_default d es F best :
  highest d es F None best ->
  (forall name, (name, false) ∈ es <-> is_Some (F !! (d, name))) ->
  let '(n, z) := default (firstSegmentSequence, 0) best in
  1 <= n <= 99999999 /\
  z = Z.of_nat (length (repaired (default [] (F !! (d, segmentName n))))) /\
  (n = 1 \/ is_Some (F !! (d, segmentName n))) /\
  forall m, 1 <= m <= 99999999 -> is_Some (F !! (d, segmentName m)) -> m <= n.
Proof.
  intros (H1 & H2 & _) Hes.
  assert (forall m, 1 <= m <= 99999999 -> is_Some (F !! (d, segmentName m)) ->
            exists b s, best = Some (b, s) /\ m <= b) as Hmax.
  { intros m Hm Hs. apply (H2 m (segmentName m)); [by apply Hes|].
    by apply parseSegmentName_segmentName. }
  destruct H1 as [->|(n & name & c & Hin & Hp & Hc & ->)]; cbn [default from_option]; unfold id.
  - unfold firstSegmentSequence. split_and!; [lia..| |by left|].
    + destruct (F !! (d, segmentName 1)) as [c|] eqn:E; [|done].
      destruct (Hmax 1 ltac:(lia)) as (b & s & [=] & _). rewrite E. eauto.
    + intros m Hm Hs. destruct (Hmax m Hm Hs) as (b & s & [=] & _).
  - destruct (parseSegmentName_Some name n Hp) as [-> Hn]. rewrite Hc.
    split_and!; [lia..|done|right; eauto|].
    intros m Hm Hs. destruct (Hmax m Hm Hs) as (b & s & [= <- <-] & Hle). done.
Qed.

(** What opening leaves, in terms of the directory that was opened. *)
Record opened (opts : DataFileOptions) (fs : FS) (f : DataFile) (fs' : FS) : Prop := mkOpened {
  od_dir : Directory (options f) = Directory opts;
  od_rotation : RotationSize (options f) = RotationSize opts;
  od_shape : exists n z, f = mkDataFile (options f) (Some (Directory opts, segmentName n))
    (Some (NewWriterSize (Directory opts, segmentName n) (BufferSize opts))) n z false 0 0;
  od_wf : wf f;
  od_faults : no_faults fs';
  od_dirs : dirs fs' = list_to_set (ancestors (Directory opts)) ∪ dirs fs;
  od_sequence : 1 <= sequence f <= 99999999;
  od_size : size f = Z.of_nat (length (content fs' (segmentPath f)));
  od_exists : sequence f = 1 \/ is_Some (files fs !! segment f (sequence f));
  od_highest : forall n, 1 <= n <= 99999999 -> is_Some (files fs !! segment f n) -> n <= sequence f;
  od_repaired : forall n, 1 <= n <= 99999999 ->
    content fs' (segment f n) = repaired (content fs (segment f n));
  od_other : forall q, q.1 <> Directory opts \/ parseSegmentName q.2 = None ->
    files fs' !! q = files fs !! q }.

Lemma repaired_in_content d es F fs1 fs2 n :
  files fs1 = F -> (forall name, (name, false) ∈ es <-> is_Some (F !! (d, name))) ->
  repaired_in d es F (files fs2) -> 1 <= n <= 99999999 ->
  content fs2 (d, segmentName n) = repaired (content fs1 (d, segmentName n)).
Proof.
  intros HF Hes Hr Hn. unfold content. rewrite HF, (repaired_in_segment _ _ _ _ _ Hes Hr Hn).
  by destruct (F !! (d, segmentName n)).
Qed.

Lemma extends_nil_content p q fs fs' : extends p [] fs fs' -> content fs' q = content fs q.
Proof.
  intros Hx. destruct (decide (q = p)) as [->|Hne].
  - by rewrite (ext_content _ _ _ _ Hx), app_nil_r.
  - by apply (content_other _ _ _ _ _ Hx).
Qed.

Lemma OpenDataFile_opened opts fs :
  openable opts fs -> exists f fs', OpenDataFile opts fs = (Ret f, fs') /\ opened opts fs f fs'.
Proof.
  intros [Hnf Hp Hb Hrot Hpar Hnames _ _].
  destruct (OpenDataFile_unfold opts fs _ _ (clean_intro fs Hnf) Hp Hb (proj1 Hrot) Hpar)
    as (opts' & fs1 & Ed & Eb & Er & H1 & ->).
  rewrite <- Ed in *.
  set (D := list_to_set (ancestors (Directory opts')) ∪ dirs fs) in *.
  assert (forall n, Directory opts' ++ [segmentName n] ∉ D) as Hn'.
  { intros n. unfold D. rewrite elem_of_union, elem_of_list_to_set. intros [Hin|Hin]; [|by eapply Hnames].
    apply ancestors_length in Hin. rewrite length_app in Hin. cbn in Hin. lia. }
  assert (Directory opts' ∈ D) as Hin.
  { unfold D. rewrite elem_of_union, elem_of_list_to_set. left.
    apply ancestors_self. by apply blank_path_nil. }
  destruct (discoverAndRepairSegments_clean _ _ opts' fs1 H1 Hn' Hin)
    as (es & best & F' & fs2 & E & (HF & HD & Hnf2) & Hes & Hr & Hh).
  unfold mbind, M_bind. rewrite E.
  pose proof (highest_default _ _ _ _ Hh Hes) as Hbest.
  destruct (default (firstSegmentSequence, 0) best) as [n z]. cbn [fst snd].
  destruct Hbest as (Hn & Hz & Hex & Hmax).
  destruct (openDataFileAt_spec opts' n z fs2 Hnf2) as (f & fs' & -> & Hf & Hwf & Hx).
  { split; cbn; rewrite HD; [done|apply Hn']. }
  subst F'. exists f, fs'. split; [done|].
  assert (forall m, segment f m = (Directory opts', segmentName m)) as Hseg by by rewrite Hf.
  assert (sequence f = n) as Hs by by rewrite Hf.
  assert (forall m, 1 <= m <= 99999999 ->
    content fs' (segment f m) = repaired (content fs (segment f m))) as Hrep.
  { intros m Hm. rewrite Hseg, (extends_nil_content _ _ _ _ Hx).
    by apply (repaired_in_content _ es (files fs)). }
  constructor; try done; rewrite ?segmentPath_segment, ?Hs; try done.
  - by rewrite Hf.
  - by rewrite Hf.
  - rewrite Hf. rewrite <- Ed, <- Eb. cbn. by exists n, z.
  - by apply (ext_faults _ _ _ _ Hx).
  - rewrite (ext_dirs _ _ _ _ Hx), HD. unfold D. by rewrite Ed.
  - rewrite Hrep, Hseg by done. by rewrite Hf.
  - by rewrite Hseg.
  - intros m. rewrite Hseg. apply Hmax.
  - intros q Hq. rewrite <- Ed in Hq. rewrite (ext_other _ _ _ _ Hx).
    + by apply (repaired_in_other _ _ _ _ _ Hr).
    + intros ->. destruct Hq as [?|Hq]; [done|]. cbn [snd] in Hq.
      by rewrite parseSegmentName_segmentName in Hq.
Qed.

Lemma opened_live opts fs f fs' : openable opts fs -> opened opts fs f fs' -> live f fs'.
Proof.
  intros Hop Hod. destruct (od_shape _ _ _ _ Hod) as (n & z & Hf).
  pose proof (od_sequence _ _ _ _ Hod) as Hn.
  assert (forall m, segment f m = (Directory opts, segmentName m)) as Hseg
    by (intros m; unfold segment; by rewrite (od_dir _ _ _ _ Hod)).
  assert (buffered f = []) as Hbuf by by rewrite Hf.
  assert (forall m, 1 <= m <= 99999999 -> Z.of_nat (length (content fs' (segment f m))) < 2 ^ 62) as Hsz.
  { intros m Hm. rewrite (od_repaired _ _ _ _ Hod) by done. rewrite repaired_length. unfold content.
    destruct (files fs !! segment f m) as [c|] eqn:E; [|done].
    rewrite Hseg in E. pose proof (op_sizes _ _ Hop _ _ E). cbn. unfold id. lia. }
  constructor.
  - apply Hod.
  - by rewrite Hf.
  - rewrite Hf. by eexists.
  - by rewrite Hf.
  - apply Hod.
  - by rewrite Hbuf, app_nil_r, (od_size _ _ _ _ Hod).
  - rewrite (od_size _ _ _ _ Hod). unfold SensorDataRecordSize.
    specialize (Hsz (sequence f) Hn). rewrite <- segmentPath_segment in Hsz. lia.
  - rewrite (od_rotation _ _ _ _ Hod). apply Hop.
  - lia.
  - intros m Hm. destruct (decide (m <= 99999999)) as [Hle|Hgt].
    + rewrite (od_repaired _ _ _ _ Hod) by lia. unfold content.
      destruct (files fs !! segment f m) eqn:Em; [|done].
      assert (m <= sequence f) by (apply (od_highest _ _ _ _ Hod); [lia|by eexists]). lia.
    + unfold content. rewrite Hseg, (od_other _ _ _ _ Hod).
      * by rewrite (op_long _ _ Hop) by lia.
      * right. apply parseSegmentName_overflow. lia.
  - rewrite (od_dirs _ _ _ _ Hod), (od_dir _ _ _ _ Hod), elem_of_union, elem_of_list_to_set.
    left. apply ancestors_self. apply blank_path_nil, Hop.
  - intros m. rewrite (od_dirs _ _ _ _ Hod), (od_dir _ _ _ _ Hod), elem_of_union, elem_of_list_to_set.
    intros [Hin|Hin]; [|by eapply (op_names _ _ Hop)].
    apply ancestors_length in Hin. rewrite length_app in Hin. cbn in Hin. lia.
Qed.

(** A rotation that cannot open the next segment has advanced to it and
    leaves neither file nor buffer. *)
Lemma rotate_open_failed f fs e f' fs' :
  wf f -> rotate (f, fs) = (Fail e, (f', fs')) -> sequence f' <> sequence f ->
  f' = next_segment (set_file None None f).
Proof.
  intros Hwf. unfold rotate. unfold mbind at 1, M_bind at 1.
  destruct (closeCurrentSegment_spec f fs Hwf) as (r1 & fs1 & w & -> & _).
  destruct r1 as [[]|e1|p]; [|by intros [= _ <- _]|done].
  unfold mbind, M_bind, update, modify, wrap_err. cbn [fst snd].
  destruct (openCurrentSegment_spec (next_segment (set_file None None f)) fs1 eq_refl eq_refl)
    as (r2 & f2 & fs2 & -> & Hp & _ & _ & _ & Hne & _).
  destruct r2 as [[]|e2|p]; [done| |done]. rewrite (Hne ltac:(done)). by intros [= _ <- _].
Qed.

(** ** Properties: an append-only log *)

(** C10. Refinement of the append-only log: on a working data file any records
    written and then closed return no error and leave on disk, across the
    segments in order, exactly the previous log followed by the records'
    encodings; every segment holds whole records within the rotation size; and
    the byte counter counts twelve bytes per record, modulo 2^64. *)
Theorem data_file_log rs f fs :
  live f fs -> framed f fs -> sequence f + Z.of_nat (length rs) < 2 ^ 64 ->
  exists f' fs', (write_all rs;; Close) (f, fs) = (Ret tt, (f', fs')) /\ closed f' = true /\
    disk_log f' fs' = log f fs ++ encode_records rs /\
    (forall n, 0 <= n < 2 ^ 64 -> framed_size f (Z.of_nat (length (content fs' (segment f n))))) /\
    u64 (BytesWritten (Counters f')) =
      u64 (bytesWritten f + SensorDataRecordSize * Z.of_nat (length rs)).
Proof.
  intros Hl Hfr Hs.
  destruct (write_all_live rs f fs Hl Hfr Hs) as (f1 & fs1 & E & Hl1 & Hfr1 & Hlog & Ho & Hs1 & Hb).
  destruct (Close_live f1 fs1 Hl1 Hfr1) as (f2 & fs2 & E2 & Hsame & Hd & Hseg).
  unfold mbind, M_bind. rewrite E, E2. subst f2.
  do 2 eexists. split; [done|]. split_and!; [done| |..|done].
  - by rewrite <- Hlog, <- Hd.
  - intros n Hn. specialize (Hseg n Hn). unfold framed_size, segment in *. by rewrite Ho in Hseg.
Qed.

(** C14. Recovery: opening a directory truncates every segment to whole
    records and touches no other file; the segment with the highest sequence
    is continued, its size the number of its bytes, and the data file works
    ([data_file_log] applies when the segments are within the rotation size). *)
Theorem OpenDataFile_recovers opts fs :
  openable opts fs ->
  exists f fs', OpenDataFile opts fs = (Ret f, fs') /\ live f fs' /\
    Directory (options f) = Directory opts /\ RotationSize (options f) = RotationSize opts /\
    size f = Z.of_nat (length (content fs' (segmentPath f))) /\
    (forall n, 1 <= n <= 99999999 ->
       content fs' (segment f n) = repaired (content fs (segment f n)) /\
       (is_Some (files fs !! segment f n) -> n <= sequence f)) /\
    (sequence f = 1 \/ is_Some (files fs !! segment f (sequence f))) /\
    (forall q, q.1 <> Directory opts \/ parseSegmentName q.2 = None -> files fs' !! q = files fs !! q).
Proof.
  intros Hop. destruct (OpenDataFile_opened opts fs Hop) as (f & fs' & E & Hod).
  exists f, fs'. split; [done|]. split; [by eapply opened_live|].
  split_and!; try apply Hod. intros n Hn. split; [by apply Hod|by apply (od_highest _ _ _ _ Hod)].
Qed.

Lemma opened_fresh opts fs f fs' :
  openable opts fs -> opened opts fs f fs' ->
  (forall n, files fs !! (Directory opts, segmentName n) = None) ->
  framed f fs' /\ log f fs' = [] /\ sequence f = 1.
Proof.
  intros Hop Hod Hnone.
  assert (forall n, segment f n = (Directory opts, segmentName n)) as Hseg
    by (intros n; unfold segment; by rewrite (od_dir _ _ _ _ Hod)).
  assert (sequence f = 1) as Hs1.
  { destruct (od_exists _ _ _ _ Hod) as [?|[c Hc]]; [done|]. by rewrite Hseg, Hnone in Hc. }
  assert (forall n, 1 <= n <= 99999999 -> content fs' (segment f n) = []) as Hc.
  { intros n Hn. rewrite (od_repaired _ _ _ _ Hod), Hseg by done. unfold content. by rewrite Hnone. }
  assert (forall n, 0 <= n < 2 ^ 64 -> content fs' (segment f n) = []) as Hc'.
  { intros n Hn. destruct (decide (1 <= n <= 99999999)) as [?|Hgt]; [by apply Hc|].
    unfold content. rewrite (od_other _ _ _ _ Hod), Hseg, Hnone; [done|]. rewrite Hseg. right.
    cbn [snd]. destruct (parseSegmentName _) as [m|] eqn:E; [|done].
    apply parseSegmentName_Some in E as [E Hm]. apply segmentName_inj in E; lia. }
  pose proof (op_rotation _ _ Hop) as Hrot.
  assert (framed_size f 0) as H0.
  { unfold framed_size. rewrite (od_rotation _ _ _ _ Hod).
    split; [unfold SensorDataRecordSize in *; lia|apply Z.divide_0_r]. }
  split_and!; [|..|done].
  - split.
    + rewrite (od_size _ _ _ _ Hod), segmentPath_segment, Hc' by (rewrite Hs1; done). done.
    + intros n Hn _. by rewrite Hc'.
  - unfold log, disk_log. rewrite Hs1. destruct (od_shape _ _ _ _ Hod) as (n & z & Hf).
    change (seqZ 1 1) with [1]. cbn [map concat]. rewrite Hc' by done. by rewrite Hf.
Qed.

(** Round trip through the disk: records written to a fresh directory
    (timestamps of 64 bits, values of 32) are, once the data file is closed,
    exactly what decoding the segments in order gives back. *)
Theorem data_file_roundtrip opts fs rs :
  openable opts fs -> (forall n, files fs !! (Directory opts, segmentName n) = None) ->
  Forall (fun r => - 2 ^ 63 <= r.1 < 2 ^ 63 /\ - 2 ^ 31 <= r.2 < 2 ^ 31) rs ->
  Z.of_nat (length rs) < 2 ^ 63 ->
  exists f fs1 f' fs', OpenDataFile opts fs = (Ret f, fs1) /\
    (write_all rs;; Close) (f, fs1) = (Ret tt, (f', fs')) /\
    decode_records (length rs) (disk_log f' fs') = rs.
Proof.
  intros Hop Hnone Hrs Hlen.
  destruct (OpenDataFile_opened opts fs Hop) as (f & fs1 & E & Hod).
  destruct (opened_fresh opts fs f fs1 Hop Hod Hnone) as (Hfr & Hlog & Hs).
  pose proof (opened_live _ _ _ _ Hop Hod) as Hl.
  destruct (write_all_live rs f fs1 Hl Hfr ltac:(lia))
    as (f1 & fs2 & E1 & Hl1 & Hfr1 & Hlog1 & _).
  destruct (Close_live f1 fs2 Hl1 Hfr1) as (f2 & fs3 & E2 & Hsame & Hd & _). subst f2.
  exists f, fs1. unfold mbind, M_bind. rewrite E1, E2. do 2 eexists. split; [done|]. split; [done|].
  change (decode_records (length rs) (disk_log f1 fs3) = rs).
  rewrite Hd, Hlog1, Hlog. by apply decode_encode_records.
Qed.

(** Segment names are recognised exactly when they are the name of a
    sequence of at most eight digits: parsing inverts [segmentName] on 1 to
    99999999 and accepts nothing else, so a segment from 100000000 on is
    written but never found again. *)
Theorem segment_names name n :
  (parseSegmentName name = Some n <-> name = segmentName n /\ 1 <= n <= 99999999) /\
  (100000000 <= n < 2 ^ 64 -> parseSegmentName (segmentName n) = None).
Proof.
  split; [|by intros; apply parseSegmentName_overflow].
  split; [by apply parseSegmentName_Some|]. intros [-> Hn]. by apply parseSegmentName_segmentName.
Qed.

(** A rotation that fails to open the next segment leaves the data file
    without a buffer, yet counts the segment as open: the error is returned
    once, and the next write or flush dereferences the nil buffer. *)
Theorem failed_rotation_panics f fs e f' fs' :
  wf f -> closed f = false -> SensorDataRecordSize <= RotationSize (options f) < 2 ^ 63 ->
  rotate (f, fs) = (Fail e, (f', fs')) -> sequence f' <> sequence f ->
  (forall ts v, WriteRecord ts v (f', fs') = (Panic PanicNil, (f', fs'))) /\
  Flush (f', fs') = (Panic PanicNil, (f', fs')).
Proof.
  intros Hwf Hc Hr E Hs. rewrite (rotate_open_failed _ _ _ _ _ Hwf E Hs) in *. split.
  - intros ts v. rewrite WriteRecord_unfold by done.
    assert (full (next_segment (set_file None None f)) = false) as ->; [|done].
    unfold full. apply Z.ltb_ge. apply Hr.
  - unfold Flush, mbind, M_bind, gets. cbn [fst].
    change (closed (next_segment (set_file None None f))) with (closed f). by rewrite Hc.
Qed.

(** ** Concrete runs *)

Definition sample_options : DataFileOptions := mkDataFileOptions ["data"] 16 30 0 0.
Definition sample_records : list (Z * Z) := [(1700000000000, 42); (1700000000001, -7); (5, 8388607)].

(** A data file on its second segment, with one record in it. *)
Definition sample_path : file_path := (["data"], segmentName 2).
Definition sample_file : DataFile :=
  mkDataFile sample_options (Some sample_path) (Some (NewWriterSize sample_path 16)) 2 12 false 0 0.
Definition sample_fs (script : list (option fault)) : FS :=
  mkFS {[ sample_path := encode_record 9 9 ]} {[ ["data"] ]} script.

Lemma sample_wf : wf sample_file.
Proof. split; [done|]. split; [done|]. unfold writer_ok. cbn. lia. Defined.

Lemma sample_lookup n : 0 <= n < 2 ^ 64 -> n <> 2 ->
  files (sample_fs []) !! (["data"], segmentName n) = None.
Proof.
  intros Hn Hne. cbn [files sample_fs]. apply lookup_singleton_ne. unfold sample_path.
  intros [= E]. apply segmentName_inj in E; lia.
Qed.

Lemma sample_names n : (["data"] : list string) ++ [segmentName n] ∉ ({[ ["data"] ]} : gset dir_path).
Proof. rewrite elem_of_singleton. intros [=]. Qed.

Lemma sample_live : live sample_file (sample_fs []).
Proof.
  constructor.
  - apply sample_wf.
  - done.
  - by eexists.
  - done.
  - by apply Forall_nil.
  - by vm_compute.
  - done.
  - done.
  - done.
  - intros n Hn. unfold content, segment. cbn [Directory options sample_file sample_options].
    cbn [sequence sample_file] in Hn. by rewrite sample_lookup by lia.
  - change (["data"] ∈ ({[ ["data"] ]} : gset dir_path)). by apply elem_of_singleton_2.
  - intros n. apply sample_names.
Qed.

Lemma sample_framed : framed sample_file (sample_fs []).
Proof.
  unfold framed, framed_size. split.
  - split; [done|]. by exists 1.
  - intros n Hn Hne. unfold content, segment. cbn [Directory options sample_file sample_options].
    rewrite sample_lookup by (done || lia). split; [done|]. by exists 0.
Qed.

Lemma sample_openable (F : gmap file_path (list byte)) :
  (forall q c, F !! q = Some c -> Z.of_nat (length c) < 2 ^ 62 /\ q.1 = ["data"]) ->
  (forall n, 100000000 <= n < 2 ^ 64 -> F !! (["data"], segmentName n) = None) ->
  F !! ([], "data") = None ->
  openable sample_options (mkFS F {[ ["data"] ]} []).
Proof.
  intros HF Hlong Hd. constructor; try done.
  - by apply Forall_nil.
  - cbn. unfold is_file. cbn. rewrite Hd. done.
  - intros n. apply sample_names.
  - intros q c Hq. by destruct (HF _ c Hq).
Qed.

Lemma data_file_invariant_witness :
  wf sample_file /\
  let '(_, (f', fs')) := WriteRecord 7 7 (sample_file, sample_fs [None; Some (mkFault EISDIR 3)]) in
  wf f' /\ grows (sample_fs []) fs'.
Proof.
  pose proof (data_file_invariant 7 7 sample_file
    (sample_fs [None; Some (mkFault EISDIR 3)]) sample_wf) as [H _].
  split; [exact sample_wf|].
  destruct (WriteRecord 7 7 _) as [r [f' fs']]. destruct H as (H1 & _ & H2 & _). by split.
Defined.

Lemma data_file_log_witness :
  exists f' fs', (write_all sample_records;; Close) (sample_file, sample_fs []) = (Ret tt, (f', fs')) /\
    disk_log f' fs' = encode_records ((9, 9) :: sample_records) /\ Rotations (Counters f') = 1.
Proof.
  destruct (data_file_log sample_records sample_file (sample_fs []) sample_live sample_framed)
    as (f' & fs' & E & _ & Hlog & _ & _); [done|].
  exists f', fs'. split; [exact E|]. split; [rewrite Hlog; by vm_compute|].
  vm_compute in E. injection E as <- <-. by vm_compute.
Defined.

Lemma OpenDataFile_recovers_witness :
  exists f fs', OpenDataFile sample_options
      (mkFS {[ sample_path := encode_record 9 9 ++ [Byte.x01] ]} {[ ["data"] ]} []) = (Ret f, fs') /\
    sequence f = 2 /\ size f = 12 /\ content fs' sample_path = encode_record 9 9.
Proof.
  destruct (OpenDataFile_recovers sample_options
    (mkFS {[ sample_path := encode_record 9 9 ++ [Byte.x01] ]} {[ ["data"] ]} []))
    as (f & fs' & E & _ & Hd & _ & _ & Hs & _).
  - apply sample_openable.
    + intros q c. rewrite lookup_singleton_Some. intros [<- <-]. done.
    + intros n Hn. apply lookup_singleton_ne. unfold sample_path. intros [= Eq].
      apply segmentName_inj in Eq; lia.
    + by apply lookup_singleton_ne.
  - exists f, fs'. split; [exact E|]. destruct (Hs 2 ltac:(lia)) as [Hc _].
    unfold segment in Hc. rewrite Hd in Hc. split; [|split].
    + vm_compute in E. by injection E as <- _.
    + vm_compute in E. by injection E as <- _.
    + change sample_path with (Directory sample_options, segmentName 2). rewrite Hc. by vm_compute.
Defined.

Lemma data_file_roundtrip_witness :
  exists f fs1 f' fs', OpenDataFile sample_options (mkFS ∅ {[ ["data"] ]} []) = (Ret f, fs1) /\
    (write_all sample_records;; Close) (f, fs1) = (Ret tt, (f', fs')) /\
    decode_records 3 (disk_log f' fs') = sample_records.
Proof.
  apply (data_file_roundtrip sample_options (mkFS ∅ {[ ["data"] ]} []) sample_records).
  - by apply sample_openable.
  - done.
  - repeat constructor; cbn; lia.
  - done.
Defined.

Lemma failed_rotation_panics_witness :
  let '(r, (f', fs')) := rotate (sample_file, sample_fs [None; None; Some (mkFault EISDIR 0)]) in
  WriteRecord 1 1 (f', fs') = (Panic PanicNil, (f', fs')).
Proof.
  destruct (rotate _) as [r [f' fs']] eqn:E.
  assert (exists e, r = Fail e /\ sequence f' = 3) as (e & -> & Hs)
    by (vm_compute in E; injection E as <- <- _; eauto).
  apply (failed_rotation_panics sample_file (sample_fs [None; None; Some (mkFault EISDIR 0)]) e f' fs');
    [exact sample_wf|done|done|exact E|by rewrite Hs].
Defined.

(** A failed write to the disk stays in the buffered writer: until the next
    rotation every write fails with the same error, so that retrying it
    cannot succeed. *)
Lemma write_error_is_sticky ts v f fs b e :
  closed f = false -> buffer f = Some b -> bw_err b = Some e -> full f = false ->
  WriteRecord ts v (f, fs) = (Fail (ErrWrap "write data segment" e), (f, fs)).
Proof.
  intros Hc Hb He Hf. rewrite WriteRecord_unfold, Hf by done.
  unfold mret, M_ret, mbind, M_bind, wrap_err, buffer_call. rewrite Hb.
  assert (bufio_Write (encode_record ts v) b fs = (Some e, b, fs)) as ->; [|by destruct f; cbn in *; subst].
  destruct b as [p buf n be]. cbn [bw_err] in He. subst be.
  unfold bufio_Write, bufio_fill, bufio_direct. cbn [bw_err].
  rewrite bool_decide_eq_false_2 by done. rewrite !andb_false_r. cbn [andb bw_err].
  by rewrite bool_decide_eq_false_2, andb_false_r by done.
Qed.
