(* ===== verification/DataStream.v ===== *)
(** * DataStream: the queue and worker in front of a record writer

    Model of [src/sensor-server/data-stream.go]: producers submit records
    under a read lock to a bounded queue, one worker goroutine takes them off,
    writes them with bounded retries, flushes periodically, and drains the
    queue when the stream is closed.  The goroutines interleave: the state has
    the submissions that hold the read lock, the phase of the closer and the
    program counter of the worker, and an [action] is one atomic step of one
    of them.  Timers and contexts may fire at any moment.  The record writer
    is an interface ([RecordWriter]), whose laws ([RecordWriterLaws]) the data
    file discharges. *)

From S2P Require Import Prelude GoRuntime GoStrings Platform DataFile.
Open Scope Z_scope.

(** ** Data *)

(** [src/sensor-server/data-stream.go:17-20] SensorData *)
Record SensorData : Type := mkSensorData { Timestamp : Z; Value : Z }.

(** [src/sensor-server/data-stream.go:22-26] RecordWriter; [Counters] is the
    method that a writer may have in addition *)
Class RecordWriter (W : Type) : Type := mkRecordWriter {
  rw_WriteRecord : Z -> Z -> M W unit;
  rw_Flush : M W unit;
  rw_Close : M W unit;
  rw_Counters : option (W -> DataFileCounters) }.

(** [src/sensor-server/data-stream.go:28-37] DataStreamOptions; [Retryable]
    may be nil, [OnError] is an event of the trace *)
Record DataStreamOptions : Type := mkDataStreamOptions {
  QueueCapacity : Z;
  EnqueueWait : Z;
  FlushInterval : Z;
  RetryCount : Z;
  InitialBackoff : Z;
  MaximumBackoff : Z;
  Retryable : option (error -> bool) }.

(** [src/sensor-server/data-stream.go:39-48] DataStreamCounters *)
Record DataStreamCounters : Type := mkDataStreamCounters {
  Accepted : Z;
  Written : Z;
  Dropped : Z;
  Retries : Z;
  Errors : Z;
  QueueDepth : Z;
  BytesWritten : Z;
  Rotations : Z }.

(** A call of [Write] that holds the read lock: in its [select], or sent and
    not counted yet. *)
Inductive submission : Type :=
| Selecting (data : SensorData)
| Sent (data : SensorData).

(** The critical section of [Close], in its four steps. *)
Inductive closing : Set :=
| CloseIdle | CloseLocked | CloseMarked | CloseSignalled | CloseUnlocked.

#[export] Instance closing_eq_dec : EqDecision closing.
Proof. solve_decision. Defined.

(** The worker goroutine: in the [select] of [run], writing a record (number
    of the attempt, backoff to wait if it fails), waiting for the backoff
    timer, returned, or panicked. *)
Inductive worker : Type :=
| Selects (dirty : bool)
| Writes (data : SensorData) (attempt backoff : Z) (dirty : bool)
| Waits (data : SensorData) (attempt backoff : Z) (dirty : bool)
| Returned
| Crashed (p : panic).

(** The atomic counters. *)
Record tally : Type := mkTally {
  accepted : Z; written : Z; dropped : Z; retries : Z; errors : Z }.

Section stream.
Context {W : Type} `{!RecordWriter W}.

(** [src/sensor-server/data-stream.go:50-68] DataStream *)
Record DataStream : Type := mkDataStream {
  writer : W;
  options : DataStreamOptions;
  queue : list SensorData;
  queueClosed : bool;
  done_ : bool;
  submitMu : list submission;
  closeOnce : closing;
  closed : bool;
  closeErr : option error;
  counts : tally;
  run_ : worker;
  senderPanic : option panic }.

(** [src/sensor-server/data-stream.go:70-99] NewDataStream (its nil writer
    and nil clock cannot be expressed) *)
Definition NewDataStream (w : W) (opts : DataStreamOptions) : error + DataStream :=
  if (QueueCapacity opts <? 1) || (EnqueueWait opts <? 0) || (FlushInterval opts <=? 0)
  then inl (ErrText "new data stream: invalid queue or flush settings") else
  if (RetryCount opts <? 0) || (InitialBackoff opts <=? 0) ||
     (MaximumBackoff opts <? InitialBackoff opts)
  then inl (ErrText "new data stream: invalid retry settings") else
  inr (mkDataStream w opts [] false false [] CloseIdle false None (mkTally 0 0 0 0 0)
         (Selects false) None).

(** ** Updates of one field *)

Definition set_queue (q : list SensorData) (s : DataStream) : DataStream :=
  mkDataStream (writer s) (options s) q (queueClosed s) (done_ s) (submitMu s) (closeOnce s)
    (closed s) (closeErr s) (counts s) (run_ s) (senderPanic s).
Definition set_submit (l : list submission) (s : DataStream) : DataStream :=
  mkDataStream (writer s) (options s) (queue s) (queueClosed s) (done_ s) l (closeOnce s)
    (closed s) (closeErr s) (counts s) (run_ s) (senderPanic s).
Definition set_close (c : closing) (marked signalled : bool) (s : DataStream) : DataStream :=
  mkDataStream (writer s) (options s) (queue s) signalled (done_ s) (submitMu s) c
    marked (closeErr s) (counts s) (run_ s) (senderPanic s).
Definition set_counts (t : tally) (s : DataStream) : DataStream :=
  mkDataStream (writer s) (options s) (queue s) (queueClosed s) (done_ s) (submitMu s)
    (closeOnce s) (closed s) (closeErr s) t (run_ s) (senderPanic s).
Definition set_run (w : worker) (s : DataStream) : DataStream :=
  mkDataStream (writer s) (options s) (queue s) (queueClosed s) (done_ s) (submitMu s)
    (closeOnce s) (closed s) (closeErr s) (counts s) w (senderPanic s).
Definition set_writer (w : W) (s : DataStream) : DataStream :=
  mkDataStream w (options s) (queue s) (queueClosed s) (done_ s) (submitMu s) (closeOnce s)
    (closed s) (closeErr s) (counts s) (run_ s) (senderPanic s).
Definition set_done (e : option error) (s : DataStream) : DataStream :=
  mkDataStream (writer s) (options s) (queue s) (queueClosed s) true (submitMu s) (closeOnce s)
    (closed s) e (counts s) Returned (senderPanic s).
Definition set_panic (p : panic) (s : DataStream) : DataStream :=
  mkDataStream (writer s) (options s) (queue s) (queueClosed s) (done_ s) (submitMu s) (closeOnce s)
    (closed s) (closeErr s) (counts s) (run_ s) (Some p).

Definition add_accepted (t : tally) : tally :=
  mkTally (u64 (accepted t + 1)) (written t) (dropped t) (retries t) (errors t).
Definition add_written (t : tally) : tally :=
  mkTally (accepted t) (u64 (written t + 1)) (dropped t) (retries t) (errors t).
Definition add_dropped (t : tally) : tally :=
  mkTally (accepted t) (written t) (u64 (dropped t + 1)) (retries t) (errors t).
Definition add_retries (t : tally) : tally :=
  mkTally (accepted t) (written t) (dropped t) (u64 (retries t + 1)) (errors t).
Definition add_errors (t : tally) : tally :=
  mkTally (accepted t) (written t) (dropped t) (retries t) (u64 (errors t + 1)).

(** ** Steps *)

(** What an observer of the stream sees. *)
Inductive event : Type :=
| EvSent (data : SensorData)
| EvReturn (data : SensorData) (e : option error)
| EvWritten (data : SensorData)
| EvLost (data : SensorData) (e : error)
| EvOnError (e : error)
| EvRetry (backoff : Z)
| EvClosed (e : option error).

Inductive action : Type :=
| ASubmit (data : SensorData)            (* Write: take the read lock, load closed *)
| ASend (i : nat)                        (* Write: the send is chosen *)
| ACount (i : nat)                       (* Write: accepted.Add(1), return nil *)
| AReject (i : nat) (e : option error)   (* Write: context (Some) or timer (None) *)
| AClose                                 (* Close: next step of the critical section *)
| AAwait                                 (* Close: done is closed, return closeErr *)
| AReceive                               (* run: receive from the queue *)
| AAttempt                               (* writeWithRetry: one attempt *)
| ATimer                                 (* writeWithRetry: the backoff timer fires *)
| ATick.                                 (* run: the flush ticker fires *)

(** The read lock is free unless [Close] is in its critical section. *)
Definition lock_free (s : DataStream) : bool :=
  bool_decide (closeOnce s = CloseIdle) || bool_decide (closeOnce s = CloseUnlocked).

Definition step : Type := option (list event * DataStream).

(** [src/sensor-server/data-stream.go:101-110] Write, as the four steps of a
    submission: entry under the read lock, *)
Definition write_enter (data : SensorData) (s : DataStream) : step :=
  if negb (lock_free s) then None else
  if closed s
  then Some ([EvReturn data (Some (ErrNew ErrDataStreamClosed))],
             set_counts (add_dropped (counts s)) s)
  else Some ([], set_submit (submitMu s ++ [Selecting data]) s).

(** [src/sensor-server/data-stream.go:101-122] Write: the send, *)
Definition write_send (i : nat) (s : DataStream) : step :=
  match submitMu s !! i with
  | Some (Selecting data) =>
      if queueClosed s then Some ([], set_panic PanicClosedChannel s) else
      if Z.of_nat (length (queue s)) <? QueueCapacity (options s)
      then Some ([EvSent data],
                 set_queue (queue s ++ [data]) (set_submit (<[i := Sent data]> (submitMu s)) s))
      else None
  | _ => None
  end.

(** [src/sensor-server/data-stream.go:101-122] Write: its count, *)
Definition write_count (i : nat) (s : DataStream) : step :=
  match submitMu s !! i with
  | Some (Sent data) =>
      Some ([EvReturn data None],
            set_counts (add_accepted (counts s)) (set_submit (delete i (submitMu s)) s))
  | _ => None
  end.

(** [src/sensor-server/data-stream.go:101-122] Write: or the rejection by the
    context or the timer *)
Definition write_reject (i : nat) (ctx_err : option error) (s : DataStream) : step :=
  match submitMu s !! i with
  | Some (Selecting data) =>
      let e := match ctx_err with Some e => e | None => ErrNew ErrDataStreamFull end in
      Some ([EvReturn data (Some e)],
            set_counts (add_dropped (counts s)) (set_submit (delete i (submitMu s)) s))
  | _ => None
  end.

(** [src/sensor-server/data-stream.go:124-135] Close: [closeOnce.Do], where
    the lock waits for the submissions that hold the read lock *)
Definition close_step (s : DataStream) : step :=
  match closeOnce s with
  | CloseIdle =>
      if bool_decide (length (submitMu s) = 0%nat)
      then Some ([], set_close CloseLocked (closed s) (queueClosed s) s) else None
  | CloseLocked => Some ([], set_close CloseMarked true (queueClosed s) s)
  | CloseMarked => Some ([], set_close CloseSignalled (closed s) true s)
  | CloseSignalled => Some ([], set_close CloseUnlocked (closed s) (queueClosed s) s)
  | CloseUnlocked => None
  end.

(** [src/sensor-server/data-stream.go:124-135] Close: the wait for the worker *)
Definition close_await (s : DataStream) : step :=
  if bool_decide (closeOnce s = CloseUnlocked) && done_ s
  then Some ([EvClosed (closeErr s)], s) else None.

(** [src/sensor-server/data-stream.go:210-219] flushIfDirty *)
Definition flushIfDirty (dirty : bool) (s : DataStream) : res (option error) * DataStream :=
  if negb dirty then (Ret None, s) else
  match rw_Flush (writer s) with
  | (Ret _, w) => (Ret None, set_writer w s)
  | (Fail e, w) => (Ret (Some (ErrWrap "final flush" e)),
                    set_counts (add_errors (counts s)) (set_writer w s))
  | (Panic p, w) => (Panic p, set_writer w s)
  end.

(** The drained queue has been closed: [src/sensor-server/data-stream.go:164-167]
    of run, with [setCloseError] and the deferred [close(done)] *)
Definition finish (dirty : bool) (s : DataStream) : step :=
  match flushIfDirty dirty s with
  | (Panic p, s) => Some ([], set_run (Crashed p) s)
  | (Fail _, _) => None
  | (Ret flushErr, s) =>
      match rw_Close (writer s) with
      | (Ret _, w) => Some ([], set_done (errors_Join [flushErr; None]) (set_writer w s))
      | (Fail e, w) => Some ([], set_done (errors_Join [flushErr; Some e]) (set_writer w s))
      | (Panic p, w) => Some ([], set_run (Crashed p) (set_writer w s))
      end
  end.

(** [src/sensor-server/data-stream.go:154-187] run: the receive; a closed
    queue delivers what it holds before it reports its end *)
Definition run_receive (s : DataStream) : step :=
  match run_ s with
  | Selects dirty =>
      match queue s with
      | data :: q =>
          Some ([], set_queue q (set_run (Writes data 0 (InitialBackoff (options s)) dirty) s))
      | [] => if queueClosed s then finish dirty s else None
      end
  | _ => None
  end.

(** The options' [Retryable], nil being replaced by [NewDataStream]. *)
Definition retryable (s : DataStream) (e : error) : bool :=
  match Retryable (options s) with Some r => r e | None => false end.

(** [src/sensor-server/data-stream.go:189-199] writeWithRetry, one attempt,
    with what [run] does of its outcome (lines 168-174) *)
Definition run_attempt (s : DataStream) : step :=
  match run_ s with
  | Writes data attempt backoff dirty =>
      match rw_WriteRecord (Timestamp data) (Value data) (writer s) with
      | (Ret _, w) =>
          Some ([EvWritten data],
                set_counts (add_written (counts s)) (set_run (Selects true) (set_writer w s)))
      | (Fail e, w) =>
          if (RetryCount (options s) <=? attempt) || negb (retryable s e) then
            let err := ErrWrap "write sensor record after retries" e in
            Some ([EvLost data err; EvOnError err],
                  set_counts (add_dropped (add_errors (counts s)))
                    (set_run (Selects dirty) (set_writer w s)))
          else
            Some ([EvRetry backoff],
                  set_counts (add_retries (counts s))
                    (set_run (Waits data attempt backoff dirty) (set_writer w s)))
      | (Panic p, w) => Some ([], set_run (Crashed p) (set_writer w s))
      end
  | _ => None
  end.

(** The next backoff: doubled, at most the maximum. *)
Definition next_backoff (opts : DataStreamOptions) (backoff : Z) : Z :=
  let backoff := i64 (backoff * 2) in
  if MaximumBackoff opts <? backoff then MaximumBackoff opts else backoff.

(** [src/sensor-server/data-stream.go:189-208] writeWithRetry: after the
    backoff timer *)
Definition run_timer (s : DataStream) : step :=
  match run_ s with
  | Waits data attempt backoff dirty =>
      Some ([], set_run (Writes data (attempt + 1) (next_backoff (options s) backoff) dirty) s)
  | _ => None
  end.

(** [src/sensor-server/data-stream.go:154-187] run: the flush ticker *)
Definition run_tick (s : DataStream) : step :=
  match run_ s with
  | Selects dirty =>
      if negb dirty then Some ([], s) else
      match rw_Flush (writer s) with
      | (Ret _, w) => Some ([], set_run (Selects false) (set_writer w s))
      | (Fail e, w) =>
          Some ([EvOnError (ErrWrap "periodic flush" e)],
                set_counts (add_errors (counts s)) (set_writer w s))
      | (Panic p, w) => Some ([], set_run (Crashed p) (set_writer w s))
      end
  | _ => None
  end.

(** A panic of any goroutine ends the program. *)
Definition crashed (s : DataStream) : bool :=
  match senderPanic s, run_ s with
  | Some _, _ | _, Crashed _ => true
  | None, _ => false
  end.

(** [src/sensor-server/data-stream.go:154-187] run, and the calls of [Write]
    and [Close]: one step of one goroutine *)
Definition exec (a : action) (s : DataStream) : step :=
  if crashed s then None else
  match a with
  | ASubmit data => write_enter data s
  | ASend i => write_send i s
  | ACount i => write_count i s
  | AReject i e => write_reject i e s
  | AClose => close_step s
  | AAwait => close_await s
  | AReceive => run_receive s
  | AAttempt => run_attempt s
  | ATimer => run_timer s
  | ATick => run_tick s
  end.

(** Actions in sequence; an action that is not enabled stops the run. *)
Fixpoint execs (l : list action) (s : DataStream) : option (list event * DataStream) :=
  match l with
  | [] => Some ([], s)
  | a :: l =>
      match exec a s with
      | Some (evs, s) =>
          match execs l s with
          | Some (evs', s) => Some (evs ++ evs', s)
          | None => None
          end
      | None => None
      end
  end.

(** [src/sensor-server/data-stream.go:137-152] Counters *)
Definition Counters (s : DataStream) : DataStreamCounters :=
  let file := match rw_Counters with
              | Some counters => counters (writer s)
              | None => mkDataFileCounters 0 0
              end in
  mkDataStreamCounters (accepted (counts s)) (written (counts s)) (dropped (counts s))
    (retries (counts s)) (errors (counts s)) (Z.of_nat (length (queue s)))
    (DataFile.BytesWritten file) (DataFile.Rotations file).

(** Every interleaving of the goroutines from an initial state. *)
Inductive reachable (s0 : DataStream) : list event -> DataStream -> Prop :=
| reachable_init : reachable s0 [] s0
| reachable_step tr s a evs s' :
    reachable s0 tr s -> exec a s = Some (evs, s') -> reachable s0 (tr ++ evs) s'.
End stream.
Arguments DataStream W : clear implicits.

(** ** Trace projections *)

Section traces.
Context {W : Type} `{!RecordWriter W}.

(** Records that entered the queue, that left the worker, and that were
    written, in order; calls of [Write] that returned an error. *)
Definition sent (tr : list event) : list SensorData :=
  omap (fun e => match e with EvSent d => Some d | _ => None end) tr.
Definition processed (tr : list event) : list SensorData :=
  omap (fun e => match e with EvWritten d | EvLost d _ => Some d | _ => None end) tr.
Definition written_of (tr : list event) : list SensorData :=
  omap (fun e => match e with EvWritten d => Some d | _ => None end) tr.
Definition lost (tr : list event) : list (SensorData * error) :=
  omap (fun e => match e with EvLost d e => Some (d, e) | _ => None end) tr.
Definition rejected (tr : list event) : list (SensorData * error) :=
  omap (fun e => match e with EvReturn d (Some e) => Some (d, e) | _ => None end) tr.
Definition returned_ok (tr : list event) : list SensorData :=
  omap (fun e => match e with EvReturn d None => Some d | _ => None end) tr.
Definition waits (tr : list event) : list Z :=
  omap (fun e => match e with EvRetry b => Some b | _ => None end) tr.

(** The record the worker holds. *)
Definition in_flight (s : DataStream W) : list SensorData :=
  match run_ s with
  | Writes d _ _ _ | Waits d _ _ _ => [d]
  | _ => []
  end.

(** Submissions that sent their record and have not counted it. *)
Definition uncounted (s : DataStream W) : list SensorData :=
  omap (fun x => match x with Sent d => Some d | Selecting _ => None end) (submitMu s).

(** ** Lemmas: what a step does *)

Lemma omap_app' {A B} (f : A -> option B) (l1 l2 : list A) : omap f (l1 ++ l2) = omap f l1 ++ omap f l2.
Proof. apply omap_app. Qed.

Lemma flushIfDirty_spec dirty (s : DataStream W) r s' :
  flushIfDirty dirty s = (r, s') ->
  exists w t, s' = set_counts t (set_writer w s) /\
    accepted t = accepted (counts s) /\ written t = written (counts s) /\
    dropped t = dropped (counts s) /\ retries t = retries (counts s) /\
    forall e, r <> Fail e.
Proof.
  unfold flushIfDirty. destruct (negb dirty).
  { intros [= <- <-]. exists (writer s), (counts s). by destruct s. }
  destruct (rw_Flush (writer s)) as [[?|e|p] w]; intros [= <- <-];
    exists w; eexists; (split; [by destruct s|done]).
Qed.

(** The worker ends: done with an error value, or crashed. *)
Lemma finish_spec dirty (s : DataStream W) evs s' :
  finish dirty s = Some (evs, s') ->
  evs = [] /\ exists w t, accepted t = accepted (counts s) /\ written t = written (counts s) /\
    dropped t = dropped (counts s) /\ retries t = retries (counts s) /\
    ((exists e, s' = set_done e (set_counts t (set_writer w s))) \/
     (exists p, s' = set_run (Crashed p) (set_counts t (set_writer w s)))).
Proof.
  unfold finish. destruct (flushIfDirty dirty s) as [r s1] eqn:E.
  destruct (flushIfDirty_spec _ _ _ _ E) as (w & t & -> & H1 & H2 & H3 & H4 & _).
  destruct r as [e|e|p]; [|done|].
  - destruct (rw_Close _) as [[?|e'|p] w']; intros [= <- <-]; (split; [done|]); exists w', t;
      (split_and!; try done); eauto.
  - intros [= <- <-]. split; [done|]. exists w, t. eauto 10.
Qed.
End traces.

(** Case analysis on an enabled action. *)
Ltac exec_cases H :=
  unfold exec in H;
  match type of H with (if ?c then _ else _) = _ => let Ec := fresh "Hcrash" in destruct c eqn:Ec; [done|] end;
  match type of H with (match ?a with _ => _ end) = _ => destruct a end;
  [unfold write_enter in H|unfold write_send in H|unfold write_count in H|unfold write_reject in H
  |unfold close_step in H|unfold close_await in H|unfold run_receive in H|unfold run_attempt in H
  |unfold run_timer in H|unfold run_tick in H];
  repeat match type of H with
  | finish _ _ = _ => fail 1
  | context [match ?x with _ => _ end] => destruct x eqn:?; try done
  end;
  try (injection H as <- <-);
  try match type of H with
  | finish _ _ = Some _ =>
      apply finish_spec in H as (-> & ? & ? & ? & ? & ? & ? & [[? ->]|[? ->]])
  end.

(** ** Invariants *)

Section invariants.
Context {W : Type} `{!RecordWriter W}.
Implicit Types s : DataStream W.

Definition marked (c : closing) : bool :=
  match c with CloseMarked | CloseSignalled | CloseUnlocked => true | _ => false end.
Definition signalled (c : closing) : bool :=
  match c with CloseSignalled | CloseUnlocked => true | _ => false end.

(** The read-write lock protects the flag and the channel: once [Close] has
    the lock no submission is between its test of [closed] and its send. *)
Record locked s : Prop := mkLocked {
  lk_submit : closeOnce s <> CloseIdle -> submitMu s = [];
  lk_closed : closed s = marked (closeOnce s);
  lk_queue : queueClosed s = signalled (closeOnce s);
  lk_panic : senderPanic s = None;
  lk_done : done_ s = true <-> run_ s = Returned;
  lk_drained : done_ s = true -> queue s = [] /\ queueClosed s = true;
  lk_bound : Z.of_nat (length (queue s)) <= QueueCapacity (options s) }.

Lemma locked_new w opts s : NewDataStream w opts = inr s -> locked s.
Proof.
  unfold NewDataStream. case_match eqn:E1; [done|]. case_match eqn:E2; [done|].
  intros [= <-]. bool_to_prop. constructor; cbn; try done. lia.
Qed.

Lemma lock_free_submit s :
  lock_free s = true -> locked s -> closed s = false -> closeOnce s = CloseIdle.
Proof.
  intros Hf Hl Hc. rewrite (lk_closed _ Hl) in Hc. unfold lock_free in Hf.
  by destruct (closeOnce s).
Qed.

Lemma submitting_idle s i x :
  locked s -> submitMu s !! i = Some x -> closeOnce s = CloseIdle.
Proof.
  intros Hl Hi. destruct (decide (closeOnce s = CloseIdle)) as [?|Hc]; [done|].
  by rewrite (lk_submit _ Hl Hc) in Hi.
Qed.

(** An update of the submissions, the close being idle. *)
Lemma locked_submit_idle s l q t :
  closeOnce s = CloseIdle -> locked s -> Z.of_nat (length q) <= QueueCapacity (options s) ->
  locked (set_counts t (set_queue q (set_submit l s))).
Proof.
  intros Hc [H1 H2 H3 H4 H5 H6 H7] Hq. constructor; cbn; try done.
  intros Hd. destruct (H6 Hd) as [_ E]. by rewrite H3, Hc in E.
Qed.

Lemma locked_exec a s evs s' : locked s -> exec a s = Some (evs, s') -> locked s'.
Proof.
  intros Hl H. pose proof Hl as [H1 H2 H3 H4 H5 H6 H7]. exec_cases H.
  all: try match goal with Hi : submitMu _ !! _ = Some _ |- _ =>
    pose proof (submitting_idle _ _ _ Hl Hi) as Hidle; rewrite ?Hidle in *; try done end.
  all: try solve [constructor; cbn; first [done|lia|intuition congruence|idtac];
    repeat match goal with H : ?x = _ |- context [?x] => rewrite H end; intuition congruence].
  - apply (locked_submit_idle s _ (queue s) (counts s)); [|done..]. apply lock_free_submit; try done.
    by destruct (lock_free s).
  - apply (locked_submit_idle s _ (queue s ++ [data]) (counts s)); [done..|].
    bool_to_prop. rewrite length_app. cbn. lia.
  - bool_to_prop. constructor; cbn; try done. intros _. by apply length_zero_nil.
  - constructor; cbn; try done; [intuition congruence|intuition congruence|].
    cbn in H7. lia.
Qed.

(** The books: records leave the queue in the order they entered it, and the
    counters count the events of the trace. *)
Record ledger (tr : list event) s : Prop := mkLedger {
  lg_fifo : crashed s = false -> sent tr = processed tr ++ in_flight s ++ queue s;
  lg_sent : length (sent tr) = (length (returned_ok tr) + length (uncounted s))%nat;
  lg_processed : length (processed tr) = (length (written_of tr) + length (lost tr))%nat;
  lg_accepted : accepted (counts s) = u64 (Z.of_nat (length (returned_ok tr)));
  lg_written : written (counts s) = u64 (Z.of_nat (length (written_of tr)));
  lg_dropped : dropped (counts s) = u64 (Z.of_nat (length (lost tr) + length (rejected tr)));
  lg_retries : retries (counts s) = u64 (Z.of_nat (length (waits tr))) }.

Lemma ledger_new w opts s : NewDataStream w opts = inr s -> ledger [] s.
Proof.
  unfold NewDataStream. case_match; [done|]. case_match; [done|]. by intros [= <-].
Qed.

Lemma uncounted_at l i x :
  l !! i = Some x ->
  length (omap (fun x => match x with Sent d => Some d | Selecting _ => None end) l) =
  ((match x with Sent _ => 1 | Selecting _ => 0 end)
   + length (omap (fun x => match x with Sent d => Some d | Selecting _ => None end) (delete i l)))%nat.
Proof.
  intros Hi. rewrite <- (take_drop_middle l i x Hi) at 1.
  rewrite delete_take_drop, !omap_app, !length_app. destruct x; cbn; lia.
Qed.

Lemma uncounted_insert l i d d' :
  l !! i = Some (Selecting d) ->
  length (omap (fun x => match x with Sent d => Some d | Selecting _ => None end) (<[i := Sent d']> l)) =
  S (length (omap (fun x => match x with Sent d => Some d | Selecting _ => None end) l)).
Proof.
  intros Hi. pose proof (lookup_lt_Some _ _ _ Hi). rewrite insert_take_drop by done.
  rewrite <- (take_drop_middle l i _ Hi) at 3.
  rewrite !omap_app, !length_app. cbn. lia.
Qed.

Lemma exec_alive a s evs s' : exec a s = Some (evs, s') -> crashed s = false.
Proof. unfold exec. by destruct (crashed s). Qed.

Lemma ledger_exec a s tr evs s' :
  ledger tr s -> exec a s = Some (evs, s') -> ledger (tr ++ evs) s'.
Proof.
  intros [H1 H2 H3 H4 H5 H6 H7] H. specialize (H1 (exec_alive _ _ _ _ H)).
  unfold in_flight in H1. exec_cases H.
  all: constructor; unfold sent, processed, written_of, lost, rejected, returned_ok, waits in *;
    rewrite ?omap_app, ?app_nil_r; cbn [omap list_omap app]; rewrite ?app_nil_r; try done.
  all: try match goal with
    Hi : submitMu _ !! _ = Some (Selecting ?d) |- context [<[_ := Sent ?d']> _] =>
      pose proof (uncounted_insert _ _ _ d' Hi)
    | Hi : submitMu _ !! _ = Some _ |- context [delete _ _] => pose proof (uncounted_at _ _ _ Hi)
    end.
  all: unfold uncounted, in_flight in *; cbn in *; rewrite ?omap_app, ?length_app in *; cbn in *;
    try (by intros); try lia.
  all: try (intros _; rewrite H1; repeat match goal with H : queue _ = _ |- _ => rewrite H | H : run_ _ = _ |- _ => rewrite H end;
            by rewrite <- ?app_assoc).
  all: try (rewrite ?H4, ?H5, ?H6, ?H7, wrapu_add_l; f_equal; lia).
  all: try congruence.
  all: unfold crashed in *; cbn in *; repeat case_match; try done; by intros.
Qed.

(** Retries: the worker is within its retry budget, and the backoff doubles
    from the initial one up to the maximum. *)
Definition attempts s : Z :=
  match run_ s with
  | Writes _ n _ _ => n
  | Waits _ n _ _ => n + 1
  | Crashed _ => RetryCount (options s)
  | _ => 0
  end.

Record budget (opts : DataStreamOptions) (tr : list event) s : Prop := mkBudget {
  bg_options : options s = opts;
  bg_attempts : 0 <= attempts s <= RetryCount opts;
  bg_backoff : match run_ s with
    | Writes _ n b _ | Waits _ n b _ =>
        0 <= n /\ b = Z.min (InitialBackoff opts * 2 ^ n) (MaximumBackoff opts)
    | _ => True
    end;
  bg_waits : Z.of_nat (length (waits tr)) <=
    RetryCount opts * Z.of_nat (length (processed tr)) + attempts s;
  bg_range : Forall (fun b => InitialBackoff opts <= b <= MaximumBackoff opts) (waits tr) }.

(** Options that [NewDataStream] accepts, the maximal backoff being below
    half the range of a duration (146 years). *)
Definition retry_ok (opts : DataStreamOptions) : Prop :=
  0 <= RetryCount opts /\ 0 < InitialBackoff opts <= MaximumBackoff opts /\
  MaximumBackoff opts < 2 ^ 62.

Lemma next_backoff_doubles opts n :
  retry_ok opts -> 0 <= n ->
  next_backoff opts (Z.min (InitialBackoff opts * 2 ^ n) (MaximumBackoff opts)) =
  Z.min (InitialBackoff opts * 2 ^ (n + 1)) (MaximumBackoff opts).
Proof.
  intros (_ & Hi & Hm) Hn. unfold next_backoff.
  assert (0 < InitialBackoff opts * 2 ^ n) by (apply Z.mul_pos_pos; lia).
  rewrite Z.pow_add_r, Z.pow_1_r by lia. rewrite wraps_small by lia.
  set (p := 2 ^ n) in *. destruct (Z.ltb_spec (MaximumBackoff opts)
    (Z.min (InitialBackoff opts * p) (MaximumBackoff opts) * 2)); lia.
Qed.

Lemma NewDataStream_inv w opts s :
  NewDataStream w opts = inr s ->
  options s = opts /\ writer s = w /\ run_ s = Selects false /\ queue s = [] /\ submitMu s = [] /\
  0 <= RetryCount opts /\ 0 < InitialBackoff opts <= MaximumBackoff opts.
Proof.
  unfold NewDataStream. case_match eqn:E1; [done|]. case_match eqn:E2; [done|].
  intros [= <-]. bool_to_prop. cbn. split_and!; done || lia.
Qed.

Lemma budget_new w opts s : NewDataStream w opts = inr s -> budget opts [] s.
Proof.
  intros H. apply NewDataStream_inv in H as (H1 & _ & H2 & _ & _ & H3 & _).
  constructor; unfold attempts; rewrite ?H2; cbn; try done; lia.
Qed.

Lemma backoff_range opts n b :
  retry_ok opts -> 0 <= n -> b = Z.min (InitialBackoff opts * 2 ^ n) (MaximumBackoff opts) ->
  InitialBackoff opts <= b <= MaximumBackoff opts.
Proof.
  intros (_ & Hi & _) Hn ->. assert (1 <= 2 ^ n) by (apply (Z.pow_le_mono_r 2 0 n); lia). nia.
Qed.

Lemma budget_exec opts a s tr evs s' :
  retry_ok opts -> budget opts tr s -> exec a s = Some (evs, s') -> budget opts (tr ++ evs) s'.
Proof.
  intros Hok [H1 H2 H3 H4 H5] H. pose proof (proj1 Hok) as HR. unfold attempts in *. exec_cases H.
  all: constructor; unfold attempts, processed, waits in *; cbn [options] in *;
    rewrite ?omap_app, ?length_app, ?Forall_app in *; cbn in *; rewrite ?app_nil_r;
    repeat match goal with E : run_ _ = _ |- _ => rewrite E in * end; try done; try lia.
  all: bool_to_prop; rewrite ?H1 in *; try lia; pose proof Hok as (_ & Hi & Hm).
  - split; [done|]. rewrite Z.mul_1_r. lia.
  - split; [done|]. apply Forall_singleton. destruct H3. by apply (backoff_range opts attempt).
  - split; [lia|]. destruct H3 as [H0 ->]. by apply next_backoff_doubles.
Qed.
End invariants.

(** ** Draining *)

Section draining.
Context {W : Type} `{!RecordWriter W}.
Implicit Types s : DataStream W.

(** The next action of the worker that does not wait for a producer. *)
Definition next_action s : action :=
  match run_ s with
  | Writes _ _ _ _ => AAttempt
  | Waits _ _ _ _ => ATimer
  | _ => AReceive
  end.

(** The worker alone, until it has returned or panicked. *)
Fixpoint drain (fuel : nat) s : step :=
  if done_ s || crashed s then Some ([], s) else
  match fuel with
  | O => None
  | S fuel =>
      match exec (next_action s) s with
      | Some (evs, s) =>
          match drain fuel s with
          | Some (evs', s) => Some (evs ++ evs', s)
          | None => None
          end
      | None => None
      end
  end.

(** Steps the worker has left: those of the record it holds and of each
    queued one, and the final one. *)
Definition weight s : Z :=
  Z.of_nat (length (queue s)) * (2 * RetryCount (options s) + 2) +
  match run_ s with
  | Selects _ => 1
  | Writes _ n _ _ => 2 + 2 * (RetryCount (options s) - n)
  | Waits _ n _ _ => 1 + 2 * (RetryCount (options s) - n)
  | _ => 0
  end.

Lemma worker_progress opts tr s :
  budget opts tr s -> 0 <= RetryCount opts -> crashed s = false -> done_ s = false ->
  locked s -> queueClosed s = true ->
  exists evs s', exec (next_action s) s = Some (evs, s') /\ 0 <= weight s' < weight s /\
    queueClosed s' = true.
Proof.
  intros [Ho Ha _ _ _] HR Hc Hd Hl Hq. unfold exec, next_action. rewrite Hc.
  unfold attempts in Ha. rewrite <- Ho in HR, Ha. clear Ho.
  destruct (run_ s) as [dirty|d n b dirty|d n b dirty| |p] eqn:Er.
  - unfold run_receive. rewrite Er. destruct (queue s) as [|d q] eqn:Eq.
    + rewrite Hq. unfold finish, flushIfDirty.
      assert (0 <= 0 < weight s) as Hw by (unfold weight; rewrite Er, Eq; cbn; lia).
      destruct (negb dirty); [|destruct (rw_Flush (writer s)) as [[?|?|?] w]];
        try destruct (rw_Close _) as [[?|?|?] w']; do 2 eexists; (split; [done|]);
        unfold weight at 1 2; cbn; rewrite Eq; cbn; (split; [lia|done]).
    + do 2 eexists. split; [done|]. unfold weight. cbn [queue run_ options set_queue set_run].
      rewrite Er, Eq. cbn [length]. split; [lia|done].
  - unfold run_attempt. rewrite Er.
    destruct (rw_WriteRecord _ _ _) as [[?|e|p] w]; [|destruct (_ || _) eqn:Eo|];
      do 2 eexists; (split; [done|]); unfold weight; cbn; rewrite Er; bool_to_prop;
      (split; [try lia|done]).
  - unfold run_timer. rewrite Er. do 2 eexists. split; [done|]. unfold weight. cbn.
    rewrite Er. split; [nia|done].
  - by rewrite (proj2 (lk_done _ Hl) Er) in Hd.
  - unfold crashed in Hc. rewrite Er in Hc. by destruct (senderPanic s).
Qed.

Lemma drain_ends opts fuel : forall tr s,
  retry_ok opts -> budget opts tr s -> locked s -> queueClosed s = true ->
  weight s <= Z.of_nat fuel ->
  exists evs s', drain fuel s = Some (evs, s') /\ (done_ s' = true \/ crashed s' = true).
Proof.
  induction fuel as [|fuel IH]; intros tr s Hok Hb Hl Hq Hw; cbn [drain];
    destruct (done_ s || crashed s) eqn:E.
  - exists [], s. split; [done|]. by apply orb_true_iff.
  - apply orb_false_iff in E as [Hd Hc].
    destruct (worker_progress opts tr s Hb (proj1 Hok) Hc Hd Hl Hq) as (? & ? & _ & ? & _). lia.
  - exists [], s. split; [done|]. by apply orb_true_iff.
  - apply orb_false_iff in E as [Hd Hc].
    destruct (worker_progress opts tr s Hb (proj1 Hok) Hc Hd Hl Hq) as (evs & s1 & E1 & Hw1 & Hq1).
    rewrite E1.
    destruct (IH (tr ++ evs) s1) as (evs' & s' & -> & Hdone); try done; try lia.
    + by eapply budget_exec.
    + by eapply locked_exec.
    + by exists (evs ++ evs'), s'.
Qed.
End draining.

(** ** Contract of a record writer

    [rw_log] is what the writer holds, on disk and in its buffer, [rw_disk]
    what is on disk; [rw_ready n] says that the writer will take [n] more
    records. *)

Class RecordWriterLaws (W : Type) `{!RecordWriter W} : Type := mkRecordWriterLaws {
  rw_log : W -> list byte;
  rw_disk : W -> list byte;
  rw_ready : nat -> W -> Prop;
  rw_write_law n w ts v : rw_ready (S n) w ->
    exists w', rw_WriteRecord ts v w = (Ret tt, w') /\ rw_ready n w' /\
      rw_log w' = rw_log w ++ encode_record ts v;
  rw_flush_law n w : rw_ready n w ->
    exists w', rw_Flush w = (Ret tt, w') /\ rw_ready n w' /\ rw_log w' = rw_log w /\
      rw_disk w' = rw_log w;
  rw_close_law n w : rw_ready n w ->
    exists w', rw_Close w = (Ret tt, w') /\ rw_disk w' = rw_log w }.

(** The data file is a record writer. *)
#[export] Instance DataFile_writer : RecordWriter (DataFile * FS) :=
  mkRecordWriter _ WriteRecord Flush Close (Some (fun s => DataFile.Counters s.1)).

#[export, refine] Instance DataFile_laws : RecordWriterLaws (DataFile * FS) :=
  mkRecordWriterLaws _ _
    (fun s => log s.1 s.2) (fun s => disk_log s.1 s.2)
    (fun n s => live s.1 s.2 /\ framed s.1 s.2 /\ sequence s.1 + Z.of_nat n < 2 ^ 64) _ _ _.
Proof.
  - intros n [f fs] ts v (Hl & Hfr & Hs). cbn [fst snd] in *.
    pose proof (WriteRecord_framed ts v f fs Hl ltac:(lia) Hfr) as Hfr'.
    destruct (WriteRecord_live ts v f fs Hl ltac:(lia)) as (f' & fs' & E & Hl' & Hlog & _ & Hs' & _).
    exists (f', fs'). cbn [rw_WriteRecord DataFile_writer]. rewrite E in *. cbn [fst snd] in *.
    split_and!; try done. lia.
  - intros n [f fs] (Hl & Hfr & Hs). cbn [fst snd] in *.
    destruct (Flush_live f fs Hl Hfr) as (f' & fs' & E & Hl' & Hfr' & Hd & Hb & Hseq & _).
    exists (f', fs'). cbn [rw_Flush DataFile_writer fst snd]. split; [done|].
    split_and!; try done; [lia|]. unfold log at 1. by rewrite Hb, app_nil_r.
  - intros n [f fs] (Hl & Hfr & _). cbn [fst snd] in *.
    destruct (Close_live f fs Hl Hfr) as (f' & fs' & E & -> & Hd & _).
    eexists. split; [exact E|]. exact Hd.
Defined.

(** ** Durability *)

Definition encode_all (l : list SensorData) : list byte :=
  concat (map (fun d => encode_record (Timestamp d) (Value d)) l).

Lemma encode_all_snoc l d : encode_all (l ++ [d]) = encode_all l ++ encode_record (Timestamp d) (Value d).
Proof. unfold encode_all. rewrite map_app, concat_app. cbn [map concat]. by rewrite app_nil_r. Qed.

Section durability.
Context {W : Type} `{!RecordWriter W} `{!RecordWriterLaws W}.
Implicit Types s : DataStream W.

(** With a writer that keeps its contract nothing is lost, and what the
    worker wrote is what the writer holds. *)
Record durable (n : nat) (L : list byte) (tr : list event) s : Prop := mkDurable {
  du_lost : lost tr = [];
  du_alive : crashed s = false;
  du_open : done_ s = false ->
    rw_ready (n - length (written_of tr)) (writer s) /\
    rw_log (writer s) = L ++ encode_all (written_of tr);
  du_done : done_ s = true ->
    rw_disk (writer s) = L ++ encode_all (written_of tr) /\ closeErr s = None }.

Lemma lost_processed (tr : list event) : lost tr = [] -> processed tr = written_of tr.
Proof.
  induction tr as [|[] tr IH]; cbn; try done; try exact IH. intros H. f_equal. by apply IH.
Qed.

Lemma room_left tr s d n b dirty :
  ledger tr s -> crashed s = false -> run_ s = Writes d n b dirty ->
  (length (written_of tr) < length (sent tr))%nat.
Proof.
  intros Hl Hc Hr. rewrite (lg_fifo _ _ Hl Hc), !length_app.
  unfold in_flight. rewrite Hr. pose proof (lg_processed _ _ Hl). cbn. lia.
Qed.

Lemma crashed_same s s' : senderPanic s' = senderPanic s ->
  (run_ s' = run_ s \/ match run_ s' with Crashed _ => False | _ => True end) ->
  crashed s = false -> crashed s' = false.
Proof. unfold crashed. intros -> [->|H]; destruct (senderPanic s); by destruct (run_ s'). Qed.

Lemma written_snoc (tr evs : list event) : written_of (tr ++ evs) = written_of tr ++ written_of evs.
Proof. apply omap_app. Qed.
Lemma lost_snoc (tr evs : list event) : lost (tr ++ evs) = lost tr ++ lost evs.
Proof. apply omap_app. Qed.

Lemma durable_attempt n L tr s evs s' :
  ledger tr s -> crashed s = false -> done_ s = false -> (length (sent tr) <= n)%nat ->
  durable n L tr s -> run_attempt s = Some (evs, s') -> durable n L (tr ++ evs) s'.
Proof.
  intros Hlg Hc Hd Hn [H1 H2 H3 H4] H. unfold run_attempt in H.
  destruct (run_ s) as [|d k b dirty| | |] eqn:Er; try done.
  destruct (H3 Hd) as [Hr Hlog]. pose proof (room_left _ _ _ _ _ _ Hlg Hc Er) as Hroom.
  replace (n - length (written_of tr))%nat with (S (n - S (length (written_of tr)))) in Hr by lia.
  destruct (rw_write_law _ _ (Timestamp d) (Value d) Hr) as (w & E & Hr' & Hlog').
  rewrite E in H. injection H as <- <-. constructor.
  - by rewrite lost_snoc, H1.
  - apply (crashed_same s); [done|by right|done].
  - intros _. rewrite written_snoc, length_app. cbn [written_of omap list_omap length].
    rewrite Nat.add_1_r, encode_all_snoc, app_assoc, <- Hlog. done.
  - intros Hd'. cbn in Hd'. congruence.
Qed.

Lemma durable_finish n L tr s dirty evs s' :
  done_ s = false -> durable n L tr s -> finish dirty s = Some (evs, s') ->
  run_ s = Selects dirty -> durable n L (tr ++ evs) s'.
Proof.
  intros Hd [H1 H2 H3 H4] H Er. destruct (H3 Hd) as [Hr Hlog]. unfold finish, flushIfDirty in H.
  assert (exists w, rw_ready (n - length (written_of tr)) w /\ rw_log w = rw_log (writer s) /\
    match rw_Close w with
    | (Ret _, w) => Some ([], set_done (errors_Join [None; None]) (set_writer w s))
    | (Fail e, w) => Some ([], set_done (errors_Join [None; Some e]) (set_writer w s))
    | (Panic p, w) => Some ([], set_run (Crashed p) (set_writer w s))
    end = Some (evs, s')) as (w & Hw & Hlw & H').
  { destruct (negb dirty).
    - exists (writer s). split; [done|]. split; [done|]. exact H.
    - destruct (rw_flush_law _ _ Hr) as (w & E & Hw & Hlw & _). rewrite E in H.
      exists w. split; [done|]. split; [done|]. exact H. }
  destruct (rw_close_law _ _ Hw) as (w' & E & Hdisk). rewrite E in H'. injection H' as <- <-.
  rewrite app_nil_r. constructor; try done.
  - apply (crashed_same s); [done|by right|done].
  - intros _. split; [|done]. cbn [writer set_done set_writer]. by rewrite Hdisk, Hlw.
Qed.

Lemma durable_tick n L tr s evs s' :
  done_ s = false -> durable n L tr s -> run_tick s = Some (evs, s') -> durable n L (tr ++ evs) s'.
Proof.
  intros Hd [H1 H2 H3 H4] H. destruct (H3 Hd) as [Hr Hlog]. unfold run_tick in H.
  destruct (run_ s) as [dirty| | | |] eqn:Er; try done.
  destruct (negb dirty).
  { injection H as <- <-. by rewrite app_nil_r. }
  destruct (rw_flush_law _ _ Hr) as (w & E & Hw & Hlw & _). rewrite E in H. injection H as <- <-.
  rewrite app_nil_r. constructor; try done.
  - apply (crashed_same s); [done|by right|done].
  - intros _. split; [done|]. by rewrite <- Hlog.
  - intros Hd'. cbn in Hd'. congruence.
Qed.

(** The other actions leave the writer alone. *)
Lemma exec_other a s evs s' :
  locked s -> exec a s = Some (evs, s') ->
  (a = AAttempt /\ run_attempt s = Some (evs, s')) \/
  (a = ATick /\ run_tick s = Some (evs, s')) \/
  (exists dirty, run_ s = Selects dirty /\ finish dirty s = Some (evs, s')) \/
  (writer s' = writer s /\ done_ s' = done_ s /\ closeErr s' = closeErr s /\ lost evs = [] /\
   written_of evs = [] /\ crashed s' = false).
Proof.
  intros Hl H. pose proof (exec_alive _ _ _ _ H) as Hc.
  pose proof (lk_panic _ (locked_exec _ _ _ _ Hl H)) as Hp.
  unfold exec in H. rewrite Hc in H.
  assert (forall s1, s' = s1 -> run_ s1 = run_ s \/ match run_ s1 with Crashed _ => False | _ => True end ->
    crashed s' = false) as Hkeep.
  { intros s1 -> Hr. apply (crashed_same s); [|done|done]. by rewrite Hp, (lk_panic _ Hl). }
  assert (a = AReceive \/ a <> AReceive) as [->|Ha] by (destruct a; try (by right); by left).
  { cbn in H. unfold run_receive in H. destruct (run_ s) eqn:Er; try done.
    destruct (queue s) eqn:Eq; [destruct (queueClosed s); [|done]|].
    - do 2 right. left. eauto.
    - do 3 right. injection H as <- <-. split_and!; try done.
      eapply Hkeep; [reflexivity|by right]. }
  destruct a; cbn in H; auto; try done; do 3 right.
  all: unfold write_enter, write_send, write_count, write_reject, close_step, close_await, run_timer in H;
    repeat (case_match; try done); simplify_eq; split_and!; try done;
    (eapply Hkeep; [reflexivity|first [by left|by right]]).
Qed.

Lemma durable_exec n L tr a s evs s' :
  ledger tr s -> locked s -> (length (sent tr) <= n)%nat ->
  durable n L tr s -> exec a s = Some (evs, s') -> durable n L (tr ++ evs) s'.
Proof.
  intros Hlg Hlk Hn Hd H. pose proof (exec_alive _ _ _ _ H) as Hc.
  assert (run_ s <> Returned -> done_ s = false) as Hnd.
  { intros Hr. destruct (done_ s) eqn:E; [|done]. by apply (lk_done _ Hlk) in E. }
  destruct (exec_other a s evs s' Hlk H) as [[-> Hr]|[[-> Hr]|[(dirty & Er & Hr)|Ho]]].
  - apply (durable_attempt n L tr s); try done. apply Hnd. intros E.
    unfold run_attempt in Hr. by rewrite E in Hr.
  - apply (durable_tick n L tr s); try done. apply Hnd. intros E.
    unfold run_tick in Hr. by rewrite E in Hr.
  - eapply durable_finish; try done. apply Hnd. by rewrite Er.
  - destruct Ho as (H1 & H2 & H3 & H4 & H5 & H6). destruct Hd as [D1 D2 D3 D4].
    constructor; rewrite ?lost_snoc, ?written_snoc, ?H4, ?H5, ?app_nil_r, ?H1, ?H2, ?H3; done.
Qed.
End durability.

(** A stream without [Retryable] never waits. *)
Section no_retries.
Context {W : Type} `{!RecordWriter W}.

Lemma no_retries_exec a (s : DataStream W) evs s' :
  Retryable (options s) = None -> exec a s = Some (evs, s') ->
  waits evs = [] /\ options s' = options s.
Proof.
  intros Hr H.
  assert (retryable s = fun _ => false) as Hno by (unfold retryable; by rewrite Hr).
  exec_cases H; try done.
  rewrite Hno in *. by bool_to_prop.
Qed.

Lemma no_retries w opts (s0 : DataStream W) tr s :
  NewDataStream w opts = inr s0 -> Retryable opts = None -> reachable s0 tr s -> waits tr = [].
Proof.
  intros H0 Hr H. apply NewDataStream_inv in H0 as [Ho _].
  assert (waits tr = [] /\ options s = opts) as [? _]; [|done].
  induction H as [|tr s a evs s' _ [IHw IHo] E]; [done|].
  apply no_retries_exec in E as [Ew Eo]; [|by rewrite IHo].
  unfold waits in *. by rewrite omap_app, IHw, Ew, Eo.
Qed.
End no_retries.

(** ** Properties *)

Section properties.
Context {W : Type} `{!RecordWriter W}.
Implicit Types s : DataStream W.

Lemma reachable_inv w opts s0 tr s :
  NewDataStream w opts = inr s0 -> reachable s0 tr s ->
  locked s /\ ledger tr s /\ (retry_ok opts -> budget opts tr s).
Proof.
  intros H0. induction 1 as [|tr s a evs s' _ (Hl & Hg & Hb) E].
  - split_and!; [by eapply locked_new|by eapply ledger_new|intros _; by eapply budget_new].
  - split_and!; [by eapply locked_exec|by eapply ledger_exec|].
    intros Hok. eapply budget_exec; eauto.
Qed.

(** C15. First in, first out, whatever the interleaving of producers, closer
    and worker: the records that entered the queue are, in that order, those
    the worker has written or given up, the one it holds, and those still
    queued, within the capacity; no send ever hits the closed channel; and
    when the worker has returned every record that entered was processed. *)
Theorem stream_fifo w opts s0 tr s :
  NewDataStream w opts = inr s0 -> reachable s0 tr s ->
  senderPanic s = None /\ Z.of_nat (length (queue s)) <= QueueCapacity (options s) /\
  (crashed s = false -> sent tr = processed tr ++ in_flight s ++ queue s) /\
  (done_ s = true -> sent tr = processed tr /\ submitMu s = []).
Proof.
  intros H0 Hr. destruct (reachable_inv _ _ _ _ _ H0 Hr) as (Hl & Hg & _).
  split_and!; [apply Hl|apply Hl|apply Hg|].
  intros Hd. destruct (lk_drained _ Hl Hd) as [Hq Hqc]. pose proof (proj1 (lk_done _ Hl) Hd) as Hret.
  split.
  - rewrite (lg_fifo _ _ Hg), Hq; [unfold in_flight; rewrite Hret; by rewrite !app_nil_r|].
    unfold crashed. by rewrite (lk_panic _ Hl), Hret.
  - apply (lk_submit _ Hl). intros E. by rewrite (lk_queue _ Hl), E in Hqc.
Qed.

(** The counters are the books: accepted counts the writes that returned
    no error, which with those about to return are the records sent; written
    and dropped count the outcomes, every record processed being one or the
    other; retries counts the waits.  All are modulo 2^64. *)
Theorem stream_counters w opts s0 tr s :
  NewDataStream w opts = inr s0 -> reachable s0 tr s ->
  Accepted (Counters s) = u64 (Z.of_nat (length (returned_ok tr))) /\
  Written (Counters s) = u64 (Z.of_nat (length (written_of tr))) /\
  Dropped (Counters s) = u64 (Z.of_nat (length (lost tr) + length (rejected tr))) /\
  Retries (Counters s) = u64 (Z.of_nat (length (waits tr))) /\
  length (sent tr) = (length (returned_ok tr) + length (uncounted s))%nat /\
  length (processed tr) = (length (written_of tr) + length (lost tr))%nat.
Proof.
  intros H0 Hr. destruct (reachable_inv _ _ _ _ _ H0 Hr) as (_ & Hg & _).
  by destruct Hg.
Qed.

(** Retries are bounded: over any run there are at most [RetryCount]
    waits for each record processed (and for the one in hand), a record is
    attempted at most [RetryCount + 1] times, and the k-th wait for a record
    is the initial backoff doubled k times, at most the maximum. *)
Theorem stream_retries w opts s0 tr s :
  NewDataStream w opts = inr s0 -> MaximumBackoff opts < 2 ^ 62 -> reachable s0 tr s ->
  Z.of_nat (length (waits tr)) <= RetryCount opts * (Z.of_nat (length (processed tr)) + 1) /\
  Forall (fun b => InitialBackoff opts <= b <= MaximumBackoff opts) (waits tr) /\
  match run_ s with
  | Writes _ n b _ | Waits _ n b _ =>
      n <= RetryCount opts /\ b = Z.min (InitialBackoff opts * 2 ^ n) (MaximumBackoff opts)
  | _ => True
  end.
Proof.
  intros H0 Hm Hr. destruct (reachable_inv _ _ _ _ _ H0 Hr) as (_ & _ & Hb).
  pose proof (NewDataStream_inv _ _ _ H0) as (_ & _ & _ & _ & _ & HR & HI).
  destruct (Hb (conj HR (conj HI Hm))) as [H1 H2 H3 H4 H5]. split_and!; [lia|done|].
  unfold attempts in H2. destruct (run_ s); try done; destruct H3; split; done || lia.
Qed.


(** After [Close] every write is refused at once: it returns
    [ErrDataStreamClosed], counts as dropped, and queues nothing. *)
Theorem write_after_close w opts s0 tr s d :
  NewDataStream w opts = inr s0 -> reachable s0 tr s -> crashed s = false ->
  closeOnce s = CloseUnlocked ->
  exec (ASubmit d) s =
    Some ([EvReturn d (Some (ErrNew ErrDataStreamClosed))], set_counts (add_dropped (counts s)) s).
Proof.
  intros H0 Hr Hc Hcl. destruct (reachable_inv _ _ _ _ _ H0 Hr) as (Hl & _).
  unfold exec. rewrite Hc. unfold write_enter, lock_free. by rewrite (lk_closed _ Hl), Hcl.
Qed.
End properties.

Lemma durable_run {W} `{!RecordWriter W, !RecordWriterLaws W} (w : W) opts s0 tr s n :
  NewDataStream w opts = inr s0 -> rw_ready n w -> reachable s0 tr s ->
  (length (sent tr) <= n)%nat ->
  crashed s = false /\ lost tr = [] /\
  (done_ s = true ->
   rw_disk (writer s) = rw_log w ++ encode_all (sent tr) /\ closeErr s = None).
Proof.
  intros H0 Hw Hr Hn.
  assert (durable n (rw_log w) tr s) as [H1 H2 _ H4].
  { revert Hn. induction Hr as [|tr s a evs s' Hr IH E]; intros Hn.
    - destruct (NewDataStream_inv _ _ _ H0) as (_ & Ew & Er & _).
      pose proof (locked_new _ _ _ H0) as Hl.
      assert (done_ s0 = false) as Hd
        by (destruct (done_ s0) eqn:E; [apply (lk_done _ Hl) in E; congruence|done]).
      constructor; [done| | |congruence].
      + unfold crashed. by rewrite (lk_panic _ Hl), Er.
      + intros _. rewrite Ew. cbn. rewrite Nat.sub_0_r, app_nil_r. done.
    - destruct (reachable_inv _ _ _ _ _ H0 Hr) as (Hl & Hg & _).
      assert (length (sent tr) <= n)%nat as Hn'
        by (unfold sent in *; rewrite omap_app, length_app in Hn; lia).
      by eapply durable_exec; eauto. }
  destruct (reachable_inv _ _ _ _ _ H0 Hr) as (Hl & Hg & _).
  split; [done|]. split; [done|]. intros Hd. destruct (H4 Hd) as [-> ->]. split; [|done].
  rewrite (lg_fifo _ _ Hg H2), (proj1 (lk_drained _ Hl Hd)).
  unfold in_flight. rewrite (proj1 (lk_done _ Hl) Hd), !app_nil_r. by rewrite lost_processed.
Qed.

(** C11. Durability, against the contract of the writer: when the writer will
    take the records that were sent, none is lost, the worker does not panic,
    and once it has returned the disk holds the initial log followed by
    exactly the records sent, in order, and [Close] returns no error. *)
Theorem stream_durable {W} `{!RecordWriter W, !RecordWriterLaws W} (w : W) opts s0 tr s n :
  NewDataStream w opts = inr s0 -> rw_ready n w -> reachable s0 tr s ->
  (length (sent tr) <= n)%nat ->
  crashed s = false /\ lost tr = [] /\
  (done_ s = true ->
   rw_disk (writer s) = rw_log w ++ encode_all (sent tr) /\ closeErr s = None).
Proof. apply durable_run. Qed.

(** ** Concrete runs *)

Lemma execs_reachable {W} `{!RecordWriter W} (l : list action) (s0 s : DataStream W) tr :
  execs l s0 = Some (tr, s) -> reachable s0 tr s.
Proof.
  assert (forall l tr0 s1 tr s, reachable s0 tr0 s1 -> execs l s1 = Some (tr, s) ->
            reachable s0 (tr0 ++ tr) s) as H.
  { clear. induction l as [|a l IH]; intros tr0 s1 tr s Hr E; cbn in E.
    - injection E as <- <-. by rewrite app_nil_r.
    - destruct (exec a s1) as [[evs s2]|] eqn:Ea; [|done].
      destruct (execs l s2) as [[evs' s3]|] eqn:El; [|done]. injection E as <- <-.
      rewrite app_assoc. eapply IH; [|done]. by eapply reachable_step. }
  intros E. by apply (H l [] s0 tr s (reachable_init s0)).
Qed.

Definition sample_stream_options : DataStreamOptions :=
  mkDataStreamOptions 2 0 1000 2 10 25 (Some (fun _ => true)).
Definition sample_stream (script : list (option fault)) : DataStream (DataFile * FS) :=
  mkDataStream (sample_file, sample_fs script) sample_stream_options [] false false [] CloseIdle
    false None (mkTally 0 0 0 0 0) (Selects false) None.

Lemma sample_new script :
  NewDataStream (sample_file, sample_fs script) sample_stream_options = inr (sample_stream script).
Proof. done. Qed.

(** Two producers, interleaved, a third one that times out, and the worker,
    which flushes between the records. *)
Definition sample_actions : list action :=
  [ASubmit (mkSensorData 1 10); ASubmit (mkSensorData 2 20); ASend 1; AReceive; ASend 0; ACount 1;
   ASubmit (mkSensorData 3 30); AReject 1 None; AAttempt; ACount 0; ATick; AReceive; AAttempt].
Definition sample_closing : list action := [AClose; AClose; AClose; AClose].

Abbreviation run_of l script := (execs l (sample_stream script)).

Definition sample_shutdown : list action := sample_actions ++ sample_closing ++ [AReceive; AAwait].

(** Destruct a run whose observations are known by evaluation. *)
Ltac run_facts H E :=
  match type of H with
  | _ <$> ?r = Some _ => destruct r as [[tr s]|] eqn:E; [|done]; cbn [fmap option_fmap option_map fst snd] in H; injection H as H
  end.

Lemma stream_fifo_witness :
  exists tr s, run_of sample_shutdown [] = Some (tr, s) /\
    done_ s = true /\ sent tr = [mkSensorData 2 20; mkSensorData 1 10] /\ sent tr = processed tr.
Proof.
  assert ((fun p => (done_ p.2, sent p.1)) <$> run_of sample_shutdown [] =
          Some (true, [mkSensorData 2 20; mkSensorData 1 10])) as H by (vm_compute; reflexivity).
  run_facts H E.
  destruct (stream_fifo _ _ (sample_stream []) tr s (sample_new _) (execs_reachable _ _ _ _ E))
    as (_ & _ & _ & Hd).
  exists tr, s. split; [reflexivity|]. split; [done|]. split; [done|]. by apply Hd.
Defined.

Lemma stream_counters_witness :
  exists tr s, run_of sample_actions [] = Some (tr, s) /\
    Accepted (Counters s) = 2 /\ Written (Counters s) = 2 /\ Dropped (Counters s) = 1.
Proof.
  assert ((fun p => (length (returned_ok p.1), length (written_of p.1), length (lost p.1),
                     length (rejected p.1))) <$> run_of sample_actions [] =
          Some (2, 2, 0, 1)%nat) as H by (vm_compute; reflexivity).
  run_facts H E.
  destruct (stream_counters _ _ (sample_stream []) tr s (sample_new _) (execs_reachable _ _ _ _ E))
    as (Ha & Hw & Hd & _).
  exists tr, s. split; [reflexivity|]. rewrite Ha, Hw, Hd. match goal with Hl : length (lost _) = _ |- _ => rewrite Hl end.
  repeat match goal with Hl : length _ = _ |- _ => rewrite Hl; clear Hl end. done.
Defined.

(** A write to the disk fails: both retries wait and the record is lost. *)
Definition sample_retrying : list action :=
  sample_actions ++ [ASubmit (mkSensorData 4 40); ASend 0; AReceive; AAttempt;
                     ATimer; AAttempt; ATimer; AAttempt].
Definition sample_script : list (option fault) :=
  [None; None; None; None; Some (mkFault EISDIR 0)].

Lemma stream_retries_witness :
  exists tr s, run_of sample_retrying sample_script = Some (tr, s) /\
    length (lost tr) = 1%nat /\ waits tr = [10; 20] /\
    Forall (fun b => 10 <= b <= 25) (waits tr).
Proof.
  assert ((fun p => (length (lost p.1), waits p.1)) <$> run_of sample_retrying sample_script =
          Some (1%nat, [10; 20])) as H by (vm_compute; reflexivity).
  run_facts H E.
  destruct (stream_retries _ _ (sample_stream _) tr s (sample_new _) ltac:(done)
              (execs_reachable _ _ _ _ E)) as (_ & Hw & _).
  exists tr, s. split; [reflexivity|]. split; [assumption|]. split; [assumption|]. exact Hw.
Defined.

Definition sample_pending : list action :=
  [ASubmit (mkSensorData 1 10); ASend 0; ACount 0] ++ sample_closing.


Lemma write_after_close_witness :
  exists tr s, run_of sample_closing [] = Some (tr, s) /\
    exec (ASubmit (mkSensorData 1 10)) s =
      Some ([EvReturn (mkSensorData 1 10) (Some (ErrNew ErrDataStreamClosed))],
            set_counts (add_dropped (counts s)) s).
Proof.
  assert ((fun p => (closeOnce p.2, crashed p.2)) <$> run_of sample_closing [] =
          Some (CloseUnlocked, false)) as H by (vm_compute; reflexivity).
  run_facts H E. exists tr, s. split; [reflexivity|].
  by apply (write_after_close _ _ (sample_stream []) tr s _ (sample_new _) (execs_reachable _ _ _ _ E)).
Defined.

Lemma stream_durable_witness :
  exists tr s, run_of sample_shutdown [] = Some (tr, s) /\
    closeErr s = None /\ disk_log (writer s).1 (writer s).2 =
      encode_record 9 9 ++ encode_record 2 20 ++ encode_record 1 10.
Proof.
  assert ((fun p => (done_ p.2, sent p.1)) <$> run_of sample_shutdown [] =
          Some (true, [mkSensorData 2 20; mkSensorData 1 10])) as H by (vm_compute; reflexivity).
  run_facts H E.
  destruct (stream_durable (sample_file, sample_fs []) _ (sample_stream []) tr s 2 (sample_new _))
    as (_ & _ & Hd).
  - split; [apply sample_live|]. split; [apply sample_framed|done].
  - apply (execs_reachable _ _ _ _ E).
  - match goal with Hs : sent _ = _ |- _ => rewrite Hs end. by apply Nat.leb_le.
  - exists tr, s. split; [reflexivity|]. destruct Hd as [Hd Hc]; [done|]. split; [done|].
    cbn [rw_disk DataFile_laws] in Hd. rewrite Hd.
    match goal with Hs : sent _ = _ |- _ => rewrite Hs end. vm_compute. reflexivity.
Defined.
