(* ===== verification/Config.v ===== *)
(** * Config: the configuration and its snapshots

    Model of [src/sensor-server/config.go] after the JSON syntax: defaults,
    validation, the device and sensor registries of a snapshot, MAC address
    parsing and the rule for reloading.  The JSON decoder is the standard
    library's; [LoadConfig] takes what its two [Decode] calls return.  Strings
    are byte strings, a duration is in nanoseconds, [None] is a nil slice. *)

From S2P Require Import Prelude GoRuntime GoStrings House BinaryData DataFile.
Open Scope Z_scope.

(** ** Data *)

(** [src/sensor-server/config.go:17-17] DefaultMaximumTCPConnections *)
Definition DefaultMaximumTCPConnections : Z := 100.
(** [src/sensor-server/config.go:16-16] DefaultQueueCapacity *)
Definition DefaultQueueCapacity : Z := 512.

Definition time_Millisecond : Z := 1000000.
Definition time_Second : Z := 1000 * time_Millisecond.
Definition time_Minute : Z := 60 * time_Second.

(** [src/sensor-server/config.go:46-50] DeviceConfig *)
Record DeviceConfig : Set := mkDeviceConfig { dc_MAC : string; dc_Floor : string; dc_Room : string }.

(** [src/sensor-server/config.go:52-56] SensorConfig *)
Record SensorConfig : Set := mkSensorConfig { sc_ID : SensorType; sc_Type : string; sc_Unit : string }.

(** [src/sensor-server/config.go:58-67] DataStreamConfig *)
Record DataStreamConfig : Set := mkDataStreamConfig {
  QueueCapacity : Z; EnqueueWait : Z; RetryCount : Z; InitialBackoff : Z;
  MaximumBackoff : Z; WriteBufferSize : Z; FlushInterval : Z; RotationSize : Z }.

(** [src/sensor-server/config.go:69-72] NetworkConfig *)
Record NetworkConfig : Set := mkNetworkConfig { MaximumTCPConnections : Z; PayloadDeadline : Z }.

(** [src/sensor-server/config.go:74-77] LoggingConfig *)
Record LoggingConfig : Set := mkLoggingConfig { Level : string; Output : string }.

(** [src/sensor-server/config.go:79-90] Config *)
Record Config : Set := mkConfig {
  TCPAddress : string; UDPAddress : string; DataRoot : string; QuarantineRoot : string;
  Devices : option (list DeviceConfig); Sensors : option (list SensorConfig);
  DataStream : DataStreamConfig; Network : NetworkConfig; Logging : LoggingConfig;
  ShutdownDeadline : Z }.

#[export] Instance DeviceConfig_eq_dec : EqDecision DeviceConfig.
Proof. solve_decision. Defined.
#[export] Instance SensorConfig_eq_dec : EqDecision SensorConfig.
Proof. solve_decision. Defined.
#[export] Instance DataStreamConfig_eq_dec : EqDecision DataStreamConfig.
Proof. solve_decision. Defined.
#[export] Instance NetworkConfig_eq_dec : EqDecision NetworkConfig.
Proof. solve_decision. Defined.
#[export] Instance LoggingConfig_eq_dec : EqDecision LoggingConfig.
Proof. solve_decision. Defined.
#[export] Instance Config_eq_dec : EqDecision Config.
Proof. solve_decision. Defined.

(** [src/sensor-server/config.go:92-96] Device *)
Record Device : Set := mkDevice { d_MAC : MACAddress; d_Floor : FloorType; d_Room : RoomType }.

(** [src/sensor-server/config.go:98-101] SensorDefinition *)
Record SensorDefinition : Set := mkSensorDefinition { sd_Type : SensorType; sd_Unit : UnitType }.

(** [src/sensor-server/config.go:103-107] ConfigSnapshot *)
Record ConfigSnapshot : Type := mkConfigSnapshot {
  config : Config;
  devices : gmap MACAddress Device;
  sensors : gmap SensorType SensorDefinition }.

(** The elements of a slice that may be nil. *)
Definition elems {A} (l : option (list A)) : list A := default [] l.

(** ** MAC addresses *)

(** A hexadecimal digit of [fmt]'s scanner. *)
Definition hex_value (c : Ascii.ascii) : option Z :=
  let n := Z.of_N (Ascii.N_of_ascii c) in
  if (48 <=? n) && (n <=? 57) then Some (n - 48) else
  if (97 <=? n) && (n <=? 102) then Some (n - 87) else
  if (65 <=? n) && (n <=? 70) then Some (n - 55) else None.

(** The one-byte white space that [fmt]'s scanner skips on one line. *)
Definition scan_space (c : Ascii.ascii) : bool :=
  let n := Z.of_N (Ascii.N_of_ascii c) in
  ((9 <=? n) && (n <=? 13) && negb (n =? 10)) || (n =? 32).

(** [fmt.Sscanf(part, "%02x", &parsed)] on a part of two bytes: leading white
    space is skipped, the digits end at the first byte that is not one, and
    what follows is ignored. *)
Definition scan_hex (c1 c2 : Ascii.ascii) : option Z :=
  match hex_value c1, hex_value c2 with
  | Some d1, Some d2 => Some (16 * d1 + d2)
  | Some d1, None => Some d1
  | None, Some d2 => if scan_space c1 then Some d2 else None
  | None, None => None
  end.

(** The loop over the parts of [ParseMACAddress]. *)
Fixpoint parse_mac_parts (parts : list (list Ascii.ascii)) : option (list byte) :=
  match parts with
  | [] => Some []
  | [c1; c2] :: parts =>
      v ← scan_hex c1 c2;
      bs ← parse_mac_parts parts;
      Some (byte_of_Z v :: bs)
  | _ => None
  end.

(** [src/sensor-server/config.go:186-203] ParseMACAddress *)
Definition ParseMACAddress (value : string) : option MACAddress :=
  let parts := split_on (Ascii.ascii_of_N 58) (chars value) in
  if bool_decide (length parts = 6%nat)
  then mac_of_list <$> parse_mac_parts parts
  else None.

(** ** Defaults *)

Definition or_default (v d : Z) : Z := if v =? 0 then d else v.
Definition or_default_string (v d : string) : string := if bool_decide (v = ""%string) then d else v.

(** [src/sensor-server/config.go:205-245] applyConfigDefaults *)
Definition applyConfigDefaults (c : Config) : Config :=
  let s := DataStream c in
  mkConfig (TCPAddress c) (UDPAddress c) (DataRoot c) (QuarantineRoot c) (Devices c) (Sensors c)
    (mkDataStreamConfig
       (or_default (QueueCapacity s) DefaultQueueCapacity)
       (or_default (EnqueueWait s) (100 * time_Millisecond))
       (or_default (RetryCount s) 5)
       (or_default (InitialBackoff s) (50 * time_Millisecond))
       (or_default (MaximumBackoff s) time_Second)
       (or_default (WriteBufferSize s) DefaultWriteBufferSize)
       (or_default (FlushInterval s) time_Second)
       (or_default (RotationSize s) DefaultRotationSize))
    (mkNetworkConfig
       (or_default (MaximumTCPConnections (Network c)) DefaultMaximumTCPConnections)
       (or_default (PayloadDeadline (Network c)) (5 * time_Second)))
    (mkLoggingConfig
       (or_default_string (Level (Logging c)) "info")
       (or_default_string (Output (Logging c)) "stderr"))
    (or_default (ShutdownDeadline c) (30 * time_Second)).

(** ** Validation *)

(** [src/sensor-server/config.go:381-383] invalidConfig *)
Definition invalidConfig (msg : string) : option error :=
  Some (ErrWrap msg (ErrNew ErrInvalidConfiguration)).

(** [src/sensor-server/config.go:358-369] validateListenAddress *)
Definition validateListenAddress (field value : string) : option error :=
  match SplitHostPort (TrimSpace (chars value)) with
  | None => invalidConfig field
  | Some (_, portText) =>
      match ParseUint 16 portText with
      | None => invalidConfig field
      | Some port => if port =? 0 then invalidConfig field else None
      end
  end.

(** [src/sensor-server/config.go:371-379] validateRoot *)
Definition validateRoot (field value : string) : option error :=
  if bool_decide (TrimSpace (chars value) = []) then invalidConfig field else
  if clean_is_dot (chars value) then invalidConfig field else None.

(** [src/sensor-server/config.go:261-277] validateConfig, the devices; [seen]
    is the set of the addresses before *)
Fixpoint validateDevices (seen : gset MACAddress) (l : list DeviceConfig) : option error :=
  match l with
  | [] => None
  | device :: l =>
      match ParseMACAddress (dc_MAC device) with
      | None => invalidConfig "devices.mac"
      | Some mac =>
          if bool_decide (mac ∈ seen) then invalidConfig "devices.mac: duplicate MAC" else
          if FloorTypeFromString (dc_Floor device) =? FLOOR_INVALID
          then invalidConfig "devices.floor: unknown floor" else
          if RoomTypeFromString (dc_Room device) =? ROOM_INVALID
          then invalidConfig "devices.room: unknown room" else
          validateDevices ({[ mac ]} ∪ seen) l
      end
  end.

(** A unit name of the table. *)
Definition unit_known (name : string) : bool :=
  existsb (fun u => bool_decide (u.2 = name)) UnitTypeToString.

(** [src/sensor-server/config.go:279-304] validateConfig, the sensors *)
Fixpoint validateSensors (seen : gset SensorType) (l : list SensorConfig) : option error :=
  match l with
  | [] => None
  | sensor :: l =>
      if sc_ID sensor =? SENSOR_ID_UNKNOWN then invalidConfig "sensors.id: reserved sensor ID" else
      match assoc SensorTypeNames (sc_ID sensor) with
      | None => invalidConfig "sensors.id: unknown sensor ID"
      | Some name =>
          if bool_decide (sc_ID sensor ∈ seen) then invalidConfig "sensors.id: duplicate ID" else
          if negb (bool_decide (sc_Type sensor = name)) then invalidConfig "sensors.type" else
          if negb (unit_known (sc_Unit sensor)) then invalidConfig "sensors.unit is unknown" else
          validateSensors ({[ sc_ID sensor ]} ∪ seen) l
      end
  end.

(** [src/sensor-server/config.go:396-403] oneOf *)
Definition oneOf (value : list Ascii.ascii) (allowed : list string) : bool :=
  existsb (fun candidate => bool_decide (value = chars candidate)) allowed.

(** [src/sensor-server/config.go:306-335] validateConfig, the numeric bounds,
    in order *)
Definition bounds_checks (c : Config) : list (bool * string) :=
  let s := DataStream c in
  [ (QueueCapacity s <? 1, "data_stream.queue_capacity must be positive"%string);
    (EnqueueWait s <? 0, "data_stream.enqueue_wait must not be negative"%string);
    (RetryCount s <? 0, "data_stream.retry_count must not be negative"%string);
    ((InitialBackoff s <=? 0) || (MaximumBackoff s <? InitialBackoff s),
      "data_stream backoff range is invalid"%string);
    ((WriteBufferSize s <? 4 * 1024) || (1024 * 1024 <? WriteBufferSize s),
      "data_stream.write_buffer_size must be between 4 KiB and 1 MiB"%string);
    ((FlushInterval s <? 100 * time_Millisecond) || (time_Minute <? FlushInterval s),
      "data_stream.flush_interval must be between 100ms and 1m"%string);
    (RotationSize s <? SensorDataRecordSize, "data_stream.rotation_size must fit at least one record"%string);
    (MaximumTCPConnections (Network c) <? 1, "network.maximum_tcp_connections must be positive"%string);
    ((PayloadDeadline (Network c) <? time_Second) || (time_Minute <? PayloadDeadline (Network c)),
      "network.payload_deadline must be between 1s and 1m"%string);
    ((ShutdownDeadline c <? time_Second) || (5 * time_Minute <? ShutdownDeadline c),
      "shutdown_deadline must be between 1s and 5m"%string) ].

(** Checks in order: the message of the first one that fires. *)
Fixpoint first_check (l : list (bool * string)) : option error :=
  match l with
  | [] => None
  | (bad, msg) :: l => if bad then invalidConfig msg else first_check l
  end.

(** [src/sensor-server/config.go:336-341] validateConfig, the logging section *)
Definition validateLogging (l : LoggingConfig) : option error :=
  if negb (oneOf (ToLower (chars (Level l))) ["debug"; "info"; "warn"; "error"; "disabled"]%string)
  then invalidConfig "logging.level is unsupported" else
  if negb (bool_decide (Output l = "stdout"%string)) && negb (bool_decide (Output l = "stderr"%string))
     && bool_decide (TrimSpace (chars (Output l)) = [])
  then invalidConfig "logging.output is empty" else None.

(** The first error of two checks. *)
Definition orelse (a b : option error) : option error :=
  match a with Some e => Some e | None => b end.

(** [src/sensor-server/config.go:247-343] validateConfig *)
Definition validateConfig (c : Config) : option error :=
  orelse (validateListenAddress "tcp_address" (TCPAddress c)) (
  orelse (validateListenAddress "udp_address" (UDPAddress c)) (
  orelse (validateRoot "data_root" (DataRoot c)) (
  orelse (validateRoot "quarantine_root" (QuarantineRoot c)) (
  orelse (validateDevices ∅ (elems (Devices c))) (
  orelse (validateSensors ∅ (elems (Sensors c))) (
  orelse (first_check (bounds_checks c)) (validateLogging (Logging c)))))))).

(** ** Snapshots *)

(** [src/sensor-server/config.go:385-388] cloneConfig, the copy being of the
    devices (nil when there are none) *)
Definition cloneConfig (c : Config) : Config :=
  mkConfig (TCPAddress c) (UDPAddress c) (DataRoot c) (QuarantineRoot c)
    (match elems (Devices c) with [] => None | l => Some l end)
    (Sensors c) (DataStream c) (Network c) (Logging c) (ShutdownDeadline c).

(** The registry entry of a configured device; an address that does not parse
    gives the zero address, as the ignored error does. *)
Definition zero_mac : MACAddress := mac_of_list [].
Definition device_of (configured : DeviceConfig) : Device :=
  mkDevice (default zero_mac (ParseMACAddress (dc_MAC configured)))
    (FloorTypeFromString (dc_Floor configured)) (RoomTypeFromString (dc_Room configured)).

(** The unit of a name: the loop over the map, whose names are distinct. *)
Definition unit_of (name : string) : UnitType :=
  match list_find (fun u => u.2 = name) UnitTypeToString with
  | Some (_, (u, _)) => u
  | None => UUnknown
  end.
Definition sensor_of (configured : SensorConfig) : SensorDefinition :=
  mkSensorDefinition (sc_ID configured) (unit_of (sc_Unit configured)).

Definition register_devices (l : list DeviceConfig) : gmap MACAddress Device :=
  foldl (fun m d => <[d_MAC (device_of d) := device_of d]> m) ∅ l.
Definition register_sensors (l : list SensorConfig) : gmap SensorType SensorDefinition :=
  foldl (fun m s => <[sc_ID s := sensor_of s]> m) ∅ l.

(** [src/sensor-server/config.go:124-155] NewConfigSnapshot *)
Definition NewConfigSnapshot (c : Config) : error + ConfigSnapshot :=
  let c := applyConfigDefaults c in
  match validateConfig c with
  | Some e => inl e
  | None => inr (mkConfigSnapshot (cloneConfig c) (register_devices (elems (Devices c)))
                   (register_sensors (elems (Sensors c))))
  end.

(** [src/sensor-server/config.go:29-40] Duration.UnmarshalJSON, on what
    [json.Unmarshal] and [time.ParseDuration] return *)
Definition Duration_UnmarshalJSON (value : error + string) (parse : string -> error + Z) : error + Z :=
  match value with
  | inl e => inl (ErrWrap "duration must be a string" e)
  | inr value => match parse value with
                 | inl e => inl (ErrWrap "parse duration" e)
                 | inr parsed => inr parsed
                 end
  end.

(** [src/sensor-server/config.go:347-356] ensureJSONEnd, on what the second
    [Decode] returns *)
Definition ensureJSONEnd (err : option error) : option error :=
  match err with
  | Some e => if errors_Is e io_EOF then None else Some (ErrWrap "decode configuration trailer" e)
  | None => invalidConfig "multiple JSON values"
  end.

(** [src/sensor-server/config.go:109-122] LoadConfig, on what the two [Decode]
    calls return *)
Definition LoadConfig (decoded : error + Config) (trailer : option error) : error + ConfigSnapshot :=
  match decoded with
  | inl e => inl (ErrWrap "decode configuration" e)
  | inr c =>
      match ensureJSONEnd trailer with
      | Some e => inl e
      | None => NewConfigSnapshot (applyConfigDefaults c)
      end
  end.

(** [src/sensor-server/config.go:157-159] ConfigSnapshot.Config *)
Definition snapshot_Config (s : ConfigSnapshot) : Config := cloneConfig (config s).
(** [src/sensor-server/config.go:161-164] ConfigSnapshot.Device *)
Definition snapshot_Device (s : ConfigSnapshot) (mac : MACAddress) : option Device := devices s !! mac.
(** [src/sensor-server/config.go:166-169] ConfigSnapshot.Sensor *)
Definition snapshot_Sensor (s : ConfigSnapshot) (id : SensorType) : option SensorDefinition :=
  sensors s !! id.

(** ** Reloading *)

(** The length of the UTF-8 rune at the head of a string, 0 when its first
    byte does not start one ([utf8.DecodeRuneInString] with [RuneError]). *)
Definition continuation (lo hi : Z) (c : Z) : bool := (lo <=? c) && (c <=? hi).
Definition rune_length (l : list Z) : nat :=
  match l with
  | [] => O
  | c :: l =>
      if c <=? 127 then 1%nat else
      let tail n := if forallb (continuation 128 191) (take n (drop 1 l)) && (S n <=? length l)%nat
                    then S (S n) else O in
      let second lo hi n := match l with
                            | c2 :: _ => if continuation lo hi c2 then tail n else O
                            | [] => O
                            end in
      if (194 <=? c) && (c <=? 223) then second 128 191 0%nat else
      if c =? 224 then second 160 191 1%nat else
      if c =? 237 then second 128 159 1%nat else
      if (225 <=? c) && (c <=? 239) then second 128 191 1%nat else
      if c =? 240 then second 144 191 2%nat else
      if (241 <=? c) && (c <=? 243) then second 128 191 2%nat else
      if c =? 244 then second 128 143 2%nat else O
  end.

(** A string in a JSON text: its runes, and [None] for each byte outside a
    rune, which is written as [\ufffd] whatever it is. *)
Fixpoint json_runes (fuel : nat) (l : list Ascii.ascii) : list (option (list Ascii.ascii)) :=
  match fuel, l with
  | S fuel, c :: l' =>
      match rune_length (char_codes l) with
      | O => None :: json_runes fuel l'
      | n => Some (take n l) :: json_runes fuel (drop n l)
      end
  | _, _ => []
  end.
Definition json_string (s : string) : list (option (list Ascii.ascii)) :=
  json_runes (length (chars s)) (chars s).

(** [json.Marshal(config)]: the values of the JSON object, field by field; a
    nil slice is null.  The text of a JSON value determines the value. *)
Definition json_text : Type := list (option (list Ascii.ascii)).
Definition marshal (c : Config) :
    (json_text * json_text * json_text * json_text) *
    option (list (json_text * json_text * json_text)) *
    option (list (Z * json_text * json_text)) *
    list Z * (json_text * json_text) :=
  let s := DataStream c in
  ((json_string (TCPAddress c), json_string (UDPAddress c),
    json_string (DataRoot c), json_string (QuarantineRoot c)),
   map (fun d => (json_string (dc_MAC d), json_string (dc_Floor d), json_string (dc_Room d)))
     <$> Devices c,
   map (fun d => (sc_ID d, json_string (sc_Type d), json_string (sc_Unit d))) <$> Sensors c,
   [QueueCapacity s; EnqueueWait s; RetryCount s; InitialBackoff s; MaximumBackoff s;
    WriteBufferSize s; FlushInterval s; RotationSize s;
    MaximumTCPConnections (Network c); PayloadDeadline (Network c); ShutdownDeadline c],
   (json_string (Level (Logging c)), json_string (Output (Logging c)))).

(** [src/sensor-server/config.go:390-394] configsEqual *)
Definition configsEqual (left right : Config) : bool := bool_decide (marshal left = marshal right).

Definition without_devices (c : Config) : Config :=
  mkConfig (TCPAddress c) (UDPAddress c) (DataRoot c) (QuarantineRoot c) None (Sensors c)
    (DataStream c) (Network c) (Logging c) (ShutdownDeadline c).

(** [src/sensor-server/config.go:172-184] ConfigSnapshot.ValidateReload *)
Definition ValidateReload (s : ConfigSnapshot) (candidate : option ConfigSnapshot) : option error :=
  match candidate with
  | None => Some (ErrWrap "reload configuration: nil snapshot" (ErrNew ErrInvalidConfiguration))
  | Some candidate =>
      let current := without_devices (config s) in
      let next := without_devices (config candidate) in
      if negb (configsEqual current next) then Some (ErrNew ErrRestartRequired) else None
  end.

Example json_string_1 : json_string "a" = [Some (chars "a")]. Proof. reflexivity. Qed.

(** ** Specification

    A configuration that is accepted: every condition by itself, without the
    order in which the code tests them. *)

Definition listen_address (value : string) : Prop :=
  exists host portText port, SplitHostPort (TrimSpace (chars value)) = Some (host, portText) /\
    ParseUint 16 portText = Some port /\ port <> 0.

Definition root_directory (value : string) : Prop :=
  TrimSpace (chars value) <> [] /\ clean_is_dot (chars value) = false.

Definition good_device (d : DeviceConfig) : Prop :=
  is_Some (ParseMACAddress (dc_MAC d)) /\ FloorTypeFromString (dc_Floor d) <> FLOOR_INVALID /\
  RoomTypeFromString (dc_Room d) <> ROOM_INVALID.

Definition good_sensor (s : SensorConfig) : Prop :=
  sc_ID s <> SENSOR_ID_UNKNOWN /\ assoc SensorTypeNames (sc_ID s) = Some (sc_Type s) /\
  sc_Unit s ∈ UnitTypeToString.*2.

Record valid_config (c : Config) : Prop := mkValidConfig {
  vc_tcp : listen_address (TCPAddress c);
  vc_udp : listen_address (UDPAddress c);
  vc_data : root_directory (DataRoot c);
  vc_quarantine : root_directory (QuarantineRoot c);
  vc_devices : Forall good_device (elems (Devices c));
  vc_macs : NoDup (map (fun d => ParseMACAddress (dc_MAC d)) (elems (Devices c)));
  vc_sensors : Forall good_sensor (elems (Sensors c));
  vc_ids : NoDup (map sc_ID (elems (Sensors c)));
  vc_queue : 1 <= QueueCapacity (DataStream c) /\ 0 <= EnqueueWait (DataStream c);
  vc_retry : 0 <= RetryCount (DataStream c) /\
    0 < InitialBackoff (DataStream c) <= MaximumBackoff (DataStream c);
  vc_buffer : 4096 <= WriteBufferSize (DataStream c) <= 1048576;
  vc_flush : 100 * time_Millisecond <= FlushInterval (DataStream c) <= time_Minute;
  vc_rotation : SensorDataRecordSize <= RotationSize (DataStream c);
  vc_tcp_max : 1 <= MaximumTCPConnections (Network c);
  vc_payload : time_Second <= PayloadDeadline (Network c) <= time_Minute;
  vc_shutdown : time_Second <= ShutdownDeadline c <= 5 * time_Minute;
  vc_level : ToLower (chars (Level (Logging c))) ∈
    map chars ["debug"; "info"; "warn"; "error"; "disabled"]%string;
  vc_output : Output (Logging c) = "stdout"%string \/ Output (Logging c) = "stderr"%string \/
    TrimSpace (chars (Output (Logging c))) <> [] }.

(** ** Lemmas: validation *)

Lemma orelse_None a b : orelse a b = None <-> a = None /\ b = None.
Proof. destruct a; cbn; intuition congruence. Qed.

Lemma validateListenAddress_None field value :
  validateListenAddress field value = None <-> listen_address value.
Proof.
  unfold validateListenAddress, listen_address. split.
  - destruct (SplitHostPort _) as [[h p]|]; [|done].
    destruct (ParseUint 16 p) as [v|] eqn:E; [|done].
    destruct (Z.eqb_spec v 0); [done|]. intros _. exists h, p, v. done.
  - intros (h & p & v & -> & -> & Hv). by rewrite (proj2 (Z.eqb_neq v 0)).
Qed.

Lemma validateRoot_None field value : validateRoot field value = None <-> root_directory value.
Proof.
  unfold validateRoot, root_directory. case_bool_decide as E; [by intuition|].
  destruct (clean_is_dot _); by intuition.
Qed.

Lemma validateDevices_None seen l :
  validateDevices seen l = None <->
  Forall good_device l /\ NoDup (map (fun d => ParseMACAddress (dc_MAC d)) l) /\
  forall d mac, d ∈ l -> ParseMACAddress (dc_MAC d) = Some mac -> mac ∉ seen.
Proof.
  revert seen. induction l as [|d l IH]; intros seen; cbn [validateDevices map].
  { split; [intros _|done]. split; [done|]. split; [by apply NoDup_nil|].
    intros d mac Hd. by apply not_elem_of_nil in Hd. }
  rewrite Forall_cons, NoDup_cons. unfold good_device at 1.
  destruct (ParseMACAddress (dc_MAC d)) as [mac|] eqn:E.
  2: { split; [done|]. by intros [[[[? ?] _] _] _]. }
  case_bool_decide as Hs.
  { split; [done|]. intros (_ & _ & H). by destruct (H d mac ltac:(by left) E). }
  destruct (Z.eqb_spec (FloorTypeFromString (dc_Floor d)) FLOOR_INVALID); [by intuition|].
  destruct (Z.eqb_spec (RoomTypeFromString (dc_Room d)) ROOM_INVALID); [by intuition|].
  rewrite IH. split.
  - intros (H1 & H2 & H3). split_and!; try done; [|].
    + rewrite list_elem_of_fmap. intros (d' & E' & Hin).
      destruct (H3 d' mac Hin (eq_sym E')).
      by apply elem_of_union_l, elem_of_singleton.
    + intros d' mac' [->|Hin]%elem_of_cons E'; [congruence|].
      intros Hm. apply (H3 d' mac' Hin E').
      by apply elem_of_union_r.
  - intros ((_ & H1) & (H2 & H3) & H4). split_and!; try done.
    intros d' mac' Hin E'. rewrite elem_of_union, elem_of_singleton. intros [->|Hm].
    + apply H2. apply list_elem_of_fmap. by exists d'.
    + apply (H4 d' mac'); [by right|done|done].
Qed.

Lemma unit_known_spec name : unit_known name = true <-> name ∈ UnitTypeToString.*2.
Proof.
  unfold unit_known. rewrite existsb_exists, list_elem_of_fmap. split.
  - intros (u & Hu & E). exists u. split; [by apply bool_decide_eq_true_1 in E|].
    by apply list_elem_of_In.
  - intros (u & -> & Hu). exists u. split; [by apply list_elem_of_In|]. by apply bool_decide_eq_true_2.
Qed.

Lemma validateSensors_None seen l :
  validateSensors seen l = None <->
  Forall good_sensor l /\ NoDup (map sc_ID l) /\ forall s, s ∈ l -> sc_ID s ∉ seen.
Proof.
  revert seen. induction l as [|s l IH]; intros seen; cbn [validateSensors map].
  { split; [intros _|done]. split; [done|]. split; [by apply NoDup_nil|].
    intros s Hs. by apply not_elem_of_nil in Hs. }
  rewrite Forall_cons, NoDup_cons. unfold good_sensor at 1.
  destruct (Z.eqb_spec (sc_ID s) SENSOR_ID_UNKNOWN); [by intuition|].
  destruct (assoc SensorTypeNames (sc_ID s)) as [name|] eqn:E; [|by intuition].
  case_bool_decide as Hs.
  { split; [done|]. intros (_ & _ & H). by destruct (H s ltac:(by left)). }
  case_bool_decide as Ht; cbn [negb].
  2: { split; [done|]. intros [[(_ & [= ?] & _) _] _]. congruence. }
  destruct (unit_known (sc_Unit s)) eqn:Hu; cbn [negb].
  2: { split; [done|]. intros [[(_ & _ & H) _] _]. apply unit_known_spec in H. congruence. }
  apply unit_known_spec in Hu. rewrite IH. split.
  - intros (H1 & H2 & H3). split_and!; try done; [congruence| |].
    + rewrite list_elem_of_fmap. intros (s' & E' & Hin). destruct (H3 s' Hin).
      by apply elem_of_union_l, elem_of_singleton.
    + intros s' [->|Hin]%elem_of_cons; [done|]. intros Hm. apply (H3 s' Hin).
      by apply elem_of_union_r.
  - intros ((_ & H1) & (H2 & H3) & H4). split_and!; try done.
    intros s' Hin. rewrite elem_of_union, elem_of_singleton. intros [E'|Hm].
    + apply H2. apply list_elem_of_fmap. by exists s'.
    + apply (H4 s'); [by right|done].
Qed.

Lemma first_check_None l : first_check l = None <-> Forall (fun p => p.1 = false) l.
Proof.
  induction l as [|[bad msg] l IH]; cbn; [by rewrite Forall_nil|].
  rewrite Forall_cons, <- IH. destruct bad; cbn; [by intuition|by intuition].
Qed.

Lemma oneOf_spec value allowed : oneOf value allowed = true <-> value ∈ map chars allowed.
Proof.
  unfold oneOf. rewrite existsb_exists, list_elem_of_fmap. split.
  - intros (u & Hu & E). exists u. split; [by apply bool_decide_eq_true_1 in E|].
    by apply list_elem_of_In.
  - intros (u & -> & Hu). exists u. split; [by apply list_elem_of_In|]. by apply bool_decide_eq_true_2.
Qed.

Lemma validateLogging_None l :
  validateLogging l = None <->
  ToLower (chars (Level l)) ∈ map chars ["debug"; "info"; "warn"; "error"; "disabled"]%string /\
  (Output l = "stdout"%string \/ Output l = "stderr"%string \/ TrimSpace (chars (Output l)) <> []).
Proof.
  unfold validateLogging. rewrite <- oneOf_spec. destruct (oneOf _ _); cbn [negb]; [|by intuition].
  unfold invalidConfig. repeat case_bool_decide; cbn; intuition congruence.
Qed.

Lemma validateConfig_None c : validateConfig c = None <-> valid_config c.
Proof.
  unfold validateConfig. rewrite !orelse_None, !validateListenAddress_None, !validateRoot_None,
    validateDevices_None, validateSensors_None, first_check_None, validateLogging_None.
  unfold bounds_checks. rewrite !Forall_cons, Forall_nil. cbn [fst].
  rewrite !orb_false_iff, !Z.ltb_ge, !Z.leb_gt. split.
  - intros (? & ? & ? & ? & (? & ? & _) & (? & ? & _) & Hb & ? & ?).
    constructor; try done; intuition lia.
  - intros [? ? ? ? ? ? ? ? Hq Hr ? ? ? ? ? ? ? ?]. split_and!; try done; try lia.
Qed.

(** Every validation error is an [ErrInvalidConfiguration]. *)
Definition invalid (e : option error) : Prop :=
  match e with Some e => errors_Is e ErrInvalidConfiguration = true | None => True end.

Lemma validateDevices_invalid seen l : invalid (validateDevices seen l).
Proof.
  revert seen. induction l as [|d l IH]; intros seen; cbn [validateDevices]; [done|].
  destruct (ParseMACAddress _); [|done]. by repeat (case_match; try done).
Qed.

Lemma validateSensors_invalid seen l : invalid (validateSensors seen l).
Proof.
  revert seen. induction l as [|s l IH]; intros seen; cbn [validateSensors]; [done|].
  by repeat (case_match; try done).
Qed.

Lemma first_check_invalid l : invalid (first_check l).
Proof. induction l as [|[[] msg] l IH]; done. Qed.

Lemma orelse_invalid a b : invalid a -> invalid b -> invalid (orelse a b).
Proof. by destruct a. Qed.

Lemma validateConfig_invalid c : invalid (validateConfig c).
Proof.
  unfold validateConfig. repeat apply orelse_invalid.
  - unfold validateListenAddress. by repeat case_match.
  - unfold validateListenAddress. by repeat case_match.
  - unfold validateRoot. by repeat case_match.
  - unfold validateRoot. by repeat case_match.
  - apply validateDevices_invalid.
  - apply validateSensors_invalid.
  - apply first_check_invalid.
  - unfold validateLogging. by repeat case_match.
Qed.

(** Defaults are applied twice by [LoadConfig]; once is enough. *)
Lemma or_default_idemp v d : d <> 0 -> or_default (or_default v d) d = or_default v d.
Proof. unfold or_default. intros Hd. destruct (Z.eqb_spec v 0) as [->|Hv]; by rewrite (proj2 (Z.eqb_neq _ 0)). Qed.

Lemma or_default_string_idemp v d :
  d <> ""%string -> or_default_string (or_default_string v d) d = or_default_string v d.
Proof. unfold or_default_string. intros Hd. by repeat case_bool_decide. Qed.

Lemma applyConfigDefaults_idemp c :
  applyConfigDefaults (applyConfigDefaults c) = applyConfigDefaults c.
Proof.
  unfold applyConfigDefaults. cbn.
  by rewrite !or_default_idemp, !or_default_string_idemp by done.
Qed.

(** ** Lemmas: registries *)

Lemma foldl_insert_lookup {A K V} `{Countable K} (key : A -> K) (val : A -> V) l (m : gmap K V) x y :
  NoDup (map key l) -> (forall a, a ∈ l -> m !! key a = None) ->
  foldl (fun m a => <[key a := val a]> m) m l !! x = Some y <->
  m !! x = Some y \/ exists a, a ∈ l /\ key a = x /\ val a = y.
Proof.
  revert m. induction l as [|a l IH]; intros m; cbn [map foldl].
  { intros _ _. split; [by left|]. intros [?|(a & Ha & _)]; [done|]. by apply not_elem_of_nil in Ha. }
  rewrite NoDup_cons. intros [Ha Hl] Hm. rewrite IH; [|done|].
  - split.
    + intros [Hx|(a' & Hin & E)].
      * destruct (decide (key a = x)) as [<-|Hne].
        -- rewrite lookup_insert_eq in Hx. right. exists a. split; [by left|]. by simplify_eq.
        -- rewrite lookup_insert_ne in Hx by done. by left.
      * right. exists a'. split; [by right|done].
    + intros [Hx|(a' & [->|Hin]%elem_of_cons & <- & <-)].
      * left. rewrite lookup_insert_ne; [done|]. intros <-. by rewrite Hm in Hx by left.
      * left. by rewrite lookup_insert_eq.
      * right. by exists a'.
  - intros a' Hin. rewrite lookup_insert_ne; [apply Hm; by right|].
    intros E. apply Ha. apply list_elem_of_fmap. by exists a'.
Qed.

Lemma unit_of_spec name :
  name ∈ UnitTypeToString.*2 -> assoc UnitTypeToString (unit_of name) = Some name.
Proof.
  rewrite list_elem_of_fmap. intros ([u n] & -> & Hin). unfold unit_of. cbn [snd].
  destruct (list_find_elem_of (fun u => u.2 = n) UnitTypeToString (u, n) Hin eq_refl)
    as [[i [u' n']] E].
  rewrite E. apply list_find_Some in E as (Hi & <- & _). cbn [snd].
  apply elem_of_assoc; [apply UnitTypeToString_keys|]. by eapply list_elem_of_lookup_2.
Qed.

Lemma unit_unique u1 u2 name :
  assoc UnitTypeToString u1 = Some name -> assoc UnitTypeToString u2 = Some name -> u1 = u2.
Proof.
  intros H1%assoc_elem_of H2%assoc_elem_of.
  apply list_elem_of_lookup in H1 as [i Hi]. apply list_elem_of_lookup in H2 as [j Hj].
  assert (i = j) as ->.
  { eapply (NoDup_lookup _ i j name UnitTypeToString_names);
      rewrite list_lookup_fmap; [by rewrite Hi|by rewrite Hj]. }
  congruence.
Qed.

Lemma device_keys l :
  Forall good_device l -> NoDup (map (fun d => ParseMACAddress (dc_MAC d)) l) ->
  NoDup (map (fun d => d_MAC (device_of d)) l).
Proof.
  intros Hg. induction l as [|d l IH]; cbn [map]; [by constructor|].
  apply Forall_cons in Hg as [[[mac E] _] Hl]. rewrite !NoDup_cons. intros [Hd Hn].
  split; [|by apply IH]. intros (d' & E' & Hin)%list_elem_of_fmap. apply Hd.
  apply list_elem_of_fmap. exists d'. split; [|done].
  apply (proj1 (Forall_forall _ _) Hl) in Hin as [[mac' Em] _].
  cbn [device_of d_MAC] in E'. rewrite E, Em in *. cbn in E'. congruence.
Qed.

Lemma register_devices_lookup l mac d :
  Forall good_device l -> NoDup (map (fun d => ParseMACAddress (dc_MAC d)) l) ->
  register_devices l !! mac = Some d <->
  exists c, c ∈ l /\ ParseMACAddress (dc_MAC c) = Some mac /\
    d = mkDevice mac (FloorTypeFromString (dc_Floor c)) (RoomTypeFromString (dc_Room c)).
Proof.
  intros Hg Hn. unfold register_devices.
  rewrite (foldl_insert_lookup (fun d => d_MAC (device_of d)) device_of)
    by first [by apply device_keys|intros; apply lookup_empty].
  rewrite lookup_empty. split.
  - intros [?|(c & Hin & E & <-)]; [done|]. exists c.
    apply (proj1 (Forall_forall _ _) Hg) in Hin as Hc. destruct Hc as [[mac' Em] _].
    cbn [device_of d_MAC] in E. unfold device_of. rewrite Em in *. cbn in E. by subst.
  - intros (c & Hin & E & ->). right. exists c. unfold device_of. by rewrite E.
Qed.

Lemma register_sensors_lookup l id sd :
  Forall good_sensor l -> NoDup (map sc_ID l) ->
  register_sensors l !! id = Some sd <->
  exists c, c ∈ l /\ sc_ID c = id /\ sd_Type sd = id /\
    assoc UnitTypeToString (sd_Unit sd) = Some (sc_Unit c).
Proof.
  intros Hg Hn. unfold register_sensors.
  rewrite (foldl_insert_lookup sc_ID sensor_of)
    by first [done|intros; apply lookup_empty].
  rewrite lookup_empty. split.
  - intros [?|(c & Hin & E & <-)]; [done|]. exists c. split_and!; try done.
    apply unit_of_spec. by apply (proj1 (Forall_forall _ _) Hg) in Hin as (_ & _ & ?).
  - intros (c & Hin & E & Et & Eu). right. exists c. split_and!; try done.
    destruct sd as [t u]. cbn [sd_Type sd_Unit] in *. subst. unfold sensor_of. f_equal.
    eapply unit_unique; [|done]. apply unit_of_spec.
    by apply (proj1 (Forall_forall _ _) Hg) in Hin as (_ & _ & ?).
Qed.

(** ** Lemmas: MAC addresses *)

Definition hex_byte (b : byte) : list Ascii.ascii :=
  [hex_digit (byte_to_Z b / 16); hex_digit (byte_to_Z b mod 16)].

(** The canonical text of a MAC address. *)
Definition format_mac (mac : MACAddress) : string :=
  let '(a, b, c, d, e, f) := mac in
  let sep := [Ascii.ascii_of_N 58] in
  of_chars (hex_byte a ++ sep ++ hex_byte b ++ sep ++ hex_byte c ++ sep ++
            hex_byte d ++ sep ++ hex_byte e ++ sep ++ hex_byte f).

Lemma hex_digit_facts d :
  0 <= d < 16 -> hex_value (hex_digit d) = Some d /\
  Ascii.eqb (hex_digit d) (Ascii.ascii_of_N 58) = false.
Proof.
  intros Hd. assert (Forall (fun d => hex_value (hex_digit d) = Some d /\
    Ascii.eqb (hex_digit d) (Ascii.ascii_of_N 58) = false) (seqZ 0 16)) as H
    by (repeat constructor).
  rewrite Forall_forall in H. apply H. apply elem_of_seqZ. lia.
Qed.

Lemma scan_hex_byte b :
  exists c1 c2, hex_byte b = [c1; c2] /\ scan_hex c1 c2 = Some (byte_to_Z b) /\
    Forall (fun c => Ascii.eqb c (Ascii.ascii_of_N 58) = false) (hex_byte b).
Proof.
  pose proof (byte_to_Z_range b) as Hb.
  destruct (hex_digit_facts (byte_to_Z b / 16)) as [H1 N1]; [mod_lia|].
  destruct (hex_digit_facts (byte_to_Z b mod 16)) as [H2 N2]; [mod_lia|].
  do 2 eexists. split; [done|]. unfold scan_hex, hex_byte. rewrite H1, H2. split; [|by repeat constructor].
  f_equal. mod_lia.
Qed.

Lemma parse_mac_part b parts bs :
  parse_mac_parts parts = Some bs -> parse_mac_parts (hex_byte b :: parts) = Some (b :: bs).
Proof.
  intros H. destruct (scan_hex_byte b) as (c1 & c2 & -> & Hs & _).
  cbn [parse_mac_parts]. rewrite Hs. cbn. rewrite H. cbn. by rewrite byte_of_to_Z.
Qed.

(** ** Lemmas: JSON texts *)

(** Text that is valid UTF-8. *)
Definition valid_text (s : string) : bool := forallb (fun r => bool_decide (is_Some r)) (json_string s).

Lemma rune_length_bound l : (rune_length l <= length l)%nat.
Proof.
  unfold rune_length. destruct l as [|c l]; [done|]. cbn [length]. cbv zeta.
  destruct (c <=? 127); [lia|].
  assert (forall lo hi n, (match l with
    | [] => 0
    | c2 :: _ => if continuation lo hi c2
                 then if forallb (continuation 128 191) (take n (drop 1 l)) && (S n <=? length l)
                      then S (S n) else 0
                 else 0
    end <= S (length l))%nat) as H.
  { intros lo hi n. destruct l as [|c2 l']; [lia|]. destruct (continuation lo hi c2); [|lia].
    destruct (forallb _ _ && _) eqn:E; [|lia]. apply andb_true_iff in E as [_ E]. apply Nat.leb_le in E. lia. }
  repeat match goal with |- context [if ?b then _ else _] => lazymatch b with
    | continuation _ _ _ => fail | _ && (_ <=? _)%nat => fail | _ => destruct b end end; try apply H; lia.
Qed.

Lemma json_runes_concat fuel l :
  (length l <= fuel)%nat -> Forall is_Some (json_runes fuel l) ->
  concat (omap id (json_runes fuel l)) = l.
Proof.
  revert l. induction fuel as [|fuel IH]; intros [|c l] Hf; cbn [json_runes length] in *; try done; try lia.
  pose proof (rune_length_bound (char_codes (c :: l))) as Hb.
  destruct (rune_length (char_codes (c :: l))) as [|n] eqn:E.
  { rewrite Forall_cons. by intros [[? ?] _]. }
  rewrite Forall_cons. intros [_ Hr]. unfold char_codes in Hb. rewrite length_map in Hb. cbn [length] in Hb.
  cbn [omap list_omap id]. change (list_omap ?A ?B ?f ?l) with (omap f l). cbn [concat].
  rewrite IH; [by rewrite take_drop|rewrite length_drop; cbn; lia|done].
Qed.

Lemma json_string_inj s1 s2 :
  valid_text s1 = true -> valid_text s2 = true -> json_string s1 = json_string s2 -> s1 = s2.
Proof.
  unfold valid_text. intros H1 H2 E.
  assert (forall s, forallb (fun r => bool_decide (is_Some r)) (json_string s) = true ->
            Forall is_Some (json_string s)) as Hv.
  { intros s. rewrite forallb_forall, Forall_forall. intros H r Hr.
    apply (bool_decide_eq_true_1 _). apply H. by apply list_elem_of_In. }
  apply Hv in H1, H2. unfold json_string in *.
  rewrite <- (of_chars_chars s1), <- (of_chars_chars s2). f_equal.
  rewrite <- (json_runes_concat _ _ (Nat.le_refl _) H1), <- (json_runes_concat _ _ (Nat.le_refl _) H2).
  by rewrite E.
Qed.

(** Every string of a configuration outside the device registry. *)
Definition texts (c : Config) : list string :=
  [TCPAddress c; UDPAddress c; DataRoot c; QuarantineRoot c; Level (Logging c); Output (Logging c)]
  ++ concat (map (fun s => [sc_Type s; sc_Unit s]) (elems (Sensors c))).

Definition utf8_config (c : Config) : bool := forallb valid_text (texts c).

Lemma marshal_sensors_inj l1 l2 :
  forallb valid_text (concat (map (fun s => [sc_Type s; sc_Unit s]) l1)) = true ->
  forallb valid_text (concat (map (fun s => [sc_Type s; sc_Unit s]) l2)) = true ->
  map (fun d => (sc_ID d, json_string (sc_Type d), json_string (sc_Unit d))) l1 =
  map (fun d => (sc_ID d, json_string (sc_Type d), json_string (sc_Unit d))) l2 -> l1 = l2.
Proof.
  revert l2. induction l1 as [|[i1 t1 u1] l1 IH]; intros [|[i2 t2 u2] l2]; try done.
  cbn. rewrite !andb_true_iff. intros (? & ? & ?) (? & ? & ?) [= -> Et Eu El].
  f_equal; [|by apply IH]. f_equal; by apply json_string_inj.
Qed.

Lemma marshal_inj c1 c2 :
  utf8_config c1 = true -> utf8_config c2 = true ->
  marshal (without_devices c1) = marshal (without_devices c2) ->
  without_devices c1 = without_devices c2.
Proof.
  destruct c1 as [t1 u1 r1 q1 d1 s1 [] [] [] ?], c2 as [t2 u2 r2 q2 d2 s2 [] [] [] ?].
  unfold utf8_config, texts, marshal, without_devices. cbn [Sensors TCPAddress UDPAddress DataRoot
    QuarantineRoot Level Output Logging DataStream Network].
  rewrite !forallb_app, !andb_true_iff. cbn [forallb]. rewrite !andb_true_iff.
  intros [(? & ? & ? & ? & ? & ? & _) Hs1] [(? & ? & ? & ? & ? & ? & _) Hs2] E.
  cbn in E. injection E as E1 E2 E3 E4 Es. intros. simplify_eq.
  f_equal; try (by apply json_string_inj); [|f_equal; by apply json_string_inj].
  destruct s1, s2; cbn in *; try done. simplify_eq. f_equal. by apply marshal_sensors_inj.
Qed.

(** ** Properties *)


(** The registries of a snapshot are the configured ones: a device is
    found exactly under the address of its entry, with the floor and room of
    the names; a sensor exactly under its identifier, with the unit of the
    name; nothing else is found. *)
Theorem snapshot_registry c s :
  NewConfigSnapshot c = inr s ->
  (forall mac d, snapshot_Device s mac = Some d <->
     exists dc, dc ∈ elems (Devices c) /\ ParseMACAddress (dc_MAC dc) = Some mac /\
       d = mkDevice mac (FloorTypeFromString (dc_Floor dc)) (RoomTypeFromString (dc_Room dc))) /\
  (forall id sd, snapshot_Sensor s id = Some sd <->
     exists sc, sc ∈ elems (Sensors c) /\ sc_ID sc = id /\ sd_Type sd = id /\
       assoc UnitTypeToString (sd_Unit sd) = Some (sc_Unit sc)) /\
  (forall id sd, snapshot_Sensor s id = Some sd -> 0 < id <= SENSOR_ID_kWAh).
Proof.
  unfold NewConfigSnapshot. destruct (validateConfig _) eqn:E; [done|]. intros [= <-].
  apply validateConfig_None in E. pose proof E as [_ _ _ _ Hd Hm Hs Hi _ _ _ _ _ _ _ _ _ _].
  cbn [applyConfigDefaults Devices Sensors] in Hd, Hm, Hs, Hi.
  assert (forall id sd, register_sensors (elems (Sensors c)) !! id = Some sd <->
     exists sc, sc ∈ elems (Sensors c) /\ sc_ID sc = id /\ sd_Type sd = id /\
       assoc UnitTypeToString (sd_Unit sd) = Some (sc_Unit sc)) as Hreg
    by (intros; by apply register_sensors_lookup).
  split_and!.
  - intros mac d. by apply register_devices_lookup.
  - exact Hreg.
  - intros id sd (sc & Hin & <- & _)%Hreg.
    apply (proj1 (Forall_forall _ _) Hs) in Hin as (Hz & Ha & _).
    apply assoc_elem_of in Ha.
    assert (Forall (fun p => 0 <= p.1 <= SENSOR_ID_kWAh) SensorTypeNames) as Hr
      by (repeat constructor; done).
    apply (proj1 (Forall_forall _ _) Hr) in Ha. cbn [fst] in Ha. unfold SENSOR_ID_UNKNOWN in Hz. lia.
Qed.

(** MAC addresses round trip: the canonical text of an address parses to
    it, and distinct addresses have distinct texts. *)
Theorem ParseMACAddress_roundtrip mac :
  ParseMACAddress (format_mac mac) = Some mac /\
  forall mac', format_mac mac' = format_mac mac -> mac' = mac.
Proof.
  assert (forall mac, ParseMACAddress (format_mac mac) = Some mac) as H.
  { clear mac. intros [[[[[a b] c] d] e] f]. unfold ParseMACAddress, format_mac.
    rewrite chars_of_chars. cbv zeta. cbn [app].
    assert (forall b, Forall (fun c => Ascii.eqb c (Ascii.ascii_of_N 58) = false) (hex_byte b)) as Hs
      by (intros b'; by destruct (scan_hex_byte b') as (? & ? & _ & _ & ?)).
    rewrite !split_on_app, split_on_one by apply Hs.
    rewrite bool_decide_eq_true_2 by done.
    rewrite (parse_mac_part a _ [b; c; d; e; f]); [done|].
    by rewrite (parse_mac_part b _ [c; d; e; f]) by
      by rewrite (parse_mac_part c _ [d; e; f]) by
      by rewrite (parse_mac_part d _ [e; f]) by
      by rewrite (parse_mac_part e _ [f]) by by rewrite (parse_mac_part f _ []). }
  split; [apply H|]. intros mac' E. pose proof (H mac') as Hm. rewrite E, H in Hm. congruence.
Qed.

(** Only the devices may change at run time: for texts in UTF-8 a reload
    is accepted exactly when the new configuration agrees with the current
    one but for the devices, and is refused with [ErrRestartRequired]
    otherwise. *)
Theorem ValidateReload_devices_only s s' :
  utf8_config (config s) = true -> utf8_config (config s') = true ->
  ValidateReload s (Some s') =
    (if decide (without_devices (config s) = without_devices (config s'))
     then None else Some (ErrNew ErrRestartRequired)).
Proof.
  intros H1 H2. unfold ValidateReload, configsEqual.
  destruct (decide (without_devices (config s) = without_devices (config s'))) as [->|Hne].
  - by rewrite bool_decide_eq_true_2.
  - rewrite bool_decide_eq_false_2; [done|]. intros E. apply Hne. by apply marshal_inj.
Qed.

(** A part of an address may have one digit, with white space before it or
    anything after it, although the error message asks for two. *)
Example ParseMACAddress_lenient :
  ParseMACAddress "aZ: b:c :0-:11:22" =
  ParseMACAddress "0a:0b:0c:00:11:22" /\ is_Some (ParseMACAddress "aZ: b:c :0-:11:22").
Proof. vm_compute. split; [reflexivity|eauto]. Qed.

(** ** Concrete configurations *)

Definition sample_config (l : list DeviceConfig) : Config :=
  mkConfig ":4001" "127.0.0.1:4002" "/data" "/quarantine" (Some l)
    (Some [mkSensorConfig SENSOR_ID_TEMPERATURE "Temperature" "Celsius"])
    (mkDataStreamConfig 0 0 0 0 0 0 0 0) (mkNetworkConfig 0 0) (mkLoggingConfig "" "") 0.
Definition sample_device : DeviceConfig := mkDeviceConfig "00:11:22:33:44:55" "first" "kitchen".
Definition sample_address : MACAddress := mac_of_list (map byte_of_Z [0; 0x11; 0x22; 0x33; 0x44; 0x55]).

Lemma NewConfigSnapshot_config c s :
  NewConfigSnapshot c = inr s -> config s = cloneConfig (applyConfigDefaults c).
Proof. unfold NewConfigSnapshot. destruct (validateConfig _); [done|]. by intros [= <-]. Qed.

Definition accepted (c : Config) : bool :=
  match NewConfigSnapshot c with inl _ => false | inr _ => true end.

Lemma sample_accepted : accepted (sample_config []) && accepted (sample_config [sample_device]) = true.
Proof. vm_compute. reflexivity. Qed.

Lemma accepted_snapshot c : accepted c = true -> exists s, NewConfigSnapshot c = inr s.
Proof. unfold accepted. destruct (NewConfigSnapshot c); [done|]. eauto. Qed.

Lemma sample_snapshots :
  exists s s', NewConfigSnapshot (sample_config []) = inr s /\
    NewConfigSnapshot (sample_config [sample_device]) = inr s'.
Proof.
  pose proof sample_accepted as H. apply andb_true_iff in H as [H1 H2].
  apply accepted_snapshot in H1 as [s H1], H2 as [s' H2]. by exists s, s'.
Qed.

Lemma snapshot_registry_witness :
  exists s, NewConfigSnapshot (sample_config [sample_device]) = inr s /\
    snapshot_Device s sample_address = Some (mkDevice sample_address FLOOR_FIRST ROOM_KITCHEN).
Proof.
  destruct sample_snapshots as (_ & s & _ & E).
  exists s. split; [exact E|].
  destruct (snapshot_registry _ s E) as [H _]. apply H.
  exists sample_device. split; [by left|]. by split; vm_compute.
Defined.

Lemma ValidateReload_devices_only_witness :
  exists s s', NewConfigSnapshot (sample_config []) = inr s /\
    NewConfigSnapshot (sample_config [sample_device]) = inr s' /\
    ValidateReload s (Some s') = None.
Proof.
  destruct sample_snapshots as (s & s' & E & E'). exists s, s'. split; [exact E|]. split; [exact E'|].
  apply NewConfigSnapshot_config in E, E'.
  rewrite ValidateReload_devices_only; rewrite ?E, ?E'; vm_compute; reflexivity.
Defined.
