(* ===== verification/DataEngine.v ===== *)
(** * DataEngine: one stream per location and sensor type

    Model of [src/sensor-server/data-engine.go]: the engine creates the stream
    of a (floor, room, sensor type) on its first record, under a mutex, and
    closes every stream it created.  Calls of [WriteSensorData] and [Close]
    interleave; an [action] is one atomic step, a critical section of the
    mutex being one step.  Streams are handles, the factory is the engine's
    parameter; [NewFileDataStreamFactory] is modelled on the file system. *)

From S2P Require Import Prelude GoRuntime GoStrings House Platform DataFile DataStream Config.
Open Scope Z_scope.

(** ** Data *)

(** [src/sensor-server/data-engine.go:24-28] dataStreamKey *)
Record dataStreamKey : Set := mkKey { floor : FloorType; room : RoomType; sensorType : SensorType }.

#[export] Instance dataStreamKey_eq_dec : EqDecision dataStreamKey.
Proof. solve_decision. Defined.
#[export] Instance dataStreamKey_countable : Countable dataStreamKey.
Proof.
  apply (inj_countable' (fun k => (floor k, room k, sensorType k)) (fun t => mkKey t.1.1 t.1.2 t.2)).
  by intros [].
Defined.

(** [src/sensor-server/data-engine.go:30-35] DataStreamSnapshot *)
Record DataStreamSnapshot : Type := mkSnapshot { sn_key : dataStreamKey; sn_counters : DataStreamCounters }.

Section engine.
Context {H E : Type} (factory : FloorType -> RoomType -> SensorType -> M E H).

(** A call of [WriteSensorData]: past its test of [closed], or holding its
    stream. *)
Inductive request : Type :=
| Loaded (k : dataStreamKey)
| HasStream (k : dataStreamKey) (h : H).

(** The call of [Close] that won the exchange: before the mutex, closing the
    streams it found (those left, the error so far), or returned. *)
Inductive closer : Type :=
| NotClosing
| Closing
| CloseStreams (l : list H) (result : option error)
| CloseReturned.

(** [src/sensor-server/data-engine.go:17-22] DataEngine, with its calls and
    the environment of the factory *)
Record DataEngine : Type := mkDataEngine {
  streams : gmap dataStreamKey H;
  closed : bool;
  requests : list request;
  closing : closer;
  env : E }.

(** [src/sensor-server/data-engine.go:37-42] NewDataEngine (the nil factory
    cannot be expressed) *)
Definition NewDataEngine (e : E) : DataEngine := mkDataEngine ∅ false [] NotClosing e.

Inductive event : Type :=
| EvCreated (k : dataStreamKey) (h : H)
| EvWrite (k : dataStreamKey) (h : H)
| EvError (k : dataStreamKey) (e : error)
| EvPanic (p : panic)
| EvStreamClosed (h : H)
| EvCloseReturn (e : option error).

Inductive action : Type :=
| ABegin (k : dataStreamKey)         (* WriteSensorData: load closed *)
| AStream (i : nat)                  (* WriteSensorData: stream, under the mutex *)
| AWrite (i : nat)                   (* WriteSensorData: stream.Write *)
| AClose                             (* Close: compare and swap *)
| ASnapshot                          (* Close: copy the streams, under the mutex *)
| ACloseNext (r : option error)      (* Close: close the next stream, with its result *)
| AReturn.                           (* Close: return the joined errors *)

Definition set_requests (l : list request) (s : DataEngine) : DataEngine :=
  mkDataEngine (streams s) (closed s) l (closing s) (env s).
Definition set_streams (m : gmap dataStreamKey H) (e : E) (s : DataEngine) : DataEngine :=
  mkDataEngine m (closed s) (requests s) (closing s) e.
Definition set_closing (c : closer) (s : DataEngine) : DataEngine :=
  mkDataEngine (streams s) true (requests s) c (env s).

(** [src/sensor-server/data-engine.go:126-142] stream: the closed engine
    refuses, an existing stream is returned, a new one is created and kept *)
Definition stream (k : dataStreamKey) : M DataEngine H := fun s =>
  if closed s then (Fail (ErrNew ErrDataEngineClosed), s) else
  match streams s !! k with
  | Some h => (Ret h, s)
  | None =>
      match factory (floor k) (room k) (sensorType k) (env s) with
      | (Ret h, e) => (Ret h, set_streams (<[k := h]> (streams s)) e s)
      | (Fail err, e) => (Fail (ErrWrap "create data stream" err), set_streams (streams s) e s)
      | (Panic p, e) => (Panic p, set_streams (streams s) e s)
      end
  end.

Definition is_new (k : dataStreamKey) (s : DataEngine) : bool := bool_decide (streams s !! k = None).

(** [src/sensor-server/data-engine.go:70-79] WriteSensorData, its three steps *)
Definition write_step (a : action) (s : DataEngine) : option (list event * DataEngine) :=
  match a with
  | ABegin k =>
      if closed s then Some ([EvError k (ErrNew ErrDataEngineClosed)], s)
      else Some ([], set_requests (requests s ++ [Loaded k]) s)
  | AStream i =>
      match requests s !! i with
      | Some (Loaded k) =>
          let '(r, s') := stream k s in
          match r with
          | Ret h => Some (if is_new k s then [EvCreated k h] else [],
                           set_requests (<[i := HasStream k h]> (requests s)) s')
          | Fail e => Some ([EvError k e], set_requests (delete i (requests s)) s')
          | Panic p => Some ([EvPanic p], s')
          end
      | _ => None
      end
  | AWrite i =>
      match requests s !! i with
      | Some (HasStream k h) => Some ([EvWrite k h], set_requests (delete i (requests s)) s)
      | _ => None
      end
  | _ => None
  end.

(** [src/sensor-server/data-engine.go:81-97] Close *)
Definition close_step (a : action) (s : DataEngine) : option (list event * DataEngine) :=
  match a, closing s with
  | AClose, _ =>
      if closed s then Some ([EvCloseReturn None], s) else Some ([], set_closing Closing s)
  | ASnapshot, Closing =>
      Some ([], set_closing (CloseStreams (map snd (map_to_list (streams s))) None) s)
  | ACloseNext r, CloseStreams (h :: l) result =>
      Some ([EvStreamClosed h], set_closing (CloseStreams l (errors_Join [result; r])) s)
  | AReturn, CloseStreams [] result => Some ([EvCloseReturn result], set_closing CloseReturned s)
  | _, _ => None
  end.

(** [src/sensor-server/data-engine.go:70-97] WriteSensorData and Close, called
    concurrently *)
Definition exec (a : action) (s : DataEngine) : option (list event * DataEngine) :=
  match a with
  | ABegin _ | AStream _ | AWrite _ => write_step a s
  | _ => close_step a s
  end.

Fixpoint execs (l : list action) (s : DataEngine) : option (list event * DataEngine) :=
  match l with
  | [] => Some ([], s)
  | a :: l =>
      match exec a s with
      | Some (evs, s) =>
          match execs l s with Some (evs', s) => Some (evs ++ evs', s) | None => None end
      | None => None
      end
  end.

Inductive reachable (e : E) : list event -> DataEngine -> Prop :=
| reachable_init : reachable e [] (NewDataEngine e)
| reachable_step tr s a evs s' :
    reachable e tr s -> exec a s = Some (evs, s') -> reachable e (tr ++ evs) s'.

(** [src/sensor-server/data-engine.go:99-103] StreamCount *)
Definition StreamCount (s : DataEngine) : nat := base.size (streams s).

(** The order of [Counters], as the comparison of the sort gives it. *)
Definition snapshot_less (a b : DataStreamSnapshot) : bool :=
  let ka := sn_key a in let kb := sn_key b in
  if negb (floor ka =? floor kb) then floor ka <? floor kb else
  if negb (room ka =? room kb) then room ka <? room kb else
  sensorType ka <? sensorType kb.
Definition snapshot_le (a b : DataStreamSnapshot) : Prop := snapshot_less b a = false.

#[export] Instance snapshot_le_dec : RelDecision snapshot_le.
Proof. intros a b. unfold snapshot_le. apply _. Defined.

(** [src/sensor-server/data-engine.go:105-124] Counters; [order] is the order
    in which the map is visited *)
Definition Counters (counters : H -> DataStreamCounters) (order : list (dataStreamKey * H))
    : list DataStreamSnapshot :=
  merge_sort snapshot_le (map (fun kh => mkSnapshot kh.1 (counters kh.2)) order).
End engine.

(** ** The file-backed factory *)

(** [fmt.Sprintf("%04x", name)] on a value with a [String] method: the bytes
    of the text in hexadecimal, padded to four digits. *)
Definition format_04x (name : string) : string :=
  let h := hex_string (chars name) in
  of_chars (replicate (4 - length h) (Ascii.ascii_of_N 48) ++ h).

(** [src/sensor-server/data-engine.go:46-46] NewFileDataStreamFactory, the
    directory of the stream *)
Definition stream_directory (dataRoot : dir_path) (f : FloorType) (r : RoomType) (t : SensorType) : dir_path :=
  dataRoot ++ [format_04x (FloorType_String f); format_04x (RoomType_String r);
               format_04x (SensorType_String t)].

(** [src/sensor-server/data-engine.go:53-61] NewFileDataStreamFactory, the
    options of the stream: [Retryable] is not set *)
Definition file_stream_options (c : DataStreamConfig) : DataStreamOptions :=
  mkDataStreamOptions (QueueCapacity c) (EnqueueWait c) (FlushInterval c) (RetryCount c)
    (InitialBackoff c) (MaximumBackoff c) None.

(** [src/sensor-server/data-engine.go:46-48] NewFileDataStreamFactory, the
    options of the file *)
Definition file_options (dataRoot : dir_path) (c : DataStreamConfig)
    (f : FloorType) (r : RoomType) (t : SensorType) : DataFileOptions :=
  let o := DefaultDataFileOptions (stream_directory dataRoot f r t) in
  mkDataFileOptions (Directory o) (WriteBufferSize c) (RotationSize c) (DirectoryMode o) (FileMode o).

(** Run the [Close] of a data file, its result being ignored. *)
Definition close_file (file : DataFile) : M FS unit := fun fs =>
  match DataFile.Close (file, fs) with
  | (Panic p, (_, fs)) => (Panic p, fs)
  | (_, (_, fs)) => (Ret tt, fs)
  end.

(** [src/sensor-server/data-engine.go:44-68] NewFileDataStreamFactory: the
    open data file and the options of the stream that owns it *)
Definition NewFileDataStreamFactory (dataRoot : dir_path) (c : DataStreamConfig)
    (f : FloorType) (r : RoomType) (t : SensorType) : M FS (DataFile * DataStreamOptions) :=
  writer ← OpenDataFile (file_options dataRoot c f r t);
  fs ← get;
  match NewDataStream (writer, fs) (file_stream_options c) with
  | inl err => close_file writer;; fail err
  | inr _ => mret (writer, file_stream_options c)
  end.

(** ** Lemmas: the engine *)

Section invariants.
Context {H E : Type} (factory : FloorType -> RoomType -> SensorType -> M E H).
Implicit Types s : DataEngine (H := H) (E := E).

(** The streams created so far. *)
Definition created (tr : list (event (H := H))) : list (dataStreamKey * H) :=
  omap (fun e => match e with EvCreated k h => Some (k, h) | _ => None end) tr.

Lemma created_snoc tr evs : created (tr ++ evs) = created tr ++ created evs.
Proof. apply omap_app. Qed.

Lemma elem_of_created tr k h : (k, h) ∈ created tr <-> EvCreated k h ∈ tr.
Proof.
  unfold created. rewrite list_elem_of_omap. split.
  - intros (e & Hin & He). destruct e; try done. by injection He as -> ->.
  - intros Hin. by exists (EvCreated k h).
Qed.

Record consistent (tr : list event) s : Prop := mkConsistent {
  cs_streams : forall k h, streams s !! k = Some h <-> (k, h) ∈ created tr;
  cs_nodup : NoDup (created tr).*1;
  cs_requests : forall i k h, requests s !! i = Some (HasStream k h) -> streams s !! k = Some h;
  cs_writes : forall k h, EvWrite k h ∈ tr -> (k, h) ∈ created tr;
  cs_closed : closed s = true <-> closing s <> NotClosing;
  cs_snapshot : match closing s with
    | CloseStreams l _ => forall k h, streams s !! k = Some h -> h ∈ l \/ EvStreamClosed h ∈ tr
    | CloseReturned => forall k h, streams s !! k = Some h -> EvStreamClosed h ∈ tr
    | _ => True
    end }.

Lemma consistent_new e : consistent [] (NewDataEngine e).
Proof.
  constructor; cbn; try done.
  - intros k h. rewrite lookup_empty. split; [done|]. intros Hin. by apply not_elem_of_nil in Hin.
  - by constructor.
  - intros k h Hin. by apply not_elem_of_nil in Hin.
Qed.

(** What the lookup-or-create of [stream] does. *)
Lemma stream_spec k s r s' :
  stream factory k s = (r, s') ->
  closed s' = closed s /\ closing s' = closing s /\ requests s' = requests s /\
  match r with
  | Ret h => closed s = false /\ streams s' = <[k := h]> (streams s) /\
      (streams s !! k = Some h \/ streams s !! k = None)
  | _ => streams s' = streams s
  end.
Proof.
  unfold stream. destruct (closed s) eqn:Hc; [by intros [= <- <-]|].
  destruct (streams s !! k) as [h|] eqn:Hk.
  { intros [= <- <-]. split_and!; try done; [by rewrite insert_id|by left]. }
  destruct (factory _ _ _ _) as [[h|e|p] env']; intros [= <- <-]; split_and!; try done.
  by right.
Qed.

(** The parts that only depend on the trace growing. *)
Lemma consistent_requests tr s l :
  consistent tr s -> (forall i k h, l !! i = Some (HasStream k h) -> streams s !! k = Some h) ->
  consistent tr (set_requests l s).
Proof. intros [H1 H2 H3 H4 H5 H6] Hl. by constructor. Qed.

Lemma consistent_quiet tr evs s :
  consistent tr s -> created evs = [] -> (forall k h, EvWrite k h ∈ evs -> streams s !! k = Some h) ->
  consistent (tr ++ evs) s.
Proof.
  intros [H1 H2 H3 H4 H5 H6] Hc Hw. constructor; rewrite ?created_snoc, ?Hc, ?app_nil_r; try done.
  - intros k h [Hin|Hin]%elem_of_app; [by apply H4|by apply H1, Hw].
  - destruct (closing s); try done; intros k h Hk.
    + destruct (H6 k h Hk); [by left|right]. apply elem_of_app. by left.
    + apply elem_of_app. left. by eapply H6.
Qed.

Lemma delete_has {A} (l : list A) i j x : delete i l !! j = Some x -> exists j', l !! j' = Some x.
Proof.
  intros Hj. destruct (decide (j < i)%nat).
  - rewrite list_lookup_delete_lt in Hj by lia. eauto.
  - rewrite list_lookup_delete_ge in Hj by lia. eauto.
Qed.

Lemma insert_has {A} (l : list A) i j x y :
  <[i := x]> l !! j = Some y -> y = x \/ exists j', l !! j' = Some y.
Proof.
  intros Hj. destruct (decide (i = j)) as [->|Hne].
  - assert (j < length l)%nat as Hl by (apply lookup_lt_Some in Hj; by rewrite length_insert in Hj).
    rewrite list_lookup_insert_eq in Hj by done. left. congruence.
  - rewrite list_lookup_insert_ne in Hj by done. right. eauto.
Qed.

(** A new stream. *)
Lemma consistent_create tr s s' k h :
  consistent tr s -> streams s !! k = None -> closed s = false ->
  streams s' = <[k := h]> (streams s) -> closed s' = closed s -> closing s' = closing s ->
  requests s' = requests s -> consistent (tr ++ [EvCreated k h]) s'.
Proof.
  intros [H1 H2 H3 H4 H5 H6] Hk Hc Es Ec Eg Er.
  assert (closing s = NotClosing) as Hn.
  { destruct (closing s) eqn:Eg'; try done; by (rewrite (proj2 H5) in Hc). }
  constructor; rewrite ?created_snoc, ?Es, ?Ec, ?Eg, ?Er; cbn [created omap list_omap]; try done.
  - intros k' h'. rewrite elem_of_app, list_elem_of_singleton.
    destruct (decide (k = k')) as [<-|Hne].
    + rewrite lookup_insert_eq. split; [intros [= ->]; by right|].
      intros [Hin|[= ->]]; [|done]. apply H1 in Hin. cbn in Hk. by rewrite Hk in Hin.
    + rewrite lookup_insert_ne by done. rewrite H1. split; [by left|].
      intros [Hin|[= <- <-]]; done.
  - rewrite fmap_app. apply NoDup_app. split; [done|]. split.
    + intros k' Hin Hin'. apply list_elem_of_singleton in Hin'. cbn in Hin'. subst k'.
      apply list_elem_of_fmap in Hin as ([k' h'] & -> & Hin). apply H1 in Hin. cbn in Hk. by rewrite Hk in Hin.
    + apply NoDup_singleton.
  - intros i k' h' Hi%H3. rewrite lookup_insert_ne; [done|]. intros <-. by rewrite Hk in Hi.
  - intros k' h' [Hin|Hin]%elem_of_app; apply elem_of_app; left; [by apply H4|].
    by apply list_elem_of_singleton in Hin.
  - by rewrite Hn.
Qed.

Lemma consistent_stream tr s i evs s' :
  consistent tr s -> write_step factory (AStream i) s = Some (evs, s') -> consistent (tr ++ evs) s'.
Proof.
  intros Hcs. cbn. destruct (requests s !! i) as [[k|]|] eqn:Ei; try done.
  destruct (stream factory k s) as [r s1] eqn:Es.
  destruct (stream_spec k s r s1 Es) as (Ec & Eg & Er & Hr).
  assert (streams s1 = streams s -> consistent tr s1) as Hsame.
  { intros Em. destruct Hcs as [H1 H2 H3 H4 H5 H6]. constructor; rewrite ?Em, ?Ec, ?Eg, ?Er; done. }
  destruct r as [h|e|p]; intros [= <- <-].
  - destruct Hr as (Hcl & Em & Hk). unfold is_new.
    assert (consistent (tr ++ (if bool_decide (streams s !! k = None) then [EvCreated k h] else [])) s1)
      as Hcs1.
    { case_bool_decide as Hnew.
      - by apply (consistent_create tr s).
      - rewrite app_nil_r. apply Hsame. rewrite Em. destruct Hk; [|done]. by rewrite insert_id. }
    apply consistent_requests; [done|]. intros j k' h' Hj.
    apply insert_has in Hj as [[= -> ->]|[j' Hj]].
    + by rewrite Em, lookup_insert_eq.
    + rewrite <- Er in Hj. by apply (cs_requests _ _ Hcs1 j').
  - apply consistent_requests.
    + apply consistent_quiet; [by apply Hsame|done|].
      intros k' h' Hin. by apply list_elem_of_singleton in Hin.
    + intros j k' h' [j' Hj]%delete_has. rewrite Hr. by apply (cs_requests _ _ Hcs j').
  - apply consistent_quiet; [by apply Hsame|done|].
    intros k' h' Hin. by apply list_elem_of_singleton in Hin.
Qed.

Lemma consistent_write tr s a evs s' :
  consistent tr s -> write_step factory a s = Some (evs, s') -> consistent (tr ++ evs) s'.
Proof.
  intros Hcs H0. destruct a as [k|i|i| | | |]; try done.
  - cbn in H0. destruct (closed s) eqn:Hc; injection H0 as <- <-.
    + apply consistent_quiet; [done|done|]. intros k' h' Hin. by apply list_elem_of_singleton in Hin.
    + rewrite app_nil_r. apply consistent_requests; [done|]. intros i k' h' Hi.
      apply lookup_app_Some in Hi as [Hi|[_ Hi]]; [by apply (cs_requests _ _ Hcs i)|].
      by apply list_lookup_singleton_Some in Hi as [_ ?].
  - by eapply consistent_stream.
  - cbn in H0. destruct (requests s !! i) as [[|k h]|] eqn:Ei; try done. injection H0 as <- <-.
    apply consistent_requests.
    + apply consistent_quiet; [done|done|]. intros k' h' Hin. apply list_elem_of_singleton in Hin.
      injection Hin as -> ->. by apply (cs_requests _ _ Hcs i).
    + intros j k' h' [j' Hj]%delete_has. by apply (cs_requests _ _ Hcs j').
Qed.

(** A step of the closer, given what it knows of the streams. *)
Lemma consistent_closing tr evs s c :
  consistent tr s -> c <> NotClosing -> created evs = [] -> (forall k h, EvWrite k h ∉ evs) ->
  match c with
  | CloseStreams l _ => forall k h, streams s !! k = Some h -> h ∈ l \/ EvStreamClosed h ∈ tr ++ evs
  | CloseReturned => forall k h, streams s !! k = Some h -> EvStreamClosed h ∈ tr ++ evs
  | _ => True
  end -> consistent (tr ++ evs) (set_closing c s).
Proof.
  intros [H1 H2 H3 H4 H5 H6] Hc Hcr Hw Hx.
  constructor; rewrite ?created_snoc, ?Hcr, ?app_nil_r; try done.
  intros k h [Hin|Hin]%elem_of_app; [by apply H4|by destruct (Hw k h)].
Qed.

Lemma consistent_close tr s a evs s' :
  consistent tr s -> close_step a s = Some (evs, s') -> consistent (tr ++ evs) s'.
Proof.
  intros Hcs H0. unfold close_step in H0. destruct a; try done.
  - destruct (closed s); injection H0 as <- <-.
    + apply consistent_quiet; [done|done|]. intros k h Hin. by apply list_elem_of_singleton in Hin.
    + apply consistent_closing; try done. intros k h Hin. by apply not_elem_of_nil in Hin.
  - destruct (closing s) eqn:Ec; try done. injection H0 as <- <-.
    apply consistent_closing; try done; [intros k h Hin; by apply not_elem_of_nil in Hin|].
    intros k h Hk. left. apply list_elem_of_fmap. exists (k, h). split; [done|].
    by apply elem_of_map_to_list.
  - pose proof (cs_snapshot _ _ Hcs) as Hx.
    destruct (closing s) as [| |[|h l] result|] eqn:Ec; try done. injection H0 as <- <-.
    apply consistent_closing; try done; [intros k h' Hin; by apply list_elem_of_singleton in Hin|].
    intros k h' Hk. rewrite elem_of_app. destruct (Hx k h' Hk) as [[->|Hin]%elem_of_cons|Hin].
    + right. right. by left.
    + by left.
    + right. by left.
  - pose proof (cs_snapshot _ _ Hcs) as Hx.
    destruct (closing s) as [| |[|h l] result|] eqn:Ec; try done. injection H0 as <- <-.
    apply consistent_closing; try done; [intros k h' Hin; by apply list_elem_of_singleton in Hin|].
    intros k h' Hk. apply elem_of_app. left.
    destruct (Hx k h' Hk) as [Hin|Hin]; [by apply not_elem_of_nil in Hin|done].
Qed.

Lemma reachable_consistent e tr s : reachable factory e tr s -> consistent tr s.
Proof.
  induction 1 as [|tr s a evs s' _ IH H0]; [apply consistent_new|].
  unfold exec in H0. destruct a; first [by eapply consistent_write|by eapply consistent_close].
Qed.

(** ** Properties *)

(** C18. One stream per location and sensor type: in every interleaving a key
    gets at most one stream, the one the engine keeps, and every record of
    the key is written to it. *)
Theorem engine_one_stream e tr s :
  reachable factory e tr s ->
  (forall k h h', EvCreated k h ∈ tr -> EvCreated k h' ∈ tr -> h = h') /\
  (forall k h, streams s !! k = Some h <-> EvCreated k h ∈ tr) /\
  (forall k h h', EvWrite k h ∈ tr -> EvCreated k h' ∈ tr -> h = h') /\
  (forall k h, EvWrite k h ∈ tr -> EvCreated k h ∈ tr) /\
  StreamCount s = length (created tr).
Proof.
  intros Hr. pose proof (reachable_consistent _ _ _ Hr) as [H1 H2 _ H4 _ _].
  assert (forall k h, streams s !! k = Some h <-> EvCreated k h ∈ tr) as Hcr
    by (intros; by rewrite H1, elem_of_created).
  split_and!; [|done| | |].
  - intros k h h' Hh%Hcr Hh'%Hcr. congruence.
  - intros k h h' Hh%H4%H1 Hh'%Hcr. congruence.
  - intros k h Hw%H4. by apply elem_of_created.
  - unfold StreamCount. assert (streams s = list_to_map (created tr)) as ->.
    { apply map_eq. intros k. apply option_eq. intros h. rewrite H1.
      by rewrite <- elem_of_list_to_map. }
    rewrite map_size_list_to_map by done. done.
Qed.

End invariants.

(** ** Lemmas: the order of the snapshots *)

Lemma snapshot_less_spec a b :
  snapshot_less a b = true <->
  floor (sn_key a) < floor (sn_key b) \/
  floor (sn_key a) = floor (sn_key b) /\
    (room (sn_key a) < room (sn_key b) \/
     room (sn_key a) = room (sn_key b) /\ sensorType (sn_key a) < sensorType (sn_key b)).
Proof.
  unfold snapshot_less. destruct (Z.eqb_spec (floor (sn_key a)) (floor (sn_key b))); cbn [negb];
    [|rewrite Z.ltb_lt; intuition lia].
  destruct (Z.eqb_spec (room (sn_key a)) (room (sn_key b))); cbn [negb];
    rewrite Z.ltb_lt; intuition lia.
Qed.

Lemma snapshot_less_false a b :
  snapshot_less a b = false <-> ~ snapshot_less a b = true.
Proof. destruct (snapshot_less a b); intuition congruence. Qed.

#[export] Instance snapshot_le_total : Total snapshot_le.
Proof.
  intros a b. unfold snapshot_le. rewrite !snapshot_less_false, !snapshot_less_spec. lia.
Qed.

#[export] Instance snapshot_le_transitive : Transitive snapshot_le.
Proof.
  intros a b c. unfold snapshot_le. rewrite !snapshot_less_false, !snapshot_less_spec. lia.
Qed.

Lemma snapshot_le_key a b : snapshot_le a b -> snapshot_le b a -> sn_key a = sn_key b.
Proof.
  unfold snapshot_le. rewrite !snapshot_less_false, !snapshot_less_spec.
  destruct (sn_key a), (sn_key b). cbn. intros. f_equal; lia.
Qed.

(** Two sorted lists of the same snapshots, with distinct keys, are equal. *)
Lemma sorted_unique l1 l2 :
  NoDup (map sn_key l1) -> l1 ≡ₚ l2 -> StronglySorted snapshot_le l1 -> StronglySorted snapshot_le l2 ->
  l1 = l2.
Proof.
  intros Hn Hp H1. revert l2 Hn Hp. induction H1 as [|a l1 H1 IH Ha]; intros l2 Hn Hp H2.
  { by apply Permutation_nil_l in Hp. }
  destruct H2 as [|b l2 H2 Hb]; [by apply Permutation_nil_r in Hp|].
  cbn [map] in Hn. apply NoDup_cons in Hn as [Hna Hn].
  assert (a = b) as ->.
  { assert (a ∈ b :: l2) as Hin by (rewrite <- Hp; by left).
    apply elem_of_cons in Hin as [->|Hin]; [done|].
    assert (b ∈ a :: l1) as Hin' by (rewrite Hp; by left).
    apply elem_of_cons in Hin' as [->|Hin']; [done|].
    rewrite Forall_forall in Ha, Hb. destruct Hna.
    apply list_elem_of_fmap. exists b. split; [|done].
    apply snapshot_le_key; [by apply Ha|by apply Hb]. }
  f_equal. apply IH; try done. by apply (Permutation_cons_inv (a := b)).
Qed.

(** The counters are reported in ascending order of floor, room and
    sensor type, one snapshot per stream, whatever the order in which the map
    of streams is visited. *)
Theorem engine_counters_sorted {H} (counters : H -> DataStreamCounters)
    (m : gmap dataStreamKey H) (order : list (dataStreamKey * H)) :
  order ≡ₚ map_to_list m ->
  StronglySorted (fun a b => snapshot_less a b = true) (Counters counters order) /\
  Counters counters order = Counters counters (map_to_list m) /\
  (forall k c, mkSnapshot k c ∈ Counters counters order <->
     exists h, m !! k = Some h /\ c = counters h).
Proof.
  intros Hp.
  assert (forall o, o ≡ₚ map_to_list m -> NoDup (map sn_key (Counters counters o)) /\
            Counters counters o ≡ₚ map (fun kh => mkSnapshot kh.1 (counters kh.2)) (map_to_list m) /\
            StronglySorted snapshot_le (Counters counters o)) as Hs.
  { intros o Ho. assert (Counters counters o ≡ₚ
      map (fun kh => mkSnapshot kh.1 (counters kh.2)) (map_to_list m)) as Hpm
      by (unfold Counters; rewrite merge_sort_Permutation; by apply Permutation_map).
    split_and!; [|done|by apply StronglySorted_merge_sort; apply _].
    assert (map sn_key (Counters counters o) ≡ₚ (map_to_list m).*1) as ->.
    { rewrite (Permutation_map sn_key Hpm), map_map. done. }
    apply NoDup_fst_map_to_list. }
  destruct (Hs order Hp) as (Hn & Hpm & Hst). destruct (Hs (map_to_list m) ltac:(done)) as (_ & Hpm' & Hst').
  split_and!.
  - clear Hpm Hpm' Hst' Hs Hp. induction Hst as [|a l Hl IH Ha]; [by constructor|].
    cbn [map] in Hn. apply NoDup_cons in Hn as [Hna Hn]. constructor; [by apply IH|].
    rewrite Forall_forall in Ha |- *. intros b Hb. specialize (Ha b Hb).
    unfold snapshot_le in Ha. destruct (snapshot_less a b) eqn:E; [done|]. destruct Hna.
    apply list_elem_of_fmap. exists b. split; [|done]. by apply snapshot_le_key.
  - apply sorted_unique; try done. by rewrite Hpm, Hpm'.
  - intros k c. rewrite Hpm, list_elem_of_fmap. split.
    + intros ([k' h] & [= -> ->] & Hin). exists h. by apply elem_of_map_to_list in Hin.
    + intros (h & Hh & ->). exists (k, h). by rewrite elem_of_map_to_list.
Qed.

(** ** Lemmas: directories *)

(** The texts of the known floors, rooms and sensor types are distinct and
    have two characters at least. *)
Definition injective_on (l : list Z) (f : Z -> string) : bool :=
  forallb (fun a => (2 <=? length (chars (f a)))%nat &&
    forallb (fun b => bool_decide (a = b) || negb (bool_decide (f a = f b))) l) l.

Lemma format_04x_inj n1 n2 :
  (2 <= length (chars n1))%nat -> (2 <= length (chars n2))%nat -> format_04x n1 = format_04x n2 -> n1 = n2.
Proof.
  assert (forall l, length (hex_string l) = (2 * length l)%nat) as Hl.
  { induction l as [|c l IH]; [done|]. unfold hex_string in *. cbn [map concat].
    rewrite length_app, IH. cbn. lia. }
  intros H1 H2 E. apply (inj of_chars) in E. rewrite !Hl in E.
  replace (4 - 2 * length (chars n1))%nat with 0%nat in E by lia.
  replace (4 - 2 * length (chars n2))%nat with 0%nat in E by lia.
  apply hex_string_inj in E. by rewrite <- (of_chars_chars n1), E, of_chars_chars.
Qed.

Lemma format_04x_on l f a b :
  injective_on l f = true -> a ∈ l -> b ∈ l -> format_04x (f a) = format_04x (f b) -> a = b.
Proof.
  unfold injective_on. rewrite forallb_forall. intros Hi Ha Hb E.
  pose proof (Hi a (proj1 (list_elem_of_In _ _) Ha)) as Ha'.
  pose proof (Hi b (proj1 (list_elem_of_In _ _) Hb)) as Hb'.
  apply andb_true_iff in Ha' as [La Ha']. apply andb_true_iff in Hb' as [Lb _].
  apply Nat.leb_le in La, Lb. apply format_04x_inj in E; [|done..].
  rewrite forallb_forall in Ha'. specialize (Ha' b (proj1 (list_elem_of_In _ _) Hb)).
  rewrite E, (bool_decide_eq_true_2 (f b = f b)) in Ha' by done.
  rewrite orb_false_r in Ha'. by apply bool_decide_eq_true_1 in Ha'.
Qed.

(** Streams do not share files: for the floors, rooms and sensor types
    the program knows, distinct keys have distinct directories, none inside
    another, hence disjoint segments. *)
Theorem stream_directories_distinct root f1 r1 t1 f2 r2 t2 :
  0 <= f1 < FLOOR_COUNT -> 0 <= f2 < FLOOR_COUNT -> 0 <= r1 < ROOM_COUNT -> 0 <= r2 < ROOM_COUNT ->
  0 <= t1 <= SENSOR_ID_kWAh -> 0 <= t2 <= SENSOR_ID_kWAh ->
  stream_directory root f1 r1 t1 `prefix_of` stream_directory root f2 r2 t2 ->
  (f1, r1, t1) = (f2, r2, t2).
Proof.
  unfold FLOOR_COUNT, ROOM_COUNT, SENSOR_ID_kWAh. intros Hf1 Hf2 Hr1 Hr2 Ht1 Ht2 Hp.
  apply prefix_app_inv in Hp. apply prefix_length_eq in Hp; [|cbn; lia].
  injection Hp as Ef Er Et.
  apply (format_04x_on (seqZ 0 4)) in Ef; [|by vm_compute|apply elem_of_seqZ; lia..].
  apply (format_04x_on (seqZ 0 7)) in Er; [|by vm_compute|apply elem_of_seqZ; lia..].
  apply (format_04x_on (seqZ 0 29)) in Et; [|by vm_compute|apply elem_of_seqZ; lia..].
  congruence.
Qed.

(** ** The configured streams *)

Lemma configured_options_accepted {W} `{!RecordWriter W} c (w : W) :
  valid_config c -> exists s, NewDataStream w (file_stream_options (Config.DataStream c)) = inr s.
Proof.
  intros [_ _ _ _ _ _ _ _ [Hq He] [Hr Hb] _ [Hf _] _ _ _ _ _ _]. unfold NewDataStream.
  cbn [file_stream_options DataStream.QueueCapacity DataStream.EnqueueWait DataStream.FlushInterval
       DataStream.RetryCount DataStream.InitialBackoff DataStream.MaximumBackoff].
  unfold time_Millisecond in Hf.
  case_match eqn:E1; [bool_to_prop; lia|]. case_match eqn:E2; [bool_to_prop; lia|]. eauto.
Qed.

(** From the configuration to the disk: in a fresh directory the factory
    of a valid configuration opens a data file and its options make a stream;
    in every interleaving that sends fewer than 2^63 records no record is
    lost, and once the worker has returned the segments hold exactly the
    records sent, in order. *)
Theorem configured_stream_durable c root f r t fs :
  valid_config c -> openable (file_options root (Config.DataStream c) f r t) fs ->
  (forall n, files fs !! (stream_directory root f r t, segmentName n) = None) ->
  exists file so fs1 s0,
    NewFileDataStreamFactory root (Config.DataStream c) f r t fs = (Ret (file, so), fs1) /\
    NewDataStream (file, fs1) so = inr s0 /\
    forall tr s, DataStream.reachable s0 tr s -> Z.of_nat (length (sent tr)) < 2 ^ 63 ->
      crashed s = false /\ lost tr = [] /\
      (done_ s = true -> disk_log (writer s).1 (writer s).2 = encode_all (sent tr) /\ closeErr s = None).
Proof.
  intros Hv Hop Hnone. destruct (OpenDataFile_opened _ _ Hop) as (file & fs1 & E & Hod).
  destruct (opened_fresh _ _ _ _ Hop Hod Hnone) as (Hfr & Hlog & Hs).
  pose proof (opened_live _ _ _ _ Hop Hod) as Hl.
  destruct (configured_options_accepted c (file, fs1) Hv) as [s0 E0].
  exists file, (file_stream_options (Config.DataStream c)), fs1, s0.
  split; [|split; [done|]].
  - unfold NewFileDataStreamFactory. unfold mbind, M_bind, get. rewrite E, E0. done.
  - intros tr s Hr Hn.
    destruct (durable_run (file, fs1) _ s0 tr s (length (sent tr)) E0) as (H1 & H2 & H3);
      [|done..|].
    + cbn. split; [done|]. split; [done|]. rewrite Hs. lia.
    + split; [done|]. split; [done|]. intros Hd. destruct (H3 Hd) as [Hdisk ->].
      split; [|done]. cbn in Hdisk. by rewrite Hlog in Hdisk.
Qed.

(** A file-backed stream never retries: its options leave [Retryable]
    unset, so whatever [RetryCount] says, a record whose write fails is lost
    at the first attempt. *)
Theorem file_stream_never_retries {W} `{!RecordWriter W} (w : W) c s0 tr s :
  NewDataStream w (file_stream_options c) = inr s0 -> DataStream.reachable s0 tr s ->
  waits tr = [] /\ Retries (DataStream.Counters s) = 0 /\
  forall d n b dirty, run_ s <> Waits d n b dirty.
Proof.
  intros H0 Hr. pose proof (no_retries w _ s0 tr s H0 eq_refl Hr) as Hw.
  destruct (reachable_inv _ _ _ _ _ H0 Hr) as (_ & Hg & _).
  split; [done|]. split; [cbn; by rewrite (lg_retries _ _ Hg), Hw|].
  intros d n b dirty. clear Hw Hg. revert d n b dirty.
  pose proof (NewDataStream_inv _ _ _ H0) as (Ho & _ & Er & _).
  assert (options s = file_stream_options c /\ forall d n b dirty, run_ s <> Waits d n b dirty) as [_ H];
    [|done].
  induction Hr as [|tr s a evs s' Hr [IHo IHr] Ex]; [by rewrite Er|].
  assert (Retryable (options s) = None) as Hno by by rewrite IHo.
  destruct (no_retries_exec _ _ _ _ Hno Ex) as [_ Ho']. split; [congruence|].
  assert (retryable s = fun _ => false) as Hno' by (unfold retryable; by rewrite Hno).
  clear Hr H0 Ho Er. exec_cases Ex; try done; cbn; try (by intros; congruence).
  rewrite Hno' in *. bool_to_prop. done.
Qed.

(** ** Concrete runs *)

(** A factory that numbers the streams. *)
Definition sample_factory (f : FloorType) (r : RoomType) (t : SensorType) : M nat nat :=
  fun e => (Ret e, S e).

Definition sample_key : dataStreamKey := mkKey FLOOR_FIRST ROOM_KITCHEN SENSOR_ID_TEMPERATURE.
Definition sample_key2 : dataStreamKey := mkKey FLOOR_BASEMENT ROOM_KITCHEN SENSOR_ID_POWER.

(** Two records of one key race for its stream, one of another key loses to
    [Close]. *)
Definition sample_race : list action :=
  [ABegin sample_key; ABegin sample_key; ABegin sample_key2; AStream 1; AStream 0; AWrite 0; AClose;
   AStream 1; AWrite 0; ASnapshot; ACloseNext None; AReturn].

Lemma engine_execs_reachable {H E} (factory : FloorType -> RoomType -> SensorType -> M E H) e l tr s :
  execs factory l (NewDataEngine e) = Some (tr, s) -> reachable factory e tr s.
Proof.
  assert (forall l tr0 s1 tr s, reachable factory e tr0 s1 -> execs factory l s1 = Some (tr, s) ->
            reachable factory e (tr0 ++ tr) s) as Hx.
  { clear. induction l as [|a l IH]; intros tr0 s1 tr s Hr Ex; cbn [execs] in Ex.
    - injection Ex as <- <-. by rewrite app_nil_r.
    - destruct (exec factory a s1) as [[evs s2]|] eqn:Ea; [|done].
      destruct (execs factory l s2) as [[evs' s3]|] eqn:El; [|done]. injection Ex as <- <-.
      rewrite app_assoc. eapply IH; [|done]. by eapply reachable_step. }
  intros Ex. by apply (Hx l [] (NewDataEngine e) tr s (reachable_init _ e)).
Qed.

Lemma sample_race_run :
  exists s, execs sample_factory sample_race (NewDataEngine 7%nat) =
    Some ([EvCreated sample_key 7%nat; EvWrite sample_key 7%nat;
           EvError sample_key2 (ErrNew ErrDataEngineClosed); EvWrite sample_key 7%nat;
           EvStreamClosed 7%nat; EvCloseReturn None], s) /\
    closing s = CloseReturned /\ StreamCount s = 1%nat.
Proof. eexists. split; [vm_compute; reflexivity|]. by vm_compute. Qed.

Lemma engine_one_stream_witness :
  exists s tr, reachable sample_factory 7%nat tr s /\ EvWrite sample_key 7%nat ∈ tr /\
    streams s !! sample_key = Some 7%nat /\ StreamCount s = length (created tr).
Proof.
  destruct sample_race_run as (s & Ex & _ & _). pose proof (engine_execs_reachable _ _ _ _ _ Ex) as Hr.
  exists s. eexists. split; [exact Hr|].
  destruct (engine_one_stream _ _ _ _ Hr) as (_ & H & _ & _ & Hc).
  split; [by do 1 right; left|]. split; [|exact Hc]. apply H. by left.
Defined.


Definition sample_counters (h : nat) : DataStreamCounters :=
  mkDataStreamCounters (Z.of_nat h) 0 0 0 0 0 0 0.
Definition sample_streams : gmap dataStreamKey nat := {[ sample_key := 1%nat; sample_key2 := 2%nat ]}.

Lemma engine_counters_sorted_witness :
  map sn_key (Counters sample_counters [(sample_key, 1%nat); (sample_key2, 2%nat)]) =
    [sample_key2; sample_key] /\
  Counters sample_counters [(sample_key, 1%nat); (sample_key2, 2%nat)] =
    Counters sample_counters (map_to_list sample_streams).
Proof.
  split; [by vm_compute|].
  apply (engine_counters_sorted sample_counters sample_streams).
  unfold sample_streams. rewrite map_to_list_insert, map_to_list_singleton by by vm_compute. done.
Defined.

Lemma stream_directories_distinct_witness :
  stream_directory ["data"] FLOOR_FIRST ROOM_KITCHEN SENSOR_ID_UV `prefix_of`
    stream_directory ["data"] FLOOR_FIRST ROOM_KITCHEN SENSOR_ID_UV /\
  (FLOOR_FIRST, ROOM_KITCHEN, SENSOR_ID_UV) = (FLOOR_FIRST, ROOM_KITCHEN, SENSOR_ID_UV).
Proof.
  split; [done|].
  by apply (stream_directories_distinct ["data"] FLOOR_FIRST ROOM_KITCHEN SENSOR_ID_UV
              FLOOR_FIRST ROOM_KITCHEN SENSOR_ID_UV).
Defined.

Definition sample_data_config : Config := applyConfigDefaults (sample_config []).
Definition sample_root_fs : FS := mkFS ∅ {[ ["data"] ]} [].

Lemma sample_data_openable :
  openable (file_options ["data"] (Config.DataStream sample_data_config)
              FLOOR_FIRST ROOM_KITCHEN SENSOR_ID_UV) sample_root_fs.
Proof.
  constructor.
  - by apply Forall_nil.
  - vm_compute. reflexivity.
  - by vm_compute.
  - by vm_compute.
  - vm_compute. reflexivity.
  - intros n. cbn [dirs sample_root_fs]. rewrite elem_of_singleton. intros [=].
  - intros q z Hq. cbn [files sample_root_fs] in Hq. by rewrite lookup_empty in Hq.
  - intros n _. apply lookup_empty.
Qed.

Lemma configured_stream_durable_witness :
  valid_config sample_data_config /\
  exists file so fs1 s0,
    NewFileDataStreamFactory ["data"] (Config.DataStream sample_data_config)
      FLOOR_FIRST ROOM_KITCHEN SENSOR_ID_UV sample_root_fs = (Ret (file, so), fs1) /\
    NewDataStream (file, fs1) so = inr s0.
Proof.
  assert (valid_config sample_data_config) as Hv
    by (apply validateConfig_None; vm_compute; reflexivity).
  split; [exact Hv|].
  destruct (configured_stream_durable sample_data_config ["data"] FLOOR_FIRST ROOM_KITCHEN
    SENSOR_ID_UV sample_root_fs Hv sample_data_openable) as (file & so & fs1 & s0 & E1 & E2 & _).
  - intros n. apply lookup_empty.
  - exists file, so, fs1, s0. split; [exact E1|exact E2].
Defined.

Definition sample_unretried : DataStreamConfig := mkDataStreamConfig 2 0 5 10 25 4096 1000 30.

Lemma file_stream_never_retries_witness :
  exists s0 : DataStream.DataStream (DataFile * FS),
    NewDataStream (sample_file, sample_fs []) (file_stream_options sample_unretried) = inr s0 /\
    Retries (DataStream.Counters s0) = 0.
Proof.
  eexists. split; [reflexivity|].
  eapply (file_stream_never_retries (sample_file, sample_fs []) sample_unretried); [reflexivity|].
  apply DataStream.reachable_init.
Defined.
