(* ===== verification/Storage.v ===== *)
(** * The storage: engine, streams and files on one disk

    [src/sensor-server/data-engine.go], [data-stream.go] and [data-file.go]
    together: the engine's streams run side by side, each with a data file of
    its own, on one file system.  An [action] is one step of a caller of
    [WriteSensorData], of [Close], or of a worker.  A data file touches its own
    directory only, and the directories of the streams are disjoint; so what is
    proved of one stream holds of all of them together. *)

From S2P Require Import Prelude GoRuntime GoStrings House Platform DataFile Config DataStream DataEngine.
Open Scope Z_scope.

(** ** A data file stays in its directory *)

(** Outside of [d] nothing changes. *)
Record elsewhere (d : dir_path) (fs fs' : FS) : Prop := mkElsewhere {
  ew_files : forall q, q.1 <> d -> files fs' !! q = files fs !! q;
  ew_dirs : dirs fs' = dirs fs;
  ew_faults : no_faults fs -> no_faults fs' }.

#[export] Instance elsewhere_preorder d : PreOrder (elsewhere d).
Proof.
  split; [done|]. intros fs1 fs2 fs3 [f1 d1 n1] [f2 d2 n2]. split.
  - intros q Hq. by rewrite f2, f1.
  - by rewrite d2.
  - auto.
Qed.

#[export] Hint Resolve elsewhere_preorder : go_steps.

Lemma extends_elsewhere p w fs fs' : extends p w fs fs' -> elsewhere p.1 fs fs'.
Proof. intros [c e o d f]. split; [|done..]. intros q Hq. apply o. by intros ->. Qed.

(** A data file that lives in [d], with its buffer. *)
Definition homed (d : dir_path) (f : DataFile) : Prop :=
  Directory (DataFile.options f) = d /\ forall b, buffer f = Some b -> (bw_file b).1 = d.

Definition stays (d : dir_path) (s s' : St) : Prop := homed d s.1 -> homed d s'.1 /\ elsewhere d s.2 s'.2.

#[export] Instance stays_preorder d : PreOrder (stays d).
Proof.
  split.
  - intros s H. split; [done|reflexivity].
  - intros s1 s2 s3 H12 H23 H1. destruct (H12 H1) as [H2 E12]. destruct (H23 H2) as [H3 E23].
    split; [done|by etrans].
Qed.

#[export] Hint Resolve stays_preorder : go_steps.

Lemma call_elsewhere {A} d (m : M FS A) : steps (elsewhere d) m -> steps (elsewhere d) (fs_call m).
Proof.
  intros Hm fs. destruct (fs_call_cases m fs) as (fs0 & Ef & Ed & Hn & E).
  assert (elsewhere d fs fs0) as H0 by (split; [by rewrite Ef|done..]).
  destruct E as [->|(e & _ & ->)]; [|done]. etrans; [exact H0|]. apply Hm.
Qed.

Lemma OpenFile_elsewhere p flag : steps (elsewhere p.1) (OpenFile p flag).
Proof.
  apply call_elsewhere. intros fs. cbn [final snd].
  assert (forall c, elsewhere p.1 fs (set_files (<[p := c]> (files fs)) fs)) as H.
  { intros c. split; [|done..]. intros q Hq. cbn. rewrite lookup_insert_ne; [done|]. by intros ->. }
  repeat case_match; cbn; try reflexivity; apply H.
Qed.

Lemma stays_fsop {A} d (m : M FS A) : steps (elsewhere d) m -> steps (stays d) (fsop m).
Proof.
  intros Hm [f fs] Hh. unfold fsop, zoom. specialize (Hm fs). cbn [fst snd] in *.
  destruct (m fs) as [r fs']. by split.
Qed.

Lemma stays_sync {A} d (x : A) : steps (elsewhere d) (fs_call (mret x)).
Proof. apply call_elsewhere. intros fs. reflexivity. Qed.

Lemma stays_update d g :
  (forall f, homed d f -> homed d (g f)) -> steps (stays d) (update g).
Proof. intros Hg [f fs] Hh. split; [by apply Hg|reflexivity]. Qed.

Lemma stays_buffer d call :
  (forall b fs, let '(_, b', fs') := call b fs in bw_file b' = bw_file b /\ elsewhere (bw_file b).1 fs fs') ->
  steps (stays d) (buffer_call call).
Proof.
  intros Hc [f fs] [Hd Hb]. unfold buffer_call. cbn [fst snd] in *.
  destruct (buffer f) as [b|] eqn:Eb; [|by split; [split; [done|]; intros b E; cbn in E; congruence|reflexivity]].
  specialize (Hc b fs). destruct (call b fs) as [[e b'] fs']. destruct Hc as [Hf He].
  rewrite (Hb b eq_refl) in He.
  assert (homed d (set_file (file f) (Some b') f)) as Hh.
  { split; [done|]. cbn. intros b0 [= <-]. rewrite Hf. by apply Hb. }
  by destruct e.
Qed.

Lemma stays_Flush_call d : steps (stays d) (buffer_call bufio_Flush).
Proof.
  apply stays_buffer. intros b fs.
  destruct (bufio_Flush_spec b fs) as (e & b' & fs' & w & -> & [Hf _] & Hx & _).
  split; [done|]. by eapply extends_elsewhere.
Qed.

Lemma stays_Write_call d bs : steps (stays d) (buffer_call (bufio_Write bs)).
Proof.
  apply stays_buffer. intros b fs.
  destruct (bufio_Write_spec bs b fs) as (e & b' & fs' & w & -> & [Hf _] & _ & _ & Hx & _).
  split; [done|]. by eapply extends_elsewhere.
Qed.

(** A call on the state as it is read. *)
Lemma steps_gets_bind {S A B} (R : S -> S -> Prop) (g : S -> A) (k : A -> M S B) :
  (forall s, R s (final (k (g s) s))) -> steps R (gets g ≫= k).
Proof. intros H s. apply H. Qed.

Lemma stays_open d : steps (stays d) openCurrentSegment.
Proof.
  apply steps_gets_bind. intros [f fs] Hh. cbn [fst].
  assert (steps (stays d) (wrap_err "open data segment" (fsop (OpenFile (segmentPath f) createAppendReadWriteFlags));;
    update (fun f => set_file (Some (segmentPath f))
                     (Some (NewWriterSize (segmentPath f) (BufferSize (DataFile.options f)))) f))) as H.
  { apply steps_bind; [apply _| |].
    - apply steps_wrap_err. apply stays_fsop. destruct Hh as [<- _]. exact (OpenFile_elsewhere (segmentPath f) _).
    - intros _. apply stays_update. intros f0 [H1 H2]. split; [done|]. by intros b [= <-]. }
  by apply (H (f, fs)).
Qed.

Lemma stays_close d : steps (stays d) closeCurrentSegment.
Proof.
  unfold closeCurrentSegment. apply steps_bind; [apply _|apply steps_gets; apply _|].
  intros f. destruct (file f) as [p|]; [|auto with go_steps].
  apply steps_bind; [apply _|destruct (buffer f); auto using stays_Flush_call with go_steps|]. intros r1.
  apply steps_bind; [apply _|apply steps_attempt_err, stays_fsop, stays_sync|]. intros r2.
  apply steps_bind; [apply _|apply steps_attempt_err, stays_fsop, stays_sync|]. intros r3.
  apply steps_bind; [apply _|apply stays_update; intros f0 [H1 H2]; by split|]. intros _.
  destruct (errors_Join _); auto with go_steps.
Qed.

#[export] Hint Resolve stays_Flush_call stays_Write_call stays_open stays_close : go_steps.

Lemma stays_WriteRecord d ts v : steps (stays d) (WriteRecord ts v).
Proof.
  unfold WriteRecord. apply steps_bind; [apply _|auto with go_steps|]. intros f.
  destruct (DataFile.closed f); [auto with go_steps|].
  apply steps_bind; [apply _| |].
  - apply steps_if; [|auto with go_steps]. unfold rotate.
    apply steps_bind; [apply _|auto with go_steps|]. intros _.
    apply steps_bind; [apply _|by apply stays_update|]. intros _. auto with go_steps.
  - intros _. apply steps_bind; [apply _|auto with go_steps|]. intros _. by apply stays_update.
Qed.

Lemma stays_Flush d : steps (stays d) DataFile.Flush.
Proof.
  unfold DataFile.Flush. apply steps_bind; [apply _|auto with go_steps|]. intros f.
  destruct (DataFile.closed f); auto with go_steps.
Qed.

Lemma stays_Close d : steps (stays d) DataFile.Close.
Proof.
  unfold DataFile.Close. apply steps_bind; [apply _|auto with go_steps|]. intros f.
  destruct (DataFile.closed f); [auto with go_steps|].
  apply steps_bind; [apply _|by apply stays_update|]. intros _. auto with go_steps.
Qed.

(** A step of a stream does to its writer what calls on the writer do. *)
Lemma finish_writer {W} `{!RecordWriter W} (R : W -> W -> Prop) `{!PreOrder R} dirty (s : DataStream W) evs s' :
  steps R rw_Flush -> steps R rw_Close -> finish dirty s = Some (evs, s') -> R (writer s) (writer s').
Proof.
  intros Hf Hc H. unfold finish, flushIfDirty in H.
  assert (forall w0 r w, rw_Flush w0 = (r, w) -> R w0 w) as K1 by (intros w0 r w E; specialize (Hf w0); by rewrite E in Hf).
  assert (forall w0 r w, rw_Close w0 = (r, w) -> R w0 w) as K2 by (intros w0 r w E; specialize (Hc w0); by rewrite E in Hc).
  destruct (negb dirty); [|destruct (rw_Flush (writer s)) as [[?|e|p] w] eqn:E1];
    cbn [writer set_writer set_counts] in H; try (by injection H as <- <-; eapply K1);
    match type of H with match ?c with _ => _ end = _ => destruct c as [[?|e'|p] w'] eqn:E2 end;
    injection H as <- <-; cbn; first [by eapply K2|etrans; [by eapply K1|by eapply K2]].
Qed.

Lemma exec_writer {W} `{!RecordWriter W} (R : W -> W -> Prop) `{!PreOrder R} a (s : DataStream W) evs s' :
  (forall ts v, steps R (rw_WriteRecord ts v)) -> steps R rw_Flush -> steps R rw_Close ->
  DataStream.exec a s = Some (evs, s') -> R (writer s) (writer s').
Proof.
  intros Hw Hf Hc H. unfold DataStream.exec in H. destruct (DataStream.crashed s); [done|].
  destruct a; unfold write_enter, write_send, write_count, write_reject, DataStream.close_step, close_await, run_receive,
    run_attempt, run_timer, run_tick in H.
  all: repeat match type of H with
    | finish _ _ = _ => fail 1
    | context [match ?x with _ => _ end] =>
      lazymatch x with context [match _ with _ => _ end] => fail | _ => destruct x eqn:? end; try done end.
  all: try (eapply finish_writer; [| | |exact H]; done).
  all: simplify_eq; cbn; try reflexivity.
  all: match goal with
    | E : rw_WriteRecord ?t ?v ?w0 = _ |- _ => pose proof (Hw t v w0) as K; by rewrite E in K
    | E : rw_Flush ?w0 = _ |- _ => pose proof (Hf w0) as K; by rewrite E in K
    end.
Qed.

(** ** What a data file sees *)

(** The parts of the disk a data file in [d] depends on. *)
Record agree (d : dir_path) (fs fs' : FS) : Prop := mkAgree {
  ag_files : forall n, files fs' !! (d, n) = files fs !! (d, n);
  ag_dir : d ∈ dirs fs -> d ∈ dirs fs';
  ag_names : forall n, d ++ [segmentName n] ∉ dirs fs -> d ++ [segmentName n] ∉ dirs fs';
  ag_faults : no_faults fs -> no_faults fs' }.

Lemma elsewhere_agree d d' fs fs' : elsewhere d fs fs' -> d' <> d -> agree d' fs fs'.
Proof.
  intros [f e n] Hne. split; rewrite ?e; try done. intros m. by apply f.
Qed.

Lemma agree_content d fs fs' n : agree d fs fs' -> content fs' (d, n) = content fs (d, n).
Proof. intros [f _ _ _]. unfold content. by rewrite f. Qed.

Section frame.
Context (f : DataFile) (fs fs' : FS) (A : agree (Directory (DataFile.options f)) fs fs').

Lemma agree_segment n : content fs' (segment f n) = content fs (segment f n).
Proof. by apply agree_content. Qed.

Lemma agree_disk_log : disk_log f fs' = disk_log f fs.
Proof. unfold disk_log. f_equal. apply map_ext. intros n. apply agree_segment. Qed.

Lemma agree_log : log f fs' = log f fs.
Proof. unfold log. by rewrite agree_disk_log. Qed.

Lemma agree_live : live f fs -> live f fs'.
Proof.
  intros [L1 L2 L3 L4 L5 L6 L7 L8 L9 L10 L11 L12]. destruct A as [_ A2 A3 A4]. split; try done; auto.
  - rewrite segmentPath_segment, agree_segment. by rewrite segmentPath_segment in L6.
  - intros n Hn. rewrite agree_segment. by apply L10.
Qed.

Lemma agree_framed : framed f fs -> framed f fs'.
Proof.
  intros [H1 H2]. split; [done|]. intros n Hn Hne. rewrite agree_segment. by apply H2.
Qed.
End frame.

(** ** The machine *)

Section storage.
Context (root : dir_path) (c : DataStreamConfig).

(** The streams the factory has made, a handle being their index, and the disk
    they share. *)
Record Disk : Type := mkDisk { objects : list (DataStream DataFile); disk : FS }.

(** A stream with its writer in another form. *)
Definition rewriter {W W'} (w : W') (s : DataStream W) : DataStream W' :=
  mkDataStream w (DataStream.options s) (queue s) (queueClosed s) (done_ s) (submitMu s) (closeOnce s)
    (DataStream.closed s) (closeErr s) (counts s) (run_ s) (senderPanic s).
Definition mounted (fs : FS) (o : DataStream DataFile) : DataStream (DataFile * FS) := rewriter (writer o, fs) o.
Definition unmounted (s : DataStream (DataFile * FS)) : DataStream DataFile := rewriter (writer s).1 s.

(** [src/sensor-server/data-engine.go:44-68] NewFileDataStreamFactory, as the
    factory of an engine *)
Definition disk_factory (f : FloorType) (r : RoomType) (t : SensorType) : M Disk nat := fun e =>
  match NewFileDataStreamFactory root c f r t (disk e) with
  | (Ret (file, so), fs) =>
      match NewDataStream file so with
      | inr s => (Ret (length (objects e)), mkDisk (objects e ++ [s]) fs)
      | inl err => (Fail err, mkDisk (objects e) fs)
      end
  | (Fail err, fs) => (Fail err, mkDisk (objects e) fs)
  | (Panic p, fs) => (Panic p, mkDisk (objects e) fs)
  end.

Abbreviation Engine := (DataEngine.DataEngine (H := nat) (E := Disk)).

Definition set_env (e : Disk) (s : Engine) : Engine :=
  mkDataEngine (streams s) (DataEngine.closed s) (requests s) (DataEngine.closing s) e.

Inductive storage_event : Type :=
| FromEngine (e : DataEngine.event (H := nat))
| FromStream (h : nat) (e : DataStream.event).

Inductive storage_action : Type :=
| CallWrite (k : dataStreamKey)             (* WriteSensorData: load closed *)
| GetStream (i : nat)                       (* WriteSensorData: the stream, under the mutex *)
| CallStream (i : nat) (d : SensorData)     (* WriteSensorData: stream.Write begins *)
| CallClose                                 (* Close: compare and swap *)
| TakeStreams                               (* Close: copy the streams, under the mutex *)
| StreamClosed                              (* Close: the Close of the next stream returns *)
| CloseReturns                              (* Close: return *)
| OnStream (h : nat) (a : DataStream.action). (* a step inside a stream *)

(** A step of stream [h], on the shared disk. *)
Definition stream_step (h : nat) (a : DataStream.action) (e : Disk) : option (list storage_event * Disk) :=
  match objects e !! h with
  | Some o =>
      match DataStream.exec a (mounted (disk e) o) with
      | Some (evs, s') => Some (map (FromStream h) evs, mkDisk (<[h := unmounted s']> (objects e)) (writer s').2)
      | None => None
      end
  | None => None
  end.

Definition engine_step (a : DataEngine.action) (s : Engine) : option (list storage_event * Engine) :=
  match DataEngine.exec disk_factory a s with
  | Some (evs, s') => Some (map FromEngine evs, s')
  | None => None
  end.

(** The steps a stream may do by itself: a record is submitted by the engine,
    and [Close] is called by the engine when it is the stream's turn. *)
Definition inner (h : nat) (a : DataStream.action) (s : Engine) : bool :=
  match a with
  | ASubmit _ | AAwait => false
  | DataStream.AClose => match DataEngine.closing s with CloseStreams (h' :: _) _ => (h' =? h)%nat | _ => false end
  | _ => true
  end.

(** One step of one goroutine; a panic ends the program. *)
Definition storage_step (a : storage_action) (s : Engine) : option (list storage_event * Engine) :=
  if existsb DataStream.crashed (objects (env s)) then None else
  match a with
  | CallWrite k => engine_step (ABegin k) s
  | GetStream i => engine_step (AStream i) s
  | CallStream i d =>
      match requests s !! i with
      | Some (HasStream _ h) =>
          match engine_step (AWrite i) s with
          | Some (evs, s') =>
              match stream_step h (ASubmit d) (env s') with
              | Some (evs', e) => Some (evs ++ evs', set_env e s')
              | None => None
              end
          | None => None
          end
      | _ => None
      end
  | CallClose => engine_step DataEngine.AClose s
  | TakeStreams => engine_step ASnapshot s
  | StreamClosed =>
      match DataEngine.closing s with
      | CloseStreams (h :: _) _ =>
          match objects (env s) !! h with
          | Some o =>
              if bool_decide (closeOnce o = CloseUnlocked) && done_ o
              then engine_step (ACloseNext (closeErr o)) s else None
          | None => None
          end
      | _ => None
      end
  | CloseReturns => engine_step AReturn s
  | OnStream h a =>
      if inner h a s
      then match stream_step h a (env s) with
           | Some (evs, e) => Some (evs, set_env e s)
           | None => None
           end
      else None
  end.

Fixpoint storage_steps (l : list storage_action) (s : Engine) : option (list storage_event * Engine) :=
  match l with
  | [] => Some ([], s)
  | a :: l =>
      match storage_step a s with
      | Some (evs, s) =>
          match storage_steps l s with Some (evs', s) => Some (evs ++ evs', s) | None => None end
      | None => None
      end
  end.

(** The floors, rooms and sensor types the program knows. *)
Definition known_key (k : dataStreamKey) : Prop :=
  0 <= floor k < FLOOR_COUNT /\ 0 <= room k < ROOM_COUNT /\ 0 <= sensorType k <= SENSOR_ID_kWAh.

Definition asks_known (a : storage_action) : Prop :=
  match a with CallWrite k => known_key k | _ => True end.

(** Every order of the steps, from an engine on a disk. *)
Inductive storage_reachable (fs0 : FS) : list storage_event -> Engine -> Prop :=
| storage_init : storage_reachable fs0 [] (NewDataEngine (mkDisk [] fs0))
| storage_reach tr s a evs s' :
    storage_reachable fs0 tr s -> asks_known a -> storage_step a s = Some (evs, s') ->
    storage_reachable fs0 (tr ++ evs) s'.

(** The events of the engine, and those of one stream. *)
Definition engine_events (tr : list storage_event) : list (DataEngine.event (H := nat)) :=
  omap (fun e => match e with FromEngine e => Some e | _ => None end) tr.
Definition stream_events (h : nat) (tr : list storage_event) : list DataStream.event :=
  omap (fun e => match e with FromStream h' e => if decide (h' = h) then Some e else None | _ => None end) tr.
End storage.

(** ** Lemmas: directories *)

Section directories.
Context (root : dir_path) (c : DataStreamConfig).

Definition key_directory (k : dataStreamKey) : dir_path := stream_directory root (floor k) (room k) (sensorType k).
Definition key_options (k : dataStreamKey) : DataFileOptions := file_options root c (floor k) (room k) (sensorType k).

Lemma key_directory_prefix k k' :
  known_key k -> known_key k' -> key_directory k `prefix_of` key_directory k' -> k = k'.
Proof.
  intros (H1 & H2 & H3) (H1' & H2' & H3') Hp.
  pose proof (stream_directories_distinct _ _ _ _ _ _ _ H1 H1' H2 H2' H3 H3' Hp).
  destruct k, k'. cbn in *. congruence.
Qed.

Lemma key_directory_ne k k' : known_key k -> known_key k' -> k <> k' -> key_directory k <> key_directory k'.
Proof. intros Hk Hk' Hne E. apply Hne, key_directory_prefix; try done. by rewrite E. Qed.

Lemma key_directory_length k : length (key_directory k) = (length root + 3)%nat.
Proof. unfold key_directory, stream_directory. by rewrite length_app. Qed.

Lemma ancestors_prefix d e : e ∈ ancestors d -> e `prefix_of` d.
Proof.
  unfold ancestors. rewrite list_elem_of_fmap. intros (m & -> & _). exists (drop (S m) d). by rewrite take_drop.
Qed.

Lemma segment_not_ancestor k k' m : key_directory k ++ [segmentName m] ∉ ancestors (key_directory k').
Proof.
  intros Hin%ancestors_length. rewrite length_app, !key_directory_length in Hin. cbn in Hin. lia.
Qed.

(** What the disk holds for a key before the engine starts, without the
    incomplete records. *)
Definition old_log (fs : FS) (k : dataStreamKey) (m : Z) : list byte :=
  concat (map (fun i => repaired (content fs (key_directory k, segmentName i))) (seqZ 1 m)).
Definition newest (fs : FS) (k : dataStreamKey) (m : Z) : Prop :=
  1 <= m <= 99999999 /\ forall i, m < i <= 99999999 -> files fs !! (key_directory k, segmentName i) = None.

(** A disk the streams of all keys can be opened on: as it is when it is new,
    or as an earlier run left it. *)
Record ready (fs : FS) (k : dataStreamKey) : Prop := mkReady {
  rd_openable : openable (key_options k) fs;
  rd_sizes : forall m z, files fs !! (key_directory k, segmentName m) = Some z ->
    Z.of_nat (length z) <= Config.RotationSize c;
  rd_zero : files fs !! (key_directory k, segmentName 0) = None }.

(** What the factory makes of such a disk. *)
Lemma opened_framed k fs f fs' :
  ready fs k -> opened (key_options k) fs f fs' -> framed f fs' /\ log f fs' = old_log fs k (sequence f) /\
  newest fs k (sequence f).
Proof.
  intros [Hop Hsz Hzero] Hod. pose proof (opened_live _ _ _ _ Hop Hod) as Hl.
  assert (forall m, segment f m = (key_directory k, segmentName m)) as Hseg
    by (intros m; unfold segment; by rewrite (od_dir _ _ _ _ Hod)).
  pose proof (od_sequence _ _ _ _ Hod) as Hs.
  assert (forall m, 1 <= m <= 99999999 -> framed_size f (Z.of_nat (length (content fs' (segment f m))))) as Hfr.
  { intros m Hm. rewrite (od_repaired _ _ _ _ Hod) by done. split; [|apply repaired_whole].
    rewrite (od_rotation _ _ _ _ Hod), repaired_length, Hseg. unfold content.
    pose proof (op_rotation _ _ Hop) as Hr. 
    change (Config.RotationSize c) with (DataFile.RotationSize (key_options k)) in Hsz.
    destruct (files fs !! (key_directory k, segmentName m)) as [z|] eqn:E; cbn [default length].
    - specialize (Hsz _ _ E). unfold id. lia.
    - unfold SensorDataRecordSize in Hr. lia. }
  split; [|split; [|split; [done|]]].
  - split.
    + rewrite (od_size _ _ _ _ Hod), segmentPath_segment. by apply Hfr.
    + intros m Hm Hne. destruct (decide (1 <= m <= 99999999)) as [?|Hgt]; [by apply Hfr|].
      assert (content fs' (segment f m) = []) as ->; [|split; [|apply Z.divide_0_r]].
      * unfold content. rewrite (od_other _ _ _ _ Hod).
        -- rewrite Hseg. destruct (decide (m = 0)) as [->|]; [by rewrite Hzero|].
           assert (100000000 <= m < 2 ^ 64) as Hm2 by lia. pose proof (op_long _ _ Hop m Hm2) as Hlong. change (Directory (key_options k)) with (key_directory k) in Hlong. by rewrite Hlong.
        -- right. rewrite Hseg. cbn [snd]. destruct (parseSegmentName _) as [m'|] eqn:E; [|done].
           apply parseSegmentName_Some in E as [E Hm']. apply segmentName_inj in E; lia.
      * rewrite (od_rotation _ _ _ _ Hod). pose proof (op_rotation _ _ Hop). unfold SensorDataRecordSize in *. cbn [length]. lia.
  - unfold log. destruct (od_shape _ _ _ _ Hod) as (m & z & Hf).
    assert (buffered f = []) as -> by by rewrite Hf. rewrite app_nil_r. unfold disk_log, old_log. f_equal.
    apply map_ext_in. intros m' Hm'%list_elem_of_In. apply elem_of_seqZ in Hm'.
    rewrite (od_repaired _ _ _ _ Hod) by lia. by rewrite Hseg.
  - intros i Hi. rewrite <- Hseg. destruct (files fs !! segment f i) eqn:E; [|done].
    pose proof (od_highest _ _ _ _ Hod i ltac:(lia) ltac:(by eexists)). lia.
Qed.
End directories.

(** ** Lemmas: one stream on the shared disk *)

Definition fresh_after (s : St) : Prop :=
  forall i, sequence s.1 < i < 2 ^ 64 -> content s.2 (segment s.1 i) = [].

Lemma Close_fresh f fs : live f fs -> fresh_after (final (DataFile.Close (f, fs))).
Proof.
  intros Hl. unfold DataFile.Close. unfold mbind at 1, M_bind at 1, gets. cbn [fst].
  rewrite (live_open _ _ Hl). unfold mbind, M_bind, update, modify. cbn [fst snd].
  destruct (closeCurrentSegment_spec (set_closed true f) fs (live_wf _ _ Hl)) as (r & fs' & w & -> & Hx & _).
  pose proof (live_sequence _ _ Hl). intros i Hi. cbn [final fst snd] in *.
  change (segment (set_file None None (set_closed true f)) i) with (segment f i).
  change (sequence (set_file None None (set_closed true f))) with (sequence f) in Hi.
  change (segmentPath (set_closed true f)) with (segmentPath f) in Hx.
  rewrite (content_other _ _ _ _ _ Hx) by (apply segment_ne; lia). by apply (live_fresh _ _ Hl).
Qed.

Lemma finish_fresh m L tr (s : DataStream (DataFile * FS)) dirty evs s' :
  durable m L tr s -> done_ s = false -> finish dirty s = Some (evs, s') -> fresh_after (writer s').
Proof.
  intros [_ _ H3 _] Hd H. destruct (H3 Hd) as [Hr _]. unfold finish, flushIfDirty in H.
  assert (forall w : DataFile * FS, live w.1 w.2 -> fresh_after (final (rw_Close w))) as K
    by (intros [f fs]; apply Close_fresh).
  destruct (negb dirty).
  - cbn [writer] in H. specialize (K (writer s) (proj1 Hr)). destruct (rw_Close _) as [[?|?|?] w]; by injection H as <- <-.
  - destruct (rw_flush_law _ _ Hr) as (w & E & Hw & _). rewrite E in H. cbn [writer set_writer] in H.
    specialize (K w (proj1 Hw)). destruct (rw_Close _) as [[?|?|?] w']; by injection H as <- <-.
Qed.

(** The records sent are those whose calls returned without an error and those
    about to return. *)
Definition counted_sent (l : list submission) : list SensorData :=
  omap (fun x => match x with Sent d => Some d | Selecting _ => None end) l.

Lemma counted_insert l i d : l !! i = Some (Selecting d) -> counted_sent (<[i := Sent d]> l) ≡ₚ d :: counted_sent l.
Proof.
  intros Hi. unfold counted_sent. rewrite insert_take_drop by (by eapply lookup_lt_Some).
  rewrite <- (take_drop_middle l i _ Hi) at 3. rewrite !omap_app. cbn. solve_Permutation.
Qed.

Lemma counted_delete l i d : l !! i = Some (Sent d) -> counted_sent l ≡ₚ d :: counted_sent (delete i l).
Proof.
  intros Hi. unfold counted_sent. rewrite <- (take_drop_middle l i _ Hi) at 1.
  rewrite delete_take_drop, !omap_app. cbn. solve_Permutation.
Qed.

Lemma counted_reject l i d : l !! i = Some (Selecting d) -> counted_sent (delete i l) = counted_sent l.
Proof.
  intros Hi. unfold counted_sent. rewrite <- (take_drop_middle l i _ Hi) at 2. by rewrite delete_take_drop, !omap_app.
Qed.

Lemma returned_exec {W} `{!RecordWriter W} a (s : DataStream W) tr evs s' :
  sent tr ≡ₚ returned_ok tr ++ counted_sent (submitMu s) -> DataStream.exec a s = Some (evs, s') ->
  sent (tr ++ evs) ≡ₚ returned_ok (tr ++ evs) ++ counted_sent (submitMu s').
Proof.
  intros H1 H. unfold sent, returned_ok in *. rewrite !omap_app.
  exec_cases H; cbn [omap list_omap submitMu set_submit set_queue set_counts set_panic set_close set_run set_writer set_done];
    rewrite ?app_nil_r; try done; rewrite ?H1.
  - unfold counted_sent. rewrite omap_app. cbn. by rewrite app_nil_r.
  - rewrite counted_insert by done. solve_Permutation.
  - match goal with Hi : submitMu _ !! _ = Some _ |- _ => rewrite (counted_delete _ _ _ Hi) end. solve_Permutation.
  - by erewrite counted_reject.
  - by erewrite counted_reject.
Qed.

Lemma mounted_unmounted (s : DataStream (DataFile * FS)) : mounted (writer s).2 (unmounted s) = s.
Proof. by destruct s as [[f fs]]. Qed.

Section invariant.
Context (root : dir_path) (cfg : Config) (valid : valid_config cfg) (fs0 : FS) (n : nat).
Context (disk_ready : forall k, known_key k -> ready root (Config.DataStream cfg) fs0 k).
Context (n_bound : Z.of_nat n < 2 ^ 63).
Abbreviation dir := (key_directory root).
Abbreviation old := (old_log root fs0).

(** A stream that has lost nothing: what its directory held before and what
    the worker wrote is in its segments and its buffer. *)
Record stream_ok (fs : FS) (k : dataStreamKey) (tr : list DataStream.event) (o : DataStream DataFile) : Prop :=
  mkStreamOk {
    so_home : homed (dir k) (writer o);
    so_locked : locked (mounted fs o);
    so_ledger : ledger tr (mounted fs o);
    so_log : exists m, newest root fs0 k m /\ durable n (old k m) tr (mounted fs o);
    so_returned : sent tr ≡ₚ returned_ok tr ++ counted_sent (submitMu o);
    so_fresh : fresh_after (writer o, fs) }.

Lemma stream_ok_frame fs fs' k tr o : agree (dir k) fs fs' -> stream_ok fs k tr o -> stream_ok fs' k tr o.
Proof.
  intros A [[Hd Hb] Hlk Hlg (m & Hm & Hdu) Hret Hfr]. rewrite <- Hd in A. split.
  - by split.
  - destruct Hlk. constructor; assumption.
  - destruct Hlg. constructor; assumption.
  - exists m. split; [done|]. destruct Hdu as [H1 H2 H3 H4]. constructor; [done|done| |].
    + intros Ho. destruct (H3 Ho) as [(L1 & L2 & L3) H]. cbn [rw_ready rw_log DataFile_laws fst snd mounted rewriter writer] in *.
      rewrite (agree_log _ _ _ A). split; [|done].
      split; [by eapply agree_live|]. split; [by eapply agree_framed|done].
    + intros Ho. destruct (H4 Ho) as [H5 H6]. split; [|done].
      cbn [rw_disk DataFile_laws fst snd mounted rewriter writer] in *. by rewrite (agree_disk_log _ _ _ A).
  - exact Hret.
  - intros i Hi. cbn [fst snd] in *. rewrite (agree_segment _ _ _ A). by apply Hfr.
Qed.

Lemma exec_homed k a fs o evs s' :
  homed (dir k) (writer o) -> DataStream.exec a (mounted fs o) = Some (evs, s') ->
  homed (dir k) (writer s').1 /\ elsewhere (dir k) fs (writer s').2.
Proof.
  intros Hh Ex. refine (exec_writer (stays (dir k)) a (mounted fs o) evs s' _ _ _ Ex Hh);
    [apply stays_WriteRecord|apply stays_Flush|apply stays_Close].
Qed.

Lemma stream_ok_exec fs k tr o a evs s' :
  stream_ok fs k tr o -> (length (sent tr) <= n)%nat -> DataStream.exec a (mounted fs o) = Some (evs, s') ->
  stream_ok (writer s').2 k (tr ++ evs) (unmounted s') /\ elsewhere (dir k) fs (writer s').2.
Proof.
  intros [Hh Hlk Hlg (m & Hm & Hdu) Hret Hfr] Hn Ex. destruct (exec_homed _ _ _ _ _ _ Hh Ex) as [Hh' He].
  split; [|done].
  pose proof (durable_exec _ _ _ _ _ _ _ Hlg Hlk Hn Hdu Ex) as Hdu'.
  split; rewrite ?mounted_unmounted; [done|by eapply locked_exec|by eapply ledger_exec|by exists m| |].
  { by apply (returned_exec a (mounted fs o)). }
  change (fresh_after ((writer s').1, (writer s').2)). rewrite <- surjective_pairing.
  destruct (done_ s') eqn:Hd.
  - destruct (exec_other _ _ _ _ Hlk Ex) as [[-> Hr]|[[-> Hr]|[(dirty & Er & Hr)|Ho]]].
    + unfold run_attempt in Hr. repeat case_match; simplify_eq; cbn in Hd;
        apply (lk_done _ Hlk) in Hd; congruence.
    + unfold run_tick in Hr. destruct (run_ (mounted fs o)) eqn:Er; try done.
      assert (done_ (mounted fs o) = true) as Hd'; [|apply (lk_done _ Hlk) in Hd'; congruence].
      repeat case_match; simplify_eq; done.
    + eapply finish_fresh; [exact Hdu| |exact Hr]. destruct (done_ (mounted fs o)) eqn:E; [|done].
      apply (lk_done _ Hlk) in E. congruence.
    + destruct Ho as (-> & _). exact Hfr.
  - destruct (du_open _ _ _ _ Hdu' Hd) as [[Hl _] _]. intros i Hi. by apply (live_fresh _ _ Hl).
Qed.

(** ** Lemmas: all streams on the shared disk *)

Lemma engine_events_app tr tr' : engine_events (tr ++ tr') = engine_events tr ++ engine_events tr'.
Proof. apply omap_app. Qed.
Lemma stream_events_app h tr tr' : stream_events h (tr ++ tr') = stream_events h tr ++ stream_events h tr'.
Proof. apply omap_app. Qed.
Lemma engine_events_engine evs : engine_events (map FromEngine evs) = evs.
Proof. induction evs as [|e evs IH]; [done|]. cbn. by f_equal. Qed.
Lemma engine_events_stream h evs : engine_events (map (FromStream h) evs) = [].
Proof. by induction evs. Qed.
Lemma stream_events_engine h evs : stream_events h (map FromEngine evs) = [].
Proof. by induction evs. Qed.
Lemma stream_events_same h evs : stream_events h (map (FromStream h) evs) = evs.
Proof. induction evs as [|e evs IH]; [done|]. cbn. rewrite decide_True by done. cbn. by f_equal. Qed.
Lemma stream_events_other h h' evs : h' <> h -> stream_events h (map (FromStream h') evs) = [].
Proof. intros Hne. induction evs as [|e evs IH]; [done|]. cbn. by rewrite decide_False. Qed.

Lemma length_omap_le {A B} (f : A -> option B) (l : list A) : (length (omap f l) <= length l)%nat.
Proof. induction l as [|x l IH]; cbn; [done|]. destruct (f x); cbn; lia. Qed.

Lemma sent_bound h tr : (length (sent (stream_events h tr)) <= length tr)%nat.
Proof. unfold sent, stream_events. etrans; apply length_omap_le. Qed.

Abbreviation engine_state := (DataEngine.DataEngine (H := nat) (E := Disk)).
Abbreviation factory := (disk_factory root (Config.DataStream cfg)).

Record storage_ok (tr : list storage_event) (s : engine_state) : Prop := mkStorageOk {
  sk_engine : consistent (engine_events tr) s;
  sk_streams : forall k h, streams s !! k = Some h -> known_key k /\
    exists o, objects (env s) !! h = Some o /\ stream_ok (disk (env s)) k (stream_events h tr) o;
  sk_handles : forall k k' h, streams s !! k = Some h -> streams s !! k' = Some h -> k = k';
  sk_born : forall h o, objects (env s) !! h = Some o -> exists k, streams s !! k = Some h;
  sk_unborn : forall h, (length (objects (env s)) <= h)%nat -> stream_events h tr = [];
  sk_files : forall q, (forall k h, streams s !! k = Some h -> q.1 <> dir k) ->
    files (disk (env s)) !! q = files fs0 !! q;
  sk_dirs : forall d, d ∈ dirs (disk (env s)) ->
    d ∈ dirs fs0 \/ exists k h, streams s !! k = Some h /\ d ∈ ancestors (dir k);
  sk_faults : no_faults (disk (env s));
  sk_requests : forall i k, requests s !! i = Some (Loaded k) -> known_key k;
  sk_closed : forall h, EvStreamClosed h ∈ engine_events tr ->
    exists o, objects (env s) !! h = Some o /\ done_ o = true }.

Lemma consistent_env tr (s : engine_state) e : consistent tr s -> consistent tr (set_env e s).
Proof. intros [H1 H2 H3 H4 H5 H6]. by constructor. Qed.

(** A step of the engine that leaves the streams and the disk alone. *)
Lemma ok_engine tr s evs s' :
  storage_ok tr s -> consistent (engine_events tr ++ evs) s' -> streams s' = streams s -> env s' = env s ->
  (forall i k, requests s' !! i = Some (Loaded k) -> known_key k) ->
  (forall h, EvStreamClosed h ∈ evs -> exists o, objects (env s) !! h = Some o /\ done_ o = true) ->
  storage_ok (tr ++ map FromEngine evs) s'.
Proof.
  intros [H1 H2 H3 H4 H5 H6 H7 H8 H9 H10] Hc Es Ee Hr Hcl.
  split; rewrite ?engine_events_app, ?engine_events_engine, ?Es, ?Ee; try done.
  - intros k h Hk. rewrite stream_events_app, stream_events_engine, app_nil_r. by apply H2.
  - intros h Hh. rewrite stream_events_app, stream_events_engine, app_nil_r. by apply H5.
  - intros h [Hh|Hh]%elem_of_app; [by apply H10|by apply Hcl].
Qed.

(** A step of one stream. *)
Lemma done_stays a (o s' : DataStream (DataFile * FS)) evs :
  locked o -> DataStream.exec a o = Some (evs, s') -> done_ o = true -> done_ s' = true.
Proof.
  intros Hlk Ex Hd. pose proof (proj1 (lk_done _ Hlk) Hd) as Hr.
  destruct (exec_other _ _ _ _ Hlk Ex) as [[-> E]|[[-> E]|[(dirty & E & _)|Ho]]].
  - unfold run_attempt in E. by rewrite Hr in E.
  - unfold run_tick in E. by rewrite Hr in E.
  - congruence.
  - destruct Ho as (_ & -> & _). done.
Qed.

Lemma ok_stream tr s h a evs e :
  storage_ok tr s -> (length tr <= n)%nat -> stream_step h a (env s) = Some (evs, e) ->
  storage_ok (tr ++ evs) (set_env e s).
Proof.
  intros [H1 H2 H3 H4 H5 H6 H7 H8 H9 H10] Hn. unfold stream_step.
  destruct (objects (env s) !! h) as [o|] eqn:Eo; [|done].
  destruct (DataStream.exec a _) as [[es s1]|] eqn:Ex; [|done]. intros [= <- <-].
  destruct (H4 h o Eo) as [k Hk]. destruct (H2 k h Hk) as (Hkk & o' & Eo' & Hok).
  rewrite Eo in Eo'. injection Eo' as <-.
  assert (length (sent (stream_events h tr)) <= n)%nat as Hs by (etrans; [apply sent_bound|done]).
  destruct (stream_ok_exec _ _ _ _ _ _ _ Hok Hs Ex) as [Hok' He].
  pose proof (lookup_lt_Some _ _ _ Eo) as Hlt.
  split; cbn [env set_env streams requests objects disk]; rewrite ?engine_events_app, ?engine_events_stream, ?app_nil_r; try done.
  - by apply consistent_env.
  - intros k' h' Hk'. destruct (H2 k' h' Hk') as (Hkk' & o' & Eo' & Hok2). split; [done|].
    rewrite stream_events_app. destruct (decide (h = h')) as [<-|Hne].
    + rewrite (H3 _ _ _ Hk' Hk). exists (unmounted s1). rewrite list_lookup_insert_eq by done.
      by rewrite stream_events_same.
    + exists o'. rewrite list_lookup_insert_ne by done. rewrite stream_events_other, app_nil_r by done.
      split; [done|]. eapply stream_ok_frame; [|exact Hok2]. eapply elsewhere_agree; [exact He|].
      apply key_directory_ne; try done. congruence.
  - intros h' o' Hh'. destruct (decide (h = h')) as [<-|Hne]; [by eexists|].
    rewrite list_lookup_insert_ne in Hh' by done. by apply (H4 h' o').
  - intros h'. rewrite length_insert. intros Hh'. rewrite stream_events_app, (H5 h' Hh').
    apply stream_events_other. lia.
  - intros q Hq. rewrite (ew_files _ _ _ He) by (by apply (Hq k h)). by apply H6.
  - intros d. rewrite (ew_dirs _ _ _ He). apply H7.
  - by apply (ew_faults _ _ _ He).
  - intros h' Hh'. destruct (H10 h' Hh') as (o' & Eo' & Hd). destruct (decide (h = h')) as [<-|Hne].
    + exists (unmounted s1). rewrite list_lookup_insert_eq by done. split; [done|].
      rewrite Eo in Eo'. injection Eo' as <-.
      apply (done_stays _ _ _ _ (so_locked _ _ _ _ Hok) Ex Hd).
    + exists o'. by rewrite list_lookup_insert_ne.
Qed.

(** A new stream. *)
Lemma NewDataStream_rewriter {W W'} (w : W) (w' : W') o s :
  NewDataStream w o = inr s -> NewDataStream w' o = inr (rewriter w' s).
Proof. unfold NewDataStream. repeat case_match; try done. by intros [= <-]. Qed.

Lemma factory_creates k e : ready root (Config.DataStream cfg) (disk e) k ->
  exists f fs s, factory (floor k) (room k) (sensorType k) e = (Ret (length (objects e)), mkDisk (objects e ++ [s]) fs) /\
    opened (key_options root (Config.DataStream cfg) k) (disk e) f fs /\
    NewDataStream f (file_stream_options (Config.DataStream cfg)) = inr s.
Proof.
  intros [Hop _ _]. destruct (OpenDataFile_opened _ _ Hop) as (f & fs & E & Hod).
  destruct (configured_options_accepted cfg (f, fs) valid) as [s0 E0].
  pose proof (NewDataStream_rewriter _ f _ _ E0) as E1.
  exists f, fs, (rewriter f s0). split; [|by split].
  unfold disk_factory, NewFileDataStreamFactory. unfold mbind, M_bind, get.
  unfold key_options in E. rewrite E, E0. cbn [mret M_ret]. by rewrite E1.
Qed.

Lemma stream_ok_new k e f fs s :
  ready root (Config.DataStream cfg) (disk e) k ->
  (forall q, q.1 = dir k -> files (disk e) !! q = files fs0 !! q) ->
  opened (key_options root (Config.DataStream cfg) k) (disk e) f fs ->
  NewDataStream f (file_stream_options (Config.DataStream cfg)) = inr s -> stream_ok fs k [] s.
Proof.
  intros Hrd Hold Hod E. pose proof Hrd as [Hop _ _].
  pose proof (opened_live _ _ _ _ Hop Hod) as Hl.
  destruct (opened_framed root _ _ _ _ _ Hrd Hod) as (Hfr & Hlog & Hnew).
  pose proof (NewDataStream_rewriter f (f, fs) _ _ E) as E1.
  destruct (NewDataStream_inv _ _ _ E1) as (_ & Ew & Er & _).
  assert (writer s = f) as Hw.
  { by destruct (NewDataStream_inv _ _ _ E) as (_ & ? & _). }
  assert (mounted fs s = rewriter (f, fs) s) as Hm by (unfold mounted; by rewrite Hw).
  pose proof (locked_new _ _ _ E1) as Hlk.
  split; rewrite ?Hm, ?Hw; try done.
  - split; [by rewrite (od_dir _ _ _ _ Hod)|]. destruct (od_shape _ _ _ _ Hod) as (m & z & ->). by intros b [= <-].
  - by eapply ledger_new.
  - exists (sequence f).
    assert (forall i, content (disk e) (dir k, segmentName i) = content fs0 (dir k, segmentName i)) as Hc
      by (intros i; unfold content; by rewrite Hold).
    split.
    + destruct Hnew as [H1 H2]. split; [done|]. intros i Hi. rewrite <- Hold by done. by apply H2.
    + assert (old k (sequence f) = log f fs) as ->.
      { rewrite Hlog. unfold old_log. f_equal. apply map_ext. intros i. by rewrite Hc. }
      assert (done_ (rewriter (f, fs) s) = false) as Hd.
      { destruct (done_ _) eqn:Ed; [|done]. apply (lk_done _ Hlk) in Ed. congruence. }
      constructor; [done| | |congruence].
      * unfold DataStream.crashed. by rewrite (lk_panic _ Hlk), Er.
      * intros _. cbn [writer rewriter rw_ready rw_log DataFile_laws fst snd written_of omap list_omap length encode_all map concat].
        rewrite app_nil_r, Nat.sub_0_r. split; [|done]. split; [done|]. split; [done|].
        pose proof (od_sequence _ _ _ _ Hod). lia.
  - destruct (NewDataStream_inv _ _ _ E) as (_ & _ & _ & _ & -> & _). done.
  - intros i Hi. by apply (live_fresh _ _ Hl).
Qed.

(** The directory of a key without a stream is as it was. *)
Lemma ready_still tr s k :
  storage_ok tr s -> known_key k -> streams s !! k = None ->
  ready root (Config.DataStream cfg) (disk (env s)) k /\
  forall q, q.1 = dir k -> files (disk (env s)) !! q = files fs0 !! q.
Proof.
  intros O Hk Hnone.
  assert (forall q, q.1 `prefix_of` dir k -> files (disk (env s)) !! q = files fs0 !! q) as Hold.
  { intros q Hq. apply (sk_files _ _ O). intros k' h' Hk' E.
    destruct (sk_streams _ _ O k' h' Hk') as [Hkk' _]. rewrite E in Hq.
    apply key_directory_prefix in Hq; [congruence|done..]. }
  split; [|intros q E; apply Hold; by rewrite E].
  destruct (disk_ready k Hk) as [[P1 P2 P3 P4 P5 P6 P7 P8] Hsz Hz].
  assert (forall i, files (disk (env s)) !! (dir k, i) = files fs0 !! (dir k, i)) as Hold'
    by (intros i; by apply Hold).
  split; [split; try done| |].
  - apply O.
  - rewrite <- P5. assert (forall p, p ∈ ancestors (dir k) -> is_file (disk (env s)) p = is_file fs0 p) as K.
    { intros p Hp%ancestors_prefix. unfold is_file. destruct (last p) as [name|]; [|done].
      rewrite Hold; [done|]. cbn [fst]. etrans; [|exact Hp]. by eexists; rewrite take_drop. }
    change (Directory (key_options root (Config.DataStream cfg) k)) with (dir k).
    revert K. induction (ancestors (dir k)) as [|p l IH]; intros K; [done|]. cbn [existsb].
    rewrite K by by left. f_equal. apply IH. intros p' Hp'. apply K. by right.
  - intros i [Hin|(k' & h' & _ & Hin)]%(sk_dirs _ _ O); [by apply P6 in Hin|by apply segment_not_ancestor in Hin].
  - intros i z Hi. apply (P7 i z). rewrite <- Hi. symmetry. apply Hold'.
  - intros i Hi. etrans; [apply Hold'|by apply P8].
  - intros m z Hi. apply (Hsz m). by rewrite <- Hold'.
  - by rewrite Hold'.
Qed.

Lemma ok_create tr s k h e evs s' :
  storage_ok tr s -> known_key k -> streams s !! k = None ->
  factory (floor k) (room k) (sensorType k) (env s) = (Ret h, e) ->
  consistent (engine_events tr ++ evs) s' -> streams s' = <[k := h]> (streams s) -> env s' = e ->
  (forall i k, requests s' !! i = Some (Loaded k) -> known_key k) ->
  (forall h, EvStreamClosed h ∉ evs) ->
  storage_ok (tr ++ map FromEngine evs) s'.
Proof.
  intros O Hk Hnone Ef Hc Es Ee Hr Hcl. destruct (ready_still _ _ _ O Hk Hnone) as [Hrd Hold].
  destruct (factory_creates k (env s) Hrd) as (f & fs & o & Ef' & Hod & En).
  rewrite Ef in Ef'. injection Ef' as -> ->.
  pose proof (stream_ok_new _ _ _ _ _ Hrd Hold Hod En) as Hnew.
  destruct O as [H1 H2 H3 H4 H5 H6 H7 H8 H9 H10].
  assert (forall k' h', streams s !! k' = Some h' -> (h' < length (objects (env s)))%nat) as Hlt.
  { intros k' h' Hk'. destruct (H2 k' h' Hk') as (_ & o' & Eo' & _). by eapply lookup_lt_Some. }
  split; rewrite ?engine_events_app, ?engine_events_engine, ?Es, ?Ee; cbn [objects disk]; try done.
  - intros k' h' Hk'. rewrite stream_events_app, stream_events_engine, app_nil_r.
    destruct (decide (k = k')) as [<-|Hne].
    + rewrite lookup_insert_eq in Hk'. injection Hk' as <-. split; [done|]. exists o.
      rewrite H5 by done. split; [|done]. by rewrite lookup_app_r, Nat.sub_diag by done.
    + rewrite lookup_insert_ne in Hk' by done. destruct (H2 k' h' Hk') as (Hkk' & o' & Eo' & Hok').
      split; [done|]. exists o'. split; [by apply lookup_app_l_Some|].
      eapply stream_ok_frame; [|exact Hok']. split.
      * intros i. apply (od_other _ _ _ _ Hod). left. by apply key_directory_ne.
      * rewrite (od_dirs _ _ _ _ Hod). set_solver.
      * intros i Hi. rewrite (od_dirs _ _ _ _ Hod), elem_of_union, elem_of_list_to_set.
        intros [Hin|Hin]; [by apply segment_not_ancestor in Hin|done].
      * intros _. apply Hod.
  - intros k1 k2 h'. destruct (decide (k = k1)) as [<-|H1'], (decide (k = k2)) as [<-|H2'];
      rewrite ?lookup_insert_eq, ?lookup_insert_ne by done; try done.
    + intros [= <-] Hk2%Hlt. lia.
    + intros Hk1%Hlt [= <-]. lia.
    + apply H3.
  - intros h' o'. destruct (decide (h' < length (objects (env s)))%nat) as [Hl|Hl].
    + rewrite lookup_app_l by done. intros Ho'. destruct (H4 h' o' Ho') as [k' Hk']. exists k'.
      rewrite lookup_insert_ne; [done|]. congruence.
    + intros Ho'%lookup_lt_Some. rewrite length_app in Ho'. cbn in Ho'. exists k.
      rewrite lookup_insert_eq. f_equal. lia.
  - intros h'. rewrite length_app. intros Hh'. rewrite stream_events_app, stream_events_engine, app_nil_r. apply H5. lia.
  - intros q Hq. rewrite (od_other _ _ _ _ Hod).
    + apply H6. intros k' h' Hk'. apply (Hq k' h'). rewrite lookup_insert_ne; [done|]. congruence.
    + left. apply (Hq k (length (objects (env s)))). by rewrite lookup_insert_eq.
  - intros d. rewrite (od_dirs _ _ _ _ Hod), elem_of_union, elem_of_list_to_set. intros [Hd|Hd%H7].
    + right. exists k, (length (objects (env s))). by rewrite lookup_insert_eq.
    + destruct Hd as [?|(k' & h' & Hk' & Hd)]; [by left|]. right. exists k', h'. split; [|done].
      rewrite lookup_insert_ne; [done|]. congruence.
  - apply Hod.
  - intros h' [Hh'|Hh']%elem_of_app; [|by apply Hcl in Hh']. destruct (H10 h' Hh') as (o' & Ho' & Hd).
    exists o'. split; [by apply lookup_app_l_Some|done].
Qed.

(** The steps of the engine. *)
Lemma engine_step_consistent tr a s evs s' :
  storage_ok tr s -> engine_step root (Config.DataStream cfg) a s = Some (evs, s') ->
  exists es, evs = map FromEngine es /\ consistent (engine_events tr ++ es) s' /\
    DataEngine.exec factory a s = Some (es, s').
Proof.
  intros O. unfold engine_step. destruct (DataEngine.exec _ a s) as [[es s1]|] eqn:Ex; [|done].
  intros [= <- <-]. exists es. split; [done|]. split; [|done].
  pose proof (sk_engine _ _ O) as Hc. unfold DataEngine.exec in Ex.
  destruct a; first [by eapply consistent_write|by eapply consistent_close].
Qed.

Lemma ok_get_stream tr s i evs s' :
  storage_ok tr s -> engine_step root (Config.DataStream cfg) (AStream i) s = Some (evs, s') ->
  storage_ok (tr ++ evs) s'.
Proof.
  intros O E. destruct (engine_step_consistent _ _ _ _ _ O E) as (es & -> & Hc & Ex). cbn in Ex.
  destruct (requests s !! i) as [[k|]|] eqn:Ei; [|done..]. pose proof (sk_requests _ _ O i k Ei) as Hk.
  unfold stream in Ex. destruct (DataEngine.closed s) eqn:Ecl.
  { injection Ex as <- <-. apply (ok_engine tr s); try done.
    - intros j k' [j' Hj]%delete_has. by apply (sk_requests _ _ O j').
    - intros h Hh. by apply list_elem_of_singleton in Hh. }
  destruct (streams s !! k) as [h|] eqn:Es.
  { assert (is_new k s = false) as Hnew by (unfold is_new; rewrite Es; by apply bool_decide_eq_false).
    rewrite Hnew in Ex. injection Ex as <- <-. apply (ok_engine tr s); try done.
    - intros j k' [?|[j' Hj]]%insert_has; [done|]. by apply (sk_requests _ _ O j').
    - intros h' Hh. by apply not_elem_of_nil in Hh. }
  destruct (ready_still _ _ _ O Hk Es) as [Hrd _].
  destruct (factory_creates k (env s) Hrd) as (f & fs & o & Ef & _). rewrite Ef in Ex.
  injection Ex as <- <-.
  apply (ok_create tr s k (length (objects (env s))) (mkDisk (objects (env s) ++ [o]) fs)); try done.
  - intros j k' [?|[j' Hj]]%insert_has; [done|]. by apply (sk_requests _ _ O j').
  - intros h. destruct (is_new k s); [|by intros ?%not_elem_of_nil]. by intros ?%list_elem_of_singleton.
Qed.

Lemma ok_engine_step tr s a evs s' :
  storage_ok tr s -> engine_step root (Config.DataStream cfg) a s = Some (evs, s') ->
  match a with
  | ABegin k => known_key k
  | ACloseNext _ => forall h l r, DataEngine.closing s = CloseStreams (h :: l) r ->
      exists o, objects (env s) !! h = Some o /\ done_ o = true
  | _ => True
  end -> storage_ok (tr ++ evs) s'.
Proof.
  intros O E Ha. pose proof (fun i => ok_get_stream tr s i evs s' O) as Hget.
  destruct (engine_step_consistent _ _ _ _ _ O E) as (es & -> & Hc & Ex).
  pose proof (sk_requests _ _ O) as Hr.
  destruct a as [k|i|i| | |r|]; cbn in Ex.
  - destruct (DataEngine.closed s); injection Ex as <- <-; apply (ok_engine tr s); try done.
    + intros h Hh. by apply list_elem_of_singleton in Hh.
    + intros i k' Hi. apply lookup_app_Some in Hi as [Hi|[_ Hi]]; [by apply (Hr i)|].
      apply list_lookup_singleton_Some in Hi as [_ [= <-]]. done.
    + intros h Hh. by apply not_elem_of_nil in Hh.
  - by eapply Hget.
  - destruct (requests s !! i) as [[|k h]|]; [done| |done]. injection Ex as <- <-. apply (ok_engine tr s); try done.
    + intros j k' [j' Hj]%delete_has. by apply (Hr j').
    + intros h' Hh. by apply list_elem_of_singleton in Hh.
  - destruct (DataEngine.closed s); injection Ex as <- <-; apply (ok_engine tr s); try done.
    + intros h Hh. by apply list_elem_of_singleton in Hh.
    + intros h Hh. by apply not_elem_of_nil in Hh.
  - unfold DataEngine.close_step in Ex. destruct (DataEngine.closing s); try done. injection Ex as <- <-.
    apply (ok_engine tr s); try done. intros h Hh. by apply not_elem_of_nil in Hh.
  - unfold DataEngine.close_step in Ex. destruct (DataEngine.closing s) as [| |[|h l] res|]; try done. injection Ex as <- <-.
    apply (ok_engine tr s); try done. intros h' Hh. apply list_elem_of_singleton in Hh. injection Hh as ->. by eapply Ha.
  - unfold DataEngine.close_step in Ex. destruct (DataEngine.closing s) as [| |[|h l] res|]; try done. injection Ex as <- <-.
    apply (ok_engine tr s); try done. intros h Hh. by apply list_elem_of_singleton in Hh.
Qed.

Lemma storage_step_ok tr s a evs s' :
  storage_ok tr s -> (length (tr ++ evs) <= n)%nat -> asks_known a ->
  storage_step root (Config.DataStream cfg) a s = Some (evs, s') -> storage_ok (tr ++ evs) s'.
Proof.
  intros O Hn Ha E. unfold storage_step in E. rewrite length_app in Hn. destruct (existsb _ _); [done|].
  destruct a as [k|i|i d| | | | |h a]; cbn [asks_known] in Ha; try by eapply ok_engine_step.
  - destruct (requests s !! i) as [[|k h]|]; [done| |done].
    destruct (engine_step _ _ (AWrite i) s) as [[es s1]|] eqn:E1; [|done].
    destruct (stream_step h (ASubmit d) (env s1)) as [[es' e]|] eqn:E2; [|done]. injection E as <- <-.
    rewrite app_assoc. pose proof (ok_engine_step _ _ _ _ _ O E1 I) as O1.
    eapply ok_stream; [exact O1| |exact E2]. rewrite !length_app in *. lia.
  - destruct (DataEngine.closing s) as [| |[|h l] res|] eqn:Ecl; try done.
    destruct (objects (env s) !! h) as [o|] eqn:Eo; [|done].
    destruct (bool_decide _ && done_ o) eqn:Eb; [|done]. apply andb_true_iff in Eb as [_ Hd].
    eapply ok_engine_step; [exact O|exact E|]. rewrite Ecl. intros h' l' r' [= <- <- <-]. by exists o.
  - destruct (inner h a s); [|done]. destruct (stream_step h a (env s)) as [[es e]|] eqn:E2; [|done].
    injection E as <- <-. eapply ok_stream; [exact O|lia|exact E2].
Qed.

Context (disk_faultless : no_faults fs0).

Lemma storage_ok_new : storage_ok [] (NewDataEngine (mkDisk [] fs0)).
Proof.
  split; cbn [NewDataEngine env streams requests objects disk]; try done.
  - apply consistent_new.
  - by left.
  - intros h Hh. by apply not_elem_of_nil in Hh.
Qed.

Lemma storage_reachable_ok tr s :
  storage_reachable root (Config.DataStream cfg) fs0 tr s -> (length tr <= n)%nat -> storage_ok tr s.
Proof.
  intros R. induction R as [|tr s a evs s' R IH Ha E]; intros Hn; [apply storage_ok_new|].
  apply (storage_step_ok tr s a); try done. apply IH. rewrite length_app in Hn. lia.
Qed.

(** No goroutine has panicked. *)
Lemma storage_alive tr s : storage_ok tr s -> existsb DataStream.crashed (objects (env s)) = false.
Proof.
  intros O. apply not_true_is_false. intros (o & Hin & Hc)%existsb_exists.
  apply list_elem_of_In, list_elem_of_lookup in Hin as [h Ho].
  destruct (sk_born _ _ O h o Ho) as [k Hk].
  destruct (sk_streams _ _ O k h Hk) as (_ & o' & Ho' & [_ _ _ (m & _ & Hdu) _ _]).
  rewrite Ho in Ho'. injection Ho' as <-. pose proof (du_alive _ _ _ _ Hdu) as Ha.
  change (DataStream.crashed o = false) in Ha. congruence.
Qed.

(** A stream whose worker has returned: the disk holds what was there and the
    records that were sent. *)
Definition dir_log (fs : FS) (k : dataStreamKey) (m : Z) : list byte :=
  concat (map (fun i => content fs (dir k, segmentName i)) (seqZ 1 m)).

Definition holds (fs : FS) (k : dataStreamKey) (l : list SensorData) : Prop :=
  exists m0 m, newest root fs0 k m0 /\ dir_log fs k m = old k m0 ++ encode_all l /\
    forall i, m < i < 2 ^ 64 -> content fs (dir k, segmentName i) = [].

Lemma stream_ok_done fs k tr o :
  stream_ok fs k tr o -> done_ o = true -> holds fs k (sent tr) /\ sent tr ≡ₚ returned_ok tr.
Proof.
  intros [[Hd _] Hlk Hlg (m0 & Hm & Hdu) Hret Hfr] Ho. split.
  2: { rewrite Hret. assert (submitMu o = []) as ->; [|by rewrite app_nil_r].
       apply (lk_submit _ Hlk). intros E. destruct (lk_drained _ Hlk Ho) as [_ Hq].
       rewrite (lk_queue _ Hlk), E in Hq. done. }
  exists m0, (sequence (writer o)). split; [done|].
  assert (forall i, segment (writer o) i = (dir k, segmentName i)) as Hseg by (intros i; unfold segment; by rewrite Hd).
  split.
  - destruct (du_done _ _ _ _ Hdu Ho) as [Hdisk _]. cbn [rw_disk DataFile_laws fst snd mounted rewriter writer] in Hdisk.
    assert (sent tr = written_of tr) as ->.
    { rewrite (lg_fifo _ _ Hlg (du_alive _ _ _ _ Hdu)), (proj1 (lk_drained _ Hlk Ho)).
      unfold in_flight. rewrite (proj1 (lk_done _ Hlk) Ho), !app_nil_r. by rewrite lost_processed by apply Hdu. }
    rewrite <- Hdisk. unfold dir_log, disk_log. f_equal. apply map_ext. intros i. by rewrite Hseg.
  - intros i Hi. rewrite <- Hseg. by apply Hfr.
Qed.

(** The disk once the engine is closed. *)
Lemma storage_closed tr s k : storage_ok tr s -> DataEngine.closing s = CloseReturned -> known_key k ->
  match streams s !! k with
  | Some h => holds (disk (env s)) k (sent (stream_events h tr)) /\
      sent (stream_events h tr) ≡ₚ returned_ok (stream_events h tr)
  | None => forall name, files (disk (env s)) !! (dir k, name) = files fs0 !! (dir k, name)
  end.
Proof.
  intros O Hcl Hk. destruct (streams s !! k) as [h|] eqn:Es.
  - destruct (sk_streams _ _ O k h Es) as (_ & o & Ho & Hok).
    pose proof (cs_snapshot _ _ (sk_engine _ _ O)) as Hsn. rewrite Hcl in Hsn.
    destruct (sk_closed _ _ O h (Hsn k h Es)) as (o' & Ho' & Hd). rewrite Ho in Ho'. injection Ho' as <-.
    by eapply stream_ok_done.
  - intros name. apply (sk_files _ _ O). intros k' h' Hk' E.
    destruct (sk_streams _ _ O k' h' Hk') as [Hkk' _].
    apply (key_directory_ne root k k') in E; try done. congruence.
Qed.
End invariant.

(** ** Properties *)

(** C8. From the calls to the disk, for all streams at once.  Let callers of
    [WriteSensorData], the workers of all streams with their tickers, and
    [Close] run in any order on one file system that does not fail.  Then no
    goroutine panics and no record that entered a queue is given up; and once
    [Close] of the engine has returned, the segments of every location and
    sensor type hold what they held before the start, without incomplete
    records, followed by exactly the records that entered its queue, in that
    order, which are those whose calls returned without an error; later segments
    are empty, and a directory for which nothing was written is untouched. *)
Theorem storage_durable root cfg fs0 tr s :
  valid_config cfg -> no_faults fs0 ->
  (forall k, known_key k -> ready root (Config.DataStream cfg) fs0 k) ->
  storage_reachable root (Config.DataStream cfg) fs0 tr s -> Z.of_nat (length tr) < 2 ^ 63 ->
  existsb DataStream.crashed (objects (env s)) = false /\
  (forall k h, streams s !! k = Some h -> lost (stream_events h tr) = []) /\
  (DataEngine.closing s = CloseReturned -> forall k, known_key k ->
     match streams s !! k with
     | Some h => holds root fs0 (disk (env s)) k (sent (stream_events h tr)) /\
         sent (stream_events h tr) ≡ₚ returned_ok (stream_events h tr)
     | None => forall name,
         files (disk (env s)) !! (key_directory root k, name) = files fs0 !! (key_directory root k, name)
     end).
Proof.
  intros Hv Hnf Hrd R Hn.
  pose proof (storage_reachable_ok root cfg Hv fs0 (length tr) Hrd Hn Hnf tr s R ltac:(done)) as O.
  split_and!.
  - by eapply storage_alive.
  - intros k h Hk. destruct (sk_streams _ _ _ _ _ O k h Hk) as (_ & o & _ & [_ _ _ (m & _ & Hdu) _ _]).
    apply Hdu.
  - intros Hcl k Hk. by eapply storage_closed.
Qed.

(** ** A concrete run *)

Lemma storage_steps_reachable root c fs0 : forall l tr s evs s',
  storage_reachable root c fs0 tr s -> Forall asks_known l -> storage_steps root c l s = Some (evs, s') ->
  storage_reachable root c fs0 (tr ++ evs) s'.
Proof.
  induction l as [|a l IH]; intros tr s evs s' R Ha E; cbn [storage_steps] in E.
  - injection E as <- <-. by rewrite app_nil_r.
  - apply Forall_cons in Ha as [Ha Hl]. destruct (storage_step root c a s) as [[evs1 s1]|] eqn:E1; [|done].
    destruct (storage_steps root c l s1) as [[evs2 s2]|] eqn:E2; [|done]. injection E as <- <-.
    rewrite app_assoc. eapply IH; [|exact Hl|exact E2]. by econstructor.
Qed.

(** Every stream can be opened on a disk with an empty data directory. *)
Lemma sample_paths : forallb (fun f => forallb (fun r => forallb (fun t =>
    negb (blank_path (stream_directory ["data"] f r t))) (seqZ 0 29)) (seqZ 0 7)) (seqZ 0 4) = true.
Proof. vm_compute. reflexivity. Qed.

Lemma sample_path k : known_key k -> blank_path (key_directory ["data"] k) = false.
Proof.
  unfold known_key, FLOOR_COUNT, ROOM_COUNT, SENSOR_ID_kWAh. intros (Hf & Hr & Ht).
  pose proof sample_paths as K. rewrite forallb_forall in K.
  specialize (K (floor k) ltac:(apply list_elem_of_In, elem_of_seqZ; lia)). rewrite forallb_forall in K.
  specialize (K (room k) ltac:(apply list_elem_of_In, elem_of_seqZ; lia)). rewrite forallb_forall in K.
  specialize (K (sensorType k) ltac:(apply list_elem_of_In, elem_of_seqZ; lia)). by apply negb_true_iff in K.
Qed.

Lemma sample_ready k : known_key k -> ready ["data"] (Config.DataStream sample_data_config) sample_root_fs k.
Proof.
  intros Hk. split; [split| |].
  - by apply Forall_nil.
  - by apply sample_path.
  - done.
  - done.
  - induction (ancestors _) as [|p l IH]; [done|]. cbn [existsb]. rewrite IH. unfold is_file.
    destruct (last p); [|done]. cbn [files sample_root_fs]. by rewrite lookup_empty.
  - intros i. cbn [dirs sample_root_fs]. rewrite elem_of_singleton. intros [=].
  - intros i z Hi. cbn [files sample_root_fs] in Hi. by rewrite lookup_empty in Hi.
  - intros i _. apply lookup_empty.
  - intros i z Hi. cbn [files sample_root_fs] in Hi. by rewrite lookup_empty in Hi.
  - apply lookup_empty.
Qed.

(** Two streams, three records, the workers in between, and [Close]. *)
Definition closing_of (h : nat) : list storage_action :=
  [OnStream h DataStream.AClose; OnStream h DataStream.AClose; OnStream h DataStream.AClose;
   OnStream h DataStream.AClose].
Definition sample_storage_run (first second : nat) : list storage_action :=
  [CallWrite sample_key; CallWrite sample_key2; CallWrite sample_key; GetStream 0; GetStream 1; GetStream 2;
   CallStream 1 (mkSensorData 2 20); CallStream 0 (mkSensorData 1 10); CallStream 0 (mkSensorData 3 30);
   OnStream 1 (ASend 0); OnStream 0 (ASend 1); OnStream 0 AReceive; OnStream 0 (ASend 0); OnStream 1 (ACount 0);
   OnStream 0 AAttempt; OnStream 1 AReceive; OnStream 0 (ACount 0); OnStream 1 AAttempt; OnStream 0 (ACount 0);
   OnStream 0 AReceive; OnStream 0 AAttempt; OnStream 1 ATick; CallClose; TakeStreams]
  ++ closing_of first ++ [OnStream first AReceive; StreamClosed]
  ++ closing_of second ++ [OnStream second AReceive; StreamClosed; CloseReturns].

Definition sample_storage : option (list storage_event * DataEngine.DataEngine (H := nat) (E := Disk)) :=
  storage_steps ["data"] (Config.DataStream sample_data_config) (sample_storage_run 1 0)
    (NewDataEngine (mkDisk [] sample_root_fs)).

Lemma storage_durable_witness :
  exists tr s, sample_storage = Some (tr, s) /\ DataEngine.closing s = CloseReturned /\
    holds ["data"] sample_root_fs (disk (env s)) sample_key [mkSensorData 3 30; mkSensorData 1 10].
Proof.
  assert ((fun p => (match DataEngine.closing p.2 with CloseReturned => true | _ => false end, length p.1, streams p.2 !! sample_key,
             sent (stream_events 0 p.1))) <$> sample_storage =
          Some (true, 17%nat, Some 0%nat, [mkSensorData 3 30; mkSensorData 1 10])) as H by (vm_compute; reflexivity).
  destruct sample_storage as [[tr s]|] eqn:E; [|done]. cbn [fmap option_fmap option_map fst snd] in H.
  injection H as Hcl Hlen Hh Hs. exists tr, s. split; [reflexivity|].
  assert (DataEngine.closing s = CloseReturned) as Hc by by destruct (DataEngine.closing s).
  split; [exact Hc|].
  destruct (storage_durable ["data"] sample_data_config sample_root_fs tr s) as (_ & _ & K).
  - apply validateConfig_None. vm_compute. reflexivity.
  - by apply Forall_nil.
  - apply sample_ready.
  - apply (storage_steps_reachable ["data"] _ sample_root_fs (sample_storage_run 1 0) [] _ tr s (storage_init _ _ _)).
    + repeat constructor; by vm_compute.
    + exact E.
  - rewrite Hlen. done.
  - specialize (K Hc sample_key). rewrite Hh, Hs in K. apply K. repeat split; by vm_compute.
Defined.
