(* ===== verification/Router.v ===== *)
(** * Router: from messages to records

    Model of [src/sensor-server/router.go]: the configuration registry, whose
    snapshot is replaced atomically on a reload, and the router, which writes
    the records of a known device to the data writer and quarantines the
    messages of an unknown one.  The two writers are interfaces; a context is
    part of the environment and may make any of their calls fail. *)

From S2P Require Import Prelude GoRuntime GoStrings House DataFile Config BinaryData Protocol.
Open Scope Z_scope.

(** ** Data *)

(** [src/sensor-server/router.go:15-15] Transport *)
Abbreviation Transport := Z.
(** [src/sensor-server/router.go:18-18] TransportUnknown *)
Definition TransportUnknown : Transport := 0.
(** [src/sensor-server/router.go:19-19] TransportTCP *)
Definition TransportTCP : Transport := 1.
(** [src/sensor-server/router.go:20-20] TransportUDP *)
Definition TransportUDP : Transport := 2.

(** [src/sensor-server/router.go:53-57] UnknownMessage *)
Record UnknownMessage : Type := mkUnknownMessage {
  um_Timestamp : Z; um_Transport : Transport; um_Message : Message }.

(** [src/sensor-server/router.go:49-51] SensorDataWriter *)
Class SensorDataWriter (D : Type) : Type :=
  WriteSensorData : FloorType -> RoomType -> SensorType -> Z -> Z -> M D unit.

(** [src/sensor-server/router.go:59-61] UnknownMessageWriter *)
Class UnknownMessageWriter (U : Type) : Type :=
  WriteUnknownMessage : UnknownMessage -> M U unit.

(** [src/sensor-server/router.go:63-72] SensorObservation *)
Record SensorObservation : Type := mkObservation {
  ob_MAC : MACAddress; ob_Floor : FloorType; ob_Room : RoomType; ob_Transport : Transport;
  ob_SensorType : SensorType; ob_UnitType : UnitType; ob_Timestamp : Z; ob_Value : Z }.

(** [src/sensor-server/router.go:74-83] RouterCounters *)
Record RouterCounters : Type := mkRouterCounters {
  Messages : Z; Keepalives : Z; RecordsAccepted : Z; RecordsRejected : Z;
  UnknownDevices : Z; UnknownSensors : Z; QuarantineFailures : Z; DataEngineFailures : Z }.

Definition zero_counters : RouterCounters := mkRouterCounters 0 0 0 0 0 0 0 0.

(** The atomic additions of the router. *)
Definition add_message (c : RouterCounters) : RouterCounters :=
  mkRouterCounters (u64 (Messages c + 1)) (Keepalives c) (RecordsAccepted c) (RecordsRejected c)
    (UnknownDevices c) (UnknownSensors c) (QuarantineFailures c) (DataEngineFailures c).
Definition add_keepalive (c : RouterCounters) : RouterCounters :=
  mkRouterCounters (Messages c) (u64 (Keepalives c + 1)) (RecordsAccepted c) (RecordsRejected c)
    (UnknownDevices c) (UnknownSensors c) (QuarantineFailures c) (DataEngineFailures c).
Definition add_accepted (c : RouterCounters) : RouterCounters :=
  mkRouterCounters (Messages c) (Keepalives c) (u64 (RecordsAccepted c + 1)) (RecordsRejected c)
    (UnknownDevices c) (UnknownSensors c) (QuarantineFailures c) (DataEngineFailures c).
Definition add_rejected (c : RouterCounters) : RouterCounters :=
  mkRouterCounters (Messages c) (Keepalives c) (RecordsAccepted c) (u64 (RecordsRejected c + 1))
    (UnknownDevices c) (UnknownSensors c) (QuarantineFailures c) (DataEngineFailures c).
Definition add_unknown_device (c : RouterCounters) : RouterCounters :=
  mkRouterCounters (Messages c) (Keepalives c) (RecordsAccepted c) (RecordsRejected c)
    (u64 (UnknownDevices c + 1)) (UnknownSensors c) (QuarantineFailures c) (DataEngineFailures c).
Definition add_unknown_sensor (c : RouterCounters) : RouterCounters :=
  mkRouterCounters (Messages c) (Keepalives c) (RecordsAccepted c) (RecordsRejected c)
    (UnknownDevices c) (u64 (UnknownSensors c + 1)) (QuarantineFailures c) (DataEngineFailures c).
Definition add_quarantine_failure (c : RouterCounters) : RouterCounters :=
  mkRouterCounters (Messages c) (Keepalives c) (RecordsAccepted c) (RecordsRejected c)
    (UnknownDevices c) (UnknownSensors c) (u64 (QuarantineFailures c + 1)) (DataEngineFailures c).
Definition add_engine_failure (c : RouterCounters) : RouterCounters :=
  mkRouterCounters (Messages c) (Keepalives c) (RecordsAccepted c) (RecordsRejected c)
    (UnknownDevices c) (UnknownSensors c) (QuarantineFailures c) (u64 (DataEngineFailures c + 1)).

(** ** The registry *)

(** [src/sensor-server/router.go:23-25] ConfigRegistry *)
Record ConfigRegistry : Type := mkRegistry { snapshot : ConfigSnapshot }.

(** [src/sensor-server/router.go:27-34] NewConfigRegistry *)
Definition NewConfigRegistry (s : option ConfigSnapshot) : error + ConfigRegistry :=
  match s with
  | None => inl (ErrText "new config registry: nil snapshot")
  | Some s => inr (mkRegistry s)
  end.

(** [src/sensor-server/router.go:36-38] ConfigRegistry.Snapshot *)
Definition Snapshot (r : ConfigRegistry) : ConfigSnapshot := snapshot r.

(** [src/sensor-server/router.go:40-47] ConfigRegistry.Reload; a nil candidate
    is refused by [ValidateReload] *)
Definition Reload (candidate : option ConfigSnapshot) : M ConfigRegistry unit := fun r =>
  match ValidateReload (snapshot r) candidate, candidate with
  | Some err, _ => (Fail err, r)
  | None, Some s => (Ret tt, mkRegistry s)
  | None, None => (Ret tt, r)
  end.

(** ** The router *)

Section router.
Context {D U : Type} `{!SensorDataWriter D} `{!UnknownMessageWriter U}.

(** [src/sensor-server/router.go:85-99] MessageRouter, with its two writers;
    [observing] says that the observation callback is set, and [observed] are
    its calls *)
Record MessageRouter : Type := mkRouter {
  registry : ConfigRegistry;
  dataWriter : D;
  unknown : U;
  counters : RouterCounters;
  observing : bool;
  observed : list SensorObservation }.

(** [src/sensor-server/router.go:101-112] NewMessageRouter (nil arguments
    cannot be expressed) *)
Definition NewMessageRouter (r : ConfigRegistry) (d : D) (u : U) : MessageRouter :=
  mkRouter r d u zero_counters false [].

Definition count (f : RouterCounters -> RouterCounters) : M MessageRouter unit :=
  modify (fun s => mkRouter (registry s) (dataWriter s) (unknown s) (f (counters s))
                     (observing s) (observed s)).
Definition observe (o : SensorObservation) : M MessageRouter unit :=
  modify (fun s => if observing s
                   then mkRouter (registry s) (dataWriter s) (unknown s) (counters s) (observing s)
                          (observed s ++ [o])
                   else s).
Definition on_data {A} (m : M D A) : M MessageRouter A :=
  zoom dataWriter (fun d s => mkRouter (registry s) d (unknown s) (counters s) (observing s)
                                (observed s)) m.
Definition on_unknown {A} (m : M U A) : M MessageRouter A :=
  zoom unknown (fun u s => mkRouter (registry s) (dataWriter s) u (counters s) (observing s)
                             (observed s)) m.

(** [src/sensor-server/router.go:175-179] cloneMessage: fresh slices with the
    same elements, values here *)
Definition cloneMessage (m : Message) : Message := mkMessage (Header m) (Payload m) (Sensors m).

(** [src/sensor-server/router.go:136-159] Route, the body of the loop over the
    records; the result is the joined error so far *)
Definition route_record (snap : ConfigSnapshot) (mac : MACAddress) (device : Device)
    (transport : Transport) (timestamp : Z) (result : option error) (record : SensorRecord)
    : M MessageRouter (option error) :=
  match snapshot_Sensor snap (RType record) with
  | None =>
      count add_unknown_sensor;; count add_rejected;;
      mret (errors_Join [result; Some (ErrWrap "sensor ID" (ErrNew ErrUnknownSensor))])
  | Some sensor =>
      observe (mkObservation mac (d_Floor device) (d_Room device) transport (RType record)
                 (sd_Unit sensor) timestamp (RValue record));;
      err ← attempt_err (on_data (WriteSensorData (d_Floor device) (d_Room device)
                                    (sd_Type sensor) timestamp (RValue record)));
      match err with
      | Some e =>
          count add_engine_failure;; count add_rejected;;
          mret (errors_Join [result; Some (ErrWrap "write floor room sensor" e)])
      | None => count add_accepted;; mret result
      end
  end.

Fixpoint route_records (snap : ConfigSnapshot) (mac : MACAddress) (device : Device)
    (transport : Transport) (timestamp : Z) (records : list SensorRecord) (result : option error)
    : M MessageRouter (option error) :=
  match records with
  | [] => mret result
  | record :: records =>
      result ← route_record snap mac device transport timestamp result record;
      route_records snap mac device transport timestamp records result
  end.

(** [src/sensor-server/router.go:114-160] Route *)
Definition Route (transport : Transport) (timestamp : Z) (message : Message) : M MessageRouter unit :=
  count add_message;;
  (if bool_decide (Sensors message = []) then count add_keepalive else mret tt);;
  s ← get;
  let snap := Snapshot (registry s) in
  match snapshot_Device snap (MAC (Header message)) with
  | None =>
      count add_unknown_device;;
      err ← attempt_err (on_unknown (WriteUnknownMessage
                           (mkUnknownMessage timestamp transport (cloneMessage message))));
      match err with
      | Some e => count add_quarantine_failure;; fail (ErrWrap "quarantine message" e)
      | None => fail (ErrNew ErrUnknownDevice)
      end
  | Some device =>
      result ← route_records snap (MAC (Header message)) device transport timestamp
                 (Sensors message) None;
      return_err result
  end.

(** [src/sensor-server/router.go:162-173] Counters *)
Definition Counters (s : MessageRouter) : RouterCounters := counters s.
End router.
Arguments MessageRouter D U : clear implicits.

(** ** Specification

    What a message amounts to under a snapshot: the observations and the
    writes of its known sensors, in order; and the data writer after them,
    with the errors it returned. *)

Definition known_records (snap : ConfigSnapshot) (l : list SensorRecord)
    : list (SensorRecord * SensorDefinition) :=
  omap (fun r => (r,.) <$> snapshot_Sensor snap (RType r)) l.

Fixpoint write_each {D} `{!SensorDataWriter D} (device : Device) (timestamp : Z)
    (l : list (SensorRecord * SensorDefinition)) (d : D) : list error * D :=
  match l with
  | [] => ([], d)
  | (r, sensor) :: l =>
      let '(res, d) := WriteSensorData (d_Floor device) (d_Room device) (sd_Type sensor)
                         timestamp (RValue r) d in
      let '(errs, d) := write_each device timestamp l d in
      (match res with Fail e => e :: errs | _ => errs end, d)
  end.

Definition observation (mac : MACAddress) (device : Device) (transport : Transport) (timestamp : Z)
    (p : SensorRecord * SensorDefinition) : SensorObservation :=
  mkObservation mac (d_Floor device) (d_Room device) transport (RType p.1) (sd_Unit p.2) timestamp
    (RValue p.1).

(** ** Lemmas *)

Section routing.
Context {D U : Type} `{!SensorDataWriter D} `{!UnknownMessageWriter U}.

(** The writers return: they do not panic. *)
Context (data_returns : forall f r t ts v (d : D) p, (WriteSensorData f r t ts v d).1 <> Panic p).
Context (unknown_returns : forall m (u : U) p, (WriteUnknownMessage m u).1 <> Panic p).
Implicit Types s : MessageRouter D U.

(** Counters that differ by the outcome of some records. *)
Record counted (c c' : RouterCounters) (ok failed missing : nat) : Prop := mkCounted {
  ct_messages : Messages c' = Messages c;
  ct_keepalives : Keepalives c' = Keepalives c;
  ct_devices : UnknownDevices c' = UnknownDevices c;
  ct_quarantine : QuarantineFailures c' = QuarantineFailures c;
  ct_accepted : u64 (RecordsAccepted c') = u64 (RecordsAccepted c + Z.of_nat ok);
  ct_rejected : u64 (RecordsRejected c') = u64 (RecordsRejected c + Z.of_nat (failed + missing));
  ct_sensors : u64 (UnknownSensors c') = u64 (UnknownSensors c + Z.of_nat missing);
  ct_engine : u64 (DataEngineFailures c') = u64 (DataEngineFailures c + Z.of_nat failed) }.

Lemma counted_refl c : counted c c 0 0 0.
Proof. by constructor; rewrite ?Z.add_0_r. Qed.

Lemma u64_step a b n : u64 a = u64 (u64 (b + 1) + Z.of_nat n) -> u64 a = u64 (b + Z.of_nat (S n)).
Proof. intros ->. rewrite wrapu_add_l. f_equal. lia. Qed.

Lemma counted_accepted c c' ok failed missing :
  counted (add_accepted c) c' ok failed missing -> counted c c' (S ok) failed missing.
Proof. intros [? ? ? ? Ha ? ? ?]. constructor; try done. by apply u64_step in Ha. Qed.

Lemma counted_failed c c' ok failed missing :
  counted (add_rejected (add_engine_failure c)) c' ok failed missing ->
  counted c c' ok (S failed) missing.
Proof.
  intros [? ? ? ? ? Hr ? He]. constructor; try done; [by apply u64_step in Hr|by apply u64_step in He].
Qed.

Lemma counted_missing c c' ok failed missing :
  counted (add_rejected (add_unknown_sensor c)) c' ok failed missing ->
  counted c c' ok failed (S missing).
Proof.
  intros [? ? ? ? ? Hr Hs ?]. constructor; try done; [|by apply u64_step in Hs].
  replace (failed + S missing)%nat with (S (failed + missing)) by lia. by apply u64_step in Hr.
Qed.

(** What the loop over some records does to the router. *)
Section summary.
Context (snap : ConfigSnapshot) (mac : MACAddress) (device : Device) (tr : Transport) (ts : Z).

Record summary (records : list SensorRecord) (result : option error) s
    (res : option error) s' : Prop := mkSummary {
  sm_registry : registry s' = registry s;
  sm_unknown : unknown s' = unknown s;
  sm_observing : observing s' = observing s;
  sm_data : dataWriter s' = (write_each device ts (known_records snap records) (dataWriter s)).2;
  sm_observed : observed s' = observed s ++
    (if observing s then map (observation mac device tr ts) (known_records snap records) else []);
  sm_counted : exists ok failed missing,
    failed = length (write_each device ts (known_records snap records) (dataWriter s)).1 /\
    (ok + failed = length (known_records snap records))%nat /\
    (ok + failed + missing = length records)%nat /\
    counted (counters s) (counters s') ok failed missing /\
    (res = None <-> result = None /\ failed = 0%nat /\ missing = 0%nat) /\
    (err_Is result ErrUnknownSensor = true \/ missing <> 0%nat -> err_Is res ErrUnknownSensor = true) }.

Lemma summary_nil result s : summary [] result s result s.
Proof.
  constructor; try done.
  - cbn. destruct (observing s); by rewrite app_nil_r.
  - exists 0%nat, 0%nat, 0%nat. split_and!; try done; [apply counted_refl|intuition|].
    by intros [?|?].
Qed.

Lemma summary_missing r records result s res s' :
  snapshot_Sensor snap (RType r) = None ->
  summary records (errors_Join [result; Some (ErrWrap "sensor ID" (ErrNew ErrUnknownSensor))])
    (mkRouter (registry s) (dataWriter s) (unknown s) (add_rejected (add_unknown_sensor (counters s)))
       (observing s) (observed s)) res s' ->
  summary (r :: records) result s res s'.
Proof.
  intros Hs [H1 H2 H3 H4 H5 (ok & failed & missing & Hf & Hk & Hl & Hc & Hr & Hm)].
  assert (known_records snap (r :: records) = known_records snap records) as E
    by (unfold known_records; cbn; by rewrite Hs).
  constructor; rewrite ?E; try done. exists ok, failed, (S missing).
  split_and!; try done; [cbn [length]; lia|by apply counted_missing| |].
  - rewrite Hr. split; [|lia]. intros (H & _). by destruct result.
  - intros _. apply Hm. left. rewrite errors_Join_is. cbn. apply orb_true_r.
Qed.

Lemma summary_written r sn records result s res s' e d :
  snapshot_Sensor snap (RType r) = Some sn ->
  (WriteSensorData (d_Floor device) (d_Room device) (sd_Type sn) ts (RValue r) (dataWriter s)) =
    (match e with None => Ret tt | Some e => Fail e end, d) ->
  summary records
    (match e with None => result
     | Some e => errors_Join [result; Some (ErrWrap "write floor room sensor" e)] end)
    (mkRouter (registry s) d (unknown s)
       (match e with None => add_accepted (counters s)
        | Some _ => add_rejected (add_engine_failure (counters s)) end)
       (observing s)
       (observed s ++ (if observing s then [observation mac device tr ts (r, sn)] else []))) res s' ->
  summary (r :: records) result s res s'.
Proof.
  intros Hs Hw [H1 H2 H3 H4 H5 (ok & failed & missing & Hf & Hk & Hl & Hc & Hr & Hm)].
  assert (known_records snap (r :: records) = (r, sn) :: known_records snap records) as E
    by (unfold known_records; cbn; by rewrite Hs).
  cbn [registry unknown dataWriter observing observed counters] in *.
  assert (write_each device ts ((r, sn) :: known_records snap records) (dataWriter s) =
          (match e with None => [] | Some e => [e] end ++
             (write_each device ts (known_records snap records) d).1,
           (write_each device ts (known_records snap records) d).2)) as Ew.
  { cbn [write_each]. rewrite Hw. destruct (write_each device ts _ d). by destruct e. }
  constructor; rewrite ?E, ?Ew; try done.
  - rewrite H5, <- app_assoc. by destruct (observing s).
  - destruct e as [e|].
    + exists ok, (S failed), missing. cbn [fst app length]. rewrite Hf.
      split_and!; try done; try lia; [rewrite <- Hf; by apply counted_failed| |].
      * rewrite Hr. split; [|lia]. intros (H & _). by destruct result.
      * intros [H|H]; apply Hm; [left|by right]. rewrite errors_Join_is. cbn. by rewrite H.
    + exists (S ok), failed, missing. cbn [fst app length].
      split_and!; try done; try lia. by apply counted_accepted.
Qed.

Lemma route_records_summary records result s :
  exists res s', route_records snap mac device tr ts records result s = (Ret res, s') /\
    summary records result s res s'.
Proof.
  revert result s. induction records as [|r records IH]; intros result s; cbn [route_records].
  { exists result, s. split; [done|]. apply summary_nil. }
  unfold route_record. destruct (snapshot_Sensor snap (RType r)) as [sn|] eqn:Es.
  - pose proof (data_returns (d_Floor device) (d_Room device) (sd_Type sn) ts (RValue r) (dataWriter s)) as Hp.
    destruct (WriteSensorData (d_Floor device) (d_Room device) (sd_Type sn) ts (RValue r) (dataWriter s))
      as [w d] eqn:Ew.
    assert (exists e, w = match e with None => Ret tt | Some e => Fail e end) as [e ->].
    { destruct w as [[]|e|p]; [by exists None|by exists (Some e)|by destruct (Hp p)]. }
    edestruct IH as (res & s' & E & Hsum). exists res, s'. split; [|by eapply summary_written].
    rewrite <- E. unfold mbind, M_bind, observe, modify, attempt_err, on_data, zoom, count, mret, M_ret.
    destruct (observing s) eqn:Eo; cbn [dataWriter]; rewrite Ew; rewrite ?app_nil_r;
      destruct e; cbn; by rewrite ?Eo.
  - edestruct IH as (res & s' & E & Hsum). exists res, s'. split; [|by eapply summary_missing].
    rewrite <- E. done.
Qed.
End summary.

(** ** Properties: routing *)

Definition started (m : Message) (c : RouterCounters) : RouterCounters :=
  (if bool_decide (Sensors m = []) then add_keepalive else id) (add_message c).

(** C12. The message of a known device: its records whose sensor is configured
    are written to the data writer, in order and with the device's floor and
    room, all of them even when some fail, and observed when a callback is
    set; nothing is quarantined; every record is counted as accepted or as
    rejected; and the call succeeds exactly when every record was written,
    otherwise its error tells whether a sensor was unknown. *)
Theorem Route_known_device tr ts m s device :
  let snap := Snapshot (registry s) in
  let known := known_records snap (Sensors m) in
  let '(errs, d) := write_each device ts known (dataWriter s) in
  snapshot_Device snap (MAC (Header m)) = Some device ->
  exists r s' missing ok,
    Route tr ts m s = (r, s') /\ (forall p, r <> Panic p) /\
    registry s' = registry s /\ unknown s' = unknown s /\ dataWriter s' = d /\
    observed s' = observed s ++
      (if observing s then map (observation (MAC (Header m)) device tr ts) known else []) /\
    (r = Ret tt <-> errs = [] /\ length known = length (Sensors m)) /\
    (missing <> 0%nat -> exists e, r = Fail e /\ errors_Is e ErrUnknownSensor = true) /\
    (ok + length errs + missing = length (Sensors m))%nat /\
    (ok + length errs = length known)%nat /\
    counted (started m (counters s)) (Counters s') ok (length errs) missing.
Proof.
  cbv zeta. destruct (write_each device ts _ (dataWriter s)) as [errs d] eqn:Ew. intros Hd.
  unfold Route. set (s1 := mkRouter (registry s) (dataWriter s) (unknown s) (started m (counters s))
    (observing s) (observed s)).
  destruct (route_records_summary (Snapshot (registry s)) (MAC (Header m)) device tr ts (Sensors m) None s1)
    as (res & s' & E & [H1 H2 H3 H4 H5 (ok & failed & missing & Hf & Hk & Hl & Hc & Hr & Hm)]).
  cbn [registry unknown dataWriter observing observed counters s1] in *. rewrite Ew in *.
  cbn [fst snd] in *. subst failed.
  exists (match res with None => Ret tt | Some e => Fail e end), s', missing, ok.
  split.
  { unfold mbind, M_bind, count, modify, get. cbn [registry].
    destruct (bool_decide (Sensors m = [])) eqn:Eb; unfold mret, M_ret;
      cbn [registry dataWriter unknown counters observing observed]; rewrite Hd;
      unfold s1, started in E; rewrite Eb in E; cbn [id] in E; rewrite E; by destruct res. }
  split_and!; try done.
  - by destruct res.
  - transitivity (res = None); [by destruct res|]. rewrite Hr.
    split; [intros (_ & Hz & ->); split; [by apply length_zero_nil|lia]|].
    intros [-> He]. split_and!; [done..|]. cbn [length] in *. lia.
  - intros Hne. specialize (Hm (or_intror Hne)). destruct res as [e|]; [|done]. eauto.
Qed.

(** C28. The message of an unknown device: the whole message goes to the
    quarantine once, with its transport and time, and to nothing else; the
    call fails with [ErrUnknownDevice], or with the error of the quarantine,
    which is counted. *)
Theorem Route_unknown_device tr ts m s :
  snapshot_Device (Snapshot (registry s)) (MAC (Header m)) = None ->
  let '(w, u) := WriteUnknownMessage (mkUnknownMessage ts tr m) (unknown s) in
  let c := add_unknown_device (started m (counters s)) in
  Route tr ts m s =
    (match w with
     | Ret _ => Fail (ErrNew ErrUnknownDevice)
     | Fail e => Fail (ErrWrap "quarantine message" e)
     | Panic p => Panic p
     end,
     mkRouter (registry s) (dataWriter s) u
       (match w with Fail _ => add_quarantine_failure c | _ => c end) (observing s) (observed s)).
Proof.
  intros Hd. unfold Route, started, mbind, M_bind, count, modify, get, attempt_err, on_unknown, zoom.
  assert (cloneMessage m = m) as Hc by by destruct m.
  destruct (WriteUnknownMessage (mkUnknownMessage ts tr m) (unknown s)) as [w u] eqn:Ew.
  destruct (bool_decide (Sensors m = [])); cbn [registry]; unfold mret, M_ret; cbn [registry];
    rewrite Hd; cbn [unknown]; rewrite Hc, Ew; by destruct w as [[]|e|p].
Qed.
End routing.

(** Reload calls in sequence, their errors ignored. *)
Fixpoint reload_all (l : list (option ConfigSnapshot)) (r : ConfigRegistry) : ConfigRegistry :=
  match l with
  | [] => r
  | c :: l => reload_all l (Reload c r).2
  end.

Lemma Reload_cases c r :
  (exists s, c = Some s /\ Reload c r = (Ret tt, mkRegistry s) /\
     configsEqual (without_devices (config (snapshot r))) (without_devices (config s)) = true) \/
  (exists e, Reload c r = (Fail e, r)).
Proof.
  unfold Reload, ValidateReload. destruct c as [s|]; [|right; eauto].
  destruct (configsEqual _ _) eqn:E; cbn [negb]; [left|right]; eauto.
Qed.

Lemma configsEqual_trans a b c :
  configsEqual a b = true -> configsEqual b c = true -> configsEqual a c = true.
Proof.
  unfold configsEqual. rewrite !bool_decide_eq_true. congruence.
Qed.

(** Reloading is all or nothing and confined to the devices: whatever
    candidates are offered, the registry always holds the first snapshot or
    one of the candidates, and its configuration outside the device registry
    is the one the program started with; a refused candidate changes
    nothing. *)
Theorem registry_reloads l r :
  (snapshot (reload_all l r) = snapshot r \/ Some (snapshot (reload_all l r)) ∈ l) /\
  configsEqual (without_devices (config (snapshot r)))
    (without_devices (config (Snapshot (reload_all l r)))) = true /\
  forall c, (exists e, Reload c r = (Fail e, r)) \/
    (exists s, c = Some s /\ Reload c r = (Ret tt, mkRegistry s)).
Proof.
  split; [|split].
  - revert r. induction l as [|c l IH]; intros r; cbn [reload_all]; [by left|].
    destruct (Reload_cases c r) as [(s & -> & -> & _)|(e & ->)]; cbn [snd].
    + destruct (IH (mkRegistry s)) as [->|?]; right; [by left|by right].
    + destruct (IH r) as [->|?]; [by left|right; by right].
  - unfold Snapshot. revert r. induction l as [|c l IH]; intros r; cbn [reload_all].
    { by apply bool_decide_eq_true_2. }
    destruct (Reload_cases c r) as [(s & -> & -> & E)|(e & ->)]; cbn [snd]; [|apply IH].
    eapply configsEqual_trans; [exact E|]. apply (IH (mkRegistry s)).
  - intros c. destruct (Reload_cases c r) as [(s & -> & -> & _)|(e & ->)]; eauto.
Qed.

(** ** Concrete runs *)

(** Writers that record their calls; the data writer refuses values below
    zero. *)
Definition data_log : Type := list (FloorType * RoomType * SensorType * Z * Z).
#[local] Instance refusing : SensorDataWriter data_log := fun f r t ts v d =>
  if v <? 0 then (Fail (ErrNew ErrDataStreamFull), d) else (Ret tt, d ++ [(f, r, t, ts, v)]).
#[local] Instance keeping : UnknownMessageWriter (list UnknownMessage) := fun m u => (Ret tt, u ++ [m]).

Lemma refusing_returns f r t ts v (d : data_log) p : (WriteSensorData f r t ts v d).1 <> Panic p.
Proof. unfold WriteSensorData, refusing. by destruct (v <? 0). Qed.

Definition sample_snapshot : ConfigSnapshot :=
  mkConfigSnapshot (sample_config [sample_device])
    {[ sample_address := mkDevice sample_address FLOOR_FIRST ROOM_KITCHEN ]}
    {[ SENSOR_ID_TEMPERATURE := mkSensorDefinition SENSOR_ID_TEMPERATURE 1 ]}.
Definition sample_router : MessageRouter data_log (list UnknownMessage) :=
  NewMessageRouter (mkRegistry sample_snapshot) [] [].
Definition sample_records : list SensorRecord :=
  [mkSensorRecord SENSOR_ID_TEMPERATURE 21; mkSensorRecord SENSOR_ID_POWER 5;
   mkSensorRecord SENSOR_ID_TEMPERATURE (-3); mkSensorRecord SENSOR_ID_TEMPERATURE 22].
Definition sample_message (mac : MACAddress) : Message :=
  mkMessage (mkHeader MessageMagic MessageTypeSensorData 16 mac 0) [] sample_records.

Lemma Route_known_device_witness :
  exists r s', Route
      TransportTCP 9 (sample_message sample_address) sample_router = (r, s') /\
    dataWriter s' = [(FLOOR_FIRST, ROOM_KITCHEN, SENSOR_ID_TEMPERATURE, 9, 21);
                     (FLOOR_FIRST, ROOM_KITCHEN, SENSOR_ID_TEMPERATURE, 9, 22)] /\
    unknown s' = [] /\ r <> Ret tt.
Proof.
  pose proof (Route_known_device refusing_returns TransportTCP 9 (sample_message sample_address) sample_router
    (mkDevice sample_address FLOOR_FIRST ROOM_KITCHEN)) as H.
  cbv zeta in H. match type of H with context [write_each ?a ?b ?c ?e] => destruct (write_each a b c e) as [errs d] eqn:Ew end.
  assert ((errs, d) = ([ErrNew ErrDataStreamFull],
    [(FLOOR_FIRST, ROOM_KITCHEN, SENSOR_ID_TEMPERATURE, 9, 21);
     (FLOOR_FIRST, ROOM_KITCHEN, SENSOR_ID_TEMPERATURE, 9, 22)])) as E
    by (rewrite <- Ew; vm_compute; reflexivity).
  destruct H as (r & s' & missing & ok & Er & _ & _ & Hu & Hd & _ & Hr & _);
    [vm_compute; reflexivity|].
  exists r, s'. split; [exact Er|]. injection E as E1 E2.
  split; [by rewrite Hd, E2|]. split; [exact Hu|]. intros Ht. apply Hr in Ht as [Ht _]. by rewrite E1 in Ht.
Defined.

Lemma Route_unknown_device_witness :
  Route
    TransportUDP 9 (sample_message zero_mac) sample_router =
  (Fail (ErrNew ErrUnknownDevice),
   mkRouter (mkRegistry sample_snapshot) [] [mkUnknownMessage 9 TransportUDP (sample_message zero_mac)]
     (mkRouterCounters 1 0 0 0 1 0 0 0) false []).
Proof.
  pose proof (Route_unknown_device
    TransportUDP 9 (sample_message zero_mac) sample_router) as H.
  apply H. vm_compute. reflexivity.
Defined.
