(* ===== verification/Quarantine.v ===== *)
(** * Quarantine: the messages of unknown devices

    Model of [src/sensor-server/quarantine.go]: the entry format (a CRC of
    the entry with its CRC field zeroed), the scan and the repair of a
    segment, the writer with its rotation, and the replay of the segments of
    earlier runs.  A decoder works in place on the bytes of the segment it was
    given: it zeroes the CRC field of the entry, and reads the payload through
    a slice expression, which is bounded by the capacity.  The spare capacity
    of the buffer of [io.ReadAll] is a parameter. *)

From S2P Require Import Prelude GoRuntime GoStrings House Platform DataFile Config BinaryData Crc32 Protocol Router.
Open Scope Z_scope.

(** ** Constants and data *)

(** [src/sensor-server/quarantine.go:19-19] cQuarantineMagic *)
Definition cQuarantineMagic : Z := 0x514D5347.
(** [src/sensor-server/quarantine.go:20-20] cQuarantineVersion *)
Definition cQuarantineVersion : Z := 1.
(** [src/sensor-server/quarantine.go:21-21] cQuarantineHeaderSize *)
Definition cQuarantineHeaderSize : Z := 30.
(** [src/sensor-server/quarantine.go:22-22] cQuarantineTrailerSize *)
Definition cQuarantineTrailerSize : Z := 4.
(** [src/sensor-server/quarantine.go:23-23] cQuarantineEntryMinimum *)
Definition cQuarantineEntryMinimum : Z := cQuarantineHeaderSize + cQuarantineTrailerSize.

(** [src/sensor-server/quarantine.go:31-36] QuarantineOptions *)
Record QuarantineOptions : Type := mkQuarantineOptions {
  Directory : dir_path; RotationSize : Z; DirectoryMode : Z; FileMode : Z }.

(** [src/sensor-server/quarantine.go:38-45] DefaultQuarantineOptions *)
Definition DefaultQuarantineOptions (directory : dir_path) : QuarantineOptions :=
  mkQuarantineOptions directory DefaultRotationSize 493 420.

(** [src/sensor-server/quarantine.go:47-55] QuarantineWriter *)
Record QuarantineWriter : Type := mkQuarantineWriter {
  options : QuarantineOptions;
  file : option file_path;
  sequence : Z;
  size : Z;
  closed : bool }.

(** [src/sensor-server/quarantine.go:167-172] ReplayCounters *)
Record ReplayCounters : Type := mkReplayCounters {
  SegmentsCompleted : Z; MessagesReplayed : Z; MessagesCarried : Z; RecordsWritten : Z }.

(** ** Entries *)

(** [src/sensor-server/quarantine.go:226-256] encodeQuarantineEntry *)
Definition encodeQuarantineEntry (message : UnknownMessage) : res (list byte) :=
  if negb (um_Transport message =? TransportTCP) && negb (um_Transport message =? TransportUDP)
  then Fail (ErrWrap "encode quarantine: transport" (ErrNew ErrInvalidQuarantineEntry)) else
  let header := Header (um_Message message) in
  let payload := Payload (um_Message message) in
  let size := Z.of_nat (length payload) in
  if negb (size =? PayloadLength header) || (MaximumPayloadSize <? size)
  then Fail (ErrWrap "encode quarantine: payload length" (ErrNew ErrInvalidQuarantineEntry)) else
  let totalLength := cQuarantineEntryMinimum + size in
  let '(r, d) := (
    WriteUint32 cQuarantineMagic;;
    WriteUint16 cQuarantineVersion;;
    WriteUint32 0;;
    WriteUint32 (u32 totalLength);;
    WriteUint64 (u64 (um_Timestamp message));;
    WriteUint8 (u8 (um_Transport message));;
    WriteUint8 0;;
    WriteUint16 (u16 (HType header));;
    WriteBytes (mac_bytes (MAC header));;
    WriteUint16 (u16 size);;
    WriteBytes payload;;
    d ← get;
    WriteUint32At (ChecksumIEEE (slice_data (buf d))) 6)
    (mkBinaryData (slice_of (replicate (Z.to_nat totalLength) Byte.x00)) 0) in
  match r with
  | Ret _ => Ret (slice_data (buf d))
  | Fail e => Fail e
  | Panic p => Panic p
  end.

(** The fields of an entry, in the order they are read. *)
Record entry_fields : Type := mkEntryFields {
  ef_magic : Z; ef_version : Z; ef_crc : Z; ef_length : Z; ef_time : Z; ef_transport : Z;
  ef_type : Z; ef_mac : MACAddress; ef_payload : Z }.

(** [src/sensor-server/quarantine.go:263-273] decodeQuarantineEntry, the reads *)
Definition read_fields : M BinaryData entry_fields :=
  magic ← ReadUint32;
  version ← ReadUint16;
  crc ← ReadUint32;
  encodedLength ← ReadUint32;
  time ← ReadUint64;
  transport ← ReadUint8;
  ReadUint8;;
  type ← ReadUint16;
  mac ← ReadMAC;
  payloadLength ← ReadUint16;
  mret (mkEntryFields magic version crc encodedLength time transport type mac payloadLength).

(** [src/sensor-server/quarantine.go:258-305] decodeQuarantineEntry; the
    state is the slice it was given, whose bytes it modifies *)
Definition decodeQuarantineEntry : M slice UnknownMessage := fun encoded =>
  if slice_len encoded <? cQuarantineEntryMinimum
  then (Fail (ErrNew ErrInvalidQuarantineEntry), encoded) else
  let '(r, d) := (
    f ← read_fields;
    if negb (ef_magic f =? cQuarantineMagic) || negb (ef_version f =? cQuarantineVersion)
    then fail (ErrNew ErrInvalidQuarantineEntry) else
    if negb (ef_length f =? u32 (slice_len encoded)) || (MaximumPayloadSize <? ef_payload f)
    then fail (ErrNew ErrInvalidQuarantineEntry) else
    if negb (ef_transport f =? TransportTCP) && negb (ef_transport f =? TransportUDP)
    then fail (ErrNew ErrInvalidQuarantineEntry) else
    WriteUint32At 0 6;;
    d ← get;
    if negb (ChecksumIEEE (slice_data (buf d)) =? ef_crc f)
    then fail (ErrWrap "quarantine checksum" (ErrNew ErrInvalidQuarantineEntry)) else
    payload ← ReadBytes (ef_payload f);
    let header := mkHeader MessageMagic (ef_type f) (ef_payload f) (ef_mac f) (ChecksumIEEE payload) in
    message ← wrap_err "decode quarantined message" (lift (DecodeMessage header (slice_of payload)));
    mret (mkUnknownMessage (i64 (ef_time f)) (ef_transport f) message))
    (mkBinaryData encoded 0) in
  (r, buf d).

(** [decodeQuarantineEntry(data[lo:hi])]: the entry shares its bytes with the
    segment, and has its spare capacity. *)
Definition decode_at (lo hi : Z) : M slice UnknownMessage := fun data =>
  match slice_expr data lo hi with
  | None => (Panic PanicIndex, data)
  | Some entry =>
      let '(r, entry') := decodeQuarantineEntry entry in
      (r, Slice (take (Z.to_nat lo) (arr data) ++ arr entry') (len data))
  end.

(** [binary.LittleEndian.Uint32(data[lo:lo+4])] *)
Definition uint32_at (lo : Z) : M slice Z := fun data =>
  match slice_expr data lo (lo + 4) with
  | Some s => (Ret (le_get (slice_data s)), data)
  | None => (Panic PanicIndex, data)
  end.

(** [src/sensor-server/quarantine.go:366-386] scanQuarantineEntries, the loop
    from an offset; every entry has 34 bytes at least *)
Fixpoint scan_loop (fuel : nat) (offset : Z) : M slice Z :=
  match fuel with
  | O => mret offset
  | S fuel =>
      data ← get;
      if negb (offset <? slice_len data) then mret (slice_len data) else
      let remaining := slice_len data - offset in
      if remaining <? cQuarantineHeaderSize then mret offset else
      magic ← uint32_at offset;
      if negb (magic =? cQuarantineMagic) then fail (ErrNew ErrInvalidQuarantineEntry) else
      length ← uint32_at (offset + 10);
      if (length <? cQuarantineEntryMinimum) ||
         (cQuarantineEntryMinimum + MaximumPayloadSize <? length)
      then fail (ErrNew ErrInvalidQuarantineEntry) else
      if remaining <? length then mret offset else
      decode_at offset (offset + length);;
      scan_loop fuel (offset + length)
  end.

(** [src/sensor-server/quarantine.go:365-387] scanQuarantineEntries *)
Definition scanQuarantineEntries : M slice Z :=
  data ← get;
  scan_loop (S (len data)) 0.

(** [src/sensor-server/quarantine.go:353-361] readQuarantineEntries, the loop;
    a length of zero would repeat the same entry for ever, but an entry of
    zero bytes does not decode *)
Fixpoint read_entries_loop (fuel : nat) (offset : Z) : M slice (list UnknownMessage) :=
  match fuel with
  | O => mret []
  | S fuel =>
      data ← get;
      if negb (offset <? slice_len data) then mret [] else
      length ← uint32_at (offset + 10);
      entry ← wrap_err "decode quarantine entry" (decode_at offset (offset + length));
      entries ← read_entries_loop fuel (offset + length);
      mret (entry :: entries)
  end.

(** ** Segment names *)

(** [src/sensor-server/quarantine.go:420-422] quarantineSegmentName *)
Definition quarantineSegmentName (sequence : Z) : string :=
  of_chars (chars "quarantine-" ++ format_0d 8 sequence ++ chars ".bin").

(** [src/sensor-server/quarantine.go:424-432] parseQuarantineSegmentName *)
Definition parseQuarantineSegmentName (name : string) : option Z :=
  let cs := chars name in
  let prefix := chars "quarantine-" in
  let suffix := chars ".bin" in
  if negb (has_prefix cs prefix) || negb (has_suffix cs suffix) ||
     negb (bool_decide (length cs = length prefix + 8 + length suffix)%nat)
  then None
  else match ParseUint 64 (take 8 (drop (length prefix) cs)) with
       | Some sequence => if firstSegmentSequence <=? sequence then Some sequence else None
       | None => None
       end.

(** ** Files *)

Section files.
(** The bytes of the buffer that [io.ReadAll] returns, beyond its length. *)
Context (spare : list byte -> list byte).

(** [src/sensor-server/quarantine.go:389-396] readAllFile *)
Definition readAllFile (path : file_path) : M FS slice :=
  wrap_err "open" (OpenFile path readWriteFlags);;
  data ← attempt (file_ReadAll path);
  closeErr ← attempt_err (file_Close path);
  match data with
  | inl c =>
      match errors_Join [None; closeErr] with
      | Some e => fail e
      | None => mret (Slice (c ++ spare c) (length c))
      end
  | inr readErr =>
      match errors_Join [Some readErr; closeErr] with Some e => fail e | None => fail readErr end
  end.

(** [src/sensor-server/quarantine.go:328-345] repairQuarantineTail *)
Definition repairQuarantineTail (path : file_path) : M FS unit :=
  data ← readAllFile path;
  validLength ← wrap_err "scan quarantine segment" (lift (result (scanQuarantineEntries data)));
  if validLength =? slice_len data then mret tt else
  OpenFile path readWriteFlags;;
  e1 ← attempt_err (file_Truncate path validLength);
  e2 ← attempt_err (file_Sync path);
  e3 ← attempt_err (file_Close path);
  return_err (errors_Join [e1; e2; e3]).

(** [src/sensor-server/quarantine.go:347-363] readQuarantineEntries *)
Definition readQuarantineEntries (path : file_path) : M FS (list UnknownMessage) :=
  data ← readAllFile path;
  lift (result (read_entries_loop (S (len data)) 0 data)).

(** [src/sensor-server/quarantine.go:307-310] quarantineSegment: a sequence and
    a path *)
Definition quarantineSegment : Type := Z * file_path.

Definition segment_le (a b : quarantineSegment) : Prop := a.1 <= b.1.
#[export] Instance segment_le_dec : RelDecision segment_le.
Proof. intros a b. unfold segment_le. apply _. Defined.

(** [src/sensor-server/quarantine.go:312-326] discoverQuarantineSegments *)
Definition discoverQuarantineSegments (directory : dir_path) : M FS (list quarantineSegment) :=
  entries ← wrap_err "read quarantine directory" (ReadDir directory);
  mret (merge_sort segment_le
    (omap (fun e : dir_entry =>
       match parseQuarantineSegmentName e.1 with
       | Some sequence => if e.2 then None else Some (sequence, (directory, e.1))
       | None => None
       end) entries)).

Definition with_suffix (p : file_path) (suffix : string) : file_path := (p.1, p.2 +:+ suffix).
Definition complete_text : list byte := string_bytes "complete" ++ [Byte.x0a].

(** [src/sensor-server/quarantine.go:398-413] markQuarantineSegmentComplete *)
Definition markQuarantineSegmentComplete (path : file_path) : M FS unit :=
  let temporary := with_suffix path ".done.tmp" in
  let marker := with_suffix path ".done" in
  OpenFile temporary createTruncateReadWriteFlags;;
  e ← (fun fs => let '((_, e), fs) := file_Write temporary complete_text fs in (Ret e, fs));
  match e with
  | Some err => attempt_err (file_Close temporary);; fail err
  | None =>
      e1 ← attempt_err (file_Sync temporary);
      e2 ← attempt_err (file_Close temporary);
      match errors_Join [e1; e2] with
      | Some err => fail err
      | None => Rename temporary marker
      end
  end.

(** [src/sensor-server/quarantine.go:415-418] quarantineSegmentComplete *)
Definition quarantineSegmentComplete (path : file_path) : M FS bool :=
  r ← attempt_err (Stat (with_suffix path ".done");; mret tt);
  mret (bool_decide (r = None)).

(** ** The writer *)

Abbreviation QSt := (QuarantineWriter * FS)%type.

Definition q_fsop {A} (m : M FS A) : M QSt A := zoom snd (fun fs s => (s.1, fs)) m.
Definition q_update (g : QuarantineWriter -> QuarantineWriter) : M QSt unit :=
  modify (fun s => (g s.1, s.2)).
Definition q_set_file (p : option file_path) (w : QuarantineWriter) : QuarantineWriter :=
  mkQuarantineWriter (options w) p (sequence w) (size w) (closed w).
Definition q_set_size (n : Z) (w : QuarantineWriter) : QuarantineWriter :=
  mkQuarantineWriter (options w) (file w) (sequence w) n (closed w).
Definition q_next (w : QuarantineWriter) : QuarantineWriter :=
  mkQuarantineWriter (options w) (file w) (u64 (sequence w + 1)) 0 (closed w).
Definition q_set_closed (w : QuarantineWriter) : QuarantineWriter :=
  mkQuarantineWriter (options w) (file w) (sequence w) (size w) true.

(** [src/sensor-server/quarantine.go:163-165] segmentPath *)
Definition segmentPath (w : QuarantineWriter) : file_path :=
  (Directory (options w), quarantineSegmentName (sequence w)).

(** [src/sensor-server/quarantine.go:142-149] openSegment *)
Definition openSegment : M QSt unit :=
  w ← gets fst;
  wrap_err "open quarantine segment" (q_fsop (OpenFile (segmentPath w) createAppendReadWriteFlags));;
  q_update (fun w => q_set_file (Some (segmentPath w)) w).

(** [src/sensor-server/quarantine.go:151-161] closeSegment *)
Definition closeSegment : M QSt unit :=
  w ← gets fst;
  match file w with
  | None => mret tt
  | Some p =>
      e1 ← attempt_err (q_fsop (file_Sync p));
      e2 ← attempt_err (q_fsop (file_Close p));
      q_update (q_set_file None);;
      match errors_Join [e1; e2] with
      | Some e => fail (ErrWrap "close quarantine segment" e)
      | None => mret tt
      end
  end.

(** [src/sensor-server/quarantine.go:133-140] rotate *)
Definition rotate : M QSt unit :=
  closeSegment;;
  q_update q_next;;
  openSegment.

(** [writer.file.Write(encoded)]; a nil file is a nil dereference. *)
Definition file_call (bs : list byte) : M QSt unit := fun '(w, fs) =>
  match file w with
  | None => (Panic PanicNil, (w, fs))
  | Some p =>
      let '((_, e), fs) := file_Write p bs fs in
      match e with
      | Some e => (Fail (ErrWrap "write quarantine segment" e), (w, fs))
      | None => (Ret tt, (w, fs))
      end
  end.

(** [src/sensor-server/quarantine.go:97-121] WriteUnknownMessage; [ctx] is
    what [ctx.Err()] returns *)
Definition WriteUnknownMessage (ctx : option error) (message : UnknownMessage) : M QSt unit :=
  match ctx with
  | Some err => fail err
  | None =>
      encoded ← lift (encodeQuarantineEntry message);
      w ← gets fst;
      if closed w then fail (ErrNew ErrQuarantineClosed) else
      let n := Z.of_nat (length encoded) in
      (if (0 <? size w) && (RotationSize (options w) <? i64 (size w + n))
       then rotate else mret tt);;
      file_call encoded;;
      q_update (fun w => q_set_size (i64 (size w + n)) w)
  end.

(** [src/sensor-server/quarantine.go:123-131] Close *)
Definition Close : M QSt unit :=
  w ← gets fst;
  if closed w then mret tt else
  q_update q_set_closed;;
  closeSegment.

(** The repair of the segments found, in order. *)
Fixpoint repair_all (segments : list quarantineSegment) : M FS unit :=
  match segments with
  | [] => mret tt
  | s :: segments => repairQuarantineTail s.2;; repair_all segments
  end.

(** [src/sensor-server/quarantine.go:91-94] OpenQuarantineWriter, its last step *)
Definition openWriterAt (opts : QuarantineOptions) (sequence : Z) : M FS QuarantineWriter := fun fs =>
  match openSegment (mkQuarantineWriter opts None sequence 0 false, fs) with
  | (Ret _, (w, fs)) => (Ret w, fs)
  | (Fail e, (_, fs)) => (Fail e, fs)
  | (Panic p, (_, fs)) => (Panic p, fs)
  end.

(** [src/sensor-server/quarantine.go:57-95] OpenQuarantineWriter *)
Definition OpenQuarantineWriter (opts : QuarantineOptions) : M FS QuarantineWriter :=
  if blank_path (Directory opts) then fail (ErrText "open quarantine: empty directory") else
  if RotationSize opts <? cQuarantineEntryMinimum
  then fail (ErrText "open quarantine: rotation size is too small") else
  let opts := mkQuarantineOptions (Directory opts) (RotationSize opts)
    (if DirectoryMode opts =? 0 then 493 else DirectoryMode opts)
    (if FileMode opts =? 0 then 420 else FileMode opts) in
  wrap_err "create quarantine directory" (MkdirAll (Directory opts));;
  segments ← discoverQuarantineSegments (Directory opts);
  repair_all segments;;
  let sequence := match last segments with
                  | Some s => u64 (s.1 + 1)
                  | None => firstSegmentSequence
                  end in
  openWriterAt opts sequence.
End files.

(** ** Replay *)

Section replay.
Context (spare : list byte -> list byte) {D : Type} `{!SensorDataWriter D}.

(** The state of a replay: the quarantine writer and its file system, the
    data writer, the counters, and what the next calls of [ctx.Err()]
    return. *)
Record Replay : Type := mkReplay {
  rp_writer : QuarantineWriter; rp_fs : FS; rp_data : D; rp_counters : ReplayCounters;
  rp_ctx : list (option error) }.

Definition on_writer {A} (m : M (QuarantineWriter * FS) A) : M Replay A :=
  zoom (fun s => (rp_writer s, rp_fs s))
       (fun q s => mkReplay q.1 q.2 (rp_data s) (rp_counters s) (rp_ctx s)) m.
Definition on_fs {A} (m : M FS A) : M Replay A :=
  zoom rp_fs (fun fs s => mkReplay (rp_writer s) fs (rp_data s) (rp_counters s) (rp_ctx s)) m.
Definition on_data {A} (m : M D A) : M Replay A :=
  zoom rp_data (fun d s => mkReplay (rp_writer s) (rp_fs s) d (rp_counters s) (rp_ctx s)) m.
Definition tally (f : ReplayCounters -> ReplayCounters) : M Replay unit :=
  modify (fun s => mkReplay (rp_writer s) (rp_fs s) (rp_data s) (f (rp_counters s)) (rp_ctx s)).

(** [ctx.Err()] *)
Definition poll : M Replay (option error) := fun s =>
  match rp_ctx s with
  | [] => (Ret None, s)
  | e :: l => (Ret e, mkReplay (rp_writer s) (rp_fs s) (rp_data s) (rp_counters s) l)
  end.

Definition add_completed (c : ReplayCounters) : ReplayCounters :=
  mkReplayCounters (u64 (SegmentsCompleted c + 1)) (MessagesReplayed c) (MessagesCarried c) (RecordsWritten c).
Definition add_replayed (c : ReplayCounters) : ReplayCounters :=
  mkReplayCounters (SegmentsCompleted c) (u64 (MessagesReplayed c + 1)) (MessagesCarried c) (RecordsWritten c).
Definition add_carried (c : ReplayCounters) : ReplayCounters :=
  mkReplayCounters (SegmentsCompleted c) (MessagesReplayed c) (u64 (MessagesCarried c + 1)) (RecordsWritten c).
Definition add_record (c : ReplayCounters) : ReplayCounters :=
  mkReplayCounters (SegmentsCompleted c) (MessagesReplayed c) (MessagesCarried c) (u64 (RecordsWritten c + 1)).

(** [src/sensor-server/quarantine.go:206-215] ReplayQuarantine, the records of
    a message *)
Fixpoint replay_records (snap : ConfigSnapshot) (device : Device) (timestamp : Z)
    (records : list SensorRecord) : M Replay unit :=
  match records with
  | [] => mret tt
  | record :: records =>
      match snapshot_Sensor snap (RType record) with
      | None => replay_records snap device timestamp records
      | Some sensor =>
          wrap_err "replay" (on_data (WriteSensorData (d_Floor device) (d_Room device)
                                        (sd_Type sensor) timestamp (RValue record)));;
          tally add_record;;
          replay_records snap device timestamp records
      end
  end.

(** [src/sensor-server/quarantine.go:193-217] ReplayQuarantine, one entry *)
Definition replay_entry (snap : ConfigSnapshot) (entry : UnknownMessage) : M Replay unit :=
  ctx ← poll;
  match ctx with
  | Some err => fail err
  | None =>
      match snapshot_Device snap (MAC (Header (um_Message entry))) with
      | None =>
          ctx ← poll;
          on_writer (WriteUnknownMessage ctx entry);;
          tally add_carried
      | Some device =>
          replay_records snap device (um_Timestamp entry) (Sensors (um_Message entry));;
          tally add_replayed
      end
  end.

Fixpoint replay_entries (snap : ConfigSnapshot) (entries : list UnknownMessage) : M Replay unit :=
  match entries with
  | [] => mret tt
  | entry :: entries => replay_entry snap entry;; replay_entries snap entries
  end.

(** [src/sensor-server/quarantine.go:185-222] ReplayQuarantine, one segment *)
Definition replay_segment (snap : ConfigSnapshot) (segment : quarantineSegment) : M Replay unit :=
  s ← get;
  if sequence (rp_writer s) <=? segment.1 then mret tt else
  complete ← on_fs (quarantineSegmentComplete segment.2);
  if (complete : bool) then mret tt else
  entries ← on_fs (readQuarantineEntries spare segment.2);
  replay_entries snap entries;;
  on_fs (markQuarantineSegmentComplete segment.2);;
  tally add_completed.

Fixpoint replay_segments (snap : ConfigSnapshot) (segments : list quarantineSegment) : M Replay unit :=
  match segments with
  | [] => mret tt
  | segment :: segments => replay_segment snap segment;; replay_segments snap segments
  end.

(** [src/sensor-server/quarantine.go:176-224] ReplayQuarantine; the counters
    start from zero and are returned with the error *)
Definition ReplayQuarantine (registry : ConfigRegistry) : M Replay unit :=
  tally (fun _ => mkReplayCounters 0 0 0 0);;
  s ← get;
  segments ← on_fs (discoverQuarantineSegments (Directory (options (rp_writer s))));
  replay_segments (Snapshot registry) segments.
End replay.
Arguments Replay D : clear implicits.

(** ** Lemmas: the bytes of an entry *)

(** The bytes of an entry, field by field; [c] is its checksum field. *)
Definition entry_bytes (c length time transport type : Z) (mac : MACAddress) (n : Z)
    (payload : list byte) : list byte :=
  le_put 4 cQuarantineMagic ++ le_put 2 cQuarantineVersion ++ le_put 4 c ++ le_put 4 length ++
  le_put 8 time ++ [byte_of_Z transport] ++ [Byte.x00] ++ le_put 2 type ++ mac_bytes mac ++
  le_put 2 n ++ payload.

(** The image of a message on the disk. *)
Definition image_with (c : Z) (m : UnknownMessage) : list byte :=
  let payload := Payload (um_Message m) in
  entry_bytes c (34 + Z.of_nat (length payload)) (um_Timestamp m) (um_Transport m)
    (HType (Header (um_Message m))) (MAC (Header (um_Message m))) (Z.of_nat (length payload)) payload.
Definition image (m : UnknownMessage) : list byte :=
  image_with (ChecksumIEEE (image_with 0 m)) m.

(** The messages the router quarantines: decoded ones, with a transport and a
    time of 64 bits. *)
Definition storable (m : UnknownMessage) : Prop :=
  (um_Transport m = TransportTCP \/ um_Transport m = TransportUDP) /\
  - 2 ^ 63 <= um_Timestamp m < 2 ^ 63 /\
  exists mac payload, valid_payload payload /\ um_Message m = message_of mac payload.

Lemma entry_bytes_length c l t tr ty mac n p :
  length (entry_bytes c l t tr ty mac n p) = (34 + length p)%nat.
Proof.
  unfold entry_bytes. rewrite !length_app, !le_put_length, mac_bytes_length. cbn [length]. lia.
Qed.

Lemma image_with_length c m : length (image_with c m) = (34 + length (Payload (um_Message m)))%nat.
Proof. apply entry_bytes_length. Qed.

Lemma image_length m : length (image m) = (34 + length (Payload (um_Message m)))%nat.
Proof. apply entry_bytes_length. Qed.

(** The bytes with the checksum field zeroed. *)
Definition zero_crc (l : list byte) : list byte := take 6 l ++ replicate 4 Byte.x00 ++ drop 10 l.

Lemma zero_crc_length l : (10 <= length l)%nat -> length (zero_crc l) = length l.
Proof.
  intros H. unfold zero_crc. rewrite !length_app, length_replicate, length_take, length_drop. lia.
Qed.

Lemma zero_crc_parts a b c rest :
  length a = 4%nat -> length b = 2%nat -> length c = 4%nat ->
  zero_crc (a ++ b ++ c ++ rest) = a ++ b ++ replicate 4 Byte.x00 ++ rest.
Proof.
  intros Ha Hb Hc. unfold zero_crc.
  do 5 (destruct a as [|? a]; try discriminate Ha).
  do 3 (destruct b as [|? b]; try discriminate Hb).
  do 5 (destruct c as [|? c]; try discriminate Hc).
  reflexivity.
Qed.

Lemma zero_crc_image c m : zero_crc (image_with c m) = image_with 0 m.
Proof. apply zero_crc_parts; apply le_put_length. Qed.

(** [m] writes the bytes [bs] over zeros that are left to write. *)
Definition writes (m : M BinaryData unit) (bs : list byte) : Prop :=
  forall pre n N, (length bs <= n)%nat -> (length pre + n = N)%nat ->
  m (cursor pre (replicate n Byte.x00) N)
  = (Ret tt, cursor (pre ++ bs) (replicate (n - length bs) Byte.x00) N).

Lemma writes_then m bs (k : unit -> M BinaryData unit) pre n N :
  writes m bs -> (length bs <= n)%nat -> (length pre + n = N)%nat ->
  (m ≫= k) (cursor pre (replicate n Byte.x00) N)
  = k tt (cursor (pre ++ bs) (replicate (n - length bs) Byte.x00) N).
Proof. intros H Hn HN. unfold mbind, M_bind. by rewrite H. Qed.

Lemma replicate_split n k : (k <= n)%nat ->
  replicate n Byte.x00 = replicate k Byte.x00 ++ replicate (n - k) Byte.x00.
Proof. intros H. rewrite <- replicate_add. f_equal. lia. Qed.

Lemma writes_uint32 v : writes (WriteUint32 v) (le_put 4 v).
Proof.
  intros pre n N Hn HN. rewrite le_put_length in *. rewrite (replicate_split n 4) by done.
  by apply WriteUint32_cursor.
Qed.

Lemma writes_uint16 v : writes (WriteUint16 v) (le_put 2 v).
Proof.
  intros pre n N Hn HN. rewrite le_put_length in *. rewrite (replicate_split n 2) by done.
  by apply WriteUint16_cursor.
Qed.

Lemma writes_uint64 v : writes (WriteUint64 v) (le_put 8 v).
Proof.
  intros pre n N Hn HN. rewrite le_put_length in *. rewrite (replicate_split n 8) by done.
  by apply WriteUint64_cursor.
Qed.

Lemma writes_uint8 v : writes (WriteUint8 v) [byte_of_Z v].
Proof.
  intros pre n N Hn HN. cbn [length] in *. rewrite (replicate_split n 1) by done.
  apply WriteUint8_cursor. lia.
Qed.

Lemma writes_bytes bs : writes (WriteBytes bs) bs.
Proof.
  intros pre n N Hn HN. rewrite (replicate_split n (length bs)) by done.
  apply WriteBytes_cursor. by rewrite length_replicate.
Qed.

Create HintDb writes.
#[local] Hint Resolve writes_uint32 writes_uint16 writes_uint64 writes_uint8 writes_bytes : writes.

Lemma put_checksum c l N p :
  (10 <= length l)%nat ->
  WriteUint32At c 6 (cursor l p N) = (Ret tt, mkBinaryData (Slice ((take 6 l ++ le_put 4 c ++ drop 10 l) ++ p) N)
                                      (Z.of_nat (length l))).
Proof.
  intros H. unfold cursor. change 6 with (Z.of_nat 6).
  rewrite (WriteUint32At_spec c 6 (l ++ p) N _ (take 4 (drop 6 (l ++ p)))).
  - rewrite take_app_le, drop_app_le by lia. by rewrite <- !app_assoc.
  - rewrite take_drop_slice; [done|]. rewrite length_app. lia.
  - rewrite length_app. lia.
  - done.
Qed.

Lemma image_put c m :
  take 6 (image_with 0 m) ++ le_put 4 c ++ drop 10 (image_with 0 m) = image_with c m.
Proof. reflexivity. Qed.

Lemma le_put_u16 v : le_put 2 (u16 v) = le_put 2 v.
Proof. apply (le_put_mod 2). Qed.
Lemma le_put_u32 v : le_put 4 (u32 v) = le_put 4 v.
Proof. apply (le_put_mod 4). Qed.
Lemma le_put_u64 v : le_put 8 (u64 v) = le_put 8 v.
Proof. apply (le_put_mod 8). Qed.

Lemma encode_image m :
  (um_Transport m = TransportTCP \/ um_Transport m = TransportUDP) ->
  PayloadLength (Header (um_Message m)) = Z.of_nat (length (Payload (um_Message m))) ->
  Z.of_nat (length (Payload (um_Message m))) <= MaximumPayloadSize ->
  encodeQuarantineEntry m = Ret (image m).
Proof.
  intros Ht Hp Hl. unfold encodeQuarantineEntry. cbv zeta.
  replace (negb (um_Transport m =? TransportTCP) && negb (um_Transport m =? TransportUDP)) with false
    by by destruct Ht as [-> | ->].
  rewrite Hp, Z.eqb_refl, (proj2 (Z.ltb_ge _ _)) by done. cbn [negb orb].
  set (payload := Payload (um_Message m)) in *.
  replace (Z.to_nat (cQuarantineEntryMinimum + Z.of_nat (length payload)))
    with (34 + length payload)%nat by (unfold cQuarantineEntryMinimum, cQuarantineHeaderSize,
      cQuarantineTrailerSize; lia).
  unfold slice_of. rewrite slice_cursor, length_replicate.
  do 11 (erewrite writes_then; [|solve [auto with writes]|
    rewrite ?le_put_length, ?mac_bytes_length; cbn [length]; lia|
    rewrite ?length_app, ?le_put_length, ?mac_bytes_length; cbn [length]; lia]).
  rewrite le_put_u32, le_put_u64, !le_put_u16, (byte_of_Z_mod (um_Transport m) : byte_of_Z (u8 _) = _).
  match goal with |- context [cursor ?l ?rest _] => replace l with (image_with 0 m) end.
  - match goal with |- context [cursor _ ?rest _] => replace rest with ([] : list byte) end.
    + unfold mbind, M_bind, get. unfold slice_data at 1. cbn [buf cursor arr len].
      rewrite app_nil_r, firstn_all2 by (rewrite image_with_length; fold payload; lia).
      rewrite put_checksum by (rewrite image_with_length; lia).
      rewrite image_put. cbn [buf]. unfold slice_data. cbn [arr len].
      rewrite app_nil_r, firstn_all2 by (rewrite image_with_length; fold payload; lia). done.
    + symmetry. rewrite !le_put_length, mac_bytes_length. cbn [length].
      apply nil_length_inv. rewrite length_replicate. lia.
  - unfold image_with, entry_bytes. rewrite <- !app_assoc. done.
Qed.

(** ** Lemmas: decoding an entry *)

Lemma read_fields_cursor a b c d e t r ty mc p rest n :
  length a = 4%nat -> length b = 2%nat -> length c = 4%nat -> length d = 4%nat ->
  length e = 8%nat -> length ty = 2%nat -> length mc = 6%nat -> length p = 2%nat -> (34 <= n)%nat ->
  read_fields (cursor [] (a ++ b ++ c ++ d ++ e ++ [t] ++ [r] ++ ty ++ mc ++ p ++ rest) n) =
  (Ret (mkEntryFields (le_get a) (le_get b) (le_get c) (le_get d) (le_get e) (byte_to_Z t)
          (le_get ty) (mac_of_list mc) (le_get p)),
   cursor (a ++ b ++ c ++ d ++ e ++ [t] ++ [r] ++ ty ++ mc ++ p) rest n).
Proof.
  intros Ha Hb Hc Hd He Hty Hm Hp Hn. unfold read_fields, mbind, M_bind.
  rewrite ReadUint32_cursor by done. rewrite ReadUint16_cursor by done.
  rewrite ReadUint32_cursor by done. rewrite ReadUint32_cursor by done.
  rewrite ReadUint64_cursor by done. cbn [app].
  rewrite ReadUint8_cursor by (rewrite !length_app; cbn [length]; lia).
  rewrite ReadUint8_cursor by (rewrite !length_app; cbn [length]; lia).
  rewrite ReadUint16_cursor by done. rewrite ReadMAC_cursor by done.
  rewrite ReadUint16_cursor by done. unfold mret, M_ret.
  rewrite <- !app_assoc. reflexivity.
Qed.

(** The fields of the bytes of an entry, at their offsets. *)
Definition entry_header (l : list byte) : entry_fields :=
  mkEntryFields (le_get (take 4 l)) (le_get (take 2 (drop 4 l))) (le_get (take 4 (drop 6 l)))
    (le_get (take 4 (drop 10 l))) (le_get (take 8 (drop 14 l)))
    (byte_to_Z (default Byte.x00 (l !! 22%nat))) (le_get (take 2 (drop 24 l)))
    (mac_of_list (take 6 (drop 26 l))) (le_get (take 2 (drop 32 l))).

Lemma read_fields_spec l spare n :
  (34 <= length l)%nat -> (34 <= n)%nat ->
  read_fields (mkBinaryData (Slice (l ++ spare) n) 0)
  = (Ret (entry_header l), cursor (take 34 l) (drop 34 l ++ spare) n).
Proof.
  intros Hl Hn. rewrite slice_cursor.
  do 34 (destruct l as [|? l]; [cbn [length] in Hl; lia|]).
  cbn [take drop app]. rewrite firstn_O.
  match goal with |- context [cursor [] (?b0 :: ?b1 :: ?b2 :: ?b3 :: ?b4 :: ?b5 :: ?b6 :: ?b7 :: ?b8
    :: ?b9 :: ?b10 :: ?b11 :: ?b12 :: ?b13 :: ?b14 :: ?b15 :: ?b16 :: ?b17 :: ?b18 :: ?b19 :: ?b20
    :: ?b21 :: ?b22 :: ?b23 :: ?b24 :: ?b25 :: ?b26 :: ?b27 :: ?b28 :: ?b29 :: ?b30 :: ?b31 :: ?b32
    :: ?b33 :: ?rest) n] =>
    exact (read_fields_cursor [b0; b1; b2; b3] [b4; b5] [b6; b7; b8; b9] [b10; b11; b12; b13]
      [b14; b15; b16; b17; b18; b19; b20; b21] b22 b23 [b24; b25] [b26; b27; b28; b29; b30; b31]
      [b32; b33] rest n eq_refl eq_refl eq_refl eq_refl eq_refl eq_refl eq_refl eq_refl Hn)
  end.
Qed.

(** The checks of the decoder before it looks at the checksum. *)
Definition header_bad (f : entry_fields) (size : Z) : bool :=
  negb (ef_magic f =? cQuarantineMagic) || negb (ef_version f =? cQuarantineVersion) ||
  (negb (ef_length f =? u32 size) || (MaximumPayloadSize <? ef_payload f)) ||
  (negb (ef_transport f =? TransportTCP) && negb (ef_transport f =? TransportUDP)).

Definition sealed (l : list byte) : bool := ChecksumIEEE (zero_crc l) =? ef_crc (entry_header l).

(** What follows the checksum, [d] being the rest of the bytes. *)
Definition decode_payload (f : entry_fields) : M BinaryData UnknownMessage :=
  payload ← ReadBytes (ef_payload f);
  let header := mkHeader MessageMagic (ef_type f) (ef_payload f) (ef_mac f) (ChecksumIEEE payload) in
  message ← wrap_err "decode quarantined message" (lift (DecodeMessage header (slice_of payload)));
  mret (mkUnknownMessage (i64 (ef_time f)) (ef_transport f) message).

Lemma decode_spec l spare :
  (34 <= length l)%nat ->
  decodeQuarantineEntry (Slice (l ++ spare) (length l)) =
  let f := entry_header l in
  if header_bad f (Z.of_nat (length l))
  then (Fail (ErrNew ErrInvalidQuarantineEntry), Slice (l ++ spare) (length l)) else
  if negb (sealed l)
  then (Fail (ErrWrap "quarantine checksum" (ErrNew ErrInvalidQuarantineEntry)),
        Slice (zero_crc l ++ spare) (length l)) else
  let '(r, d) := decode_payload f (cursor (take 34 (zero_crc l)) (drop 34 l ++ spare) (length l)) in
  (r, buf d).
Proof.
  intros Hl. unfold decodeQuarantineEntry. unfold slice_len at 1. cbn [len].
  rewrite (proj2 (Z.ltb_ge _ _)) by (unfold cQuarantineEntryMinimum, cQuarantineHeaderSize,
    cQuarantineTrailerSize; lia).
  unfold mbind at 1, M_bind at 1. rewrite read_fields_spec by done. cbv zeta.
  set (f := entry_header l). unfold header_bad, slice_len. cbn [len].
  assert (Slice (take 34 l ++ drop 34 l ++ spare) (length l) = Slice (l ++ spare) (length l)) as Hb
    by by rewrite app_assoc, take_drop.
  assert (forall e, (let '(r, d) := fail (A:=UnknownMessage) e
            (cursor (take 34 l) (drop 34 l ++ spare) (length l)) in (r, buf d))
          = (Fail e, Slice (l ++ spare) (length l))) as Hfail by (intros e; unfold fail; cbn [buf cursor]; by rewrite Hb).
  destruct (negb (ef_magic f =? _) || negb (ef_version f =? _)) eqn:E1; [apply Hfail|].
  destruct (negb (ef_length f =? _) || _) eqn:E2; [apply Hfail|].
  destruct (negb (ef_transport f =? _) && _) eqn:E3; [apply Hfail|]. cbn [orb].
  assert (WriteUint32At 0 6 (cursor (take 34 l) (drop 34 l ++ spare) (length l))
          = (Ret tt, cursor (take 34 (zero_crc l)) (drop 34 l ++ spare) (length l))) as Hw.
  { rewrite put_checksum by (rewrite length_take; lia). unfold cursor.
    assert (take 34 (zero_crc l) = take 6 (take 34 l) ++ le_put 4 0 ++ drop 10 (take 34 l)) as ->;
      [|by rewrite !length_app, !length_take, length_drop, length_take, le_put_length; do 2 f_equal; lia].
    clear -Hl. do 34 (destruct l as [|? l]; [cbn [length] in Hl; lia|]).
    unfold zero_crc. reflexivity. }
  assert (take 34 (zero_crc l) ++ drop 34 l = zero_crc l) as Hz.
  { clear -Hl. do 34 (destruct l as [|? l]; [cbn [length] in Hl; lia|]). reflexivity. }
  unfold mbind at 1, M_bind at 1. rewrite Hw.
  unfold mbind at 1, M_bind at 1, get. cbn [buf cursor].
  unfold slice_data. cbn [arr len].
  rewrite app_assoc, Hz, <- (zero_crc_length l), take_app_length by lia. fold f.
  unfold sealed. fold f. destruct (negb (ChecksumIEEE (zero_crc l) =? ef_crc f)); [|done].
  unfold fail, cursor. cbn [buf]. by rewrite app_assoc, Hz.
Qed.

(** An entry that is not sealed is rejected, before its payload is looked at. *)
Lemma decode_unsealed l spare :
  (34 <= length l)%nat -> sealed l = false ->
  exists e s, decodeQuarantineEntry (Slice (l ++ spare) (length l)) = (Fail e, s) /\
    is_exactly e ErrInvalidQuarantineEntry.
Proof.
  intros Hl Hs. rewrite decode_spec, Hs by done. cbv zeta. cbn [negb].
  destruct (header_bad _ _); eauto using is_exactly_wrap.
  eexists _, _. split; [done|]. by intros t.
Qed.

Lemma entry_header_image c m :
  0 <= c < 2 ^ 32 -> storable m ->
  entry_header (image_with c m) =
    mkEntryFields cQuarantineMagic cQuarantineVersion c
      (34 + Z.of_nat (length (Payload (um_Message m)))) (u64 (um_Timestamp m)) (um_Transport m)
      MessageTypeSensorData (MAC (Header (um_Message m)))
      (Z.of_nat (length (Payload (um_Message m)))).
Proof.
  intros Hc (Ht & Hts & mac & payload & [Hv _] & Hm). unfold image_with. rewrite Hm.
  cbn [Payload Header message_of HType MAC header_of].
  destruct mac as [[[[[m0 m1] m2] m3] m4] m5]. unfold MaximumPayloadSize in Hv.
  transitivity (mkEntryFields (le_get (le_put 4 cQuarantineMagic)) (le_get (le_put 2 cQuarantineVersion))
    (le_get (le_put 4 c)) (le_get (le_put 4 (34 + Z.of_nat (length payload))))
    (le_get (le_put 8 (um_Timestamp m))) (byte_to_Z (byte_of_Z (um_Transport m)))
    (le_get (le_put 2 MessageTypeSensorData)) (m0, m1, m2, m3, m4, m5)
    (le_get (le_put 2 (Z.of_nat (length payload))))); [reflexivity|].
  rewrite (le_get_put 8), byte_to_of_Z, !le_get_small by first [done | lia].
  by destruct Ht as [-> | ->].
Qed.

Lemma header_image_good c m :
  0 <= c < 2 ^ 32 -> storable m ->
  header_bad (entry_header (image_with c m)) (Z.of_nat (length (image_with c m))) = false.
Proof.
  intros Hc Hm. rewrite entry_header_image, image_with_length by done.
  destruct Hm as (Ht & _ & mac & payload & [Hv _] & ->). unfold header_bad.
  cbn [ef_magic ef_version ef_length ef_payload ef_transport Payload message_of].
  unfold MaximumPayloadSize in *. rewrite !Z.eqb_refl, (proj2 (Z.ltb_ge _ _)) by lia.
  rewrite wrapu_small, Nat2Z.inj_add, Z.eqb_refl by lia.
  by destruct Ht as [-> | ->].
Qed.

Lemma image_sealed m : storable m -> sealed (image m) = true.
Proof.
  intros Hm. unfold sealed, image at 1.
  rewrite zero_crc_image. unfold image.
  rewrite entry_header_image by first [apply ChecksumIEEE_range | done]. apply Z.eqb_refl.
Qed.

(** Decoding the image of a message returns the message, and leaves its bytes
    with a zero checksum; what follows the entry has no influence. *)
Lemma decode_image m spare :
  storable m ->
  decodeQuarantineEntry (Slice (image m ++ spare) (length (image m)))
  = (Ret m, Slice (image_with 0 m ++ spare) (length (image m))).
Proof.
  intros Hm. rewrite decode_spec by (rewrite image_length; lia). cbv zeta.
  unfold image at 1 2. rewrite header_image_good by first [apply ChecksumIEEE_range | done].
  rewrite image_sealed by done. cbn [negb].
  unfold image at 1. rewrite entry_header_image by first [apply ChecksumIEEE_range | done].
  unfold image at 1. rewrite zero_crc_image.
  destruct Hm as (Ht & Hts & mac & payload & Hv & E).
  assert (drop 34 (image m) = payload) as Hd.
  { unfold image, image_with. rewrite E. cbn [Payload message_of].
    unfold entry_bytes. rewrite !app_assoc. apply drop_app_length'.
    rewrite !length_app, !le_put_length, mac_bytes_length. done. }
  assert (take 34 (image_with 0 m) ++ payload = image_with 0 m) as Hi.
  { transitivity (take 34 (image_with 0 m) ++ drop 34 (image m)); [by rewrite Hd|].
    rewrite <- (take_drop 34 (image_with 0 m)) at 2. f_equal. }
  rewrite Hd. rewrite E. cbn [Payload message_of Header header_of MAC].
  unfold decode_payload. cbn [ef_payload ef_type ef_mac ef_time ef_transport].
  unfold mbind, M_bind. rewrite ReadBytes_cursor by done.
  change (mkHeader MessageMagic MessageTypeSensorData (Z.of_nat (length payload)) mac
    (ChecksumIEEE payload)) with (header_of mac payload).
  unfold wrap_err, lift. rewrite DecodeMessage_slice_of, check_payload_of by done.
  cbv beta iota zeta. unfold mret, M_ret, cursor. cbn [buf].
  rewrite <- app_assoc in *. rewrite app_assoc, Hi. do 2 f_equal.
  destruct m as [ts tr m]. cbn in *. subst m.
  rewrite wraps_wrapu, wraps_small by lia. done.
Qed.

Lemma storable_encode m : storable m -> encodeQuarantineEntry m = Ret (image m).
Proof.
  intros (Ht & _ & mac & payload & [Hv _] & E). apply encode_image; [done|..]; by rewrite E.
Qed.

Lemma decode_payload_storable f d m d' :
  ef_payload f <= MaximumPayloadSize ->
  (ef_transport f = TransportTCP \/ ef_transport f = TransportUDP) ->
  decode_payload f d = (Ret m, d') -> storable m.
Proof.
  intros Hp Ht. unfold decode_payload, mbind, M_bind.
  destruct (ReadBytes (ef_payload f) d) as [[payload|e|p] d1]; [|done..].
  unfold wrap_err, lift. rewrite DecodeMessage_slice_of.
  destruct (check_payload _ payload) eqn:Hc; [done|]. intros H. inv H.
  apply check_payload_None in Hc as (H1 & H2 & H3 & _).
  cbn [PayloadLength HType] in *. split; [done|]. split; [apply (wraps_range 64); lia|].
  exists (ef_mac f), payload. cbn [um_Message]. split; [split; [lia | by rewrite H1]|].
  unfold message_of, header_of. by rewrite H1, H2.
Qed.

(** Only storable messages are ever decoded. *)
Lemma decode_storable s m s' :
  slice_ok s -> decodeQuarantineEntry s = (Ret m, s') -> storable m.
Proof.
  intros Hs. destruct (slice_ok_app s Hs) as [Hsp Hl].
  destruct (decide (34 <= len s)%nat) as [Hn|Hn].
  - rewrite Hsp, <- Hl, decode_spec by lia. cbv zeta. set (f := entry_header _).
    destruct (header_bad f _) eqn:Hb; [done|]. destruct (negb (sealed _)); [done|].
    destruct (decode_payload f _) as [r d] eqn:Hd. intros H. inv H.
    unfold header_bad in Hb.
    apply orb_false_iff in Hb as [[_ [_ Hp%Z.ltb_ge]%orb_false_iff]%orb_false_iff Ht].
    apply andb_false_iff in Ht. rewrite !negb_false_iff, !Z.eqb_eq in Ht.
    by eapply decode_payload_storable.
  - unfold decodeQuarantineEntry, slice_len.
    rewrite (proj2 (Z.ltb_lt _ _)); [done|].
    unfold cQuarantineEntryMinimum, cQuarantineHeaderSize, cQuarantineTrailerSize. lia.
Qed.

(** A changed byte breaks the seal. *)
Lemma changed_unsealed pre b b' post :
  (34 <= length (pre ++ b :: post))%nat -> b <> b' ->
  sealed (pre ++ b :: post) = true -> sealed (pre ++ b' :: post) = false.
Proof.
  intros Hl Hb Hs. unfold sealed in *. apply Z.eqb_eq in Hs. apply Z.eqb_neq. intros Hs'.
  unfold entry_header in *. cbn [ef_crc] in *. rewrite length_app in Hl. cbn [length] in Hl.
  destruct (decide (length pre < 6)%nat) as [H1|H1]; [|destruct (decide (length pre < 10)%nat) as [H2|H2]].
  - assert (forall c, zero_crc (pre ++ c :: post) = pre ++ c :: (take (5 - length pre) post ++
        replicate 4 Byte.x00 ++ drop (9 - length pre) post)) as Hz.
    { intros c. unfold zero_crc. rewrite take_app_ge, drop_app_ge by lia.
      destruct (6 - length pre)%nat as [|k] eqn:E1; [lia|].
      destruct (10 - length pre)%nat as [|k'] eqn:E2; [lia|].
      cbn [take drop]. rewrite <- app_assoc. cbn [app].
      by replace (5 - length pre)%nat with k by lia; replace (9 - length pre)%nat with k' by lia. }
    rewrite Hz in Hs, Hs'.
    replace (drop 6 (pre ++ b :: post)) with (drop 6 (pre ++ b' :: post)) in Hs.
    + rewrite <- Hs' in Hs. by apply ChecksumIEEE_byte_change in Hs.
    + rewrite !drop_app_ge by lia. by destruct (6 - length pre)%nat eqn:E1; [lia|].
  - assert (zero_crc (pre ++ b' :: post) = zero_crc (pre ++ b :: post)) as Hz.
    { unfold zero_crc. rewrite !take_app_le, !drop_app_ge by lia.
      by destruct (10 - length pre)%nat eqn:E1; [lia|]. }
    rewrite Hz, Hs in Hs'.
    assert (forall l, (10 <= length l)%nat -> le_put 4 (le_get (take 4 (drop 6 l))) = take 4 (drop 6 l)) as Hput.
    { intros l Hll. rewrite <- (le_put_get (take 4 (drop 6 l))) at 2. by rewrite take_drop_slice by lia. }
    apply (f_equal (le_put 4)) in Hs'. rewrite !Hput in Hs' by (rewrite length_app; cbn [length]; lia).
    rewrite !drop_app_le, !take_app_ge in Hs' by (rewrite ?length_drop; lia).
    apply app_inv_head in Hs'. rewrite length_drop in Hs'.
    destruct (4 - _)%nat eqn:E1; [lia|]. by inv Hs'.
  - assert (forall c, zero_crc (pre ++ c :: post) =
        (take 6 pre ++ replicate 4 Byte.x00 ++ drop 10 pre) ++ c :: post) as Hz.
    { intros c. unfold zero_crc. rewrite take_app_le, drop_app_le by lia. by rewrite <- !app_assoc. }
    rewrite Hz in Hs, Hs'.
    rewrite !drop_app_le, !take_app_le in Hs, Hs' by (rewrite ?length_drop; lia).
    rewrite <- Hs' in Hs. by apply ChecksumIEEE_byte_change in Hs.
Qed.

(** C29. Round trip: a message whose transport is TCP or UDP, whose payload is
    valid and whose time has 64 bits is encoded to an entry of 34 bytes more
    than its payload, and decoding the entry, whatever follows it, returns the
    message; conversely every message ever decoded from an entry is one of
    these. *)
Theorem quarantine_roundtrip m :
  (storable m ->
   exists entry, encodeQuarantineEntry m = Ret entry /\
     length entry = (34 + length (Payload (um_Message m)))%nat /\
     forall spare, result (decodeQuarantineEntry (Slice (entry ++ spare) (length entry))) = Ret m) /\
  (forall s, slice_ok s -> result (decodeQuarantineEntry s) = Ret m -> storable m).
Proof.
  split.
  - intros Hm. exists (image m). split; [by apply storable_encode|].
    split; [apply image_length|]. intros spare. by rewrite decode_image.
  - intros s Hs H. destruct (decodeQuarantineEntry s) as [r s'] eqn:E. cbn in H. subst r.
    by eapply decode_storable.
Qed.

(** C30. A changed byte never goes unnoticed: an entry in which one byte, any
    of them, has been replaced by a different one is rejected with
    [ErrInvalidQuarantineEntry]. *)
Theorem quarantine_corruption_detected m pre b b' post spare :
  storable m -> encodeQuarantineEntry m = Ret (pre ++ b :: post) -> b <> b' ->
  let entry := pre ++ b' :: post in
  exists e, result (decodeQuarantineEntry (Slice (entry ++ spare) (length entry))) = Fail e /\
    is_exactly e ErrInvalidQuarantineEntry.
Proof.
  intros Hm He Hb entry. rewrite storable_encode in He by done. inv He.
  assert (34 <= length (pre ++ b :: post))%nat as Hl by (rewrite <- H0, image_length; lia).
  assert (length entry = length (pre ++ b :: post)) as Hlen by (unfold entry; by rewrite !length_app).
  destruct (decode_unsealed entry spare) as (e & s & -> & He); [lia| |by exists e].
  apply (changed_unsealed pre b b' post); [done|done|]. rewrite <- H0. by apply image_sealed.
Qed.

(** ** Lemmas: scanning a segment *)

Definition images (ms : list UnknownMessage) : list byte := concat (map image ms).

(** What a crash in the middle of a write leaves: a proper prefix of an
    entry, possibly empty. *)
Definition torn (tail : list byte) : Prop :=
  exists m rest, storable m /\ image m = tail ++ rest /\ rest <> [].

Lemma uint32_at_spec front l rest n k lo :
  lo = Z.of_nat (length front) + Z.of_nat k -> (k + 4 <= length l)%nat ->
  uint32_at lo (Slice (front ++ l ++ rest) n)
  = (Ret (le_get (take 4 (drop k l))), Slice (front ++ l ++ rest) n).
Proof.
  intros -> Hk. unfold uint32_at.
  replace (front ++ l ++ rest) with ((front ++ take k l) ++ take 4 (drop k l) ++ drop (k + 4) l ++ rest) at 1.
  - destruct (slice_expr_cursor (front ++ take k l) (take 4 (drop k l)) (drop (k + 4) l ++ rest) n
      (Z.of_nat (length front) + Z.of_nat k) (Z.of_nat (length front) + Z.of_nat k + 4)) as (s & -> & ->);
      [rewrite length_app, length_take; lia | rewrite take_drop_slice; lia | done].
  - rewrite <- drop_drop, <- !app_assoc. f_equal.
    rewrite (app_assoc (take 4 _)), take_drop, app_assoc, take_drop. done.
Qed.

Lemma decode_at_image front m rest n lo hi :
  storable m -> lo = Z.of_nat (length front) -> hi = lo + Z.of_nat (length (image m)) ->
  decode_at lo hi (Slice (front ++ image m ++ rest) n)
  = (Ret m, Slice ((front ++ image_with 0 m) ++ rest) n).
Proof.
  intros Hm -> ->. unfold decode_at, slice_expr, slice_cap. cbn [arr len].
  rewrite !length_app, (proj2 (Z.leb_le _ _)), (proj2 (Z.leb_le _ _)), (proj2 (Z.leb_le _ _)) by lia.
  cbn [andb]. rewrite Nat2Z.id, drop_app_length, take_app_length.
  replace (Z.to_nat _) with (length (image m)) by lia.
  rewrite decode_image by done. cbn [arr]. by rewrite app_assoc.
Qed.

(** The fields the scan looks at, in an entry or in the start of one. *)
Lemma image_prefix_fields m l rest :
  storable m -> image m = l ++ rest -> (14 <= length l)%nat ->
  le_get (take 4 (drop 0 l)) = cQuarantineMagic /\
  le_get (take 4 (drop 10 l)) = Z.of_nat (length (image m)).
Proof.
  intros Hm Hi Hl.
  pose proof (entry_header_image (ChecksumIEEE (image_with 0 m)) m
    (ChecksumIEEE_range _) Hm) as He. fold (image m) in He. rewrite image_length, Hi in *.
  unfold entry_header in He.
  apply (f_equal (fun f => (ef_magic f, ef_length f))) in He. cbn [ef_magic ef_length] in He.
  injection He as H1 H2. rewrite take_app_le in H1 by lia.
  rewrite drop_app_le, take_app_le in H2 by (rewrite ?length_drop; lia).
  rewrite drop_0, H1, H2. split; [done|lia].
Qed.

Lemma image_size m : storable m ->
  cQuarantineEntryMinimum <= Z.of_nat (length (image m)) <= cQuarantineEntryMinimum + MaximumPayloadSize.
Proof.
  intros (_ & _ & mac & payload & [Hv _] & E). rewrite image_length, E.
  cbn [Payload message_of]. unfold cQuarantineEntryMinimum, cQuarantineHeaderSize, cQuarantineTrailerSize. lia.
Qed.

Lemma images_cons m ms : images (m :: ms) = image m ++ images ms.
Proof. reflexivity. Qed.

Lemma scan_loop_images ms tail spare front fuel n :
  Forall storable ms -> torn tail -> (length ms < fuel)%nat ->
  n = (length front + length (images ms) + length tail)%nat ->
  exists s', scan_loop fuel (Z.of_nat (length front)) (Slice (front ++ images ms ++ tail ++ spare) n)
    = (Ret (Z.of_nat (length front + length (images ms))), s').
Proof.
  intros Hms (m0 & rest & Hm0 & Hi0 & Hr). revert front fuel.
  induction Hms as [|m ms Hm Hms IH]; intros front fuel Hf ->;
    (destruct fuel as [|fuel]; [cbn [length] in Hf; lia|]); cbn [scan_loop];
    unfold mbind at 1, M_bind at 1, get at 1; cbv beta iota zeta; unfold slice_len; cbn [len].
  - cbn [images map concat length app].
    destruct (Z.ltb_spec (Z.of_nat (length front)) (Z.of_nat (length front + 0 + length tail))) as [H1|H1];
      cbn [negb]; [|eexists; unfold mret, M_ret; do 2 f_equal; f_equal; lia].
    destruct (Z.ltb_spec (Z.of_nat (length front + 0 + length tail) - Z.of_nat (length front)) cQuarantineHeaderSize)
      as [H2|H2]; [eexists; unfold mret, M_ret; do 2 f_equal; f_equal; lia|].
    unfold cQuarantineHeaderSize in H2.
    destruct (image_prefix_fields m0 tail rest Hm0 Hi0 ltac:(lia)) as [F1 F2].
    unfold mbind at 1, M_bind at 1. rewrite (uint32_at_spec front tail spare _ 0) by lia.
    rewrite F1, Z.eqb_refl. cbn [negb]. unfold mbind at 1, M_bind at 1.
    rewrite (uint32_at_spec front tail spare _ 10) by lia. rewrite F2.
    pose proof (image_size m0 Hm0).
    rewrite (proj2 (Z.ltb_ge _ _)), (proj2 (Z.ltb_ge _ _)) by lia. cbn [orb].
    rewrite (proj2 (Z.ltb_lt _ _)).
    { eexists. unfold mret, M_ret. do 2 f_equal. f_equal. lia. }
    rewrite Hi0, length_app. destruct rest; [done|]. cbn [length]. lia.
  - rewrite images_cons, length_app in IH |- *.
    pose proof (image_size m Hm) as Hs. pose proof (image_length m) as Hl.
    rewrite (proj2 (Z.ltb_lt _ _)) by lia. cbn [negb].
    rewrite (proj2 (Z.ltb_ge _ _)) by (unfold cQuarantineHeaderSize; lia).
    destruct (image_prefix_fields m (image m) [] Hm (eq_sym (app_nil_r _)) ltac:(lia)) as [F1 F2].
    rewrite <- !app_assoc.
    unfold mbind at 1, M_bind at 1. rewrite (uint32_at_spec front (image m) _ _ 0) by lia.
    rewrite F1, Z.eqb_refl. cbn [negb]. unfold mbind at 1, M_bind at 1.
    rewrite (uint32_at_spec front (image m) _ _ 10) by lia. rewrite F2.
    rewrite (proj2 (Z.ltb_ge _ _)), (proj2 (Z.ltb_ge _ _)) by lia. cbn [orb].
    rewrite (proj2 (Z.ltb_ge _ _)) by lia.
    unfold mbind at 1, M_bind at 1. rewrite decode_at_image by done.
    assert (Z.of_nat (length front) + Z.of_nat (length (image m)) = Z.of_nat (length (front ++ image_with 0 m))) as ->.
    { rewrite length_app, image_with_length, Hl. lia. }
    destruct (IH (front ++ image_with 0 m) fuel) as [s' Hs'];
      [cbn [length] in Hf; lia | rewrite length_app, image_with_length, Hl; lia |].
    exists s'. etrans; [exact Hs'|]. rewrite length_app, image_with_length, Hl.
    do 2 f_equal. f_equal. lia.
Qed.

Lemma scan_images ms tail spare :
  Forall storable ms -> torn tail ->
  result (scanQuarantineEntries (Slice ((images ms ++ tail) ++ spare) (length (images ms ++ tail))))
  = Ret (Z.of_nat (length (images ms))).
Proof.
  intros Hms Ht. unfold scanQuarantineEntries, mbind, M_bind, get.
  cbn [len]. rewrite <- app_assoc, length_app.
  destruct (scan_loop_images ms tail spare [] (S (length (images ms) + length tail))
    (length (images ms) + length tail) Hms Ht) as [s' Hs];
    [|done|cbn [length app] in Hs; change (Z.of_nat 0) with 0 in Hs; by rewrite Hs].
  enough (length ms <= length (images ms))%nat by lia. clear.
  induction ms as [|m ms IH]; [done|]. rewrite images_cons, length_app, image_length.
  cbn [length]. lia.
Qed.

Lemma read_loop_images ms spare front fuel n :
  Forall storable ms -> (length ms < fuel)%nat -> n = (length front + length (images ms))%nat ->
  result (read_entries_loop fuel (Z.of_nat (length front)) (Slice (front ++ images ms ++ spare) n)) = Ret ms.
Proof.
  intros Hms. revert front fuel.
  induction Hms as [|m ms Hm Hms IH]; intros front fuel Hf ->;
    (destruct fuel as [|fuel]; [cbn [length] in Hf; lia|]); cbn [read_entries_loop];
    unfold mbind at 1, M_bind at 1, get at 1; cbv beta iota zeta; unfold slice_len; cbn [len].
  - rewrite (proj2 (Z.ltb_ge _ _)) by (cbn; lia). done.
  - rewrite images_cons, length_app in IH |- *. pose proof (image_length m) as Hl.
    rewrite (proj2 (Z.ltb_lt _ _)) by lia. cbn [negb].
    destruct (image_prefix_fields m (image m) [] Hm (eq_sym (app_nil_r _)) ltac:(lia)) as [_ F2].
    rewrite <- !app_assoc. unfold mbind at 1, M_bind at 1.
    rewrite (uint32_at_spec front (image m) _ _ 10), F2 by lia.
    unfold mbind at 1, M_bind at 1, wrap_err. rewrite decode_at_image by done.
    assert (Z.of_nat (length front) + Z.of_nat (length (image m)) = Z.of_nat (length (front ++ image_with 0 m))) as ->.
    { rewrite length_app, image_with_length, Hl. lia. }
    specialize (IH (front ++ image_with 0 m) fuel).
    unfold mbind at 1, M_bind at 1.
    match type of IH with _ -> _ -> result ?x = _ => destruct x as [r s'] end.
    cbn [result fst] in *. rewrite IH; [done|cbn [length] in Hf; lia|].
    rewrite length_app, image_with_length, Hl. lia.
Qed.

(** ** Lemmas: repairing and reading a segment *)

Section recovery.
Context (spare : list byte -> list byte).

Lemma readAllFile_clean F D p c fs :
  clean F D fs -> F !! p = Some c -> p.1 ++ [p.2] ∉ D ->
  exists fs', readAllFile spare p fs = (Ret (Slice (c ++ spare c) (length c)), fs') /\ clean F D fs'.
Proof.
  intros H Hp Hd. unfold readAllFile, mbind, M_bind, wrap_err.
  destruct (OpenFile_clean F D p readWriteFlags c fs H Hp Hd ltac:(done)) as (fs1 & -> & H1).
  unfold attempt, attempt_err.
  destruct (ReadAll_clean F D p c fs1 H1 Hp) as (fs2 & -> & H2).
  destruct (Close_clean F D p fs2 H2) as (fs3 & -> & H3). by exists fs3.
Qed.

Lemma repair_clean F D p ms tail fs :
  clean F D fs -> F !! p = Some (images ms ++ tail) -> p.1 ++ [p.2] ∉ D ->
  Forall storable ms -> torn tail ->
  exists fs', repairQuarantineTail spare p fs = (Ret tt, fs') /\ clean (<[p := images ms]> F) D fs'.
Proof.
  intros H Hp Hd Hms Ht. unfold repairQuarantineTail.
  unfold mbind at 1, M_bind at 1.
  destruct (readAllFile_clean F D p _ fs H Hp Hd) as (fs1 & -> & H1).
  unfold mbind at 1, M_bind at 1, wrap_err, lift.
  rewrite scan_images by done. unfold slice_len. cbn [len]. rewrite length_app.
  destruct (Z.eqb_spec (Z.of_nat (length (images ms))) (Z.of_nat (length (images ms) + length tail))) as [E|E].
  - exists fs1. split; [done|]. assert (length tail = 0)%nat as ->%nil_length_inv by lia.
    by rewrite insert_id by (by rewrite app_nil_r in Hp).
  - destruct (OpenFile_clean F D p readWriteFlags _ fs1 H1 Hp Hd ltac:(done)) as (fs2 & E2 & H2).
    unfold mbind at 1, M_bind at 1. rewrite E2.
    destruct (Truncate_clean F D p (Z.of_nat (length (images ms))) _ fs2 H2 Hp) as (fs3 & E3 & H3);
      [rewrite length_app; lia|].
    rewrite Nat2Z.id, take_app_length in H3.
    destruct (Sync_clean _ D p fs3 H3) as (fs4 & E4 & H4).
    destruct (Close_clean _ D p fs4 H4) as (fs5 & E5 & H5).
    unfold mbind, M_bind, attempt_err. rewrite E3, E4, E5. by exists fs5.
Qed.

Lemma read_clean F D p ms fs :
  clean F D fs -> F !! p = Some (images ms) -> p.1 ++ [p.2] ∉ D -> Forall storable ms ->
  exists fs', readQuarantineEntries spare p fs = (Ret ms, fs') /\ clean F D fs'.
Proof.
  intros H Hp Hd Hms. unfold readQuarantineEntries, mbind, M_bind.
  destruct (readAllFile_clean F D p _ fs H Hp Hd) as (fs1 & -> & H1).
  exists fs1. split; [|done]. unfold lift. cbn [len]. f_equal.
  apply (read_loop_images ms (spare (images ms)) [] (S (length (images ms))) _ Hms); [|done].
  apply Nat.lt_succ_r. clear. induction ms as [|m ms IH]; [done|].
  rewrite images_cons, length_app, image_length. cbn [length]. lia.
Qed.
End recovery.

(** ** Specification of the writer: messages placed in segments

    The segments, newest first; a message goes to the newest one unless this
    one is not empty and the entry would exceed the rotation size. *)
Definition place (rotation : Z) (segs : list (list UnknownMessage)) (m : UnknownMessage)
    : list (list UnknownMessage) :=
  match segs with
  | [] => [[m]]
  | cur :: older =>
      let size := Z.of_nat (length (images cur)) in
      if (0 <? size) && (rotation <? size + Z.of_nat (length (image m)))
      then [m] :: cur :: older
      else (cur ++ [m]) :: older
  end.

(** The messages in the order they were written. *)
Definition messages (segs : list (list UnknownMessage)) : list UnknownMessage := concat (reverse segs).

Definition q_segment (w : QuarantineWriter) (n : Z) : file_path :=
  (Directory (options w), quarantineSegmentName n).

(** A writer that works, the files [F] holding the segments [segs]. *)
Record stored (w : QuarantineWriter) (segs : list (list UnknownMessage))
    (F : gmap file_path (list byte)) (D : gset dir_path) : Prop := mkStored {
  st_open : closed w = false;
  st_file : file w = Some (segmentPath w);
  st_nonempty : (0 < length segs)%nat;
  st_size : forall cur, segs !! 0%nat = Some cur -> size w = Z.of_nat (length (images cur));
  st_bound : size w < 2 ^ 62;
  st_rotation : RotationSize (options w) < 2 ^ 61;
  st_images : forall i ms, segs !! i = Some ms ->
    F !! q_segment w (sequence w - Z.of_nat i) = Some (images ms);
  st_sequence : Z.of_nat (length segs) <= sequence w < 2 ^ 64;
  st_fresh : forall n, sequence w < n < 2 ^ 64 -> F !! q_segment w n = None;
  st_dir : Directory (options w) ∈ D;
  st_names : forall n, Directory (options w) ++ [quarantineSegmentName n] ∉ D }.

Lemma q_segment_inj w n m :
  0 <= n < 2 ^ 64 -> 0 <= m < 2 ^ 64 -> q_segment w n = q_segment w m -> n = m.
Proof.
  intros Hn Hm [= E]. apply (inj of_chars) in E.
  apply (app_inj_2 _ _ _ _ eq_refl) in E as [E _]. by apply format_0d_inj in E.
Qed.

Lemma images_app ms ms' : images (ms ++ ms') = images ms ++ images ms'.
Proof. unfold images. by rewrite map_app, concat_app. Qed.

Lemma images_one m : images [m] = image m.
Proof. apply app_nil_r. Qed.

Lemma place_messages rotation segs m : messages (place rotation segs m) = messages segs ++ [m].
Proof.
  unfold messages. destruct segs as [|cur older]; [done|]. cbn [place].
  destruct (_ && _); rewrite !reverse_cons, !concat_app; cbn [concat]; by rewrite ?app_nil_r, ?app_assoc.
Qed.

(** One write, the segment being open. *)
Lemma append_stored w cur older F D fs m :
  stored w (cur :: older) F D -> clean F D fs ->
  Z.of_nat (length (image m)) <= 2 ^ 61 -> size w + Z.of_nat (length (image m)) < 2 ^ 62 ->
  exists F' fs',
    (file_call (image m);; q_update (fun w => q_set_size (i64 (size w + Z.of_nat (length (image m)))) w)) (w, fs)
      = (Ret tt, (q_set_size (size w + Z.of_nat (length (image m))) w, fs')) /\
    clean F' D fs' /\
    stored (q_set_size (size w + Z.of_nat (length (image m))) w) ((cur ++ [m]) :: older) F' D /\
    (forall q, q <> segmentPath w -> F' !! q = F !! q).
Proof.
  intros Hs Hc Hl Hb. destruct Hs as [so sf sn ss sb sr si sq sh sd sm].
  pose proof (ss cur eq_refl) as Hsz.
  pose proof (si 0%nat cur eq_refl) as Hcur. rewrite Z.sub_0_r in Hcur. fold (segmentPath w) in Hcur.
  unfold mbind, M_bind, file_call. rewrite sf.
  destruct (file_Write_clean F D (segmentPath w) _ (image m) fs Hc Hcur) as (n & fs' & -> & Hc').
  unfold q_update, modify. cbn [fst snd]. rewrite wraps_small by lia.
  eexists _, fs'. split; [done|]. split; [exact Hc'|]. split.
  - constructor; cbn [closed file size sequence options q_set_size]; try done.
    + intros ms [= <-]. rewrite images_app, images_one, length_app. lia.
    + intros [|i] ms H.
      * injection H as <-. rewrite Z.sub_0_r. change (q_segment _ _) with (segmentPath w).
        by rewrite lookup_insert_eq, images_app, images_one.
      * cbn in H. pose proof (lookup_lt_Some older i ms H). cbn [length] in sq.
        rewrite lookup_insert_ne.
        -- apply (si (S i) ms H).
        -- intros E. apply (q_segment_inj w) in E; [lia..|].  lia.
    + intros k Hk. rewrite lookup_insert_ne; [by apply sh|].
      intros E. apply (q_segment_inj w) in E; cbn [length] in sq; lia.
  - intros q Hq. by rewrite lookup_insert_ne.
Qed.

(** A rotation: the segment is closed and an empty one opened. *)
Lemma rotate_stored w segs F D fs :
  stored w segs F D -> clean F D fs -> sequence w + 1 < 2 ^ 64 ->
  let w' := q_set_file (Some (q_segment w (sequence w + 1))) (q_next w) in
  exists fs', rotate (w, fs) = (Ret tt, (w', fs')) /\
    clean (<[q_segment w (sequence w + 1) := []]> F) D fs' /\
    stored w' ([] :: segs) (<[q_segment w (sequence w + 1) := []]> F) D.
Proof.
  intros [so sf sn ss sb sr si sq sh sd sm] Hc Hseq w'.
  unfold rotate, closeSegment, openSegment. unfold mbind, M_bind, gets. cbn [fst]. rewrite sf.
  unfold attempt_err, q_fsop, zoom. cbn [fst snd].
  destruct (Sync_clean F D (segmentPath w) fs Hc) as (fs1 & -> & H1). cbn [fst snd].
  destruct (Close_clean F D (segmentPath w) fs1 H1) as (fs2 & -> & H2). cbn [fst snd].
  change (errors_Join [None; None]) with (@None error).
  unfold q_update, modify, wrap_err, mret, M_ret. cbn [fst snd].
  assert (q_next (q_set_file None w) = q_set_file None (q_next w)) as Hn by done.
  assert (segmentPath (q_next (q_set_file None w)) = q_segment w (sequence w + 1)) as Hp.
  { unfold segmentPath, q_segment. cbn [options q_next q_set_file sequence].
    by rewrite wrapu_small by lia. }
  rewrite Hp.
  destruct (OpenFile_create_clean F D (q_segment w (sequence w + 1)) createAppendReadWriteFlags fs2 H2)
    as (fs3 & -> & H3); [apply sh; lia|done|apply sm|by right|]. cbn [fst snd].
  exists fs3. split; [by rewrite Hp|]. split; [exact H3|].
  constructor; unfold w'; cbn [closed file size sequence options q_set_file q_next length]; try done;
    rewrite ?(wrapu_small 64 (sequence w + 1)) by lia; try lia.
  - unfold segmentPath, q_segment. cbn [options q_set_file q_next sequence].
    by rewrite wrapu_small by lia.
  - by intros ? [= <-].
  - intros [|i] ms H.
    + injection H as <-. rewrite Z.sub_0_r. apply lookup_insert_eq.
    + cbn in H. pose proof (lookup_lt_Some segs i ms H). rewrite lookup_insert_ne.
      * replace (sequence w + 1 - Z.of_nat (S i)) with (sequence w - Z.of_nat i) by lia. by apply si.
      * intros E. apply (q_segment_inj w) in E; lia.
  - intros k Hk. rewrite lookup_insert_ne; [apply sh; lia|].
    intros E. apply (q_segment_inj w) in E; lia.
Qed.

(** What the operations leave alone: the options, and every file that is not
    a segment from the current one on. *)
Record keeps (w w' : QuarantineWriter) (F F' : gmap file_path (list byte)) : Prop := mkKeeps {
  kp_options : options w' = options w;
  kp_sequence : sequence w <= sequence w';
  kp_others : forall q, (forall n, sequence w <= n <= sequence w' -> q <> q_segment w n) -> F' !! q = F !! q }.

Lemma keeps_trans w1 w2 w3 F1 F2 F3 : keeps w1 w2 F1 F2 -> keeps w2 w3 F2 F3 -> keeps w1 w3 F1 F3.
Proof.
  intros [o1 s1 f1] [o2 s2 f2]. constructor; [congruence|lia|].
  intros q Hq. rewrite f2, f1; [done| |].
  - intros n Hn. apply Hq. lia.
  - intros n Hn. unfold q_segment. rewrite o1. apply Hq. lia.
Qed.

Lemma image_bound m : storable m -> Z.of_nat (length (image m)) <= 8226.
Proof. intros [_ H]%image_size. by vm_compute (cQuarantineEntryMinimum + MaximumPayloadSize) in H. Qed.

Lemma write_stored w segs F D fs m :
  stored w segs F D -> clean F D fs -> storable m -> sequence w + 1 < 2 ^ 64 ->
  exists w' F' fs', WriteUnknownMessage None m (w, fs) = (Ret tt, (w', fs')) /\
    clean F' D fs' /\ stored w' (place (RotationSize (options w)) segs m) F' D /\ keeps w w' F F' /\
    sequence w' <= sequence w + 1 /\
    sequence w' - Z.of_nat (length (place (RotationSize (options w)) segs m)) =
      sequence w - Z.of_nat (length segs).
Proof.
  intros Hs Hc Hm Hseq. pose proof (image_bound m Hm) as Hb.
  unfold WriteUnknownMessage. unfold mbind at 1, M_bind at 1, lift. rewrite storable_encode by done.
  unfold mbind at 1, M_bind at 1, gets. cbn [fst]. rewrite (st_open _ _ _ _ Hs).
  pose proof (st_nonempty _ _ _ _ Hs) as Hne. destruct segs as [|cur older]; [cbn in Hne; lia|].
  pose proof (st_size _ _ _ _ Hs cur eq_refl) as Hsz. cbn [place]. rewrite <- Hsz.
  pose proof (st_bound _ _ _ _ Hs). pose proof (st_rotation _ _ _ _ Hs).
  pose proof (st_sequence _ _ _ _ Hs) as Hsq.
  rewrite (wraps_small 64) by lia.
  destruct ((0 <? size w) && _) eqn:E.
  - destruct (rotate_stored w (cur :: older) F D fs Hs Hc Hseq) as (fs1 & E1 & H1 & S1).
    unfold mbind at 1, M_bind at 1. rewrite E1.
    destruct (append_stored _ _ _ _ D fs1 m S1 H1) as (F' & fs' & E2 & H2 & S2 & K2);
      [lia|cbn [size q_set_file q_next]; lia|].
    eexists _, F', fs'. split; [exact E2|]. split; [done|]. split; [exact S2|].
    cbn [sequence q_set_size q_set_file q_next]. rewrite (wrapu_small 64 (sequence w + 1)) by lia.
    split; [|cbn [length]; lia]. constructor; [done|cbn; rewrite wrapu_small; lia|].
    intros q Hq. cbn [sequence q_set_size q_set_file q_next] in Hq. rewrite (wrapu_small 64 (sequence w + 1)) in Hq by lia.
    rewrite K2, lookup_insert_ne; [done|..].
    + intros <-. apply (Hq (sequence w + 1)); [lia|done].
    + unfold segmentPath. cbn [options q_set_file q_next sequence]. rewrite wrapu_small by lia.
      intros ->. apply (Hq (sequence w + 1)); [lia|done].
  - destruct (append_stored w cur older F D fs m Hs Hc) as (F' & fs' & E2 & H2 & S2 & K2); [lia| |].
    { apply andb_false_iff in E as [E|E]; apply Z.ltb_ge in E; lia. }
    eexists _, F', fs'. split; [exact E2|]. split; [done|]. split; [exact S2|].
    split; [|cbn [sequence q_set_size length]; lia]. constructor; [done|cbn; lia|].
    intros q Hq. apply K2. intros ->. apply (Hq (sequence w)); [cbn; lia|done].
Qed.

(** The messages the router quarantines, one after the other. *)
Fixpoint write_messages (ms : list UnknownMessage) : M (QuarantineWriter * FS) unit :=
  match ms with
  | [] => mret tt
  | m :: ms => WriteUnknownMessage None m;; write_messages ms
  end.

Lemma write_all_stored ms w segs F D fs :
  stored w segs F D -> clean F D fs -> Forall storable ms ->
  sequence w + Z.of_nat (length ms) < 2 ^ 64 ->
  exists w' F' fs', write_messages ms (w, fs) = (Ret tt, (w', fs')) /\
    clean F' D fs' /\ stored w' (foldl (place (RotationSize (options w))) segs ms) F' D /\
    keeps w w' F F' /\ sequence w' <= sequence w + Z.of_nat (length ms) /\
    sequence w' - Z.of_nat (length (foldl (place (RotationSize (options w))) segs ms)) =
      sequence w - Z.of_nat (length segs).
Proof.
  intros Hs Hc Hms. revert w segs F fs Hs Hc.
  induction Hms as [|m ms Hm Hms IH]; intros w segs F fs Hs Hc Hseq.
  - exists w, F, fs. split_and!; [done..|constructor; try done; lia|cbn; lia|done].
  - cbn [length] in Hseq.
    destruct (write_stored w segs F D fs m Hs Hc Hm) as (w1 & F1 & fs1 & E1 & H1 & S1 & K1 & Q1 & L1); [lia|].
    destruct (IH w1 _ F1 fs1 S1 H1) as (w2 & F2 & fs2 & E2 & H2 & S2 & K2 & Q2 & L2); [lia|].
    exists w2, F2, fs2. cbn [write_messages]. unfold mbind, M_bind. rewrite E1, E2.
    rewrite (kp_options _ _ _ _ K1) in S2, L2. split_and!; [done..| |cbn [length]; lia|cbn [foldl]; lia].
    by eapply keeps_trans.
Qed.

Lemma close_stored w segs F D fs :
  stored w segs F D -> clean F D fs ->
  exists fs', Close (w, fs) = (Ret tt, (q_set_file None (q_set_closed w), fs')) /\ clean F D fs'.
Proof.
  intros Hs Hc. unfold Close, mbind, M_bind, gets. cbn [fst]. rewrite (st_open _ _ _ _ Hs).
  unfold q_update, modify, closeSegment, mbind, M_bind, gets. cbn [fst snd].
  cbn [file q_set_closed]. rewrite (st_file _ _ _ _ Hs).
  unfold attempt_err, q_fsop, zoom. cbn [fst snd].
  destruct (Sync_clean F D (segmentPath w) fs Hc) as (fs1 & -> & H1). cbn [fst snd].
  destruct (Close_clean F D (segmentPath w) fs1 H1) as (fs2 & -> & H2). by exists fs2.
Qed.

(** ** Lemmas: segment names and discovery *)

Lemma parseQuarantineSegmentName_name n :
  1 <= n <= 99999999 -> parseQuarantineSegmentName (quarantineSegmentName n) = Some n.
Proof.
  intros Hn. unfold parseQuarantineSegmentName, quarantineSegmentName. rewrite chars_of_chars.
  assert (length (format_0d 8 n) = 8%nat) as Hl
    by (apply format_0d_length; [change (10 ^ Z.of_nat 8) with 100000000; lia|lia]).
  rewrite has_prefix_app, app_assoc, has_suffix_app.
  rewrite bool_decide_eq_true_2 by (rewrite !length_app, Hl; done). cbn [negb orb].
  rewrite <- app_assoc, drop_app_length, (take_app_length' _ _ 8 (eq_sym Hl)).
  rewrite ParseUint_format by lia. unfold firstSegmentSequence.
  by rewrite (proj2 (Z.leb_le _ _)) by lia.
Qed.

Lemma parseQuarantineSegmentName_Some name n :
  parseQuarantineSegmentName name = Some n -> name = quarantineSegmentName n /\ 1 <= n <= 99999999.
Proof.
  unfold parseQuarantineSegmentName, quarantineSegmentName, firstSegmentSequence. cbv zeta.
  destruct (_ || _) eqn:E; [done|]. bool_to_prop.
  destruct (ParseUint 64 _) as [v|] eqn:P; [|done].
  destruct (Z.leb_spec 1 v); [|done]. intros [= <-].
  apply ParseUint_Some in P as [_ P].
  set (cs := chars name) in *. set (pre := chars "quarantine-") in *. set (suf := chars ".bin") in *.
  assert (length cs = 23)%nat as Hl by done.
  match goal with Hp : has_prefix _ _ = true |- _ => apply has_prefix_split in Hp as Hpre end.
  match goal with Hs : has_suffix _ _ = true |- _ => apply has_suffix_split in Hs as Hsuf end.
  assert (length (take 8 (drop (length pre) cs)) = 8%nat) as H8
    by (apply take_drop_slice; rewrite Hl; vm_compute; lia).
  pose proof (parse_digits_bound _ 0 _ (Z.le_refl 0) P) as Hb. rewrite H8 in Hb.
  change (10 ^ Z.of_nat 8) with 100000000 in Hb. split; [|lia].
  rewrite <- (of_chars_chars name). f_equal. fold cs. rewrite Hpre at 1. f_equal.
  pose proof (format_parse_digits (take 8 (drop (length pre) cs)) v ltac:(lia) P) as Hf.
  rewrite H8 in Hf. rewrite Hf, <- (take_drop 8 (drop (length pre) cs)) at 1. f_equal.
  rewrite drop_drop, Hsuf, Hl. apply drop_app_length'. rewrite length_take, Hl. done.
Qed.

(** Two segments with the same path have the same sequence. *)
Lemma segment_path_inj (d : dir_path) n k :
  1 <= n <= 99999999 -> 1 <= k <= 99999999 ->
  (d, quarantineSegmentName n) = (d, quarantineSegmentName k) -> n = k.
Proof.
  intros Hn Hk E. pose proof (f_equal (fun p : file_path => parseQuarantineSegmentName p.2) E) as E'.
  cbv beta in E'. change (parseQuarantineSegmentName (quarantineSegmentName n)
    = parseQuarantineSegmentName (quarantineSegmentName k)) in E'.
  rewrite !parseQuarantineSegmentName_name in E' by done. by injection E'.
Qed.

Lemma discover_clean F D d fs :
  clean F D fs -> d ∈ D ->
  exists l fs', discoverQuarantineSegments d fs = (Ret l, fs') /\ clean F D fs' /\
    StronglySorted segment_le l /\
    forall n p, (n, p) ∈ l <-> p = (d, quarantineSegmentName n) /\ 1 <= n <= 99999999 /\ is_Some (F !! p).
Proof.
  intros H Hd. unfold discoverQuarantineSegments, mbind, M_bind, wrap_err.
  destruct (ReadDir_clean F D d fs H Hd) as (es & fs' & -> & H' & Hes).
  do 2 eexists. split; [done|]. split; [done|]. split.
  - apply StronglySorted_merge_sort.
    + intros a b c. unfold segment_le. lia.
    + intros a b. unfold segment_le. lia.
  - intros n p. rewrite merge_sort_Permutation, list_elem_of_omap. split.
    + intros ([name dir] & Hin & E). cbn in E.
      destruct (parseQuarantineSegmentName name) eqn:P; [|done]. destruct dir; [done|]. simplify_eq.
      apply parseQuarantineSegmentName_Some in P as [-> Hn].
      split_and!; [done|lia..|]. by apply Hes.
    + intros (-> & Hn & Hs). exists (quarantineSegmentName n, false).
      split; [by apply Hes|]. cbn [fst snd]. by rewrite parseQuarantineSegmentName_name.
Qed.

(** ** Lemmas: opening a directory *)

Section opening.
Context (spare : list byte -> list byte).

(** The segments found hold whole entries, but for a torn tail. *)
Definition recoverable (F : gmap file_path (list byte)) (d : dir_path)
    (held : Z -> list UnknownMessage) : Prop :=
  forall n c, 1 <= n <= 99999999 -> F !! (d, quarantineSegmentName n) = Some c ->
  exists tail, c = images (held n) ++ tail /\ Forall storable (held n) /\ torn tail.

Lemma torn_nil tail : torn tail -> torn [].
Proof.
  intros (m & rest & Hm & Hi & _). exists m, (image m). split_and!; [done..|].
  intros E. apply (f_equal length) in E. rewrite image_length in E. cbn [length] in E. lia.
Qed.

Lemma repair_all_clean d held l F D fs :
  clean F D fs -> recoverable F d held ->
  (forall n, d ++ [quarantineSegmentName n] ∉ D) ->
  (forall n p, (n, p) ∈ l -> p = (d, quarantineSegmentName n) /\ 1 <= n <= 99999999 /\ is_Some (F !! p)) ->
  exists F' fs', repair_all spare l fs = (Ret tt, fs') /\ clean F' D fs' /\
    (forall n p, (n, p) ∈ l -> F' !! p = Some (images (held n))) /\
    (forall q, q ∉ map snd l -> F' !! q = F !! q) /\ recoverable F' d held /\
    (forall q, is_Some (F' !! q) <-> is_Some (F !! q)).
Proof.
  revert F fs. induction l as [|[n p] l IH]; intros F fs H Hr Hd Hl.
  { exists F, fs. split_and!; try done. by intros n p ?%elem_of_nil. }
  destruct (Hl n p) as (Hp & Hn & [c Hc]); [by left|].
  pose proof Hc as Hc'. rewrite Hp in Hc'. destruct (Hr n c Hn Hc') as (tail & -> & Hh & Ht).
  cbn [repair_all]. unfold mbind at 1, M_bind at 1. cbn [snd].
  destruct (repair_clean spare F D p (held n) tail fs H Hc) as (fs1 & E1 & H1);
    [rewrite Hp; apply Hd|done|done|].
  rewrite E1.
  destruct (IH (<[p:=images (held n)]> F) fs1 H1) as (F' & fs' & E & H' & Hin & Hout & Hr' & Hs').
  - intros k c Hk. destruct (decide ((d, quarantineSegmentName k) = p)) as [<-|Hne].
    + rewrite lookup_insert_eq. intros [= <-]. exists [].
      assert (k = n) as ->; [|rewrite app_nil_r; by eauto using torn_nil].
      by apply (segment_path_inj d).
    + rewrite lookup_insert_ne by done. by apply Hr.
  - done.
  - intros k q Hq. destruct (Hl k q) as (? & ? & ?); [by right|]. split_and!; [done|lia..|].
    destruct (decide (p = q)) as [<-|]; [rewrite lookup_insert_eq|rewrite lookup_insert_ne]; by eauto.
  - exists F', fs'. split; [done|]. split; [done|]. split.
    + intros k q [[= -> ->]|Hin']%elem_of_cons; [|by apply Hin].
      destruct (decide (p ∈ map snd l)) as [Hi|Hi].
      * apply list_elem_of_fmap in Hi as ([k' q] & [= ->] & Hi).
        destruct (Hl k' q) as (Hq & Hk' & _); [by right|].
        assert (k' = n) as ->; [|by apply Hin].
        apply (segment_path_inj d); [done..|]. by rewrite <- Hq, <- Hp.
      * by rewrite Hout, lookup_insert_eq.
    + split_and!; [|done|].
      * intros q Hq. cbn [map snd] in Hq. apply not_elem_of_cons in Hq as [Hq1 Hq2].
        by rewrite Hout, lookup_insert_ne.
      * intros q. rewrite Hs'. destruct (decide (p = q)) as [<-|];
          [rewrite lookup_insert_eq, Hc|by rewrite lookup_insert_ne]. split; by eauto.
Qed.
End opening.

Lemma sorted_last l s :
  StronglySorted segment_le l -> last l = Some s -> forall x, x ∈ l -> x.1 <= s.1.
Proof.
  intros Hs. induction Hs as [|a l Hs IH Ha]; [done|]. intros Hl x Hx.
  destruct l as [|b l].
  - injection Hl as ->. apply list_elem_of_singleton in Hx as ->. lia.
  - rewrite last_cons_cons in Hl. apply elem_of_cons in Hx as [->|Hx]; [|by apply IH].
    rewrite Forall_forall in Ha. apply Ha. by apply last_Some_elem_of.
Qed.

(** A directory a writer can be opened in, no call failing: its segments hold
    the messages [held], up to a torn tail. *)
Record q_openable (opts : QuarantineOptions) (held : Z -> list UnknownMessage) (fs : FS) : Prop :=
  mkQOpenable {
  qo_faults : no_faults fs;
  qo_path : blank_path (Directory opts) = false;
  qo_rotation : cQuarantineEntryMinimum <= RotationSize opts < 2 ^ 61;
  qo_parents : existsb (is_file fs) (ancestors (Directory opts)) = false;
  qo_names : forall n, Directory opts ++ [quarantineSegmentName n] ∉ dirs fs;
  qo_held : recoverable (files fs) (Directory opts) held;
  qo_long : forall n, 100000000 <= n < 2 ^ 64 -> files fs !! (Directory opts, quarantineSegmentName n) = None }.

Lemma open_stored spare opts held fs :
  q_openable opts held fs ->
  exists w fs', OpenQuarantineWriter spare opts fs = (Ret w, fs') /\
    clean (files fs') (dirs fs') fs' /\ stored w [[]] (files fs') (dirs fs') /\
    Directory (options w) = Directory opts /\ RotationSize (options w) = RotationSize opts /\
    sequence w <= 100000000 /\
    (forall n, 1 <= n <= 99999999 -> is_Some (files fs !! (Directory opts, quarantineSegmentName n)) ->
       n < sequence w /\ files fs' !! (Directory opts, quarantineSegmentName n) = Some (images (held n))) /\
    (forall q, q.1 <> Directory opts \/ parseQuarantineSegmentName q.2 = None ->
       q <> segmentPath w -> files fs' !! q = files fs !! q) /\
    (forall q, q <> segmentPath w -> is_Some (files fs' !! q) <-> is_Some (files fs !! q)) /\
    (forall p, p ∈ dirs fs' <-> p ∈ ancestors (Directory opts) \/ p ∈ dirs fs) /\
    (sequence w = 1 \/ is_Some (files fs !! (Directory opts, quarantineSegmentName (sequence w - 1)))).
Proof.
  intros [onf op orot oa on oh ol]. unfold OpenQuarantineWriter. rewrite op.
  rewrite (proj2 (Z.ltb_ge _ _)) by lia. cbv zeta. cbn [Directory RotationSize].
  destruct (MkdirAll_clean _ _ (Directory opts) fs (clean_intro fs onf) oa) as (fs1 & E1 & H1).
  set (D := list_to_set (ancestors (Directory opts)) ∪ dirs fs) in *. set (d := Directory opts) in *.
  assert (d ∈ D) as Hd.
  { apply elem_of_union_l, elem_of_list_to_set, ancestors_self. by apply blank_path_nil. }
  assert (forall n, d ++ [quarantineSegmentName n] ∉ D) as Hn.
  { intros n [Hin%elem_of_list_to_set|Hin]%elem_of_union; [|by apply (on n)].
    apply ancestors_length in Hin. rewrite length_app in Hin. cbn [length] in Hin. lia. }
  unfold mbind at 1, M_bind at 1, wrap_err at 1. rewrite E1.
  destruct (discover_clean _ D d fs1 H1 Hd) as (l & fs2 & E2 & H2 & Hsort & Hl).
  unfold mbind at 1, M_bind at 1. rewrite E2.
  destruct (repair_all_clean spare d held l _ D fs2 H2 oh Hn) as (F & fs3 & E3 & H3 & Hin & Hout & Hr & Hs);
    [by intros n p ?%Hl|].
  unfold mbind at 1, M_bind at 1. rewrite E3.
  match goal with |- context [openWriterAt _ ?x] => set (seq := x) end.
  assert (1 <= seq <= 100000000 /\
    forall n, 1 <= n <= 99999999 -> is_Some (files fs !! (d, quarantineSegmentName n)) -> n < seq) as [Hseq Hbelow].
  { unfold seq, firstSegmentSequence. destruct (@last (Z * file_path) l) as [[k p]|] eqn:El; cbn [fst].
    - destruct (proj1 (Hl k p)) as (_ & Hk & _); [by apply last_Some_elem_of|].
      rewrite wrapu_small by lia. split; [lia|]. intros n Hn1 Hn2.
      assert (n <= k); [|lia].
      apply (sorted_last l (k, p) Hsort El (n, (d, quarantineSegmentName n))). apply Hl. split; [done|by split].
    - split; [lia|]. intros n Hn1 Hn2. apply last_None in El as ->. exfalso.
      assert ((n, (d, quarantineSegmentName n)) ∈ ([] : list quarantineSegment)) as E
        by (apply Hl; split; [done|by split]).
      by apply elem_of_nil in E. }
  assert (seq = 1 \/ is_Some (files fs !! (d, quarantineSegmentName (seq - 1)))) as Hlast.
  { unfold seq, firstSegmentSequence. destruct (@last (Z * file_path) l) as [[k p]|] eqn:El; cbn [fst]; [right|by left].
    destruct (proj1 (Hl k p)) as (-> & Hk & Hsome); [by apply last_Some_elem_of|].
    rewrite wrapu_small by lia. by replace (k + 1 - 1) with k by lia. }
  assert (forall n, seq <= n < 2 ^ 64 -> F !! (d, quarantineSegmentName n) = None) as Hfresh.
  { intros n Hn1. apply eq_None_not_Some. rewrite Hs. intros Hsome.
    destruct (decide (n <= 99999999)).
    - apply Hbelow in Hsome; lia.
    - rewrite ol in Hsome by lia. by destruct Hsome. }
  unfold openWriterAt, openSegment, mbind, M_bind, gets, wrap_err, q_fsop, zoom. cbn [fst snd].
  change (segmentPath (mkQuarantineWriter _ None seq 0 false)) with (d, quarantineSegmentName seq).
  destruct (OpenFile_create_clean F D (d, quarantineSegmentName seq) createAppendReadWriteFlags fs3 H3)
    as (fs4 & E4 & H4); [apply Hfresh; lia|done|apply Hn|by right|].
  rewrite E4. unfold q_update, modify. cbn [fst snd].
  do 2 eexists. split; [done|]. destruct H4 as (F4 & D4 & N4). rewrite F4, D4.
  split; [done|]. split; [|split; [done|split; [done|split; [cbn; lia|split; [|split; [|split]]]]]].
  - constructor; cbn [closed file size sequence options q_set_file Directory RotationSize length]; try done; try lia.
    + by intros ? [= <-].
    + intros [|i] ms E; [|done]. injection E as <-. rewrite Z.sub_0_r. apply lookup_insert_eq.
    + intros n Hn1. unfold q_segment. cbn [options Directory q_set_file].
      rewrite lookup_insert_ne; [apply Hfresh; lia|]. intros E.
      pose proof (Hfresh n) as Hf. 
      apply (q_segment_inj (mkQuarantineWriter opts None 0 0 false)) in E; lia.
  - intros n Hn1 Hn2. cbn [sequence q_set_file]. pose proof (Hbelow n Hn1 Hn2). split; [done|].
    rewrite lookup_insert_ne.
    + apply Hin. apply Hl. split; [done|by split].
    + intros E. apply (q_segment_inj (mkQuarantineWriter opts None 0 0 false)) in E; lia.
  - intros q Hq Hne. rewrite lookup_insert_ne by (intros E; by apply Hne).
    apply Hout. intros ([k p] & -> & (-> & Hk & _)%Hl)%list_elem_of_fmap. cbn [fst snd] in Hq.
    destruct Hq as [|Hq]; [done|]. by rewrite parseQuarantineSegmentName_name in Hq.
  - intros q Hne. rewrite lookup_insert_ne by (intros E; by apply Hne). apply Hs.
  - split; [intros p; unfold D; by rewrite elem_of_union, elem_of_list_to_set|exact Hlast].
Qed.

(** C17. Recovery after a crash: a directory whose segments hold whole entries
    up to a torn tail is opened; every segment found is cut back to its whole
    entries, and reading it returns them; a new empty segment, numbered above
    all of them, is opened; no other file is touched. *)
Theorem OpenQuarantineWriter_recovers spare opts held fs :
  q_openable opts held fs ->
  exists w fs', OpenQuarantineWriter spare opts fs = (Ret w, fs') /\
    files fs' !! segmentPath w = Some [] /\
    (forall n, 1 <= n <= 99999999 -> is_Some (files fs !! (Directory opts, quarantineSegmentName n)) ->
       n < sequence w /\ files fs' !! (Directory opts, quarantineSegmentName n) = Some (images (held n)) /\
       result (readQuarantineEntries spare (Directory opts, quarantineSegmentName n) fs') = Ret (held n)) /\
    (forall q, q.1 <> Directory opts \/ parseQuarantineSegmentName q.2 = None ->
       q <> segmentPath w -> files fs' !! q = files fs !! q).
Proof.
  intros Ho. destruct (open_stored spare opts held fs Ho)
    as (w & fs' & E & Hc & Hs & Hd & _ & _ & Hh & Hq & _).
  exists w, fs'. split; [done|]. split.
  { pose proof (st_images _ _ _ _ Hs 0%nat [] eq_refl) as H. by rewrite Z.sub_0_r in H. }
  split; [|done]. intros n Hn Hsome. destruct (Hh n Hn Hsome) as [Hlt Hf]. split_and!; [done..|].
  destruct Hsome as [c Hc0]. destruct (qo_held _ _ _ Ho n c Hn Hc0) as (_ & _ & Hst & _).
  destruct (read_clean spare _ _ _ (held n) fs' Hc Hf) as (fs2 & -> & _); [|done|done].
  cbn [fst snd]. rewrite <- Hd. apply (st_names _ _ _ _ Hs).
Qed.

Lemma place_sizes rotation segs m :
  cQuarantineEntryMinimum <= rotation ->
  (forall seg, seg ∈ segs -> Z.of_nat (length (images seg)) <= rotation \/ (length seg <= 1)%nat) ->
  forall seg, seg ∈ place rotation segs m ->
  Z.of_nat (length (images seg)) <= rotation \/ (length seg <= 1)%nat.
Proof.
  intros Hr Hs. destruct segs as [|cur older]; cbn [place].
  { intros seg ->%list_elem_of_singleton. right. cbn. lia. }
  destruct (_ && _) eqn:E; intros seg [->|Hin]%elem_of_cons.
  - right. cbn. lia.
  - by apply Hs.
  - apply andb_false_iff in E as [E%Z.ltb_ge|E%Z.ltb_ge].
    + destruct cur as [|m' cur]; [right; cbn; lia|].
      rewrite images_cons, length_app, image_length in E. lia.
    + left. rewrite images_app, images_one, length_app. lia.
  - apply Hs. by right.
Qed.

Lemma placed_sizes rotation ms segs :
  cQuarantineEntryMinimum <= rotation ->
  (forall seg, seg ∈ segs -> Z.of_nat (length (images seg)) <= rotation \/ (length seg <= 1)%nat) ->
  forall seg, seg ∈ foldl (place rotation) segs ms ->
  Z.of_nat (length (images seg)) <= rotation \/ (length seg <= 1)%nat.
Proof.
  intros Hr. revert segs. induction ms as [|m ms IH]; intros segs Hs; [done|].
  cbn [foldl]. apply IH. by apply place_sizes.
Qed.

Lemma placed_messages rotation ms segs :
  messages (foldl (place rotation) segs ms) = messages segs ++ ms.
Proof.
  revert segs. induction ms as [|m ms IH]; intros segs; [by rewrite app_nil_r|].
  cbn [foldl]. rewrite IH, place_messages, <- app_assoc. done.
Qed.

(** The stored messages, as one. *)
Lemma placed_storable (rotation : Z) ms segs seg :
  Forall storable ms -> Forall (Forall storable) segs ->
  seg ∈ foldl (place rotation) segs ms -> Forall storable seg.
Proof.
  intros Hms. revert segs. induction Hms as [|m ms Hm Hms IH]; intros segs Hs.
  - rewrite Forall_forall in Hs. apply Hs.
  - assert (Forall storable [m]) as H1 by (by apply Forall_singleton).
    cbn [foldl]. apply IH. destruct Hs as [|cur older Hc Ho]; cbn [place]; [by apply Forall_singleton|].
    destruct (_ && _); apply Forall_cons; (split; [|by try apply Forall_cons]); [done|].
    apply Forall_app. by split.
Qed.

(** The quarantine loses nothing: in a directory that can be opened, any
    storable messages written and then closed return no error; they lie, in
    order, in the segments from the new one on, a segment holding more than
    one only within the rotation size; and reading a segment back returns
    exactly its messages. *)
Theorem quarantine_durable spare opts held fs ms :
  q_openable opts held fs -> Forall storable ms -> Z.of_nat (length ms) < 2 ^ 63 ->
  exists w fs1 w' fs' segs,
    OpenQuarantineWriter spare opts fs = (Ret w, fs1) /\
    (write_messages ms;; Close) (w, fs1) = (Ret tt, (w', fs')) /\ closed w' = true /\
    messages segs = ms /\
    (forall seg, seg ∈ segs -> Z.of_nat (length (images seg)) <= RotationSize opts \/ (length seg <= 1)%nat) /\
    (forall i seg, segs !! i = Some seg ->
       sequence w <= sequence w' - Z.of_nat i /\
       result (readQuarantineEntries spare (q_segment w (sequence w' - Z.of_nat i)) fs') = Ret seg) /\
    sequence w' = sequence w + Z.of_nat (length segs) - 1.
Proof.
  intros Ho Hms Hl.
  destruct (open_stored spare opts held fs Ho) as (w & fs1 & E & Hc & Hs & Hd & Hr & Hq & _).
  pose proof (st_sequence _ _ _ _ Hs) as Hsq.
  destruct (write_all_stored ms w [[]] _ _ fs1 Hs Hc Hms) as (w1 & F1 & fs2 & E1 & H1 & S1 & K1 & Q1 & L1); [lia|].
  destruct (close_stored w1 _ F1 _ fs2 S1 H1) as (fs3 & E2 & H2).
  exists w, fs1, (q_set_file None (q_set_closed w1)), fs3, (foldl (place (RotationSize (options w))) [[]] ms).
  split; [done|]. split; [unfold mbind, M_bind; by rewrite E1, E2|]. split; [done|].
  split; [by rewrite placed_messages|]. rewrite <- Hr. split; [|split].
  - apply placed_sizes; [rewrite Hr; apply (qo_rotation _ _ _ Ho)|].
    intros seg ->%list_elem_of_singleton. right. cbn. lia.
  - cbn [sequence q_set_file q_set_closed]. intros i seg Hi.
    pose proof (lookup_lt_Some _ _ _ Hi). cbn [length] in L1. split; [lia|].
    pose proof (st_images _ _ _ _ S1 i seg Hi) as Hf.
    unfold q_segment in Hf |- *. rewrite (kp_options _ _ _ _ K1) in Hf.
    destruct (read_clean spare F1 _ _ seg fs3 H2 Hf) as (fs4 & -> & _); [| |done].
    + apply (st_names _ _ _ _ Hs).
    + eapply (placed_storable _ ms [[]]); [done|by apply Forall_singleton|by eapply list_elem_of_lookup_2].
  - cbn [sequence q_set_file q_set_closed]. cbn [length] in L1. lia.
Qed.

(** ** Lemmas: completion markers *)

Lemma last_char_name n : exists l, chars (quarantineSegmentName n) = l ++ [(Ascii.ascii_of_N 110)].
Proof.
  unfold quarantineSegmentName. rewrite chars_of_chars.
  exists (chars "quarantine-" ++ format_0d 8 n ++ chars ".bi"). by rewrite <- !app_assoc.
Qed.

Lemma chars_app a b : chars (a +:+ b) = chars a ++ chars b.
Proof. induction a as [|c a IH]; [done|]. exact (f_equal (cons c) IH). Qed.

Lemma marker_not_segment d d' n k :
  with_suffix (d, quarantineSegmentName n) ".done" <> (d', quarantineSegmentName k) /\
  with_suffix (d, quarantineSegmentName n) ".done.tmp" <> (d', quarantineSegmentName k).
Proof.
  destruct (last_char_name k) as [l Hl].
  assert (forall sfx c rest, chars sfx = rest ++ [c] -> c <> (Ascii.ascii_of_N 110) ->
    with_suffix (d, quarantineSegmentName n) sfx <> (d', quarantineSegmentName k)) as H.
  { intros sfx c rest Hs Hc E. pose proof (f_equal (fun p : file_path => chars p.2) E) as E'.
    unfold with_suffix in E'. cbn [fst snd] in E'. rewrite chars_app, Hl, Hs, app_assoc in E'.
    by apply app_inj_tail in E' as [_ ?]. }
  split; [by apply (H _ (Ascii.ascii_of_N 101) (chars ".don"))|by apply (H _ (Ascii.ascii_of_N 112) (chars ".done.tm"))].
Qed.

Lemma with_suffix_inj p q sfx : with_suffix p sfx = with_suffix q sfx -> p = q.
Proof.
  intros E. pose proof (f_equal (fun p : file_path => chars p.2) E) as E2.
  unfold with_suffix in *. cbn [fst snd] in E2. rewrite !chars_app in E2. apply app_inv_tail in E2.
  injection E as E1 _. destruct p as [d x], q as [d' y]. cbn [fst snd] in *. subst d'.
  by rewrite <- (of_chars_chars x), <- (of_chars_chars y), E2.
Qed.

Lemma done_not_tmp p q : with_suffix p ".done" <> with_suffix q ".done.tmp".
Proof.
  intros E. pose proof (f_equal (fun p : file_path => chars p.2) E) as E2.
  unfold with_suffix in E2. cbn [fst snd] in E2. rewrite !chars_app in E2.
  change (chars ".done") with (chars ".don" ++ [(Ascii.ascii_of_N 101)]) in E2.
  change (chars ".done.tmp") with (chars ".done.tm" ++ [(Ascii.ascii_of_N 112)]) in E2.
  rewrite !app_assoc in E2. by apply app_inj_tail in E2 as [_ ?].
Qed.

(** A directory without subdirectories. *)
Definition flat (d : dir_path) (D : gset dir_path) : Prop := d ∈ D /\ forall name, d ++ [name] ∉ D.

Lemma mark_clean F D p fs :
  clean F D fs -> flat p.1 D ->
  exists fs', markQuarantineSegmentComplete p fs = (Ret tt, fs') /\
    clean (<[with_suffix p ".done" := complete_text]> (delete (with_suffix p ".done.tmp") F)) D fs'.
Proof.
  intros H [Hd Hn]. unfold markQuarantineSegmentComplete. cbv zeta.
  set (tmp := with_suffix p ".done.tmp"). set (done := with_suffix p ".done").
  assert (exists fs1, OpenFile tmp createTruncateReadWriteFlags fs = (Ret tt, fs1) /\ clean (<[tmp := []]> F) D fs1)
    as (fs1 & E1 & H1).
  { destruct (F !! tmp) as [c|] eqn:E.
    - apply (OpenFile_truncate_clean F D tmp c fs H E). apply Hn.
    - apply (OpenFile_create_clean F D tmp _ fs H E Hd); [apply Hn|by left]. }
  unfold mbind at 1, M_bind at 1. rewrite E1.
  destruct (file_Write_clean _ D tmp [] complete_text fs1 H1 (lookup_insert_eq _ _ _)) as (n & fs2 & E2 & H2).
  rewrite insert_insert_eq in H2.
  unfold mbind at 1, M_bind at 1. rewrite E2.
  destruct (Sync_clean _ D tmp fs2 H2) as (fs3 & E3 & H3).
  destruct (Close_clean _ D tmp fs3 H3) as (fs4 & E4 & H4).
  unfold mbind, M_bind, attempt_err. rewrite E3, E4. change (errors_Join [None; None]) with (@None error).
  destruct (Rename_clean _ D tmp done _ fs4 H4 (lookup_insert_eq _ _ _)) as (fs5 & -> & H5).
  exists fs5. split; [done|]. by rewrite delete_insert_eq in H5.
Qed.

Lemma complete_clean F D p fs :
  clean F D fs -> flat p.1 D ->
  exists fs', quarantineSegmentComplete p fs = (Ret (bool_decide (is_Some (F !! with_suffix p ".done"))), fs') /\
    clean F D fs'.
Proof.
  intros H [_ Hn]. unfold quarantineSegmentComplete, mbind, M_bind, attempt_err.
  destruct (F !! with_suffix p ".done") as [c|] eqn:E.
  - destruct (Stat_clean F D _ c fs H E) as (fs' & -> & H'). exists fs'. by rewrite !bool_decide_eq_true_2 by eauto.
  - destruct (Stat_absent F D _ fs H E (Hn _)) as (fs' & -> & H'). exists fs'.
    rewrite !bool_decide_eq_false_2; [done|by intros [? ?]|done].
Qed.

(** ** Specification of a replay

    What replaying messages under a snapshot amounts to: the known records of
    known devices reach the data writer, in order; the messages of unknown
    devices are carried over. *)
Section delivery.
Context {D : Type} `{!SensorDataWriter D} (snap : ConfigSnapshot).

Definition known_device (m : UnknownMessage) : option Device :=
  snapshot_Device snap (MAC (Header (um_Message m))).

Definition deliver_one (d : D) (m : UnknownMessage) : D :=
  match known_device m with
  | Some device => (write_each device (um_Timestamp m) (known_records snap (Sensors (um_Message m))) d).2
  | None => d
  end.
Definition delivered (ms : list UnknownMessage) (d : D) : D := foldl deliver_one d ms.

Lemma delivered_cons m ms d : delivered (m :: ms) d = delivered ms (deliver_one d m).
Proof. reflexivity. Qed.

Definition carried (ms : list UnknownMessage) : list UnknownMessage :=
  filter (fun m => known_device m = None) ms.

(** The records delivered. *)
Definition delivered_records (ms : list UnknownMessage) : nat :=
  sum_list_with (fun m => match known_device m with
                          | Some _ => length (known_records snap (Sensors (um_Message m)))
                          | None => 0%nat
                          end) ms.
End delivery.

(** ** Lemmas: replay, nothing failing *)

Section replaying.
Context (spare : list byte -> list byte) {D : Type} `{!SensorDataWriter D}.
Context (accepting : forall f r t ts v (d : D), (WriteSensorData f r t ts v d).1 = Ret tt).
Implicit Types s : Replay D.

(** Counters that differ by the given numbers, modulo 2^64. *)
Record tallied (c c' : ReplayCounters) (segments replayed carry records : nat) : Prop := mkTallied {
  ta_segments : u64 (SegmentsCompleted c') = u64 (SegmentsCompleted c + Z.of_nat segments);
  ta_replayed : u64 (MessagesReplayed c') = u64 (MessagesReplayed c + Z.of_nat replayed);
  ta_carried : u64 (MessagesCarried c') = u64 (MessagesCarried c + Z.of_nat carry);
  ta_records : u64 (RecordsWritten c') = u64 (RecordsWritten c + Z.of_nat records) }.

Lemma u64_plus a b c n k :
  u64 b = u64 (a + Z.of_nat n) -> u64 c = u64 (b + Z.of_nat k) -> u64 c = u64 (a + Z.of_nat (n + k)).
Proof.
  intros H1 H2. rewrite H2, <- wrapu_add_l, H1, wrapu_add_l. f_equal. lia.
Qed.

Lemma tallied_refl c : tallied c c 0 0 0 0.
Proof. constructor; f_equal; lia. Qed.

Lemma tallied_trans c1 c2 c3 a b e f a' b' e' f' :
  tallied c1 c2 a b e f -> tallied c2 c3 a' b' e' f' ->
  tallied c1 c3 (a + a') (b + b') (e + e') (f + f').
Proof. intros [] []. constructor; by eapply u64_plus. Qed.

Ltac tallied_one := constructor; cbn; rewrite ?wrapu_wrapu; f_equal; lia.

Lemma tallied_completed c : tallied c (add_completed c) 1 0 0 0.
Proof. tallied_one. Qed.
Lemma tallied_replayed c : tallied c (add_replayed c) 0 1 0 0.
Proof. tallied_one. Qed.
Lemma tallied_carried c : tallied c (add_carried c) 0 0 1 0.
Proof. tallied_one. Qed.
Lemma tallied_record c : tallied c (add_record c) 0 0 0 1.
Proof. tallied_one. Qed.

Lemma replay_records_all snap device ts l s :
  exists s', replay_records snap device ts l s = (Ret tt, s') /\
    rp_writer s' = rp_writer s /\ rp_fs s' = rp_fs s /\ rp_ctx s' = rp_ctx s /\
    rp_data s' = (write_each device ts (known_records snap l) (rp_data s)).2 /\
    tallied (rp_counters s) (rp_counters s') 0 0 0 (length (known_records snap l)).
Proof.
  revert s. induction l as [|r l IH]; intros s.
  { exists s. split_and!; try done. apply tallied_refl. }
  cbn [replay_records]. unfold known_records. cbn [omap list_omap].
  destruct (snapshot_Sensor snap (RType r)) as [sensor|]; cbn [fmap option_fmap option_map]; [|apply IH].
  unfold mbind at 1, M_bind at 1, wrap_err, on_data, zoom.
  cbn [write_each]. pose proof (accepting (d_Floor device) (d_Room device) (sd_Type sensor) ts (RValue r) (rp_data s)) as Ha.
  destruct (WriteSensorData (d_Floor device) (d_Room device) (sd_Type sensor) ts (RValue r) (rp_data s)) as [res d].
  cbn [fst] in Ha. subst res. unfold mbind at 1, M_bind at 1, tally at 1, modify at 1.
  match goal with |- context [replay_records snap device ts l ?x] =>
    destruct (IH x) as (s' & -> & Hw & Hf & Hx & Hd & Hc) end.
  exists s'. cbn in Hw, Hf, Hx, Hd, Hc. fold (known_records snap l).
  destruct (write_each device ts (known_records snap l) d) as [errs d'].
  split_and!; [done..|]. cbn [length].
  eapply (tallied_trans _ _ _ 0 0 0 1 0 0 0); [apply tallied_record|exact Hc].
Qed.

Lemma replay_entry_eq snap m s :
  rp_ctx s = [] ->
  replay_entry snap m s =
  match known_device snap m with
  | Some device => (replay_records snap device (um_Timestamp m) (Sensors (um_Message m));; tally add_replayed) s
  | None => (on_writer (WriteUnknownMessage None m);; tally add_carried) s
  end.
Proof.
  intros Hx. unfold replay_entry, known_device, poll, mbind, M_bind. rewrite Hx.
  destruct (snapshot_Device _ _); [done|]. by rewrite Hx.
Qed.

Definition replayed (snap : ConfigSnapshot) (ms : list UnknownMessage) : nat :=
  length (filter (fun m => known_device snap m <> None) ms).

Lemma replay_entries_all snap ms s segs F Dr :
  rp_ctx s = [] -> stored (rp_writer s) segs F Dr -> clean F Dr (rp_fs s) -> Forall storable ms ->
  sequence (rp_writer s) + Z.of_nat (length ms) < 2 ^ 64 ->
  exists s' F', replay_entries snap ms s = (Ret tt, s') /\ rp_ctx s' = [] /\
    rp_data s' = delivered snap ms (rp_data s) /\
    clean F' Dr (rp_fs s') /\
    stored (rp_writer s') (foldl (place (RotationSize (options (rp_writer s)))) segs (carried snap ms)) F' Dr /\
    keeps (rp_writer s) (rp_writer s') F F' /\
    sequence (rp_writer s') <= sequence (rp_writer s) + Z.of_nat (length (carried snap ms)) /\
    sequence (rp_writer s') - Z.of_nat (length (foldl (place (RotationSize (options (rp_writer s)))) segs (carried snap ms))) =
      sequence (rp_writer s) - Z.of_nat (length segs) /\
    tallied (rp_counters s) (rp_counters s') 0 (replayed snap ms) (length (carried snap ms))
      (delivered_records snap ms).
Proof.
  intros Hx Hs Hc Hms. revert s segs F Hx Hs Hc.
  induction Hms as [|m ms Hm Hms IH]; intros s segs F Hx Hs Hc Hq.
  { exists s, F. split_and!; try done.
    - cbn. lia.
    - apply tallied_refl. }
  cbn [replay_entries length] in *. unfold mbind at 1, M_bind at 1.
  rewrite replay_entry_eq by done.
  destruct (known_device snap m) as [device|] eqn:Hd.
  - assert (replayed snap (m :: ms) = S (replayed snap ms)) as ->
      by (unfold replayed; by rewrite filter_cons_True by (by rewrite Hd)).
    assert (carried snap (m :: ms) = carried snap ms) as ->
      by (unfold carried; by rewrite filter_cons_False by (by rewrite Hd)).
    destruct (replay_records_all snap device (um_Timestamp m) (Sensors (um_Message m)) s)
      as (s1 & E1 & W1 & F1 & X1 & D1 & T1).
    unfold mbind at 1, M_bind at 1. rewrite E1. unfold tally at 1, modify at 1.
    match goal with |- context [replay_entries snap ms ?x] => set (s2 := x) end.
    destruct (IH s2 segs F) as (s' & F' & E & X & Dl & C & St & K & Q & L & T);
      unfold s2; cbn [rp_ctx rp_writer rp_fs]; rewrite ?X1, ?W1, ?F1; try done; [lia|].
    unfold s2 in *. cbn [rp_ctx rp_writer rp_fs rp_data rp_counters] in *. rewrite ?W1, ?F1, ?X1 in E.
    rewrite W1 in St, K, Q, L. rewrite D1 in Dl.
    exists s', F'. split; [exact E|]. split; [exact X|].
    split; [rewrite delivered_cons; unfold deliver_one; by rewrite Hd|].
    split; [exact C|]. split; [exact St|]. split; [exact K|]. split; [lia|]. split; [exact L|].
    unfold delivered_records. cbn [sum_list_with]. rewrite Hd.
    eapply (tallied_trans _ _ _ 0 0 0 _ 0 (S _) _); [exact T1|].
    by eapply (tallied_trans _ _ _ 0 1 0 0 0); [apply tallied_replayed|].
  - assert (replayed snap (m :: ms) = replayed snap ms) as ->
      by (unfold replayed; rewrite filter_cons_False; [done|]; rewrite Hd; intros H; by apply H).
    assert (carried snap (m :: ms) = m :: carried snap ms) as ->
      by (unfold carried; by rewrite filter_cons_True by (by rewrite Hd)).
    destruct (write_stored (rp_writer s) segs F Dr (rp_fs s) m Hs Hc Hm) as (w1 & F1 & fs1 & E1 & H1 & S1 & K1 & Q1 & L1); [lia|].
    unfold mbind at 1, M_bind at 1, on_writer, zoom. rewrite E1. unfold tally at 1, modify at 1.
    match goal with |- context [replay_entries snap ms ?x] => set (s2 := x) end.
    destruct (IH s2 (place (RotationSize (options (rp_writer s))) segs m) F1 Hx S1 H1)
      as (s' & F' & E & X & Dl & C & St & K & Q & L & T); [unfold s2; cbn; lia|].
    unfold s2 in *. cbn [rp_ctx rp_writer rp_fs rp_data rp_counters fst snd] in *.
    rewrite (kp_options _ _ _ _ K1) in St, L.
    exists s', F'. split; [exact E|]. split; [exact X|].
    split; [rewrite delivered_cons; unfold deliver_one; by rewrite Hd|].
    split; [exact C|]. split; [exact St|]. split; [by eapply keeps_trans|]. split; [cbn [length]; lia|]. split; [cbn [foldl]; lia|].
    unfold delivered_records. cbn [sum_list_with length]. rewrite Hd.
    by eapply (tallied_trans _ _ _ 0 0 1 0 0); [apply tallied_carried|].
Qed.

Definition marked (F : gmap file_path (list byte)) (p : file_path) : bool :=
  bool_decide (is_Some (F !! with_suffix p ".done")).

(** What is still to be replayed of a segment. *)
Definition pending_of (F : gmap file_path (list byte)) (p : file_path) (ms : list UnknownMessage)
    : list UnknownMessage := if marked F p then [] else ms.

Lemma stored_files w segs F F' Dr :
  stored w segs F Dr -> (forall n, F' !! q_segment w n = F !! q_segment w n) -> stored w segs F' Dr.
Proof.
  intros [so sf sn ss sb sr si sq sh sd sm] H.
  constructor; try done; intros; rewrite H; by eauto.
Qed.

Lemma marked_other F F' p :
  F' !! with_suffix p ".done" = F !! with_suffix p ".done" -> marked F' p = marked F p.
Proof. intros H. unfold marked. by rewrite H. Qed.

(** What a replayed segment leaves alone. *)
Definition replay_keeps (w w' : QuarantineWriter) (p : file_path) (F F' : gmap file_path (list byte)) : Prop :=
  forall q, (forall k, sequence w <= k <= sequence w' -> q <> q_segment w k) ->
  q <> with_suffix p ".done" -> q <> with_suffix p ".done.tmp" -> F' !! q = F !! q.

Lemma replay_segment_all snap n ms s segs F Dr :
  let w := rp_writer s in let p := q_segment w n in
  rp_ctx s = [] -> stored w segs F Dr -> clean F Dr (rp_fs s) -> flat (Directory (options w)) Dr ->
  n < sequence w -> F !! p = Some (images ms) -> Forall storable ms ->
  sequence w + Z.of_nat (length ms) < 2 ^ 64 ->
  exists s' F', replay_segment spare snap (n, p) s = (Ret tt, s') /\ rp_ctx s' = [] /\
    rp_data s' = delivered snap (pending_of F p ms) (rp_data s) /\
    clean F' Dr (rp_fs s') /\
    stored (rp_writer s')
      (foldl (place (RotationSize (options w))) segs (carried snap (pending_of F p ms))) F' Dr /\
    options (rp_writer s') = options w /\
    sequence w <= sequence (rp_writer s') <= sequence w + Z.of_nat (length (carried snap (pending_of F p ms))) /\
    sequence (rp_writer s') - Z.of_nat (length (foldl (place (RotationSize (options w))) segs (carried snap (pending_of F p ms)))) =
      sequence w - Z.of_nat (length segs) /\
    marked F' p = true /\ replay_keeps w (rp_writer s') p F F' /\
    tallied (rp_counters s) (rp_counters s') (if marked F p then 0 else 1)
      (replayed snap (pending_of F p ms)) (length (carried snap (pending_of F p ms)))
      (delivered_records snap (pending_of F p ms)).
Proof.
  intros w p Hx Hs Hc Hfl Hn Hp Hms Hq. unfold replay_segment.
  unfold mbind at 1, M_bind at 1, get at 1. cbn [fst snd]. fold w.
  rewrite (proj2 (Z.leb_gt _ _)) by done.
  unfold mbind at 1, M_bind at 1, on_fs at 1, zoom at 1.
  destruct (complete_clean F Dr p (rp_fs s) Hc Hfl) as (fs1 & E1 & H1). rewrite E1.
  fold (marked F p). unfold pending_of. destruct (marked F p) eqn:Hm.
  - eexists _, F. split; [done|]. cbn [rp_ctx rp_data rp_fs rp_writer rp_counters]. fold w.
    split_and!; try done; [lia|apply tallied_refl].
  - unfold mbind at 1, M_bind at 1, on_fs at 1, zoom at 1. cbn [rp_fs].
    destruct (read_clean spare F Dr p ms fs1 H1 Hp) as (fs2 & E2 & H2); [apply Hfl|done|]. rewrite E2.
    unfold mbind at 1, M_bind at 1. cbn [rp_writer rp_data rp_counters rp_ctx]. fold w.
    match goal with |- context [replay_entries snap ms ?x] => set (s2 := x) end.
    destruct (replay_entries_all snap ms s2 segs F Dr Hx Hs H2 Hms Hq)
      as (s3 & F3 & E3 & X3 & D3 & C3 & S3 & K3 & Q3 & L3 & T3).
    rewrite E3. unfold mbind at 1, M_bind at 1, on_fs at 1, zoom at 1.
    unfold s2 in *. cbn [rp_writer rp_data rp_counters rp_fs] in *. fold w in D3, S3, K3, Q3, L3, T3.
    destruct (mark_clean F3 Dr p (rp_fs s3) C3 Hfl) as (fs4 & E4 & H4). rewrite E4.
    unfold tally, modify. eexists _, _. split; [done|].
    cbn [rp_ctx rp_data rp_fs rp_writer rp_counters].
    destruct K3 as [ko ks kf].
    split; [done|]. split; [done|]. split; [exact H4|]. split; [|split; [done|split; [lia|split; [exact L3|split; [|split]]]]].
    + eapply stored_files; [exact S3|]. intros k. unfold q_segment, p.
      destruct (marker_not_segment (Directory (options w)) (Directory (options (rp_writer s3))) n k).
      rewrite lookup_insert_ne, lookup_delete_ne by done. done.
    + unfold marked. rewrite lookup_insert_eq. by apply bool_decide_eq_true_2.
    + intros q Hq1 Hq2 Hq3. rewrite lookup_insert_ne, lookup_delete_ne by done. by apply kf.
    + eapply (tallied_trans _ _ _ 0 _ _ _ 1 0 0 0) in T3 as T; [|apply tallied_completed].
      by rewrite !Nat.add_0_r in T.
Qed.

(** The segments of a directory, and what is still to be replayed of them. *)
Definition segment_list (d : dir_path) (ns : list Z) : list quarantineSegment :=
  map (fun n => (n, (d, quarantineSegmentName n))) ns.
Definition pending (F : gmap file_path (list byte)) (d : dir_path) (held : Z -> list UnknownMessage)
    (ns : list Z) : list UnknownMessage :=
  concat (map (fun n => pending_of F (d, quarantineSegmentName n) (held n)) ns).

(** Segments that can be replayed: distinct, older than the segment of the
    writer, and holding the messages [held]. *)
Record replayable (w : QuarantineWriter) (F : gmap file_path (list byte)) (Dr : gset dir_path)
    (held : Z -> list UnknownMessage) (ns : list Z) : Prop := mkReplayable {
  re_flat : flat (Directory (options w)) Dr;
  re_nodup : NoDup ns;
  re_range : forall n, n ∈ ns -> 0 <= n < sequence w;
  re_held : forall n, n ∈ ns -> F !! q_segment w n = Some (images (held n));
  re_storable : forall n, n ∈ ns -> Forall storable (held n);
  re_room : sequence w + Z.of_nat (length (concat (map held ns))) < 2 ^ 64 }.

Lemma delivered_app snap ms ms' (d : D) : delivered snap (ms ++ ms') d = delivered snap ms' (delivered snap ms d).
Proof. apply foldl_app. Qed.

Lemma carried_app snap ms ms' : carried snap (ms ++ ms') = carried snap ms ++ carried snap ms'.
Proof. apply filter_app. Qed.

Lemma carried_length snap ms : (length (carried snap ms) <= length ms)%nat.
Proof. apply length_filter. Qed.

Lemma carried_pending_of snap F p ms : (length (carried snap (pending_of F p ms)) <= length ms)%nat.
Proof. etrans; [apply carried_length|]. unfold pending_of. destruct (marked F p); cbn; lia. Qed.

Lemma carried_pending snap F d held ns : (length (carried snap (pending F d held ns)) <= length (concat (map held ns)))%nat.
Proof.
  induction ns as [|n ns IH]; [done|]. unfold pending in *. cbn [map concat]. rewrite carried_app, !length_app.
  pose proof (carried_pending_of snap F (d, quarantineSegmentName n) (held n)). lia.
Qed.

Lemma replay_keeps_marked w w' n k F F' :
  options w' = options w -> 0 <= n < 2 ^ 64 -> 0 <= k < 2 ^ 64 -> n <> k ->
  replay_keeps w w' (q_segment w n) F F' -> marked F' (q_segment w k) = marked F (q_segment w k).
Proof.
  intros Ho Hn Hk Hne H. apply marked_other, H.
  - intros j _. apply (proj1 (marker_not_segment _ _ _ _)).
  - intros E. apply with_suffix_inj, q_segment_inj in E; lia.
  - intros E. by apply done_not_tmp in E.
Qed.

Lemma replay_segments_all snap held ns s segs F Dr :
  let w := rp_writer s in let d := Directory (options w) in
  rp_ctx s = [] -> stored w segs F Dr -> clean F Dr (rp_fs s) -> replayable w F Dr held ns ->
  exists s' F', replay_segments spare snap (segment_list d ns) s = (Ret tt, s') /\ rp_ctx s' = [] /\
    rp_data s' = delivered snap (pending F d held ns) (rp_data s) /\
    clean F' Dr (rp_fs s') /\
    stored (rp_writer s') (foldl (place (RotationSize (options w))) segs (carried snap (pending F d held ns))) F' Dr /\
    options (rp_writer s') = options w /\
    sequence w <= sequence (rp_writer s') <= sequence w + Z.of_nat (length (carried snap (pending F d held ns))) /\
    sequence (rp_writer s') - Z.of_nat (length (foldl (place (RotationSize (options w))) segs (carried snap (pending F d held ns)))) =
      sequence w - Z.of_nat (length segs) /\
    (forall n, n ∈ ns -> marked F' (d, quarantineSegmentName n) = true) /\
    (forall n, 0 <= n < sequence w -> F' !! (d, quarantineSegmentName n) = F !! (d, quarantineSegmentName n)) /\
    (forall n, 0 <= n < 2 ^ 64 -> n ∉ ns -> marked F' (d, quarantineSegmentName n) = marked F (d, quarantineSegmentName n)) /\
    (forall q, q.1 <> d -> F' !! q = F !! q).
Proof.
  cbv zeta. revert s segs F. induction ns as [|n ns IH]; intros s segs F;
    set (w := rp_writer s); set (d := Directory (options w)); intros Hx Hs Hc Hr.
  { exists s, F. split_and!; try done; [cbn; fold w; lia|]. by intros n ?%elem_of_nil. }
  destruct Hr as [rf rn rr rh rs ro].
  apply NoDup_cons in rn as [Hnin rn]. cbn [map concat] in ro. rewrite length_app in ro.
  pose proof (st_sequence _ _ _ _ Hs) as Hsq. fold w in Hsq.
  destruct (replay_segment_all snap n (held n) s segs F Dr Hx Hs Hc rf)
    as (s1 & F1 & E1 & X1 & D1 & C1 & S1 & O1 & Q1 & L1 & M1 & K1 & _);
    [apply rr; by left|apply rh; by left|apply rs; by left|fold w; lia|].
  fold w in E1, D1, S1, O1, Q1, L1, M1, K1.
  pose proof (carried_pending_of snap F (q_segment w n) (held n)) as Hcp.
  assert (forall k, k ∈ ns -> 0 <= k < sequence w /\ k <> n) as Hk.
  { intros k Hk. split; [apply rr; by right|]. by intros ->. }
  assert (forall k, 0 <= k < 2 ^ 64 -> k <> n -> marked F1 (q_segment w k) = marked F (q_segment w k)) as Hmk.
  { intros k Hk1 Hk2. apply (replay_keeps_marked w (rp_writer s1) n k F F1); try done; try lia.
    pose proof (rr n ltac:(by left)). lia. }
  assert (forall k, 0 <= k < sequence w -> F1 !! q_segment w k = F !! q_segment w k) as Hseg.
  { intros k Hin. apply K1.
    - intros j Hj E. pose proof (st_sequence _ _ _ _ S1).
      apply q_segment_inj in E; lia.
    - intros E. symmetry in E. by apply (proj1 (marker_not_segment _ _ _ _)) in E.
    - intros E. symmetry in E. by apply (proj2 (marker_not_segment _ _ _ _)) in E. }
  assert (Directory (options (rp_writer s1)) = d) as Hd by (unfold d; by rewrite O1).
  destruct (IH s1 _ F1 X1 S1 C1) as (s2 & F2 & E2 & X2 & D2 & C2 & S2 & O2 & Q2 & L2 & M2 & G2 & N2 & T2).
  { constructor; try done.
    - by rewrite Hd.
    - intros k Hin. pose proof (Hk k Hin). lia.
    - intros k Hin. change (q_segment (rp_writer s1) k) with (Directory (options (rp_writer s1)), quarantineSegmentName k).
      rewrite Hd. change (F1 !! q_segment w k = Some (images (held k))). rewrite Hseg by (by apply Hk).
      apply rh. by right.
    - intros k Hin. apply rs. by right.
    - lia. }
  rewrite Hd in *.
  assert (pending F1 d held ns = pending F d held ns) as Hp.
  { unfold pending. f_equal. apply map_ext_Forall. apply Forall_forall. intros k Hin.
    unfold pending_of. destruct (Hk k Hin).
    change (d, quarantineSegmentName k) with (q_segment w k). by rewrite (Hmk k) by lia. }
  exists s2, F2. cbn [replay_segments segment_list map]. fold (segment_list d ns).
  unfold mbind, M_bind. change (d, quarantineSegmentName n) with (q_segment w n).
  rewrite E1, E2. rewrite Hp in *. unfold pending. cbn [map concat]. fold (pending F d held ns).
  rewrite delivered_app, carried_app, foldl_app. rewrite O1 in *.
  split; [done|]. split; [done|]. split; [by rewrite D2, D1|]. split; [done|].
  split; [exact S2|]. split; [done|].
  split; [change (d, quarantineSegmentName n) with (q_segment w n); rewrite length_app; lia|].
  split; [etrans; [exact L2|exact L1]|]. split.
  - intros k [->|Hin]%elem_of_cons; [|by apply M2]. pose proof (rr n ltac:(by left)) as Hn.
    rewrite N2; [exact M1|lia|done].
  - split; [|split; [by intros k Hk1 [Hk2 Hk3]%not_elem_of_cons; rewrite N2 by done; apply Hmk|]].
    + intros k Hk1. rewrite G2 by lia. by apply Hseg.
    + intros q Hq. rewrite T2 by done. apply K1; by intros; intros ->.
Qed.

Lemma pending_marked F d held ns :
  (forall n, n ∈ ns -> marked F (d, quarantineSegmentName n) = true) -> pending F d held ns = [].
Proof.
  intros H. unfold pending. induction ns as [|n ns IH]; [done|]. cbn [map concat].
  unfold pending_of at 1. rewrite H by (by left). apply IH. intros k Hk. apply H. by right.
Qed.

(** A replay delivers every quarantined message exactly once: while
    nothing fails, the known records of the messages of known devices reach
    the data writer, in the order of the segments and of their entries, and
    the messages of devices still unknown are appended to the segments of the
    writer, in order; segments marked complete are skipped, and those replayed
    are marked, so that a second replay delivers and carries nothing. *)
Theorem replay_delivers_once snap held ns s segs F Dr :
  let w := rp_writer s in let d := Directory (options w) in
  let due := pending F d held ns in
  rp_ctx s = [] -> stored w segs F Dr -> clean F Dr (rp_fs s) -> replayable w F Dr held ns ->
  sequence w + 2 * Z.of_nat (length (concat (map held ns))) < 2 ^ 64 ->
  exists s' F' segs', replay_segments spare snap (segment_list d ns) s = (Ret tt, s') /\
    rp_data s' = delivered snap due (rp_data s) /\
    stored (rp_writer s') segs' F' Dr /\ messages segs' = messages segs ++ carried snap due /\
    exists s'' F'', replay_segments spare snap (segment_list d ns) s' = (Ret tt, s'') /\
      rp_data s'' = rp_data s' /\ stored (rp_writer s'') segs' F'' Dr.
Proof.
  intros w d due Hx Hs Hc Hr Hroom.
  destruct (replay_segments_all snap held ns s segs F Dr Hx Hs Hc Hr)
    as (s' & F' & E & X & Dd & C & S & O & Q & L & M & G & _).
  fold w d due in E, Dd, S, O, Q, M, G.
  pose proof (carried_pending snap F d held ns) as Hcp. fold due in Hcp.
  exists s', F'. eexists. split; [exact E|]. split; [exact Dd|]. split; [exact S|].
  split; [apply placed_messages|].
  assert (forall n, q_segment (rp_writer s') n = q_segment w n) as Hseg
    by (intros n; unfold q_segment; by rewrite O).
  destruct Hr as [rf rn rr rh rs ro].
  destruct (replay_segments_all snap held ns s' _ F' Dr X S C)
    as (s'' & F'' & E2 & _ & D2 & _ & S2 & _).
  { constructor; rewrite ?O; try done.
    - intros n Hn. pose proof (rr n Hn). lia.
    - intros n Hn. rewrite Hseg. etrans; [apply G, rr, Hn|]. by apply rh.
    - lia. }
  rewrite O in E2, D2, S2. fold d in E2, D2, S2.
  rewrite pending_marked in D2, S2 by done.
  exists s'', F''. by split_and!.
Qed.
End replaying.

(** ** Concrete runs *)

Definition sample_known : UnknownMessage :=
  mkUnknownMessage 1700000000000 TransportTCP (message_of sample_address sample_payload).
Definition sample_unknown : UnknownMessage :=
  mkUnknownMessage 1700000000001 TransportUDP (message_of sample_mac sample_payload).

Lemma sample_storable : storable sample_known /\ storable sample_unknown.
Proof.
  split; (split; [first [by left | by right]|]); (split; [cbn; lia|]).
  - exists sample_address, sample_payload. split; [apply sample_payload_valid|done].
  - exists sample_mac, sample_payload. split; [apply sample_payload_valid|done].
Qed.

Lemma sample_storable_all : Forall storable [sample_known; sample_unknown].
Proof. destruct sample_storable. apply Forall_cons. split; [done|]. by apply Forall_singleton. Qed.

Lemma quarantine_corruption_detected_witness :
  exists e, result (decodeQuarantineEntry
      (slice_of (take 20 (image sample_known) ++ Byte.xff :: drop 21 (image sample_known)))) = Fail e /\
    is_exactly e ErrInvalidQuarantineEntry.
Proof.
  destruct (quarantine_corruption_detected sample_known (take 20 (image sample_known)) Byte.x00 Byte.xff
    (drop 21 (image sample_known)) []) as (e & E & He).
  - apply sample_storable.
  - vm_compute. reflexivity.
  - discriminate.
  - exists e. split; [|exact He]. rewrite app_nil_r in E. exact E.
Defined.

(** A directory with a segment that ends in the middle of an entry. *)
Definition sample_q_options : QuarantineOptions := mkQuarantineOptions ["quarantine"] 80 0 0.
Definition sample_q_fs : FS :=
  mkFS {[ (["quarantine"], quarantineSegmentName 3) := images [sample_known; sample_unknown] ++ take 33 (image sample_known) ]}
    {[ ["quarantine"] ]} [].

Lemma sample_torn : torn (take 33 (image sample_known)).
Proof.
  exists sample_known, (drop 33 (image sample_known)).
  split; [apply sample_storable|]. split; [by rewrite take_drop|].
  intros E. apply (f_equal length) in E. by vm_compute in E.
Qed.

Lemma sample_name_path n : ["quarantine"] ++ [quarantineSegmentName n] <> ["quarantine"].
Proof. done. Qed.

Lemma sample_q_openable : q_openable sample_q_options (fun _ => [sample_known; sample_unknown]) sample_q_fs.
Proof.
  constructor; cbn [files dirs sample_q_fs Directory sample_q_options].
  - constructor.
  - reflexivity.
  - cbn. unfold cQuarantineEntryMinimum, cQuarantineHeaderSize, cQuarantineTrailerSize. lia.
  - reflexivity.
  - intros n Hn%elem_of_singleton. by apply sample_name_path in Hn.
  - intros n c _ [_ <-]%lookup_singleton_Some.
    exists (take 33 (image sample_known)). split; [reflexivity|].
    split; [apply sample_storable_all|apply sample_torn].
  - intros n Hn. apply lookup_singleton_ne. intros E.
    apply (q_segment_inj (mkQuarantineWriter sample_q_options None 0 0 false) 3 n) in E; lia.
Qed.

Lemma OpenQuarantineWriter_recovers_witness :
  exists w fs', OpenQuarantineWriter (fun _ => []) sample_q_options sample_q_fs = (Ret w, fs') /\
    3 < sequence w /\
    files fs' !! (["quarantine"], quarantineSegmentName 3) = Some (images [sample_known; sample_unknown]).
Proof.
  destruct (OpenQuarantineWriter_recovers (fun _ => []) sample_q_options _ _ sample_q_openable)
    as (w & fs' & E & _ & H & _).
  destruct (H 3) as (H1 & H2 & _); [lia|eexists; apply lookup_singleton_eq|].
  exists w, fs'. split; [exact E|]. by split.
Defined.

Lemma quarantine_durable_witness :
  exists w fs1 w' fs' segs,
    OpenQuarantineWriter (fun _ => []) sample_q_options sample_q_fs = (Ret w, fs1) /\
    (write_messages [sample_known; sample_unknown; sample_known];; Close) (w, fs1) = (Ret tt, (w', fs')) /\
    messages segs = [sample_known; sample_unknown; sample_known].
Proof.
  destruct sample_storable as [H1 H2].
  destruct (quarantine_durable (fun _ => []) sample_q_options _ _ [sample_known; sample_unknown; sample_known]
    sample_q_openable) as (w & fs1 & w' & fs' & segs & E1 & E2 & _ & E3 & _).
  - apply Forall_app with (l1 := [sample_known; sample_unknown]).
    split; [apply sample_storable_all|by apply Forall_singleton].
  - cbn. lia.
  - exists w, fs1, w', fs', segs. by split_and!.
Defined.

(** A writer on its second segment, and a data writer that keeps its calls. *)
Definition sample_writer : QuarantineWriter :=
  mkQuarantineWriter sample_q_options (Some (["quarantine"], quarantineSegmentName 2)) 2 0 false.
Definition sample_files : gmap file_path (list byte) :=
  <[q_segment sample_writer 1 := images [sample_known; sample_unknown]]>
    {[ q_segment sample_writer 2 := [] ]}.
Definition sample_replay : Replay data_log :=
  mkReplay sample_writer (mkFS sample_files {[ ["quarantine"] ]} []) [] (mkReplayCounters 0 0 0 0) [].
#[local] Instance storing : SensorDataWriter data_log := fun f r t ts v d =>
  (Ret tt, d ++ [(f, r, t, ts, v)]).

Lemma sample_flat : flat ["quarantine"] {[ ["quarantine"] ]}.
Proof. split; [by apply elem_of_singleton|]. by intros name Hn%elem_of_singleton. Qed.

Lemma sample_stored : stored sample_writer [[]] sample_files {[ ["quarantine"] ]}.
Proof.
  constructor; cbn [closed file size sequence options sample_writer length]; try lia; try reflexivity.
  - by intros ? [= <-].
  - intros [|i] ms E; [|done]. injection E as <-. unfold sample_files. rewrite lookup_insert_ne.
    + apply lookup_singleton_eq.
    + intros E. apply q_segment_inj in E; lia.
  - intros n Hn. unfold sample_files. rewrite lookup_insert_ne, lookup_singleton_ne; [done|..];
      intros E; apply q_segment_inj in E; lia.
  - intros n. apply (proj2 sample_flat).
Qed.

Lemma replay_delivers_once_witness :
  exists s', replay_segments (fun _ => []) sample_snapshot (segment_list ["quarantine"] [1]) sample_replay = (Ret tt, s') /\
    rp_data s' = [(FLOOR_FIRST, ROOM_KITCHEN, SENSOR_ID_TEMPERATURE, 1700000000000, 42)].
Proof.
  destruct (replay_delivers_once (fun _ => []) ltac:(done) sample_snapshot
    (fun _ => [sample_known; sample_unknown]) [1] sample_replay [[]] sample_files {[ ["quarantine"] ]})
    as (s' & F' & segs' & E & Hd & _).
  - reflexivity.
  - apply sample_stored.
  - by apply clean_intro, Forall_nil.
  - constructor.
    + apply sample_flat.
    + apply NoDup_singleton.
    + intros n ->%list_elem_of_singleton. cbn. lia.
    + intros n ->%list_elem_of_singleton. apply lookup_insert_eq.
    + intros n _. apply sample_storable_all.
    + cbn. lia.
  - cbn. lia.
  - exists s'. split; [exact E|]. rewrite Hd. vm_compute. reflexivity.
Defined.

(** ** What goes wrong when a call fails *)

(** A rotation that fails to open the next segment leaves the writer without
    a file: the next write dereferences it. *)
Example q_failed_rotation_panics :
  let w := q_set_size 80 sample_writer in
  let fs := mkFS sample_files {[ ["quarantine"] ]} [None; None; Some (mkFault (ErrExternal 24) 0)] in
  let '(r, s) := WriteUnknownMessage None sample_known (w, fs) in
  (match r with Fail _ => true | _ => false end) = true /\
  result (WriteUnknownMessage None sample_known s) = Panic PanicNil.
Proof. vm_compute. by split. Qed.

(** A write that stops in the middle of an entry is reported, but the next
    write appends to the partial entry: the segment can then no longer be
    repaired, and the directory no longer be opened. *)
Example short_write_poisons :
  let fs := mkFS sample_files {[ ["quarantine"] ]} [Some (mkFault (ErrExternal 28) 20)] in
  let '(r, s) := WriteUnknownMessage None sample_known (sample_writer, fs) in
  let '(r', s') := WriteUnknownMessage None sample_unknown s in
  (match r with Fail _ => true | _ => false end) = true /\ r' = Ret tt /\
  (match result (OpenQuarantineWriter (fun _ => []) sample_q_options s'.2) with
   | Fail e => errors_Is e ErrInvalidQuarantineEntry
   | _ => false
   end) = true.
Proof. vm_compute. by split_and!. Qed.
