(* ===== verification/Monitor.v ===== *)
(** * The monitoring state of the HTTP plugin

    Model of [src/plugins/http]: the ring of the last samples of a sensor
    ([sample-ring.go]), the hub that fans events out to subscribers
    ([events.go]), the plugin configuration ([config.go]) and the monitoring
    state with its snapshots ([monitor-state.go]).  The state of a sensor and
    of a device, which the code updates through pointers kept in its maps,
    are written back into the maps. *)

From stdpp Require Import pretty.
From S2P Require Import Prelude GoRuntime GoStrings House BinaryData Config Router.
Open Scope Z_scope.

(** ** The sample ring *)

(** [src/plugins/http/sample-ring.go:3-6] Sample *)
Record Sample : Type := mkSample { Timestamp : Z; Value : Z }.

(** [src/plugins/http/sample-ring.go:8-12] sampleRing *)
Record sampleRing : Type := mkRing { samples : list Sample; next : Z; count : Z }.

(** [src/plugins/http/sample-ring.go:14-16] newSampleRing; a negative length
    panics *)
Definition newSampleRing (capacity : Z) : res sampleRing :=
  if capacity <? 0 then Panic PanicIndex
  else Ret (mkRing (replicate (Z.to_nat capacity) (mkSample 0 0)) 0 0).

(** [src/plugins/http/sample-ring.go:18-24] Append *)
Definition Append (sample : Sample) (ring : sampleRing) : res sampleRing :=
  let n := Z.of_nat (length (samples ring)) in
  if negb ((0 <=? next ring) && (next ring <? n)) then Panic PanicIndex else
  let samples' := <[Z.to_nat (next ring) := sample]> (samples ring) in
  let next' := Z.rem (next ring + 1) n in
  Ret (mkRing samples' next' (if count ring <? n then count ring + 1 else count ring)).

(** [src/plugins/http/sample-ring.go:26-36] Snapshot; the division and the
    index panic outside of the ring *)
Definition Snapshot (ring : sampleRing) : res (list Sample) :=
  let n := Z.of_nat (length (samples ring)) in
  let start := next ring - count ring in
  let start := if start <? 0 then start + n else start in
  if count ring <? 0 then Panic PanicIndex else
  match mapM (fun index => let i := Z.rem (start + index) n in
                           if (n =? 0) || (i <? 0) then None else samples ring !! Z.to_nat i)
             (seqZ 0 (count ring)) with
  | Some result => Ret result
  | None => Panic PanicIndex
  end.

(** ** The event hub *)

(** [src/plugins/http/events.go:8-8] eventQueueCapacity *)
Definition eventQueueCapacity : Z := 32.

(** [src/plugins/http/events.go:10-13] Event *)
Record Event : Type := mkEvent { Name : string; Data : list byte }.

(** [src/plugins/http/events.go:15-19] eventHub: the channels of the
    subscribers, each the list of its queued events *)
Record eventHub : Type := mkHub { nextID : Z; subscribers : gmap Z (list Event) }.

(** [src/plugins/http/events.go:21-23] newEventHub *)
Definition newEventHub : eventHub := mkHub 0 ∅.

(** [src/plugins/http/events.go:25-31] Subscribe, the subscription *)
Definition Subscribe (hub : eventHub) : Z * eventHub :=
  let id := u64 (nextID hub + 1) in
  (id, mkHub id (<[id := []]> (subscribers hub))).

(** [src/plugins/http/events.go:33-40] Subscribe, the function it returns *)
Definition unsubscribe (id : Z) (hub : eventHub) : eventHub :=
  mkHub (nextID hub) (delete id (subscribers hub)).

(** [src/plugins/http/events.go:49-56] Publish, one event: a full queue drops
    it *)
Definition publish_event (event : Event) (hub : eventHub) : eventHub :=
  mkHub (nextID hub)
    ((fun events => if Z.of_nat (length events) <? eventQueueCapacity then events ++ [event] else events)
       <$> subscribers hub).

(** [src/plugins/http/events.go:43-57] Publish; [data] is what [json.Marshal]
    returns, none for an error *)
Definition Publish (name : string) (data : option (list byte)) (hub : eventHub) : eventHub :=
  match data with
  | None => hub
  | Some data => publish_event (mkEvent name data) hub
  end.

(** A subscriber receives from its channel. *)
Definition receive (id : Z) (hub : eventHub) : option Event * eventHub :=
  match subscribers hub !! id with
  | Some (event :: events) => (Some event, mkHub (nextID hub) (<[id := events]> (subscribers hub)))
  | _ => (None, hub)
  end.

(** ** Configuration *)

(** [src/plugins/http/config.go:11-11] DefaultHistoryCapacity *)
Definition DefaultHistoryCapacity : Z := 1000.

(** [src/plugins/http/config.go:13-17] Config *)
Record HTTPConfig : Type := mkHTTPConfig { Enabled : bool; Address : string; HistoryCapacity : Z }.

(** [src/plugins/http/config.go:44-52] Validate *)
Definition Validate (config : HTTPConfig) : option error :=
  match SplitHostPort (chars (Address config)) with
  | None => Some (ErrWrap "HTTP plugin address" (ErrText "split host and port"))
  | Some _ =>
      if (HistoryCapacity config <? 1) || (100000 <? HistoryCapacity config)
      then Some (ErrText "HTTP plugin history_capacity must be between 1 and 100000")
      else None
  end.

(** [src/plugins/http/config.go:54-63] ensureJSONEnd, on what the second
    [Decode] returns *)
Definition ensureJSONEnd (err : option error) : option error :=
  if err_Is err io_EOF then None else
  match err with
  | None => Some (ErrText "decode HTTP plugin config: multiple JSON values")
  | Some e => Some (ErrWrap "decode HTTP plugin config" e)
  end.

(** [src/plugins/http/config.go:19-41] LoadConfig, on what the two [Decode]
    return *)
Definition LoadConfig (decoded : error + HTTPConfig) (trailer : option error) : error + HTTPConfig :=
  match decoded with
  | inl e => inl (ErrWrap "decode HTTP plugin config" e)
  | inr config =>
      match ensureJSONEnd trailer with
      | Some e => inl e
      | None =>
          let config := mkHTTPConfig (Enabled config)
            (if bool_decide (Address config = ""%string) then ":8080"%string else Address config)
            (if HistoryCapacity config =? 0 then DefaultHistoryCapacity else HistoryCapacity config) in
          match Validate config with
          | Some e => inl e
          | None => inr config
          end
      end
  end.

(** ** The monitoring state *)

(** [src/plugins/http/monitor-state.go:11-20] SensorSnapshot *)
Record SensorSnapshot : Type := mkSensorSnapshot {
  ss_ID : Z; ss_Type : string; ss_Unit : string; ss_Seen : bool; ss_Current : option Sample;
  ss_Warning : string; ss_SampleCount : Z; ss_History : list Sample }.

(** [src/plugins/http/monitor-state.go:22-32] DeviceSnapshot *)
Record DeviceSnapshot : Type := mkDeviceSnapshot {
  dv_MAC : string; dv_Floor : string; dv_Room : string; dv_Transport : string;
  dv_Connected : bool; dv_LastSeenAt : Z; dv_ObservedSensors : Z; dv_Warnings : list string;
  dv_Sensors : list SensorSnapshot }.

(** [src/plugins/http/monitor-state.go:34-39] RoomSnapshot *)
Record RoomSnapshot : Type := mkRoomSnapshot {
  rm_Name : string; rm_DeviceCount : Z; rm_ConnectedDevices : Z; rm_WarningCount : Z }.

(** [src/plugins/http/monitor-state.go:41-50] SensorObservationEvent *)
Record SensorObservationEvent : Type := mkObservationEvent {
  oe_MAC : string; oe_Floor : string; oe_Room : string; oe_Transport : string;
  oe_SensorType : string; oe_Unit : string; oe_Sample : Sample; oe_Warning : string }.

(** [src/plugins/http/monitor-state.go:52-56] DeviceConnectionEvent *)
Record DeviceConnectionEvent : Type := mkConnectionEvent {
  ce_MAC : string; ce_ConnectionID : Z; ce_Connected : bool }.

(** The values the plugin publishes. *)
Inductive event_value : Type :=
| ObservationValue (e : SensorObservationEvent)
| ConnectionValue (e : DeviceConnectionEvent).

(** [src/plugins/http/monitor-state.go:58-64] sensorState *)
Record sensorState : Type := mkSensorState {
  definition : SensorDefinition; seen : bool; current : Sample; warning : string; history : sampleRing }.

(** [src/plugins/http/monitor-state.go:66-75] deviceState *)
Record deviceState : Type := mkDeviceState {
  mac : MACAddress; floor : string; room : string; transport : Transport;
  connectionID : Z; connected : bool; lastSeenAt : Z; sensors : gmap SensorType sensorState }.

(** [src/plugins/http/monitor-state.go:77-82] MonitoringState *)
Record MonitoringState : Type := mkMonitoring {
  historyCapacity : Z; devices : gmap MACAddress deviceState; events : eventHub }.

(** [src/plugins/http/monitor-state.go:84-93] NewMonitoringState *)
Definition NewMonitoringState (config : HTTPConfig) : error + MonitoringState :=
  match Validate config with
  | Some e => inl e
  | None => inr (mkMonitoring (HistoryCapacity config) ∅ newEventHub)
  end.

(** [src/plugins/http/monitor-state.go:286-288] formatMAC *)
Definition formatMAC (mac : MACAddress) : string := format_mac mac.

(** [src/plugins/http/monitor-state.go:290-299] transportName *)
Definition transportName (transport : Transport) : string :=
  if transport =? TransportTCP then "tcp"
  else if transport =? TransportUDP then "udp"
  else "unknown".

(** [src/plugins/http/monitor-state.go:234-247] thresholdWarning *)
Definition thresholdWarning (sensorType : SensorType) (value : Z) : string :=
  match assoc SensorTypeValueRanges sensorType with
  | None => ""
  | Some threshold =>
      if value <? Min threshold
      then SensorType_String sensorType +:+ " value " +:+ pretty value +:+ " is below minimum " +:+ pretty (Min threshold)
      else if Max threshold <? value
      then SensorType_String sensorType +:+ " value " +:+ pretty value +:+ " is above maximum " +:+ pretty (Max threshold)
      else ""
  end.

(** [src/plugins/http/monitor-state.go:219-232] device: the state of a device,
    created when there is none *)
Definition device (m : MACAddress) (fl rm : string) (state : MonitoringState)
    : deviceState * MonitoringState :=
  let d := default (mkDeviceState m "" "" TransportUnknown 0 false 0 ∅) (devices state !! m) in
  let d := mkDeviceState (mac d) (if bool_decide (fl = ""%string) then floor d else fl)
             (if bool_decide (rm = ""%string) then room d else rm) (transport d)
             (connectionID d) (connected d) (lastSeenAt d) (sensors d) in
  (d, mkMonitoring (historyCapacity state) (<[m := d]> (devices state)) (events state)).

(** Write a device back. *)
Definition set_device (m : MACAddress) (d : deviceState) (state : MonitoringState) : MonitoringState :=
  mkMonitoring (historyCapacity state) (<[m := d]> (devices state)) (events state).

Definition set_events (hub : eventHub) (state : MonitoringState) : MonitoringState :=
  mkMonitoring (historyCapacity state) (devices state) hub.

Definition set_connection (id : Z) (c : bool) (t : Transport) (d : deviceState) : deviceState :=
  mkDeviceState (mac d) (floor d) (room d) t id c (lastSeenAt d) (sensors d).

Section monitoring.
(** [json.Marshal] on the values published. *)
Context (marshal : event_value -> option (list byte)).

Definition publish (name : string) (v : event_value) (state : MonitoringState) : MonitoringState :=
  set_events (Publish name (marshal v) (events state)) state.

(** [src/plugins/http/monitor-state.go:100-112] OnSensorObservation, the
    sensor: found or created, with the sample appended *)
Definition observe_sensor (capacity : Z) (o : SensorObservation) (s : option sensorState) : res sensorState :=
  let sample := mkSample (ob_Timestamp o) (ob_Value o) in
  let found := match s with
               | Some s => Ret (definition s, history s)
               | None =>
                   match newSampleRing capacity with
                   | Ret ring => Ret (mkSensorDefinition (ob_SensorType o) (ob_UnitType o), ring)
                   | Fail e => Fail e
                   | Panic p => Panic p
                   end
               end in
  match found with
  | Ret (def, ring) =>
      match Append sample ring with
      | Ret ring => Ret (mkSensorState def true sample (thresholdWarning (ob_SensorType o) (ob_Value o)) ring)
      | Fail e => Fail e
      | Panic p => Panic p
      end
  | Fail e => Fail e
  | Panic p => Panic p
  end.

(** [src/plugins/http/monitor-state.go:95-120] OnSensorObservation *)
Definition OnSensorObservation (o : SensorObservation) : M MonitoringState unit := fun state =>
  let '(d, state) := device (ob_MAC o) (FloorType_String (ob_Floor o)) (RoomType_String (ob_Room o)) state in
  match observe_sensor (historyCapacity state) o (sensors d !! ob_SensorType o) with
  | Panic p => (Panic p, state)
  | Fail e => (Fail e, state)
  | Ret sensor =>
      let d := mkDeviceState (mac d) (floor d) (room d) (ob_Transport o) (connectionID d) (connected d)
                 (ob_Timestamp o) (<[ob_SensorType o := sensor]> (sensors d)) in
      let event := mkObservationEvent (formatMAC (ob_MAC o)) (FloorType_String (ob_Floor o))
        (RoomType_String (ob_Room o)) (transportName (ob_Transport o)) (SensorType_String (ob_SensorType o))
        (UnitType_String (ob_UnitType o)) (current sensor) (warning sensor) in
      (Ret tt, publish "sensor_observation" (ObservationValue event) (set_device (ob_MAC o) d state))
  end.

(** [src/plugins/http/monitor-state.go:122-135] OnDeviceConnected *)
Definition OnDeviceConnected (id : Z) (m : MACAddress) (state : MonitoringState) : MonitoringState :=
  let '(d, state) := device m "" "" state in
  let changed := negb (connected d) in
  let state := set_device m (set_connection id true TransportTCP d) state in
  if changed
  then publish "device_connected" (ConnectionValue (mkConnectionEvent (formatMAC m) id true)) state
  else state.

(** [src/plugins/http/monitor-state.go:137-151] OnDeviceDisconnected *)
Definition OnDeviceDisconnected (id : Z) (m : MACAddress) (state : MonitoringState) : MonitoringState :=
  match devices state !! m with
  | None => state
  | Some d =>
      if connected d && (connectionID d =? id)
      then publish "device_disconnected" (ConnectionValue (mkConnectionEvent (formatMAC m) id false))
             (set_device m (set_connection 0 false (transport d) d) state)
      else state
  end.
End monitoring.

(** [src/plugins/http/monitor-state.go:205-217] Readings *)
Definition Readings (m : MACAddress) (sensorID : SensorType) (state : MonitoringState)
    : res (option (list Sample)) :=
  match devices state !! m with
  | None => Ret None
  | Some d =>
      match sensors d !! sensorID with
      | None => Ret None
      | Some s => match Snapshot (history s) with
                  | Ret l => Ret (Some l)
                  | Fail e => Fail e
                  | Panic p => Panic p
                  end
      end
  end.

(** ** Snapshots *)

(** [sort.Strings] and the orders of the snapshots; their keys are distinct,
    or equal strings, so that the result does not depend on the order of the
    maps. *)
Definition string_le (a b : string) : Prop := String.leb a b = true.
#[export] Instance string_le_dec : RelDecision string_le.
Proof. intros a b. unfold string_le. apply _. Defined.
Definition sensor_le (a b : SensorSnapshot) : Prop := ss_ID a <= ss_ID b.
#[export] Instance sensor_le_dec : RelDecision sensor_le.
Proof. intros a b. unfold sensor_le. apply _. Defined.
Definition device_le (a b : DeviceSnapshot) : Prop := String.leb (dv_MAC a) (dv_MAC b) = true.
#[export] Instance device_le_dec : RelDecision device_le.
Proof. intros a b. unfold device_le. apply _. Defined.
Definition room_le (a b : RoomSnapshot) : Prop := String.leb (rm_Name a) (rm_Name b) = true.
#[export] Instance room_le_dec : RelDecision room_le.
Proof. intros a b. unfold room_le. apply _. Defined.

(** [src/plugins/http/monitor-state.go:270-280] snapshotDevice, one sensor *)
Definition sensor_snapshot (sensorType : SensorType) (sensor : sensorState) : SensorSnapshot :=
  mkSensorSnapshot (u16 sensorType) (default ""%string (assoc SensorTypeNames sensorType))
    (UnitType_String (sd_Unit (definition sensor))) (seen sensor)
    (if seen sensor then Some (current sensor) else None) (warning sensor) (count (history sensor)) [].

(** [src/plugins/http/monitor-state.go:249-284] snapshotDevice *)
Definition snapshotDevice (state : MonitoringState) (m : MACAddress) (fl rm : string)
    (includeSensors : bool) : DeviceSnapshot :=
  match devices state !! m with
  | None => mkDeviceSnapshot (formatMAC m) fl rm "" false 0 0 [] []
  | Some d =>
      let all := map_to_list (sensors d) in
      mkDeviceSnapshot (formatMAC m) fl rm (transportName (transport d)) (connected d) (lastSeenAt d)
        (Z.of_nat (length (filter (fun p => seen p.2 = true) all)))
        (merge_sort string_le (filter (fun w => w <> ""%string) (map (fun p => warning p.2) all)))
        (if includeSensors
         then merge_sort sensor_le (map (fun p => sensor_snapshot p.1 p.2) all)
         else [])
  end.

(** [src/plugins/http/monitor-state.go:180-191] Devices; [ParseMACAddress]
    returns the zero address with its error, which is ignored *)
Definition Devices (snapshot : ConfigSnapshot) (state : MonitoringState) : list DeviceSnapshot :=
  merge_sort device_le
    (map (fun c => snapshotDevice state (default zero_mac (ParseMACAddress (dc_MAC c))) (dc_Floor c) (dc_Room c) false)
         (elems (Config.Devices (snapshot_Config snapshot)))).

(** [src/plugins/http/monitor-state.go:193-203] Device *)
Definition Device (snapshot : ConfigSnapshot) (m : MACAddress) (state : MonitoringState)
    : option DeviceSnapshot :=
  match snapshot_Device snapshot m with
  | None => None
  | Some c => Some (snapshotDevice state m (FloorType_String (d_Floor c)) (RoomType_String (d_Room c)) true)
  end.

(** [src/plugins/http/monitor-state.go:161-172] Rooms, one device *)
Definition count_device (rooms : gmap string RoomSnapshot) (d : DeviceSnapshot) : gmap string RoomSnapshot :=
  let r := default (mkRoomSnapshot (dv_Room d) 0 0 0) (rooms !! dv_Room d) in
  <[dv_Room d := mkRoomSnapshot (rm_Name r) (rm_DeviceCount r + 1)
      (if dv_Connected d then rm_ConnectedDevices r + 1 else rm_ConnectedDevices r)
      (rm_WarningCount r + Z.of_nat (length (dv_Warnings d)))]> rooms.

(** [src/plugins/http/monitor-state.go:157-178] Rooms *)
Definition Rooms (snapshot : ConfigSnapshot) (state : MonitoringState) : list RoomSnapshot :=
  merge_sort room_le (map snd (map_to_list (foldl count_device ∅ (Devices snapshot state)))).

(** ** Runs of the monitoring state *)

(** What happens to a monitoring state: the callbacks of the sensor server and
    the subscribers of its events. *)
Inductive input : Type :=
| Observed (o : SensorObservation)
| Connected_ (id : Z) (m : MACAddress)
| Disconnected_ (id : Z) (m : MACAddress)
| Subscribed
| Unsubscribed (id : Z)
| Received (id : Z).

Definition input_step (marshal : event_value -> option (list byte)) (i : input) : M MonitoringState unit :=
  fun state => match i with
  | Observed o => OnSensorObservation marshal o state
  | Connected_ id m => (Ret tt, OnDeviceConnected marshal id m state)
  | Disconnected_ id m => (Ret tt, OnDeviceDisconnected marshal id m state)
  | Subscribed => (Ret tt, set_events (Subscribe (events state)).2 state)
  | Unsubscribed id => (Ret tt, set_events (unsubscribe id (events state)) state)
  | Received id => (Ret tt, set_events (receive id (events state)).2 state)
  end.

Fixpoint run_inputs (marshal : event_value -> option (list byte)) (ins : list input) : M MonitoringState unit :=
  fun state => match ins with
  | [] => (Ret tt, state)
  | i :: ins =>
      match input_step marshal i state with
      | (Ret _, state) => run_inputs marshal ins state
      | (r, state) => (r, state)
      end
  end.

(** The samples observed of one sensor of one device. *)
Definition observed (ins : list input) (m : MACAddress) (s : SensorType) : list Sample :=
  omap (fun i => match i with
                 | Observed o =>
                     if bool_decide (ob_MAC o = m /\ ob_SensorType o = s)
                     then Some (mkSample (ob_Timestamp o) (ob_Value o)) else None
                 | _ => None
                 end) ins.

(** The last [n] elements of a list. *)
Definition last_of {A} (n : nat) (l : list A) : list A := drop (length l - n) l.

(** ** Lemmas on the ring *)

(** The ring of [cap] places holds the end of the list of appended samples:
    sample number [i] is at place [i mod cap]. *)
Record ring_holds (cap : nat) (l : list Sample) (ring : sampleRing) : Prop := {
  rh_length : length (samples ring) = cap;
  rh_next : next ring = Z.of_nat (length l) mod Z.of_nat cap;
  rh_count : count ring = Z.of_nat (length l `min` cap);
  rh_places : forall i, (length l - cap <= i < length l)%nat -> samples ring !! (i mod cap)%nat = l !! i }.

Lemma new_ring_holds (cap : nat) :
  exists ring, newSampleRing (Z.of_nat cap) = Ret ring /\ ring_holds cap [] ring.
Proof.
  unfold newSampleRing. rewrite (proj2 (Z.ltb_ge _ _)) by lia. eexists. split; [reflexivity|].
  split; simpl; [by rewrite length_replicate, Nat2Z.id|by rewrite Zmod_0_l|lia|intros i Hi; lia].
Qed.

Lemma mod_window_inj (c a b : nat) :
  (0 < c)%nat -> (a mod c = b mod c)%nat -> (a <= b < a + c)%nat -> a = b.
Proof.
  intros Hc E H. pose proof (Nat.div_mod a c). pose proof (Nat.div_mod b c).
  assert (b / c = a / c)%nat; [|nia]. 
  assert (~ (a / c < b / c))%nat by nia. assert (~ (b / c < a / c))%nat by nia. lia.
Qed.

Lemma Append_holds (cap : nat) (l : list Sample) ring s :
  (0 < cap)%nat -> ring_holds cap l ring ->
  exists ring', Append s ring = Ret ring' /\ ring_holds cap (l ++ [s]) ring'.
Proof.
  intros Hc [Hl Hn Hk Hp]. unfold Append. rewrite Hl.
  assert (0 <= next ring < Z.of_nat cap) as Hb by (rewrite Hn; apply Z.mod_pos_bound; lia).
  rewrite (proj2 (Z.leb_le _ _)), (proj2 (Z.ltb_lt (next ring) _)) by lia. simpl.
  eexists. split; [reflexivity|].
  assert (Z.to_nat (next ring) = length l mod cap)%nat as En by (by rewrite Hn, <- Nat2Z.inj_mod, Nat2Z.id).
  split; cbn [samples next count].
  - by rewrite length_insert.
  - rewrite Z.rem_mod_nonneg, Hn, Zplus_mod_idemp_l, length_app by lia. f_equal. simpl. lia.
  - rewrite Hk, length_app. simpl. case_match eqn:E; bool_to_prop; lia.
  - intros i Hi. rewrite length_app in Hi. simpl in Hi. rewrite En.
    destruct (decide (i = length l)) as [->|Hne].
    + rewrite list_lookup_insert_eq by (rewrite Hl; apply Nat.mod_upper_bound; lia).
      by rewrite list_lookup_middle.
    + rewrite list_lookup_insert_ne.
      * rewrite lookup_app_l by lia. apply Hp. lia.
      * intros Em. symmetry in Em. apply mod_window_inj in Em; lia.
Qed.

Lemma Snapshot_holds (cap : nat) (l : list Sample) ring :
  (0 < cap)%nat -> ring_holds cap l ring -> Snapshot ring = Ret (last_of cap l).
Proof.
  intros Hc [Hl Hn Hk Hp]. unfold Snapshot, last_of. rewrite Hl, Hk.
  rewrite (proj2 (Z.ltb_ge _ _)) by lia.
  erewrite (proj2 (mapM_Some _ _ (drop (length l - cap) l))); [done|].
  apply Forall2_same_length_lookup. split; [rewrite length_drop, length_seqZ; lia|].
  intros i z x Hz Hx. apply lookup_seqZ in Hz as [-> Hi]. rewrite lookup_drop in Hx.
  cbn [Z.add]. rewrite (proj2 (Z.eqb_neq (Z.of_nat cap) 0)) by lia. cbn [orb].
  assert (length l - cap + i < length l)%nat as Hlt by (apply lookup_lt_Some in Hx; lia).
  set (start := if next ring - Z.of_nat (length l `min` cap) <? 0
                then next ring - Z.of_nat (length l `min` cap) + Z.of_nat cap
                else next ring - Z.of_nat (length l `min` cap)).
  assert (0 <= next ring < Z.of_nat cap) as Hb by (rewrite Hn; apply Z.mod_pos_bound; lia).
  assert (0 <= start /\ exists k, start = Z.of_nat (length l - cap) + k * Z.of_nat cap) as [H0 [k Ek]].
  { pose proof (Z.div_mod (Z.of_nat (length l)) (Z.of_nat cap)) as D. rewrite <- Hn in D.
    unfold start. destruct (decide (length l < cap)%nat).
    - rewrite Z.mod_small in Hn by lia. rewrite (Nat.min_l _ _) by lia. rewrite Hn.
      rewrite Z.sub_diag. simpl. split; [lia|exists 0; lia].
    - rewrite (Nat.min_r _ _) by lia. rewrite (proj2 (Z.ltb_lt _ _)) by lia. split; [lia|].
      exists (1 - Z.of_nat (length l) / Z.of_nat cap). nia. }
  rewrite Z.rem_mod_nonneg by lia.
  replace ((start + (0 + Z.of_nat i)) mod Z.of_nat cap) with (Z.of_nat ((length l - cap + i) mod cap)).
  2: { rewrite Ek, Nat2Z.inj_mod, Nat2Z.inj_add. symmetry.
       rewrite <- (Z.mod_add (Z.of_nat (length l - cap) + Z.of_nat i) k) by lia. f_equal. lia. }
  rewrite (proj2 (Z.ltb_ge _ _)) by lia. rewrite Nat2Z.id, Hp by lia. exact Hx.
Qed.

(** ** Lemmas on the monitoring state *)

(** The histories of the sensors hold what was observed. *)
Definition sensor_holds (cap : nat) (l : list Sample) (s : option sensorState) : Prop :=
  match s with
  | None => l = []
  | Some s => l <> [] /\ ring_holds cap l (history s)
  end.

Definition monitoring_holds (cap : nat) (ins : list input) (state : MonitoringState) : Prop :=
  historyCapacity state = Z.of_nat cap /\
  forall m s, sensor_holds cap (observed ins m s) (devices state !! m ≫= fun d => sensors d !! s).

Lemma observe_sensor_holds cap l o s :
  (0 < cap)%nat -> sensor_holds cap l s ->
  exists s', observe_sensor (Z.of_nat cap) o s = Ret s' /\
    sensor_holds cap (l ++ [mkSample (ob_Timestamp o) (ob_Value o)]) (Some s').
Proof.
  intros Hc Hs. unfold observe_sensor.
  assert (forall def ring, ring_holds cap l ring ->
    exists s', match Append (mkSample (ob_Timestamp o) (ob_Value o)) ring with
      | Ret ring => Ret (mkSensorState def true (mkSample (ob_Timestamp o) (ob_Value o))
                           (thresholdWarning (ob_SensorType o) (ob_Value o)) ring)
      | Fail e => Fail e
      | Panic p => Panic p
      end = Ret s' /\ sensor_holds cap (l ++ [mkSample (ob_Timestamp o) (ob_Value o)]) (Some s')) as K.
  { intros def ring Hr.
    destruct (Append_holds cap l ring (mkSample (ob_Timestamp o) (ob_Value o)) Hc Hr) as (ring' & -> & Hr').
    eexists. split; [done|]. split; [by destruct l|done]. }
  destruct s as [s|]; [by apply K, Hs|].
  simpl in Hs. subst l. destruct (new_ring_holds cap) as (ring & -> & Hr). by apply K.
Qed.

Lemma observed_app ins ins' m s : observed (ins ++ ins') m s = observed ins m s ++ observed ins' m s.
Proof. apply omap_app. Qed.

Lemma publish_devices marshal name v state :
  devices (publish marshal name v state) = devices state /\
  historyCapacity (publish marshal name v state) = historyCapacity state.
Proof. done. Qed.

(** The sensors of a device after [set_connection] or creation are the same. *)
Lemma sensors_of_insert state m d s m' :
  sensors d = default ∅ (sensors <$> devices state !! m) ->
  ((<[m := d]> (devices state)) !! m' ≫= fun d => sensors d !! s) =
  (devices state !! m' ≫= fun d => sensors d !! s).
Proof.
  intros E. destruct (decide (m' = m)) as [->|Hne].
  - rewrite lookup_insert_eq. simpl. rewrite E. by destruct (devices state !! m).
  - by rewrite lookup_insert_ne.
Qed.

Lemma device_sensors m fl rm state :
  sensors (device m fl rm state).1 = default ∅ (sensors <$> devices state !! m).
Proof. simpl. by destruct (devices state !! m). Qed.

Lemma OnDeviceConnected_keeps marshal id m state m' s :
  historyCapacity (OnDeviceConnected marshal id m state) = historyCapacity state /\
  (devices (OnDeviceConnected marshal id m state) !! m' ≫= fun d => sensors d !! s) =
  (devices state !! m' ≫= fun d => sensors d !! s).
Proof.
  unfold OnDeviceConnected. destruct (device m "" "" state) as [d st] eqn:E.
  pose proof (device_sensors m "" "" state) as Hs. rewrite E in Hs. simpl in Hs.
  injection E as _ <-. case_match; cbn -[lookup insert]; (split; [done|]);
    rewrite insert_insert_eq; by apply sensors_of_insert.
Qed.

Lemma OnDeviceDisconnected_keeps marshal id m state m' s :
  historyCapacity (OnDeviceDisconnected marshal id m state) = historyCapacity state /\
  (devices (OnDeviceDisconnected marshal id m state) !! m' ≫= fun d => sensors d !! s) =
  (devices state !! m' ≫= fun d => sensors d !! s).
Proof.
  unfold OnDeviceDisconnected. destruct (devices state !! m) as [d|] eqn:E; [|done].
  case_match; [|done]. cbn -[lookup insert]. split; [done|].
  apply sensors_of_insert. by rewrite E.
Qed.

Lemma input_step_holds marshal cap ins i state :
  (0 < cap)%nat -> monitoring_holds cap ins state ->
  exists state', input_step marshal i state = (Ret tt, state') /\ monitoring_holds cap (ins ++ [i]) state'.
Proof.
  intros Hc [Hcap Hs]. destruct i as [o|id m|id m| |id|id]; cbn [input_step].
  2: { eexists. split; [reflexivity|].
       split; [by rewrite (proj1 (OnDeviceConnected_keeps _ _ _ _ zero_mac 0))|]. intros m' s.
       rewrite observed_app, app_nil_r, (proj2 (OnDeviceConnected_keeps _ _ _ _ _ _)). apply Hs. }
  2: { eexists. split; [reflexivity|].
       split; [by rewrite (proj1 (OnDeviceDisconnected_keeps _ _ _ _ zero_mac 0))|]. intros m' s.
       rewrite observed_app, app_nil_r, (proj2 (OnDeviceDisconnected_keeps _ _ _ _ _ _)). apply Hs. }
  2-4: eexists; split; [reflexivity|]; split; [exact Hcap|]; intros m' s;
    rewrite observed_app, app_nil_r; apply Hs.
  unfold OnSensorObservation.
  destruct (device (ob_MAC o) _ _ state) as [d st] eqn:E.
  pose proof (device_sensors (ob_MAC o) (FloorType_String (ob_Floor o)) (RoomType_String (ob_Room o)) state) as Hd.
  rewrite E in Hd. cbn [fst] in Hd.
  assert (historyCapacity st = Z.of_nat cap /\ devices st = <[ob_MAC o := d]> (devices state)) as [Ecap Edev].
  { unfold device in E. by injection E as <- <-. }
  rewrite Ecap.
  assert (sensors d !! ob_SensorType o = devices state !! ob_MAC o ≫= fun d => sensors d !! ob_SensorType o) as El.
  { rewrite Hd. by destruct (devices state !! ob_MAC o). }
  specialize (Hs (ob_MAC o) (ob_SensorType o)) as Ho. rewrite <- El in Ho.
  destruct (observe_sensor_holds cap _ o _ Hc Ho) as (s' & -> & Hs').
  eexists. split; [reflexivity|]. split; [exact Ecap|]. intros m' s.
  rewrite observed_app. cbn -[lookup insert observed].
  rewrite Edev, insert_insert_eq.
  destruct (decide (m' = ob_MAC o)) as [->|Hne].
  - rewrite lookup_insert_eq. cbn -[lookup insert observed]. 
    destruct (decide (s = ob_SensorType o)) as [->|Hns].
    + rewrite lookup_insert_eq. simpl. rewrite bool_decide_eq_true_2 by done. exact Hs'.
    + rewrite lookup_insert_ne by done. simpl. rewrite bool_decide_eq_false_2 by (intros [??]; congruence).
      rewrite app_nil_r, Hd. specialize (Hs (ob_MAC o) s).
      destruct (devices state !! ob_MAC o); [exact Hs|]. simpl. by rewrite lookup_empty.
  - rewrite lookup_insert_ne by done. simpl. rewrite bool_decide_eq_false_2 by (intros [??]; congruence).
    rewrite app_nil_r. apply Hs.
Qed.

Lemma run_inputs_holds marshal cap : forall ins pre state,
  (0 < cap)%nat -> monitoring_holds cap pre state ->
  exists state', run_inputs marshal ins state = (Ret tt, state') /\ monitoring_holds cap (pre ++ ins) state'.
Proof.
  induction ins as [|i ins IH]; intros pre state Hc H; cbn [run_inputs].
  - exists state. by rewrite app_nil_r.
  - destruct (input_step_holds marshal cap pre i state Hc H) as (st & -> & H').
    destruct (IH _ _ Hc H') as (st' & -> & H''). exists st'. split; [done|].
    by rewrite <- app_assoc in H''.
Qed.

(** The readings of a state that holds what was observed. *)
Lemma Readings_holds cap ins state m s :
  (0 < cap)%nat -> monitoring_holds cap ins state ->
  Readings m s state = Ret (if bool_decide (observed ins m s = []) then None
                            else Some (last_of cap (observed ins m s))).
Proof.
  intros Hc [_ H]. specialize (H m s). unfold Readings.
  destruct (devices state !! m) as [d|]; simpl in H; [|by rewrite H].
  destruct (sensors d !! s) as [sen|]; simpl in H; [|by rewrite H].
  destruct H as [Hne Hr]. rewrite bool_decide_eq_false_2 by done.
  by rewrite (Snapshot_holds cap _ _ Hc Hr).
Qed.

Lemma new_monitoring_holds cap : monitoring_holds cap [] (mkMonitoring (Z.of_nat cap) ∅ newEventHub).
Proof. split; [done|]. intros m s. simpl. by rewrite lookup_empty. Qed.

Lemma NewMonitoringState_ok config state :
  NewMonitoringState config = inr state ->
  1 <= HistoryCapacity config <= 100000 /\ state = mkMonitoring (HistoryCapacity config) ∅ newEventHub.
Proof.
  unfold NewMonitoringState, Validate. destruct (SplitHostPort _); [|done].
  destruct ((_ <? 1) || _) eqn:E; [done|]. intros [= <-]. bool_to_prop. split; [lia|done].
Qed.

(** Readings are the last observations.  From a monitoring state created
    with a valid configuration no sequence of observations, connections and
    subscriptions panics, and the readings of a sensor of a device are then
    exactly the last [history_capacity] samples observed of it, oldest first;
    there are none when nothing was observed. *)
Theorem readings_last marshal config state ins m s :
  NewMonitoringState config = inr state ->
  exists state', run_inputs marshal ins state = (Ret tt, state') /\
    Readings m s state' =
      Ret (if bool_decide (observed ins m s = []) then None
           else Some (last_of (Z.to_nat (HistoryCapacity config)) (observed ins m s))).
Proof.
  intros H. apply NewMonitoringState_ok in H as [Hb ->].
  destruct (Z_of_nat_complete (HistoryCapacity config)) as [cap Ec]; [lia|]. rewrite Ec, Nat2Z.id in *.
  destruct (run_inputs_holds marshal cap ins [] _ ltac:(lia) (new_monitoring_holds cap)) as (st & -> & H).
  exists st. split; [done|]. apply (Readings_holds cap _ _ _ _ ltac:(lia) H).
Qed.

Definition example_observation (v t : Z) : SensorObservation :=
  mkObservation zero_mac 1 1 TransportUDP SENSOR_ID_TEMPERATURE UTemperature t v.

Lemma readings_last_witness :
  exists state', run_inputs (fun _ => None)
      [Observed (example_observation 20 1); Observed (example_observation 21 2); Connected_ 7 zero_mac;
       Observed (example_observation 22 3)]
      (mkMonitoring 2 ∅ newEventHub) = (Ret tt, state') /\
    Readings zero_mac SENSOR_ID_TEMPERATURE state' = Ret (Some [mkSample 2 21; mkSample 3 22]).
Proof.
  exact (readings_last (fun _ => None) (mkHTTPConfig true ":8080" 2) (mkMonitoring 2 ∅ newEventHub)
           [Observed (example_observation 20 1); Observed (example_observation 21 2); Connected_ 7 zero_mac;
            Observed (example_observation 22 3)] zero_mac SENSOR_ID_TEMPERATURE eq_refl).
Defined.

(** ** The connection of a device *)

(** Connection [id] is the last one of device [m], and no disconnection of it
    has been reported since. *)
Definition live (ins : list input) (m : MACAddress) (id : Z) : Prop :=
  exists pre post, ins = pre ++ Connected_ id m :: post /\
    (forall id', Connected_ id' m ∉ post) /\ Disconnected_ id m ∉ post.

(** The connection a state has for a device. *)
Definition connection_of (m : MACAddress) (state : MonitoringState) : option Z :=
  devices state !! m ≫= fun d => if connected d then Some (connectionID d) else None.

Lemma live_nil m id : ~ live [] m id.
Proof. intros (pre & post & E & _). by destruct pre. Qed.

Lemma live_snoc_connect ins m id m' id' :
  live (ins ++ [Connected_ id' m']) m id <-> (if bool_decide (m' = m) then id' = id else live ins m id).
Proof.
  unfold live. split.
  - intros (pre & post & E & Hc & Hd). destruct post as [|x post _] using rev_ind.
    + apply app_inj_tail in E as [-> [= -> ->]]. by rewrite bool_decide_eq_true_2.
    + rewrite app_comm_cons, app_assoc in E. apply app_inj_tail in E as [-> <-].
      rewrite bool_decide_eq_false_2 by (intros ->; apply (Hc id'); set_solver).
      exists pre, post. split; [done|]. split; [intros i Hi; apply (Hc i)|]; set_solver.
  - case_bool_decide as E.
    + intros ->. subst. exists ins, []. set_solver.
    + intros (pre & post & -> & Hc & Hd). exists pre, (post ++ [Connected_ id' m']).
      rewrite <- app_assoc. split; [done|]. split; [intros i Hi|]; set_solver.
Qed.

Lemma live_snoc_other ins m id i :
  (forall id' m', i <> Connected_ id' m') ->
  live (ins ++ [i]) m id <-> live ins m id /\ i <> Disconnected_ id m.
Proof.
  intros Hi. unfold live. split.
  - intros (pre & post & E & Hc & Hd). destruct post as [|x post _] using rev_ind.
    + apply app_inj_tail in E as [-> ->]. by edestruct Hi.
    + rewrite app_comm_cons, app_assoc in E. apply app_inj_tail in E as [-> <-].
      split; [|set_solver]. exists pre, post. split; [done|]. split; [intros j Hj; apply (Hc j)|]; set_solver.
  - intros [(pre & post & -> & Hc & Hd) Hn]. exists pre, (post ++ [i]).
    rewrite <- app_assoc. split; [done|]. split; [intros j Hj|]; set_solver.
Qed.

Lemma connection_of_connect marshal id m m' state :
  connection_of m' (OnDeviceConnected marshal id m state) =
  if bool_decide (m = m') then Some id else connection_of m' state.
Proof.
  unfold connection_of, OnDeviceConnected. cbn -[lookup insert].
  assert (forall d : deviceState, connected d = true -> connectionID d = id ->
    ((<[m := d]> (devices state)) !! m' ≫= fun d => if connected d then Some (connectionID d) else None) =
    if bool_decide (m = m') then Some id
    else devices state !! m' ≫= fun d => if connected d then Some (connectionID d) else None) as K.
  { intros d Hd <-. case_bool_decide as E; [subst; rewrite lookup_insert_eq; cbn; by rewrite Hd|].
    by rewrite lookup_insert_ne. }
  destruct (negb _); cbn -[lookup insert]; rewrite insert_insert_eq; by apply K.
Qed.

Lemma connection_of_disconnect marshal id m m' state :
  connection_of m' (OnDeviceDisconnected marshal id m state) =
  if bool_decide (m = m' /\ connection_of m' state = Some id) then None else connection_of m' state.
Proof.
  unfold connection_of, OnDeviceDisconnected. destruct (devices state !! m) as [d|] eqn:E.
  2: { rewrite bool_decide_eq_false_2; [done|]. intros [<- H]. by rewrite E in H. }
  destruct (connected d && (connectionID d =? id)) eqn:Ec.
  - apply andb_prop in Ec as [Hd Hi]. apply Z.eqb_eq in Hi.
    cbn -[lookup insert]. destruct (decide (m = m')) as [<-|Hne].
    + rewrite lookup_insert_eq, E. cbn. by rewrite Hd, Hi, bool_decide_eq_true_2.
    + rewrite lookup_insert_ne by done. by rewrite bool_decide_eq_false_2 by naive_solver.
  - rewrite bool_decide_eq_false_2; [done|]. intros [<- H]. rewrite E in H. cbn in H.
    destruct (connected d); [|done]. injection H as H. by rewrite H, Z.eqb_refl in Ec.
Qed.

Lemma connection_of_observation marshal o state state' m :
  OnSensorObservation marshal o state = (Ret tt, state') -> connection_of m state' = connection_of m state.
Proof.
  unfold OnSensorObservation. destruct (device _ _ _ state) as [d st] eqn:E.
  destruct (observe_sensor _ _ _) as [s| |]; [|done|done]. intros [= <-].
  unfold connection_of. cbn -[lookup insert]. unfold device in E. injection E as <- <-.
  cbn -[lookup insert]. rewrite insert_insert_eq. destruct (decide (m = ob_MAC o)) as [->|Hne].
  - rewrite lookup_insert_eq. cbn. by destruct (devices state !! ob_MAC o).
  - by rewrite lookup_insert_ne.
Qed.

Lemma connection_of_step marshal i ins state state' m :
  (forall id, connection_of m state = Some id <-> live ins m id) ->
  input_step marshal i state = (Ret tt, state') ->
  forall id, connection_of m state' = Some id <-> live (ins ++ [i]) m id.
Proof.
  intros H E id. destruct i as [o|id' m'|id' m'| |id'|id']; cbn [input_step] in E.
  2: { injection E as <-. rewrite connection_of_connect, live_snoc_connect. case_bool_decide; [naive_solver|apply H]. }
  2: { injection E as <-. rewrite connection_of_disconnect, live_snoc_other by done. rewrite <- H.
       case_bool_decide as D; naive_solver. }
  1: rewrite (connection_of_observation _ _ _ _ _ E).
  2-4: injection E as <-.
  1-4: rewrite live_snoc_other by done; rewrite <- H; naive_solver.
Qed.

Lemma run_inputs_connection marshal m : forall ins pre state state',
  (forall id, connection_of m state = Some id <-> live pre m id) ->
  run_inputs marshal ins state = (Ret tt, state') ->
  forall id, connection_of m state' = Some id <-> live (pre ++ ins) m id.
Proof.
  induction ins as [|i ins IH]; intros pre state state' H E; cbn [run_inputs] in E.
  - injection E as <-. by rewrite app_nil_r.
  - destruct (input_step marshal i state) as [[[]| |] st] eqn:Ei; [|done|done].
    replace (pre ++ i :: ins) with ((pre ++ [i]) ++ ins) by (by rewrite <- app_assoc).
    eapply IH; [|exact E]. by eapply connection_of_step.
Qed.

(** C35. Connection status.  After any sequence of inputs a device is shown as
    connected exactly when the last connection reported for it has not been
    reported as disconnected since: the disconnection of an earlier connection
    of the device, which a newer one has replaced, does not hide the new one. *)
Theorem connection_status marshal config state ins state' m fl rm details :
  NewMonitoringState config = inr state -> run_inputs marshal ins state = (Ret tt, state') ->
  (forall id, connection_of m state' = Some id <-> live ins m id) /\
  (dv_Connected (snapshotDevice state' m fl rm details) = true <-> exists id, live ins m id).
Proof.
  intros H E. apply NewMonitoringState_ok in H as [_ ->].
  assert (forall id, connection_of m state' = Some id <-> live ins m id) as K.
  { apply (run_inputs_connection marshal m ins [] _ _) with (2 := E). intros id. split; [done|].
    intros L. by apply live_nil in L. }
  split; [done|]. setoid_rewrite <- K. unfold snapshotDevice, connection_of.
  destruct (devices state' !! m) as [d|]; cbn; [|naive_solver].
  destruct (connected d); naive_solver.
Qed.

Lemma connection_status_witness :
  let ins := [Connected_ 1 zero_mac; Connected_ 2 zero_mac; Disconnected_ 1 zero_mac] in
  exists state', run_inputs (fun _ => None) ins (mkMonitoring 2 ∅ newEventHub) = (Ret tt, state') /\
    connection_of zero_mac state' = Some 2 /\ live ins zero_mac 2 /\
    dv_Connected (snapshotDevice state' zero_mac "" "" true) = true.
Proof.
  intros ins. eexists. split; [reflexivity|].
  split; [reflexivity|]. split; [|reflexivity].
  eapply (connection_status (fun _ => None) (mkHTTPConfig true ":8080" 2) (mkMonitoring 2 ∅ newEventHub) ins
            _ zero_mac "" "" true eq_refl eq_refl).
  reflexivity.
Defined.

(** ** Delivery of events *)

(** What happens to a hub. *)
Inductive hub_op : Type :=
| Publishes (event : Event)
| Subscribes
| Unsubscribes (id : Z)
| Receives (id : Z).

(** One operation, with the event subscription [me] receives. *)
Definition hub_step (me : Z) (op : hub_op) (hub : eventHub) : list Event * eventHub :=
  match op with
  | Publishes event => ([], publish_event event hub)
  | Subscribes => ([], (Subscribe hub).2)
  | Unsubscribes id => ([], unsubscribe id hub)
  | Receives id =>
      let '(got, hub) := receive id hub in
      (if bool_decide (id = me) then option_list got else [], hub)
  end.

Fixpoint hub_run (me : Z) (ops : list hub_op) (hub : eventHub) : list Event * eventHub :=
  match ops with
  | [] => ([], hub)
  | op :: ops =>
      let '(got, hub) := hub_step me op hub in
      let '(more, hub) := hub_run me ops hub in (got ++ more, hub)
  end.

(** The events published, and the number of subscriptions taken. *)
Definition published (ops : list hub_op) : list Event :=
  omap (fun op => match op with Publishes e => Some e | _ => None end) ops.
Definition subscriptions (ops : list hub_op) : nat :=
  length (omap (fun op => match op with Subscribes => Some tt | _ => None end) ops).

(** Reference: one bounded queue of its own, which only the events published
    and the receives of [me] touch; the events received and the queue. *)
Fixpoint own_queue (me : Z) (ops : list hub_op) (queue : list Event) : list Event * list Event :=
  match ops with
  | [] => ([], queue)
  | Publishes e :: ops =>
      own_queue me ops (if decide (length queue < 32)%nat then queue ++ [e] else queue)
  | Receives id :: ops =>
      if decide (id = me)
      then match queue with
           | [] => own_queue me ops []
           | e :: queue => let '(got, queue) := own_queue me ops queue in (e :: got, queue)
           end
      else own_queue me ops queue
  | _ :: ops => own_queue me ops queue
  end.

Lemma own_queue_bounds me : forall ops queue got queue',
  own_queue me ops queue = (got, queue') -> (length queue <= 32)%nat ->
  (length queue' <= 32)%nat /\ got ++ queue' `sublist_of` queue ++ published ops /\
  (length queue + length (published ops) <= 32 -> got ++ queue' = queue ++ published ops)%nat.
Proof.
  induction ops as [|op ops IH]; intros q got q' E Hq; cbn [own_queue] in E.
  - injection E as <- <-. by rewrite app_nil_r.
  - assert (published (op :: ops) = match op with Publishes e => [e] | _ => [] end ++ published ops) as ->
      by (by destruct op).
    destruct op as [e| |id|id]; cbn [app]; try by apply IH.
    + destruct (decide _) as [Hl|Hl].
      * apply IH in E as (H1 & H2 & H3); [|rewrite length_app; simpl; lia].
        rewrite <- (app_assoc q [e]) in H2, H3. split; [done|]. split; [done|].
        intros H. apply H3. rewrite length_app. cbn [length] in *. lia.
      * apply IH in E as (H1 & H2 & H3); [|done]. split; [done|]. split; [|cbn [length]; lia].
        etrans; [exact H2|]. apply sublist_app; [done|]. by apply sublist_cons.
    + destruct (decide (id = me)) as [->|]; [|by apply IH].
      destruct q as [|e q]; [by apply IH|].
      destruct (own_queue me ops q) as [g r] eqn:Er. injection E as <- <-.
      apply IH in Er as (H1 & H2 & H3); [|simpl in *; lia]. split; [done|].
      split; [by apply sublist_skip|]. cbn [length app]. intros H. by rewrite H3 by lia.
Qed.

Lemma hub_run_own_queue me : forall ops hub queue,
  subscribers hub !! me = Some queue -> 0 <= me <= nextID hub ->
  nextID hub + Z.of_nat (subscriptions ops) < 2 ^ 64 -> Unsubscribes me ∉ ops ->
  let '(got, hub') := hub_run me ops hub in
  exists queue', subscribers hub' !! me = Some queue' /\ own_queue me ops queue = (got, queue').
Proof.
  induction ops as [|op ops IH]; intros hub q Hq Hme Hn Hu; cbn [hub_run].
  - by exists q.
  - assert (Unsubscribes me ∉ ops) as Hu' by set_solver.
    destruct op as [e| |id|id]; cbn [hub_step own_queue]; unfold subscriptions in Hn;
      cbn [omap list_omap length] in Hn.
    + specialize (IH (publish_event e hub) (if decide (length q < 32)%nat then q ++ [e] else q)).
      destruct (hub_run me ops _) as [got hub']. apply IH; [|done|done|done].
      simpl. rewrite lookup_fmap, Hq. simpl. f_equal. unfold eventQueueCapacity.
      destruct (decide _); case_match; bool_to_prop; done || lia.
    + specialize (IH (Subscribe hub).2 q). destruct (hub_run me ops _) as [got hub'].
      unfold Subscribe in IH. cbn -[lookup insert] in IH. rewrite wrapu_small in IH by lia.
      apply IH; [by rewrite lookup_insert_ne by lia|lia|fold (subscriptions ops) in Hn; lia|done].
    + specialize (IH (unsubscribe id hub) q). destruct (hub_run me ops _) as [got hub'].
      apply IH; [|done|done|done]. simpl. rewrite lookup_delete_ne; [done|]. intros ->. set_solver.
    + unfold receive. destruct (decide (id = me)) as [->|Hne].
      * rewrite Hq, bool_decide_eq_true_2 by done. destruct q as [|e q].
        -- specialize (IH hub [] Hq Hme Hn Hu'). by destruct (hub_run me ops hub).
        -- specialize (IH (mkHub (nextID hub) (<[me:=q]> (subscribers hub))) q).
           destruct (hub_run me ops _) as [got hub'].
           destruct IH as (q' & ? & E); [by simpl; rewrite lookup_insert_eq|done|done|done|].
           exists q'. by rewrite E.
      * rewrite bool_decide_eq_false_2 by done.
        assert (exists got hub'', (match subscribers hub !! id with
          | Some (event :: events) => (Some event, mkHub (nextID hub) (<[id:=events]> (subscribers hub)))
          | _ => (None, hub) end) = (got, hub'') /\ subscribers hub'' !! me = Some q /\ nextID hub'' = nextID hub)
          as (got & hub'' & -> & Hq' & Hn').
        { destruct (subscribers hub !! id) as [[|ev evs]|]; eexists _, _; (split; [reflexivity|]); try done.
          split; [|done]. simpl. by rewrite lookup_insert_ne. }
        specialize (IH hub'' q Hq'). rewrite Hn' in IH. specialize (IH Hme Hn Hu').
        by destruct (hub_run me ops hub'').
Qed.

(** Event delivery.  From the moment it is taken until it is cancelled a
    subscription behaves like a queue of its own of 32 events: what it has
    received and what is queued is what its own queue would give, whatever the
    other subscribers do or fail to do.  So it gets the published events in
    order, without duplicates, all of them while no more than 32 have been
    published, and a full queue loses events instead of growing or blocking
    the publisher. *)
Theorem hub_delivery hub0 me hub ops :
  Subscribe hub0 = (me, hub) -> 0 <= nextID hub0 ->
  nextID hub0 + 1 + Z.of_nat (subscriptions ops) < 2 ^ 64 -> Unsubscribes me ∉ ops ->
  let '(got, hub') := hub_run me ops hub in
  exists queue, subscribers hub' !! me = Some queue /\ own_queue me ops [] = (got, queue) /\
    (length queue <= 32)%nat /\ got ++ queue `sublist_of` published ops /\
    ((length (published ops) <= 32)%nat -> got ++ queue = published ops).
Proof.
  intros E H0 Hn Hu. unfold Subscribe in E. rewrite wrapu_small in E by lia. injection E as <- <-.
  pose proof (hub_run_own_queue (nextID hub0 + 1) ops
    (mkHub (nextID hub0 + 1) (<[nextID hub0 + 1:=[]]> (subscribers hub0))) []) as K.
  destruct (hub_run _ ops _) as [got hub'].
  destruct K as (q & Hq & Eq); [by simpl; rewrite lookup_insert_eq|simpl; lia|done|done|].
  exists q. split; [done|]. split; [done|]. apply (own_queue_bounds _ _ _ _ _ Eq). simpl. lia.
Qed.

Lemma hub_delivery_witness :
  let e n := mkEvent n [] in
  let '(got, hub') := hub_run 1 [Publishes (e "a"%string); Subscribes; Receives 2; Publishes (e "b"%string); Receives 1]
                        (Subscribe newEventHub).2 in
  got = [e "a"%string] /\ subscribers hub' !! 1 = Some [e "b"%string] /\ subscribers hub' !! 2 = Some [e "b"%string].
Proof.
  intros e.
  pose proof (hub_delivery newEventHub 1 (Subscribe newEventHub).2
    [Publishes (e "a"%string); Subscribes; Receives 2; Publishes (e "b"%string); Receives 1] eq_refl
    ltac:(vm_compute; discriminate) ltac:(vm_compute; reflexivity)
    ltac:(set_solver)) as K.
  vm_compute in K |- *. destruct K as (q & Hq & Eq & _). injection Eq as <-.
  split; [reflexivity|split; reflexivity].
Defined.

(** ** Rooms *)

#[export] Instance room_le_total : Total room_le.
Proof. intros a b. unfold room_le. pose proof (String.leb_total (rm_Name a) (rm_Name b)). tauto. Qed.

(** What the snapshot of a room says of the devices of that name. *)
Definition room_of (name : string) (devs : list DeviceSnapshot) : RoomSnapshot :=
  let here := filter (fun d => dv_Room d = name) devs in
  mkRoomSnapshot name (Z.of_nat (length here))
    (Z.of_nat (length (filter (fun d => dv_Connected d = true) here)))
    (Z.of_nat (sum_list_with (fun d => length (dv_Warnings d)) here)).

Definition counted (devs : list DeviceSnapshot) (rooms : gmap string RoomSnapshot) : Prop :=
  forall name, rooms !! name = if bool_decide (name ∈ map dv_Room devs) then Some (room_of name devs) else None.

Lemma count_device_counted devs rooms d : counted devs rooms -> counted (devs ++ [d]) (count_device rooms d).
Proof.
  intros H name. unfold count_device. destruct (decide (name = dv_Room d)) as [->|Hne].
  - rewrite lookup_insert_eq, bool_decide_eq_true_2 by (rewrite map_app; set_solver). f_equal.
    assert (default (mkRoomSnapshot (dv_Room d) 0 0 0) (rooms !! dv_Room d) = room_of (dv_Room d) devs) as ->.
    { rewrite H. case_bool_decide as E; [done|]. simpl. unfold room_of.
      replace (filter (fun d0 => dv_Room d0 = dv_Room d) devs) with (@nil DeviceSnapshot); [done|].
      symmetry. apply elem_of_nil_inv. intros x [Ex Hx]%list_elem_of_filter. apply E.
      rewrite <- Ex. by apply list_elem_of_fmap_2. }
    unfold room_of. cbn [rm_Name rm_DeviceCount rm_ConnectedDevices rm_WarningCount].
    rewrite filter_app, (filter_singleton_True (fun d0 => dv_Room d0 = dv_Room d) d []) by done.
    rewrite filter_app, (filter_singleton _ d []), sum_list_with_app, !length_app. cbn [sum_list_with length].
    destruct (dv_Connected d); cbn [decide_rel]; simpl; f_equal; lia.
  - rewrite lookup_insert_ne, H by done. unfold room_of.
    rewrite filter_app, (filter_singleton_False (fun d0 => dv_Room d0 = name) d []), app_nil_r by done.
    case_bool_decide as E; case_bool_decide as E'; try done; exfalso; rewrite map_app in E'; set_solver.
Qed.

Lemma foldl_counted : forall devs pre rooms,
  counted pre rooms -> counted (pre ++ devs) (foldl count_device rooms devs).
Proof.
  induction devs as [|d devs IH]; intros pre rooms H; cbn [foldl]; [by rewrite app_nil_r|].
  replace (pre ++ d :: devs) with ((pre ++ [d]) ++ devs) by (by rewrite <- app_assoc).
  by apply IH, count_device_counted.
Qed.

(** Rooms summarise the devices.  The rooms listed are sorted, have
    distinct names, and are exactly the rooms in which a device is configured;
    each gives the number of its devices, of its connected devices and of
    their warnings.  Rooms of the same name on different floors are one. *)
Theorem rooms_summary snapshot state :
  Sorted room_le (Rooms snapshot state) /\ NoDup (map rm_Name (Rooms snapshot state)) /\
  forall r, r ∈ Rooms snapshot state <->
    rm_Name r ∈ map dv_Room (Devices snapshot state) /\ r = room_of (rm_Name r) (Devices snapshot state).
Proof.
  unfold Rooms. set (devs := Devices snapshot state).
  pose proof (foldl_counted devs [] ∅) as H. cbn [app] in H.
  set (rooms := foldl count_device ∅ devs) in *.
  assert (counted devs rooms) as Hc by (apply H; intros n; by rewrite lookup_empty). clear H.
  split; [apply (Sorted_merge_sort _ _)|]. rewrite merge_sort_Permutation.
  assert (map rm_Name (map snd (map_to_list rooms)) = map fst (map_to_list rooms)) as En.
  { rewrite map_map. apply map_ext_in. intros [n r] Hr%list_elem_of_In%elem_of_map_to_list.
    rewrite Hc in Hr. case_bool_decide; [|done]. by injection Hr as <-. }
  split; [rewrite En; apply NoDup_fst_map_to_list|].
  intros r. rewrite merge_sort_Permutation, list_elem_of_fmap. split.
  - intros ([n r'] & -> & Hr). apply elem_of_map_to_list in Hr. rewrite Hc in Hr.
    case_bool_decide; [|done]. by injection Hr as <-.
  - intros [Hn Hr]. exists (rm_Name r, r). split; [done|]. apply elem_of_map_to_list.
    rewrite Hc, bool_decide_eq_true_2 by done. by rewrite <- Hr.
Qed.
