(* ===== verification/TcpServer.v ===== *)
(** * The TCP server

    Model of [src/sensor-server/tcp-server.go].  [readMessage] is a function of
    the connection.  The goroutines of the server, one that accepts, one per
    connection and one that closes, interleave: an [action] is one atomic step
    of one of them, a critical section of the mutex or the use of one atomic
    variable or channel.  Connections are objects, named by their index in the
    list of the objects created, as the code compares pointers. *)

From S2P Require Import Prelude GoRuntime BinaryData Protocol Config Router.
Open Scope Z_scope.

(** ** Connections *)

(** A [net.Conn]: the stream of its bytes, the read deadline set, and the
    results of the coming calls of [SetReadDeadline] (nil when there are
    none). *)
Record netConn : Type := mkNetConn {
  stream : Reader; deadline : option Z; deadline_results : list (option error) }.

Definition set_stream (r : Reader) (c : netConn) : netConn := mkNetConn r (deadline c) (deadline_results c).

(** [SetReadDeadline]; none is the zero time, which removes the deadline. *)
Definition SetReadDeadline (d : option Z) : M netConn unit := fun c =>
  match deadline_results c with
  | Some e :: l => (Fail e, mkNetConn (stream c) (deadline c) l)
  | None :: l => (Ret tt, mkNetConn (stream c) d l)
  | [] => (Ret tt, mkNetConn (stream c) d [])
  end.

Definition conn_ReadFull (n : nat) : M netConn (list byte) := zoom stream set_stream (ReadFull n).

(** What [readMessage] returns: a message, or an error and whether the next
    frame boundary is unknown. *)
Inductive read_outcome : Type :=
| GotMessage (m : Message)
| ReadError (structural : bool) (e : error).

(** [src/sensor-server/tcp-server.go:224-249] readMessage; [now] is the clock,
    [payloadDeadline] the option of the server *)
Definition readMessage (now payloadDeadline : Z) : M netConn read_outcome :=
  headerBytes ← attempt (conn_ReadFull (Z.to_nat MessageHeaderSize));
  match headerBytes with
  | inr err => mret (ReadError true (ErrWrap "read header" err))
  | inl headerBytes =>
      match DecodeHeader (slice_of headerBytes) with
      | Panic p => throw p
      | Fail err => mret (ReadError true err)
      | Ret header =>
          err ← (if 0 <? PayloadLength header
                 then attempt_err (SetReadDeadline (Some (now + payloadDeadline)))
                 else mret None);
          match err with
          | Some err => mret (ReadError true (ErrWrap "set payload deadline" err))
          | None =>
              payload ← attempt (conn_ReadFull (Z.to_nat (PayloadLength header)));
              attempt_err (SetReadDeadline None);;
              match payload with
              | inr readErr => mret (ReadError true (ErrWrap "read payload" readErr))
              | inl payload =>
                  match DecodeMessage header (slice_of payload) with
                  | Panic p => throw p
                  | Fail err => mret (ReadError false err)
                  | Ret message => mret (GotMessage message)
                  end
              end
          end
      end
  end.

(** ** State *)

(** [src/sensor-server/tcp-server.go:16-18] MessageHandler *)
Class MessageHandler (H : Type) : Type :=
  handle : Transport -> Z -> Message -> M H unit.

(** The message router handles messages. *)
#[export] Instance router_handler {D U} `{!SensorDataWriter D} `{!UnknownMessageWriter U} :
  MessageHandler (MessageRouter D U) := Route.

(** [src/sensor-server/tcp-server.go:20-28] TCPServerOptions, the limits; its
    callbacks are the events of the model *)
Record TCPServerOptions : Type := mkTCPOptions { MaximumConnections : Z; PayloadDeadline : Z }.

(** [src/sensor-server/tcp-server.go:30-37] TCPServerCounters *)
Record TCPServerCounters : Type := mkTCPCounters {
  ActiveConnections : Z; TotalConnections : Z; Rejected : Z;
  TMessages : Z; Malformed : Z; MACMismatches : Z }.

(** Where the goroutine of a connection is.  [prev] is the connection that a
    binding replaced. *)
Inductive conn_pc : Type :=
| Created                                        (* registered, goroutine not started *)
| Reading
| Binding (m : Message)
| Announcing (m : Message) (prev : option nat)   (* before OnDeviceConnected *)
| ClosingPrevious (m : Message) (prev : option nat)
| Handling (m : Message)                         (* before Route *)
| Leaving                                        (* the deferred function *)
| Removed
| Released
| Deactivated
| Gone.

(** [src/sensor-server/tcp-server.go:64-70] tcpConnection, with its goroutine
    and whether its [conn] has been closed *)
Record tcpConnection : Type := mkConnection {
  id : Z; conn : netConn; remote : string; mac : MACAddress; bound : bool;
  conn_closed : bool; pc : conn_pc }.

(** The goroutine of [Serve]: in [Accept], between the steps of
    [startConnection], rejecting, or returned. *)
Inductive serve_pc : Type :=
| Accepting
| Registering (id : Z) (c : netConn) (remote : string)
| Starting (i : nat)
| Rejecting (remote : string)
| Served.

(** The goroutine of [Close]. *)
Inductive close_pc : Type :=
| NotClosing
| ClosingListener
| CollectConnections (closeErr : option error)
| CloseConnections (l : list nat) (closeErr : option error)
| CloseReturned.

(** [src/sensor-server/tcp-server.go:39-62] TCPServer, with its goroutines;
    [tokens] is the number of elements in the channel [limit] *)
Record TCPServer (H : Type) : Type := mkTCPServer {
  options : TCPServerOptions;
  handler : H;
  cancelled : bool;
  listener_closed : bool;
  tokens : Z;
  objects : list tcpConnection;
  connections : gmap Z nat;
  byMAC : gmap MACAddress nat;
  nextID : Z;
  waiting : Z;
  counters : TCPServerCounters;
  serve : serve_pc;
  closing : close_pc;
  crashed : bool }.
Arguments options {H}. Arguments handler {H}. Arguments cancelled {H}. Arguments listener_closed {H}.
Arguments tokens {H}. Arguments objects {H}. Arguments connections {H}. Arguments byMAC {H}.
Arguments nextID {H}. Arguments waiting {H}. Arguments counters {H}. Arguments serve {H}.
Arguments closing {H}. Arguments crashed {H}. Arguments mkTCPServer {H}.

(** The calls of the callbacks and the results. *)
Inductive event : Type :=
| EvConnection (id : Z) (remote : string)
| EvDisconnection (id : Z) (mac : MACAddress) (remote : string)
| EvDeviceConnected (id : Z) (mac : MACAddress)
| EvDeviceDisconnected (id : Z) (mac : MACAddress)
| EvRead (i : nat) (outcome : read_outcome)
| EvRouted (i : nat) (timestamp : Z) (m : Message)
| EvWarning (e : error)
| EvServeReturn (e : option error)
| EvCloseReturn (e : option error)
| EvPanic (p : panic).

Inductive action : Type :=
| AAccept (r : netConn * string + error)  (* Serve: Accept returns; the limit is tried *)
| ARegister                               (* startConnection: the connection is registered *)
| AStart                                  (* startConnection: counted, reported, its goroutine started *)
| AReject                                 (* Serve: a connection over the limit is closed *)
| ARead (i : nat) (now : Z)               (* serveConnection: readMessage *)
| AReadClosed (i : nat) (msg : string)    (* the same, on a connection that has been closed *)
| ABind (i : nat)                         (* bindConnection: under the mutex *)
| AAnnounce (i : nat)                     (* bindConnection: OnDeviceConnected *)
| AClosePrevious (i : nat)                (* bindConnection: the replaced connection is closed *)
| AHandle (i : nat) (now : Z)             (* serveConnection: Route *)
| ALeave (i : nat)                        (* the deferred function: close and remove *)
| ARelease (i : nat)                      (* its place is given back *)
| ADeactivate (i : nat)                   (* it is not counted as active any more *)
| ANotify (i : nat)                       (* the callbacks; the goroutine ends *)
| ACancel                                 (* Close: the context is cancelled *)
| ACloseListener (r : option error)       (* Close: the listener is closed *)
| ACollect                                (* Close: the connections are copied, under the mutex *)
| ACloseNext                              (* Close: the next connection is closed *)
| AWaited.                                (* Close: the goroutines have ended *)

(** ** Operations *)

Section server.
Context {H : Type} `{!MessageHandler H}.
Implicit Types s : TCPServer H.

(** [src/sensor-server/tcp-server.go:72-109] NewTCPServer (nil arguments cannot
    be expressed; the callbacks left out do nothing); the durations
    are in nanoseconds *)
Definition NewTCPServer (h : H) (o : TCPServerOptions) : error + TCPServer H :=
  if MaximumConnections o <? 1
  then inl (ErrText "new TCP server: maximum connections must be positive") else
  if (PayloadDeadline o <? time_Second) || (time_Minute <? PayloadDeadline o)
  then inl (ErrText "new TCP server: payload deadline must be between 1s and 1m") else
  inr (mkTCPServer o h false false 0 [] ∅ ∅ 0 0 (mkTCPCounters 0 0 0 0 0 0) Accepting NotClosing false).

Definition set_handler (h : H) (s : TCPServer H) : TCPServer H :=
  mkTCPServer (options s) h (cancelled s) (listener_closed s) (tokens s) (objects s) (connections s)
    (byMAC s) (nextID s) (waiting s) (counters s) (serve s) (closing s) (crashed s).
Definition set_cancelled (s : TCPServer H) : TCPServer H :=
  mkTCPServer (options s) (handler s) true (listener_closed s) (tokens s) (objects s) (connections s)
    (byMAC s) (nextID s) (waiting s) (counters s) (serve s) (closing s) (crashed s).
Definition set_listener_closed  (s : TCPServer H) : TCPServer H :=
  mkTCPServer (options s) (handler s) (cancelled s) true (tokens s) (objects s) (connections s)
    (byMAC s) (nextID s) (waiting s) (counters s) (serve s) (closing s) (crashed s).
Definition set_tokens (n : Z) (s : TCPServer H) : TCPServer H :=
  mkTCPServer (options s) (handler s) (cancelled s) (listener_closed s) n (objects s) (connections s)
    (byMAC s) (nextID s) (waiting s) (counters s) (serve s) (closing s) (crashed s).
Definition set_objects (l : list tcpConnection) (s : TCPServer H) : TCPServer H :=
  mkTCPServer (options s) (handler s) (cancelled s) (listener_closed s) (tokens s) l (connections s)
    (byMAC s) (nextID s) (waiting s) (counters s) (serve s) (closing s) (crashed s).
Definition set_maps (m : gmap Z nat) (b : gmap MACAddress nat) (s : TCPServer H) : TCPServer H :=
  mkTCPServer (options s) (handler s) (cancelled s) (listener_closed s) (tokens s) (objects s) m b
    (nextID s) (waiting s) (counters s) (serve s) (closing s) (crashed s).
Definition set_nextID (n : Z) (s : TCPServer H) : TCPServer H :=
  mkTCPServer (options s) (handler s) (cancelled s) (listener_closed s) (tokens s) (objects s)
    (connections s) (byMAC s) n (waiting s) (counters s) (serve s) (closing s) (crashed s).
Definition set_waiting (n : Z) (s : TCPServer H) : TCPServer H :=
  mkTCPServer (options s) (handler s) (cancelled s) (listener_closed s) (tokens s) (objects s)
    (connections s) (byMAC s) (nextID s) n (counters s) (serve s) (closing s) (crashed s).
Definition set_counters (c : TCPServerCounters) (s : TCPServer H) : TCPServer H :=
  mkTCPServer (options s) (handler s) (cancelled s) (listener_closed s) (tokens s) (objects s)
    (connections s) (byMAC s) (nextID s) (waiting s) c (serve s) (closing s) (crashed s).
Definition set_serve (p : serve_pc) (s : TCPServer H) : TCPServer H :=
  mkTCPServer (options s) (handler s) (cancelled s) (listener_closed s) (tokens s) (objects s)
    (connections s) (byMAC s) (nextID s) (waiting s) (counters s) p (closing s) (crashed s).
Definition set_closing (p : close_pc) (s : TCPServer H) : TCPServer H :=
  mkTCPServer (options s) (handler s) (cancelled s) (listener_closed s) (tokens s) (objects s)
    (connections s) (byMAC s) (nextID s) (waiting s) (counters s) (serve s) p (crashed s).
Definition set_crashed  (s : TCPServer H) : TCPServer H :=
  mkTCPServer (options s) (handler s) (cancelled s) (listener_closed s) (tokens s) (objects s)
    (connections s) (byMAC s) (nextID s) (waiting s) (counters s) (serve s) (closing s) true.

(** The atomic counters. *)
Definition add_active (n : Z) (c : TCPServerCounters) : TCPServerCounters :=
  mkTCPCounters (u64 (ActiveConnections c + n)) (TotalConnections c) (Rejected c) (TMessages c)
    (Malformed c) (MACMismatches c).
Definition add_total (c : TCPServerCounters) : TCPServerCounters :=
  mkTCPCounters (ActiveConnections c) (u64 (TotalConnections c + 1)) (Rejected c) (TMessages c)
    (Malformed c) (MACMismatches c).
Definition add_rejected (c : TCPServerCounters) : TCPServerCounters :=
  mkTCPCounters (ActiveConnections c) (TotalConnections c) (u64 (Rejected c + 1)) (TMessages c)
    (Malformed c) (MACMismatches c).
Definition add_message (c : TCPServerCounters) : TCPServerCounters :=
  mkTCPCounters (ActiveConnections c) (TotalConnections c) (Rejected c) (u64 (TMessages c + 1))
    (Malformed c) (MACMismatches c).
Definition add_malformed (c : TCPServerCounters) : TCPServerCounters :=
  mkTCPCounters (ActiveConnections c) (TotalConnections c) (Rejected c) (TMessages c)
    (u64 (Malformed c + 1)) (MACMismatches c).
Definition add_mismatch (c : TCPServerCounters) : TCPServerCounters :=
  mkTCPCounters (ActiveConnections c) (TotalConnections c) (Rejected c) (TMessages c)
    (Malformed c) (u64 (MACMismatches c + 1)).

Definition count (f : TCPServerCounters -> TCPServerCounters) (s : TCPServer H) : TCPServer H :=
  set_counters (f (counters s)) s.

(** Changes of a connection object. *)
Definition set_pc (p : conn_pc) (c : tcpConnection) : tcpConnection :=
  mkConnection (id c) (conn c) (remote c) (mac c) (bound c) (conn_closed c) p.
Definition set_conn (n : netConn) (c : tcpConnection) : tcpConnection :=
  mkConnection (id c) n (remote c) (mac c) (bound c) (conn_closed c) (pc c).
Definition set_bound (m : MACAddress) (c : tcpConnection) : tcpConnection :=
  mkConnection (id c) (conn c) (remote c) m true (conn_closed c) (pc c).
Definition close_conn (c : tcpConnection) : tcpConnection :=
  mkConnection (id c) (conn c) (remote c) (mac c) (bound c) true (pc c).

Definition update (i : nat) (f : tcpConnection -> tcpConnection) (s : TCPServer H) : TCPServer H :=
  set_objects (alter f i (objects s)) s.

(** [src/sensor-server/tcp-server.go:161-167] startConnection: a place of the
    limit and an identifier, or the connection is refused *)
Definition startConnection (c : netConn) (remote : string) (s : TCPServer H) : list event * TCPServer H :=
  if tokens s <? MaximumConnections (options s)
  then let id := u64 (nextID s + 1) in
       ([], set_serve (Registering id c remote) (set_nextID id (set_tokens (tokens s + 1) s)))
  else ([], set_serve (Rejecting remote) s).

(** [src/sensor-server/tcp-server.go:168-171] startConnection: the connection
    is registered, under the mutex *)
Definition register (id : Z) (c : netConn) (remote : string) (s : TCPServer H) : list event * TCPServer H :=
  let i := length (objects s) in
  ([], set_serve (Starting i) (set_maps (<[id := i]> (connections s)) (byMAC s)
         (set_objects (objects s ++ [mkConnection id c remote zero_mac false false Created]) s))).

(** [src/sensor-server/tcp-server.go:172-178] startConnection: the connection
    is counted and reported, and its goroutine started *)
Definition start (i : nat) (c : tcpConnection) (s : TCPServer H) : list event * TCPServer H :=
  ([EvConnection (id c) (remote c)],
   set_serve Accepting (update i (set_pc Reading) (set_waiting (waiting s + 1)
     (count add_total (count (add_active 1) s))))).

(** [src/sensor-server/tcp-server.go:112-127] Serve *)
Definition serve_step (a : action) (s : TCPServer H) : option (list event * TCPServer H) :=
  match a, serve s with
  | AAccept (inr err), Accepting =>
      Some ([EvServeReturn (if cancelled s || errors_Is err net_ErrClosed then None
                            else Some (ErrWrap "accept TCP connection" err))], set_serve Served s)
  | AAccept (inl (c, remote)), Accepting =>
      if listener_closed s then None else Some (startConnection c remote s)
  | ARegister, Registering id c remote => Some (register id c remote s)
  | AStart, Starting i =>
      match objects s !! i with
      | Some c => Some (start i c s)
      | None => None
      end
  | AReject, Rejecting remote =>
      Some ([EvWarning (ErrText "reject TCP connection: connection limit reached")],
            set_serve Accepting (count add_rejected s))
  | _, _ => None
  end.

(** [src/sensor-server/tcp-server.go:193-213] serveConnection, on what
    [readMessage] returned *)
Definition received (i : nat) (c : tcpConnection) (outcome : read_outcome) (s : TCPServer H)
    : list event * TCPServer H :=
  match outcome with
  | ReadError structural err =>
      if cancelled s || errors_Is err io_EOF || errors_Is err net_ErrClosed
      then ([EvRead i outcome], update i (set_pc Leaving) s)
      else ([EvRead i outcome; EvWarning (ErrWrap "TCP connection" err)],
            update i (set_pc (if structural then Leaving else Reading)) (count add_malformed s))
  | GotMessage m =>
      if negb (bound c) then ([EvRead i outcome], update i (set_pc (Binding m)) s)
      else if negb (bool_decide (mac c = MAC (Header m)))
      then ([EvRead i outcome; EvWarning (ErrText "TCP connection MAC mismatch")],
            update i (set_pc Reading) (count add_mismatch s))
      else ([EvRead i outcome], update i (set_pc (Handling m)) (count add_message s))
  end.

(** [src/sensor-server/tcp-server.go:216-219] serveConnection, Route and its
    result *)
Definition routed (i : nat) (now : Z) (m : Message) (s : TCPServer H) : list event * TCPServer H :=
  let '(r, h) := handle TransportTCP now m (handler s) in
  let s := update i (set_pc Reading) (set_handler h s) in
  match r with
  | Ret _ => ([EvRouted i now m], s)
  | Fail err =>
      (EvRouted i now m ::
       (if errors_Is err ErrUnknownDevice || errors_Is err ErrUnknownSensor then []
        else [EvWarning (ErrWrap "route TCP connection" err)]), s)
  | Panic p => ([EvRouted i now m; EvPanic p], set_crashed s)
  end.

(** [src/sensor-server/tcp-server.go:251-257] bindConnection, under the mutex *)
Definition bind_locked (i : nat) (m : Message) (s : TCPServer H) : TCPServer H :=
  let mac := MAC (Header m) in
  update i (fun c => set_pc (Announcing m (byMAC s !! mac)) (set_bound mac c))
    (set_maps (connections s) (<[mac := i]> (byMAC s)) s).

(** [src/sensor-server/tcp-server.go:259-261] bindConnection, the replaced
    connection is closed; then the message is counted *)
Definition close_previous (i : nat) (m : Message) (prev : option nat) (s : TCPServer H) : TCPServer H :=
  let s := match prev with
           | Some j => if bool_decide (j = i) then s else update j close_conn s
           | None => s
           end in
  update i (set_pc (Handling m)) (count add_message s).

(** [src/sensor-server/tcp-server.go:264-271] removeConnection *)
Definition removeConnection (i : nat) (c : tcpConnection) (s : TCPServer H) : TCPServer H :=
  set_maps (delete (id c) (connections s))
    (if bool_decide (byMAC s !! mac c = Some i) then delete (mac c) (byMAC s) else byMAC s) s.

(** [src/sensor-server/tcp-server.go:180-221] serveConnection, one step of the
    goroutine of connection [i] *)
Definition conn_step (a : action) (i : nat) (c : tcpConnection) (s : TCPServer H)
    : option (list event * TCPServer H) :=
  match a, pc c with
  | ARead _ now, Reading =>
      if conn_closed c then None else
      match readMessage now (PayloadDeadline (options s)) (conn c) with
      | (Ret outcome, n) => Some (received i c outcome (update i (set_conn n) s))
      | (Fail err, n) => Some ([EvWarning err], set_crashed s)
      | (Panic p, n) => Some ([EvPanic p], set_crashed s)
      end
  | AReadClosed _ msg, Reading =>
      if conn_closed c then Some (received i c (ReadError true (ErrWrap msg (ErrNew net_ErrClosed))) s)
      else None
  | ABind _, Binding m => Some ([], bind_locked i m s)
  | AAnnounce _, Announcing m prev =>
      Some ([EvDeviceConnected (id c) (MAC (Header m))], update i (set_pc (ClosingPrevious m prev)) s)
  | AClosePrevious _, ClosingPrevious m prev => Some ([], close_previous i m prev s)
  | AHandle _ now, Handling m => Some (routed i now m s)
  | ALeave _, Leaving => Some ([], update i (fun c => set_pc Removed (close_conn c)) (removeConnection i c s))
  | ARelease _, Removed => Some ([], update i (set_pc Released) (set_tokens (tokens s - 1) s))
  | ADeactivate _, Released => Some ([], update i (set_pc Deactivated) (count (add_active (2 ^ 64 - 1)) s))
  | ANotify _, Deactivated =>
      Some ((if bound c then [EvDeviceDisconnected (id c) (mac c)] else [])
              ++ [EvDisconnection (id c) (mac c) (remote c)],
            update i (set_pc Gone) (set_waiting (waiting s - 1) s))
  | _, _ => None
  end.

(** [src/sensor-server/tcp-server.go:129-148] Close *)
Definition close_step (a : action) (s : TCPServer H) : option (list event * TCPServer H) :=
  match a, closing s with
  | ACancel, NotClosing => Some ([], set_closing ClosingListener (set_cancelled s))
  | ACloseListener r, ClosingListener =>
      Some ([], set_closing (CollectConnections r) (set_listener_closed s))
  | ACollect, CollectConnections r =>
      Some ([], set_closing (CloseConnections (map snd (map_to_list (connections s))) r) s)
  | ACloseNext, CloseConnections (i :: l) r =>
      Some ([], set_closing (CloseConnections l r) (update i close_conn s))
  | AWaited, CloseConnections [] r =>
      if waiting s =? 0
      then Some ([EvCloseReturn (if err_Is r net_ErrClosed then None else r)], set_closing CloseReturned s)
      else None
  | _, _ => None
  end.

Definition conn_of (a : action) : option nat :=
  match a with
  | ARead i _ | AReadClosed i _ | ABind i | AAnnounce i | AClosePrevious i | AHandle i _
  | ALeave i | ARelease i | ADeactivate i | ANotify i => Some i
  | _ => None
  end.

(** One atomic step; a panic of a goroutine ends the program. *)
Definition exec (a : action) (s : TCPServer H) : option (list event * TCPServer H) :=
  if crashed s then None else
  match conn_of a with
  | Some i => match objects s !! i with Some c => conn_step a i c s | None => None end
  | None =>
      match a with
      | AAccept _ | ARegister | AStart | AReject => serve_step a s
      | _ => close_step a s
      end
  end.

Fixpoint execs (l : list action) (s : TCPServer H) : option (list event * TCPServer H) :=
  match l with
  | [] => Some ([], s)
  | a :: l =>
      match exec a s with
      | Some (evs, s) =>
          match execs l s with Some (evs', s) => Some (evs ++ evs', s) | None => None end
      | None => None
      end
  end.

Inductive reachable (s0 : TCPServer H) : list event -> TCPServer H -> Prop :=
| reachable_init : reachable s0 [] s0
| reachable_step tr s a evs s' :
    reachable s0 tr s -> exec a s = Some (evs, s') -> reachable s0 (tr ++ evs) s'.

(** [src/sensor-server/tcp-server.go:150-159] Counters *)
Definition Counters (s : TCPServer H) : TCPServerCounters := counters s.
End server.

(** ** Lemmas: sums over the connections *)

Fixpoint total (f : tcpConnection -> Z) (l : list tcpConnection) : Z :=
  match l with
  | [] => 0
  | c :: l => f c + total f l
  end.

Lemma total_app f l l' : total f (l ++ l') = total f l + total f l'.
Proof. induction l as [|c l IH]; cbn [total app]; [done|]. rewrite IH. lia. Qed.

Lemma total_alter f g : forall l i c,
  l !! i = Some c -> total f (alter g i l) = total f l - f c + f (g c).
Proof.
  induction l as [|c' l IH]; intros [|i] c H; try done.
  - injection H as <-. cbn. lia.
  - change (alter g (S i) (c' :: l)) with (c' :: alter g i l). cbn [total].
    rewrite (IH i c H). lia.
Qed.

Lemma total_alter_same f g l i :
  (forall c, f (g c) = f c) -> total f (alter g i l) = total f l.
Proof.
  intros H. revert i. induction l as [|c l IH]; intros [|i]; try done.
  - change (f (g c) + total f l = f c + total f l). by rewrite H.
  - change (f c + total f (alter g i l) = f c + total f l). by rewrite IH.
Qed.

Lemma total_bounds f l : (forall c, 0 <= f c <= 1) -> 0 <= total f l <= Z.of_nat (length l).
Proof.
  intros H. induction l as [|c l IH]; cbn [total length]; [lia|].
  specialize (H c). lia.
Qed.

(** What the goroutine of a connection accounts for: a place of [limit], a
    count of the wait group, of the active connections, of all connections. *)
Definition holding (c : tcpConnection) : Z :=
  match pc c with Released | Deactivated | Gone => 0 | _ => 1 end.
Definition running (c : tcpConnection) : Z :=
  match pc c with Created | Gone => 0 | _ => 1 end.
Definition active (c : tcpConnection) : Z :=
  match pc c with Created | Deactivated | Gone => 0 | _ => 1 end.
Definition started (c : tcpConnection) : Z :=
  match pc c with Created => 0 | _ => 1 end.

Section invariants.
Context {H : Type} `{!MessageHandler H}.
Implicit Types s : TCPServer H.

Record limits s : Prop := mkLimits {
  li_max : 1 <= MaximumConnections (options s);
  li_tokens : tokens s = total holding (objects s) + match serve s with Registering _ _ _ => 1 | _ => 0 end;
  li_bound : tokens s <= MaximumConnections (options s);
  li_waiting : waiting s = total running (objects s);
  li_active : ActiveConnections (counters s) = u64 (total active (objects s));
  li_total : TotalConnections (counters s) = u64 (total started (objects s));
  li_created : forall i c, objects s !! i = Some c -> pc c = Created <-> serve s = Starting i }.

(** A step of a connection goroutine that is not an end step: nothing is
    accounted differently. *)
Lemma limits_alter s g i c s' :
  limits s -> objects s !! i = Some c -> pc c <> Created ->
  objects s' = alter g i (objects s) -> options s' = options s -> serve s' = serve s ->
  pc (g c) <> Created ->
  tokens s' = tokens s - holding c + holding (g c) -> tokens s' <= tokens s ->
  waiting s' = waiting s - running c + running (g c) ->
  (forall n, ActiveConnections (counters s) = u64 n ->
             ActiveConnections (counters s') = u64 (n - active c + active (g c))) ->
  TotalConnections (counters s') = TotalConnections (counters s) ->
  limits s'.
Proof.
  intros [H1 H2 H3 H4 H5 H6 H7] Hi Hpc Eo Eopt Es Hg Et Hle Ew Ea Etot.
  split; rewrite ?Eo, ?Eopt, ?Es, ?Etot; try done.
  - rewrite (total_alter _ _ _ _ _ Hi). lia.
  - lia.
  - rewrite (total_alter _ _ _ _ _ Hi). lia.
  - rewrite (total_alter _ _ _ _ _ Hi). by apply Ea.
  - rewrite (total_alter _ _ _ _ _ Hi), H6. do 2 f_equal. unfold started. destruct (pc c), (pc (g c)); done || lia.
  - intros j c' Hj. destruct (decide (i = j)) as [<-|Hne].
    + rewrite list_lookup_alter_eq, Hi in Hj. injection Hj as <-. rewrite <- (H7 i c Hi). naive_solver.
    + rewrite list_lookup_alter_ne in Hj by done. exact (H7 _ _ Hj).
Qed.

(** Closing a connection from outside. *)
Lemma limits_close s j : limits s -> limits (update j close_conn s).
Proof.
  intros [H1 H2 H3 H4 H5 H6 H7]. split; cbn -[alter lookup]; try done.
  1-4: by rewrite total_alter_same.
  intros i c Hi. destruct (decide (j = i)) as [<-|Hne].
  - rewrite list_lookup_alter_eq in Hi. destruct (objects s !! j) as [c'|] eqn:E; [|done].
    injection Hi as <-. exact (H7 _ _ E).
  - rewrite list_lookup_alter_ne in Hi by done. exact (H7 _ _ Hi).
Qed.
End invariants.

Section steps.
Context {H : Type} `{!MessageHandler H}.
Implicit Types s : TCPServer H.

Lemma lookup_update_ne s i j f : i <> j -> objects (update i f s) !! j = objects s !! j.
Proof. apply list_lookup_alter_ne. Qed.

Lemma lookup_update_eq s i f c : objects s !! i = Some c -> objects (update i f s) !! i = Some (f c).
Proof. intros E. cbn. by rewrite list_lookup_alter_eq, E. Qed.

Lemma lookup_update s i f j c :
  objects (update i f s) !! j = Some c ->
  exists c', objects s !! j = Some c' /\ c = if decide (i = j) then f c' else c'.
Proof.
  cbn. rewrite list_lookup_alter. destruct (decide (i = j)) as [<-|].
  - intros (c' & E & ->)%fmap_Some. eauto.
  - eauto.
Qed.

(** A step of a goroutine changes its connection: the others, except that a
    replaced connection is closed, stay as they are. *)
Lemma wrapu_pred n : u64 (u64 n + (2 ^ 64 - 1)) = u64 (n - 1 + 0).
Proof.
  rewrite wrapu_add_l. unfold wrapu.
  replace (n + (2 ^ 64 - 1)) with (n - 1 + 0 + 1 * 2 ^ 64) by lia. apply Z.mod_add. lia.
Qed.

Ltac same_place L Hi Hp :=
  eapply (limits_alter _ _ _ _ _ L Hi);
    [by rewrite Hp|reflexivity|reflexivity|reflexivity|..];
    cbn; unfold holding, running, active; cbn; rewrite ?Hp; try done; try lia;
    try (intros n ->; first [apply wrapu_pred|rewrite ?wrapu_add_l; f_equal; lia]).

Lemma received_limits s i c c' outcome :
  limits s -> objects s !! i = Some c -> pc c = Reading -> limits (received i c' outcome s).2.
Proof.
  intros L Hi Hp. unfold received.
  destruct outcome as [m|[] e]; repeat case_match; cbn [snd]; same_place L Hi Hp.
Qed.

Lemma conn_step_limits s a i c evs s' :
  limits s -> objects s !! i = Some c -> conn_step a i c s = Some (evs, s') -> limits s'.
Proof.
  intros L Hi E. unfold conn_step in E.
  destruct a; try done; destruct (pc c) eqn:Hp; try done.
  - destruct (conn_closed c); [done|]. 
    assert (limits (update i (set_conn (readMessage now (PayloadDeadline (options s)) (conn c)).2) s)) as L'
      by same_place L Hi Hp.
    destruct (readMessage _ _ _) as [[outcome|e|p] n].
    + apply (inj Some) in E. cbn [snd] in L'.
      pose proof (received_limits _ i _ c outcome L' (lookup_update_eq _ _ _ _ Hi) Hp) as K. by rewrite E in K.
    + injection E as <- <-. by destruct L; split.
    + injection E as <- <-. by destruct L; split.
  - destruct (conn_closed c); [|done]. apply (inj Some) in E.
    pose proof (received_limits _ i _ c (ReadError true (ErrWrap msg (ErrNew net_ErrClosed))) L Hi Hp) as K.
    by rewrite E in K.
  - injection E as <- <-. same_place L Hi Hp.
  - injection E as <- <-. same_place L Hi Hp.
  - injection E as <- <-. unfold close_previous.
    destruct prev as [j|]; [case_bool_decide|]; [same_place L Hi Hp| |same_place L Hi Hp].
    apply (limits_close _ j) in L.
    assert (objects (update j close_conn s) !! i = Some c) as Hi' by (by rewrite lookup_update_ne).
    same_place L Hi' Hp.
  - apply (inj Some) in E. unfold routed in E. destruct (handle _ _ _ _) as [r h].
    assert (limits (update i (set_pc Reading) (set_handler h s))) as L' by same_place L Hi Hp.
    destruct r as [|e|p]; injection E as <- <-; [exact L'|exact L'|by destruct L'; split].
  - injection E as <- <-. same_place L Hi Hp.
  - injection E as <- <-. same_place L Hi Hp.
  - injection E as <- <-. same_place L Hi Hp.
  - injection E as <- <-. same_place L Hi Hp.
Qed.

Ltac no_created H7 := intros j ? Hj; rewrite (H7 j _ Hj); split; discriminate.

Lemma serve_step_limits s a evs s' :
  limits s -> serve_step a s = Some (evs, s') -> limits s'.
Proof.
  intros [H1 H2 H3 H4 H5 H6 H7] E. unfold serve_step, startConnection, register, start in E.
  destruct a as [[[c r]|e]| | | | | | | | | | | | | | | | | |]; try done; destruct (serve s) as [|id n r0|i|r0|] eqn:Es; try done.
  - destruct (listener_closed s); [done|]. destruct (_ <? _) eqn:El; injection E as <- <-.
    + bool_to_prop. split; cbn; try done; try lia. no_created H7.
    + split; cbn; try done; try lia. no_created H7.
  - injection E as <- <-. split; cbn; try done; try lia. no_created H7.
  - injection E as <- <-. split; cbn -[lookup total]; rewrite ?total_app; try done; cbn; try lia.
    + by rewrite Z.add_0_r.
    + by rewrite Z.add_0_r.
    + intros j c. rewrite lookup_app_Some. intros [Hj|[Hj Hc]].
      * specialize (H7 j c Hj). split; [intros K; by apply H7 in K|].
        intros [= <-]. apply lookup_lt_Some in Hj. lia.
      * apply list_lookup_singleton_Some in Hc as [Hz <-]. split; [|done]. intros _. f_equal. lia.
  - destruct (objects s !! i) as [c|] eqn:Hi; [|done]. injection E as <- <-.
    assert (pc c = Created) as Hp by (by apply (H7 i c Hi)).
    assert (holding c = 1 /\ running c = 0 /\ active c = 0 /\ started c = 0) as (e1 & e2 & e3 & e4)
      by (unfold holding, running, active, started; by rewrite Hp).
    assert (holding (set_pc Reading c) = 1 /\ running (set_pc Reading c) = 1 /\
      active (set_pc Reading c) = 1 /\ started (set_pc Reading c) = 1) as (f1 & f2 & f3 & f4) by done.
    split; cbn -[lookup total alter set_pc]; rewrite ?(total_alter _ _ _ _ _ Hi); try done; try lia.
    + rewrite H5, wrapu_add_l. f_equal. lia.
    + rewrite H6, wrapu_add_l. f_equal. lia.
    + intros j c' Hj. destruct (decide (i = j)) as [<-|Hne].
      * rewrite list_lookup_alter_eq, Hi in Hj. by injection Hj as <-.
      * rewrite list_lookup_alter_ne in Hj by done. specialize (H7 j c' Hj).
        split; [|done]. intros K. apply H7 in K. congruence.
  - injection E as <- <-. split; cbn; try done; try lia. no_created H7.
Qed.

Lemma close_step_limits s a evs s' :
  limits s -> close_step a s = Some (evs, s') -> limits s'.
Proof.
  intros L E. unfold close_step in E.
  destruct a; try done; destruct (closing s) as [| |ce|[|k l] ce|]; try done.
  1-3: injection E as <- <-; by destruct L; split.
  - injection E as <- <-. apply (limits_close s k) in L. by destruct L; split.
  - destruct (_ =? _); [|done]. injection E as <- <-. by destruct L; split.
Qed.

Lemma exec_limits s a evs s' : limits s -> exec a s = Some (evs, s') -> limits s'.
Proof.
  intros L E. unfold exec in E. destruct (crashed s); [done|].
  destruct (conn_of a) as [i|] eqn:Ec.
  - destruct (objects s !! i) as [c|] eqn:Hi; [|done]. by eapply conn_step_limits.
  - destruct a; try done; first [by eapply serve_step_limits|by eapply close_step_limits].
Qed.

Lemma new_limits h o s0 : NewTCPServer h o = inr s0 -> limits s0.
Proof.
  unfold NewTCPServer. destruct (_ <? 1) eqn:E1; [done|]. destruct (_ || _); [done|].
  intros [= <-]. bool_to_prop. split; cbn; try done; lia.
Qed.

Lemma reachable_limits h o s0 tr s : NewTCPServer h o = inr s0 -> reachable s0 tr s -> limits s.
Proof. intros E R. induction R; [by eapply new_limits|by eapply exec_limits]. Qed.
End steps.

(** ** Sessions: what a connection reads and what is routed *)

(** The messages read on connection [i], and those given to the handler. *)
Definition got (tr : list event) (i : nat) : list Message :=
  omap (fun e => match e with
                 | EvRead j (GotMessage m) => if decide (j = i) then Some m else None
                 | _ => None
                 end) tr.
Definition sent (tr : list event) (i : nat) : list Message :=
  omap (fun e => match e with
                 | EvRouted j _ m => if decide (j = i) then Some m else None
                 | _ => None
                 end) tr.

(** Reference: a connection speaks for the device of its first message. *)
Definition wanted (l : list Message) : list Message :=
  match l with
  | [] => []
  | m0 :: _ => filter (fun m => MAC (Header m) = MAC (Header m0)) l
  end.

(** The message a goroutine is busy with, and the connection it is about to
    close. *)
Definition inflight (p : conn_pc) : list Message :=
  match p with
  | Binding m | Announcing m _ | ClosingPrevious m _ | Handling m => [m]
  | _ => []
  end.
Definition closes (p : conn_pc) : option nat :=
  match p with Announcing _ prev | ClosingPrevious _ prev => prev | _ => None end.
Definition serving (p : conn_pc) : bool :=
  match p with Created | Removed | Released | Deactivated | Gone => false | _ => true end.

Lemma wanted_snoc m0 l m :
  wanted ((m0 :: l) ++ [m]) =
  wanted (m0 :: l) ++ (if decide (MAC (Header m) = MAC (Header m0)) then [m] else []).
Proof. unfold wanted. cbn [app]. rewrite app_comm_cons, filter_app. by rewrite (filter_singleton _ m []). Qed.

Lemma got_app tr evs i : got (tr ++ evs) i = got tr i ++ got evs i.
Proof. apply omap_app. Qed.
Lemma sent_app tr evs i : sent (tr ++ evs) i = sent tr i ++ sent evs i.
Proof. apply omap_app. Qed.

(** One connection, given what it has read and what was routed. *)
Record conn_ok (g sn : list Message) (c : tcpConnection) : Prop := mkConnOk {
  co_sent : sn ++ inflight (pc c) = wanted g;
  co_pc : match pc c with
          | Binding m => bound c = false /\ g = [m]
          | Announcing m _ | ClosingPrevious m _ | Handling m => bound c = true /\ MAC (Header m) = mac c
          | Created => bound c = false /\ g = []
          | _ => bound c = true \/ g = []
          end;
  co_bound : bound c = true -> exists m0 l, g = m0 :: l /\ MAC (Header m0) = mac c }.

Section sessions.
Context {H : Type} `{!MessageHandler H}.
Implicit Types s : TCPServer H.

(** [byMAC] and the connections. *)
Record bindings s : Prop := mkBindings {
  bi_entry : forall m i, byMAC s !! m = Some i ->
    exists c, objects s !! i = Some c /\ bound c = true /\ mac c = m /\ serving (pc c) = true;
  bi_conn : forall i c, objects s !! i = Some c -> bound c = true -> serving (pc c) = true ->
    byMAC s !! mac c = Some i \/ conn_closed c = true \/
    exists j cj, objects s !! j = Some cj /\ closes (pc cj) = Some i;
  bi_prev : forall i c, objects s !! i = Some c -> closes (pc c) <> Some i }.

(** A change of one connection that the bindings do not see. *)
Lemma bindings_alter s g i s' :
  bindings s -> objects s' = alter g i (objects s) -> byMAC s' = byMAC s ->
  (forall c, objects s !! i = Some c ->
     bound (g c) = bound c /\ mac (g c) = mac c /\ (conn_closed c = true -> conn_closed (g c) = true) /\
     closes (pc (g c)) = closes (pc c) /\ (bound c = true -> serving (pc (g c)) = serving (pc c))) ->
  bindings s'.
Proof.
  intros [B1 B2 B3] Eo Eb Hg.
  assert (forall j c', objects s' !! j = Some c' -> exists c, objects s !! j = Some c /\
    bound c' = bound c /\ mac c' = mac c /\ (conn_closed c = true -> conn_closed c' = true) /\
    closes (pc c') = closes (pc c) /\ (bound c = true -> serving (pc c') = serving (pc c))) as K.
  { intros j c'. rewrite Eo, list_lookup_alter. case_decide as D; [subst j|by eauto 10].
    intros (c & Hc & ->)%fmap_Some. exists c. split; [done|]. by apply Hg. }
  assert (forall j c, objects s !! j = Some c -> exists c', objects s' !! j = Some c') as K'.
  { intros j c Hc. rewrite Eo, list_lookup_alter. case_decide as D; [subst j; rewrite Hc; cbn; eauto|eauto]. }
  split; rewrite ?Eb.
  - intros m j Hm. destruct (B1 m j Hm) as (c & Hc & H1 & H2 & H3). destruct (K' j c Hc) as [c' Hc'].
    destruct (K j c' Hc') as (c2 & Hc2 & E1 & E2 & E3 & E4 & E5). exists c'. simplify_eq. split; [done|].
    rewrite E1, E2, E5 by done. done.
  - intros j c' Hc' Hb Hs. destruct (K j c' Hc') as (c & Hc & E1 & E2 & E3 & E4 & E5).
    rewrite E1 in Hb. rewrite E5 in Hs by done. rewrite E2.
    destruct (B2 j c Hc Hb Hs) as [?|[?|(k & ck & Hk & Hcl)]]; [by left|right; left; by apply E3|].
    right. right. destruct (K' k ck Hk) as [ck' Hk']. destruct (K k ck' Hk') as (c2 & Hc2 & _ & _ & _ & F & _).
    simplify_eq. exists k, ck'. by rewrite F.
  - intros j c' Hc'. destruct (K j c' Hc') as (c & Hc & _ & _ & _ & -> & _). by apply (B3 j c).
Qed.

(** The binding of a connection that has none. *)
Lemma bindings_bind s i c m :
  bindings s -> objects s !! i = Some c -> pc c = Binding m -> bound c = false ->
  bindings (bind_locked i m s).
Proof.
  intros [B1 B2 B3] Hi Hp Hb. unfold bind_locked. set (mc := MAC (Header m)).
  assert (forall k, byMAC s !! k <> Some i) as Hno.
  { intros k Hk. destruct (B1 k i Hk) as (c' & Hc' & H1 & _). congruence. }
  split; cbn -[lookup insert alter].
  - intros k j. destruct (decide (k = mc)) as [->|Hne].
    + rewrite lookup_insert_eq. intros [= <-]. rewrite list_lookup_alter_eq, Hi. cbn. eauto.
    + rewrite lookup_insert_ne by done. intros Hk. destruct (B1 k j Hk) as (c' & Hc' & H1).
      exists c'. rewrite list_lookup_alter_ne by congruence. done.
  - intros j c' Hj Hbj Hsj. destruct (decide (i = j)) as [<-|Hne].
    + rewrite list_lookup_alter_eq, Hi in Hj. cbn in Hj. injection Hj as <-. left. cbn. apply lookup_insert_eq.
    + rewrite list_lookup_alter_ne in Hj by done.
      destruct (B2 j c' Hj Hbj Hsj) as [Hm|[?|(k & ck & Hk & Hcl)]]; [|by eauto|].
      * destruct (decide (mac c' = mc)) as [Em|]; [|left; by rewrite lookup_insert_ne].
        right. right. eexists i, _. rewrite list_lookup_alter_eq, Hi. split; [reflexivity|]. cbn.
        by rewrite <- Em, Hm.
      * right. right. exists k, ck. rewrite list_lookup_alter_ne; [done|].
        intros <-. rewrite Hi in Hk. injection Hk as <-. by rewrite Hp in Hcl.
  - intros j c' Hj. destruct (decide (i = j)) as [<-|Hne].
    + rewrite list_lookup_alter_eq, Hi in Hj. cbn in Hj. injection Hj as <-. cbn. apply Hno.
    + rewrite list_lookup_alter_ne in Hj by done. by apply B3.
Qed.

(** The end of the binding: the replaced connection has been closed. *)
Lemma bindings_close_previous s i c m prev :
  bindings s -> objects s !! i = Some c -> pc c = ClosingPrevious m prev ->
  bindings (close_previous i m prev s).
Proof.
  intros B Hi Hp. unfold close_previous.
  assert (forall s1, bindings s1 -> objects s1 !! i = Some c ->
    (forall k ck, prev = Some k -> objects s1 !! k = Some ck -> conn_closed ck = true) ->
    bindings (update i (set_pc (Handling m)) (count add_message s1))) as K.
  { intros s1 [B1 B2 B3] Hi1 Hcl. split; cbn -[lookup insert alter].
    - intros k j Hk. destruct (B1 k j Hk) as (c' & Hc' & H1 & H2 & H3).
      rewrite list_lookup_alter. case_decide; [subst; rewrite Hc'; cbn; eauto|eauto].
    - intros j c' Hj Hbj Hsj.
      assert (exists c0, objects s1 !! j = Some c0 /\ bound c0 = true /\ serving (pc c0) = true /\
        mac c0 = mac c' /\ conn_closed c0 = conn_closed c') as (c0 & Hc0 & H1 & H2 & E3 & E4).
      { rewrite list_lookup_alter in Hj. case_decide; [subst|by eauto 10].
        rewrite Hi1 in Hj. cbn in Hj. injection Hj as <-. exists c. by rewrite Hp. }
      rewrite <- E3, <- E4. destruct (B2 j c0 Hc0 H1 H2) as [?|[?|(k & ck & Hk & Hck)]]; [by left|by right; left|].
      destruct (decide (i = k)) as [<-|Hne].
      + right. left. rewrite Hi1 in Hk. injection Hk as <-. rewrite Hp in Hck. cbn in Hck. by eapply Hcl.
      + right. right. exists k, ck. by rewrite list_lookup_alter_ne.
    - intros j c' Hj. rewrite list_lookup_alter in Hj. case_decide; [subst|by apply (B3 j)].
      rewrite Hi1 in Hj. cbn in Hj. by injection Hj as <-. }
  destruct prev as [j|].
  - assert (j <> i) as Hne.
    { intros ->. apply (bi_prev _ B i c Hi). by rewrite Hp. }
    rewrite bool_decide_eq_false_2 by done.
    apply K; [|by rewrite lookup_update_ne|].
    + apply (bindings_alter s close_conn j); [done..|]. intros c' Hc'. done.
    + intros k ck [= ->] Hk. cbn -[lookup alter] in Hk. rewrite list_lookup_alter_eq in Hk.
      destruct (objects s !! k); [|done]. by injection Hk as <-.
  - by apply K.
Qed.

(** The removal of a connection. *)
Lemma bindings_leave s i c :
  bindings s -> objects s !! i = Some c -> pc c = Leaving ->
  bindings (update i (fun c => set_pc Removed (close_conn c)) (removeConnection i c s)).
Proof.
  intros [B1 B2 B3] Hi Hp. unfold removeConnection.
  set (b' := if bool_decide (byMAC s !! mac c = Some i) then delete (mac c) (byMAC s) else byMAC s).
  assert (forall k j, b' !! k = Some j <-> byMAC s !! k = Some j /\ j <> i) as Hb'.
  { intros k j. unfold b'. case_bool_decide as E.
    - destruct (decide (k = mac c)) as [->|Hne].
      + rewrite lookup_delete_eq. split; [done|]. intros [E' ?]. congruence.
      + rewrite lookup_delete_ne by done. split; [|tauto]. intros E'. split; [done|]. intros ->.
        destruct (B1 k i E') as (c' & Hc' & _ & Em & _). congruence.
    - split; [|tauto]. intros E'. split; [done|]. intros ->.
      destruct (B1 k i E') as (c' & Hc' & _ & Em & _). congruence. }
  split; cbn -[lookup alter]; fold b'.
  - intros k j [Hk Hne]%Hb'. destruct (B1 k j Hk) as (c' & Hc' & H1). exists c'.
    by rewrite list_lookup_alter_ne.
  - intros j c' Hj Hbj Hsj. destruct (decide (i = j)) as [<-|Hne].
    + rewrite list_lookup_alter_eq, Hi in Hj. cbn in Hj. by injection Hj as <-.
    + rewrite list_lookup_alter_ne in Hj by done.
      destruct (B2 j c' Hj Hbj Hsj) as [?|[?|(k & ck & Hk & Hcl)]].
      * left. by apply Hb'.
      * by right; left.
      * right. right. exists k, ck. rewrite list_lookup_alter_ne; [done|]. intros <-.
        rewrite Hi in Hk. injection Hk as <-. by rewrite Hp in Hcl.
  - intros j c' Hj. destruct (decide (i = j)) as [<-|Hne].
    + rewrite list_lookup_alter_eq, Hi in Hj. cbn in Hj. by injection Hj as <-.
    + rewrite list_lookup_alter_ne in Hj by done. by apply B3.
Qed.
End sessions.

Section sessions.
Context {H : Type} `{!MessageHandler H}.
Implicit Types s : TCPServer H.

Lemma conn_ok_close g sn c : conn_ok g sn c -> conn_ok g sn (close_conn c).
Proof. intros [? ? ?]. by split. Qed.

(** A move to a place without a message in flight. *)
Lemma conn_ok_idle g sn c c' :
  conn_ok g sn c -> inflight (pc c) = [] -> bound c' = bound c -> mac c' = mac c ->
  inflight (pc c') = [] -> pc c' <> Created -> conn_ok g sn c'.
Proof.
  intros [H1 H2 H3] Hf Eb Em Hf' Hc. split.
  - by rewrite Hf', <- Hf.
  - destruct (pc c'); try done; rewrite Eb; destruct (pc c); try done; tauto.
  - by rewrite Eb, Em.
Qed.

Lemma wanted_bound g sn c m :
  conn_ok g sn c -> bound c = true -> inflight (pc c) = [] ->
  wanted (g ++ [m]) = sn ++ (if decide (MAC (Header m) = mac c) then [m] else []).
Proof.
  intros [H1 H2 H3] Hb Hf. destruct (H3 Hb) as (m0 & l & -> & <-).
  by rewrite wanted_snoc, <- H1, Hf, app_nil_r.
Qed.

(** What [received] does to its connection. *)
Lemma received_ok s i c c0 outcome g sn :
  objects s !! i = Some c0 -> bound c0 = bound c -> mac c0 = mac c -> pc c0 = Reading -> pc c = Reading ->
  conn_ok g sn c ->
  exists p, objects (received i c outcome s).2 = alter (set_pc p) i (objects s) /\
    byMAC (received i c outcome s).2 = byMAC s /\ closes p = None /\ serving p = true /\
    conn_ok (g ++ got (received i c outcome s).1 i) (sn ++ sent (received i c outcome s).1 i) (set_pc p c0) /\
    forall j, j <> i -> got (received i c outcome s).1 j = [] /\ sent (received i c outcome s).1 j = [].
Proof.
  intros Hi Eb Em Hp0 Hp K.
  assert (forall p, inflight p = [] -> p <> Created -> conn_ok g sn (set_pc p c0)) as Kidle.
  { intros p Hf Hc. apply (conn_ok_idle _ _ c); try done. by rewrite Hp. }
  unfold received. destruct outcome as [m|st e].
  - destruct (bound c) eqn:Hb; cbn [negb].
    + pose proof (wanted_bound _ _ _ m K Hb ltac:(by rewrite Hp)) as Ew.
      destruct (co_bound _ _ _ K Hb) as (m0 & l & Eg & E0).
      case_bool_decide as D; cbn [negb].
      * exists (Handling m). split_and!; try done.
        -- cbn. rewrite decide_True, app_nil_r by done. split; cbn.
           ++ rewrite Ew. by rewrite decide_True.
           ++ by rewrite Eb, Em.
           ++ intros _. exists m0, (l ++ [m]). by rewrite Eg, Em.
        -- intros j Hj. cbn. by rewrite decide_False.
      * exists Reading. split_and!; try done.
        -- cbn. rewrite decide_True, app_nil_r by done. split; cbn.
           ++ by rewrite Ew, decide_False by congruence.
           ++ left. by rewrite Eb.
           ++ intros _. exists m0, (l ++ [m]). by rewrite Eg, Em.
        -- intros j Hj. cbn. by rewrite decide_False.
    + exists (Binding m). split_and!; try done.
      * assert (g = []) as ->. { pose proof (co_pc _ _ _ K) as E. rewrite Hp in E. by destruct E as [E|]; [rewrite Hb in E|]. }
        assert (sn = []) as ->. { pose proof (co_sent _ _ _ K) as E. cbn in E. by destruct sn. }
        cbn. rewrite decide_True by done. split; cbn; try done; [|by rewrite Eb].
        by rewrite decide_True.
      * intros j Hj. cbn. by rewrite decide_False.
  - destruct (_ || _).
    + exists Leaving. split_and!; try done. cbn. rewrite !app_nil_r. by apply Kidle.
    + exists (if st then Leaving else Reading). destruct st; split_and!; try done; cbn; rewrite !app_nil_r; by apply Kidle.
Qed.
End sessions.

Section global.
Context {H : Type} `{!MessageHandler H}.
Implicit Types s : TCPServer H.

(** The effect of a step of connection [i] on the sessions. *)
Record step_ok (i : nat) (g sn : list Message) (evs : list event) s s' : Prop := mkStepOk {
  sk_own : exists c', objects s' !! i = Some c' /\ conn_ok (g ++ got evs i) (sn ++ sent evs i) c';
  sk_length : length (objects s') = length (objects s);
  sk_others : forall j, j <> i ->
    got evs j = [] /\ sent evs j = [] /\
    forall c', objects s' !! j = Some c' -> exists c, objects s !! j = Some c /\ (c' = c \/ c' = close_conn c) }.

Lemma step_ok_alter i g sn evs s s' f c :
  objects s !! i = Some c -> objects s' = alter f i (objects s) ->
  conn_ok (g ++ got evs i) (sn ++ sent evs i) (f c) ->
  (forall j, j <> i -> got evs j = [] /\ sent evs j = []) -> step_ok i g sn evs s s'.
Proof.
  intros Hi Eo K Hev. split.
  - exists (f c). by rewrite Eo, list_lookup_alter_eq, Hi.
  - by rewrite Eo, length_alter.
  - intros j Hj. destruct (Hev j Hj) as [-> ->]. split; [done|]. split; [done|].
    intros c'. rewrite Eo, list_lookup_alter_ne by done. eauto.
Qed.

Ltac quiet := intros ??; split; reflexivity.

Lemma step_ok_idle i g sn evs s s' c p :
  conn_ok g sn c -> objects s !! i = Some c -> objects s' = alter (set_pc p) i (objects s) ->
  inflight (pc c) = [] -> inflight p = [] -> p <> Created ->
  (forall j, got evs j = [] /\ sent evs j = []) -> step_ok i g sn evs s s'.
Proof.
  intros K Hi Eo Hf Hf' Hc Hev. apply (step_ok_alter i g sn evs s s' _ c Hi Eo); [|by intros j _].
  destruct (Hev i) as [-> ->]. rewrite !app_nil_r. by apply (conn_ok_idle _ _ c).
Qed.

(** A message passed on to the next place. *)
Lemma conn_ok_forward g sn c p m :
  conn_ok g sn c -> inflight (pc c) = [m] -> bound c = true -> MAC (Header m) = mac c ->
  (exists prev, p = ClosingPrevious m prev) \/ p = Handling m -> conn_ok g sn (set_pc p c).
Proof.
  intros [H1 H2 H3] Hf Hb Hm Hp.
  split; cbn; [|by destruct Hp as [[prev ->]| ->]|done].
  rewrite <- H1, Hf. by destruct Hp as [[prev ->]| ->].
Qed.

Lemma routed_ok i now m g sn s c :
  conn_ok g sn c -> objects s !! i = Some c -> pc c = Handling m ->
  step_ok i g sn (routed i now m s).1 s (routed i now m s).2 /\
  objects (routed i now m s).2 = alter (set_pc Reading) i (objects s) /\
  byMAC (routed i now m s).2 = byMAC s.
Proof.
  intros K Hi Hp. unfold routed. destruct (handle _ _ _ _) as [r h].
  assert (conn_ok g (sn ++ [m]) (set_pc Reading c)) as K'.
  { destruct K as [K1 K2 K3]. rewrite Hp in K1, K2. split; cbn; [by rewrite app_nil_r| |done]. left. apply K2. }
  destruct r as [u|e|p]; (split; [|done]); eapply (step_ok_alter _ _ _ _ _ _ (set_pc Reading) c Hi); try reflexivity;
    try (intros j Hj; cbn; rewrite decide_False by done; by repeat case_match);
    cbn; rewrite decide_True by done; repeat case_match; by rewrite app_nil_r.
Qed.

Lemma conn_step_ok a i c g sn s evs s' :
  bindings s -> conn_ok g sn c -> objects s !! i = Some c -> conn_step a i c s = Some (evs, s') ->
  step_ok i g sn evs s s' /\ bindings s'.
Proof.
  intros B K Hi E. pose proof K as [K1 K2 K3]. unfold conn_step in E.
  destruct a; try done; destruct (pc c) eqn:Hp; try done.
  - destruct (conn_closed c); [done|].
    destruct (readMessage _ _ _) as [[outcome|e|p] n].
    + apply (inj Some) in E.
      set (s1 := update i (set_conn n) s) in *.
      assert (objects s1 !! i = Some (set_conn n c)) as Hi1 by (by apply lookup_update_eq).
      destruct (received_ok s1 i c (set_conn n c) outcome g sn Hi1 eq_refl eq_refl Hp Hp K)
        as (p & Eo & Eb & Hcl & Hsv & K' & Hev). rewrite E in *. cbn [fst snd] in *.
      assert (objects s' = alter (set_pc p ∘ set_conn n) i (objects s)) as Eo'.
      { rewrite Eo. unfold s1, update. cbn. apply list_alter_alter_eq. }
      split; [by eapply (step_ok_alter i g sn evs s s' _ c Hi Eo')|].
      eapply (bindings_alter s _ i s' B Eo'); [by rewrite Eb|]. intros c' Hc'. rewrite Hi in Hc'.
      injection Hc' as <-. cbn. rewrite Hp, Hcl, Hsv. done.
    + injection E as <- <-. split; [|by destruct B; split].
      split; [exists c; cbn; rewrite !app_nil_r; done|done|]. intros j Hj. split; [done|]. split; [done|]. eauto.
    + injection E as <- <-. split; [|by destruct B; split].
      split; [exists c; cbn; rewrite !app_nil_r; done|done|]. intros j Hj. split; [done|]. split; [done|]. eauto.
  - destruct (conn_closed c); [|done]. apply (inj Some) in E.
    destruct (received_ok s i c c (ReadError true (ErrWrap msg (ErrNew net_ErrClosed))) g sn Hi eq_refl eq_refl Hp Hp K) as (p & Eo & Eb & Hcl & Hsv & K' & Hev).
    rewrite E in *. cbn [fst snd] in *.
    split; [by eapply (step_ok_alter i g sn evs s s' _ c Hi Eo)|].
    eapply (bindings_alter s _ i s' B Eo); [done|]. intros c' Hc'. rewrite Hi in Hc'. injection Hc' as <-.
    cbn. rewrite Hp, Hcl, Hsv. done.
  - injection E as <- <-. destruct K2 as [Hb Eg]. split; [|by eapply bindings_bind].
    eapply step_ok_alter; [exact Hi|reflexivity| |quiet]. rewrite !app_nil_r.
    split; [exact K1|done|]. intros _. by exists m, [].
  - injection E as <- <-. destruct K2 as [Hb Em]. split.
    + eapply step_ok_alter; [exact Hi|reflexivity| |quiet]. cbn. rewrite !app_nil_r.
      apply (conn_ok_forward _ _ _ _ m); try done; [by rewrite Hp|]. left. eauto.
    + eapply (bindings_alter s _ i _ B); [reflexivity|reflexivity|]. intros c' Hc'. rewrite Hi in Hc'. injection Hc' as <-.
      cbn. by rewrite Hp.
  - injection E as <- <-. destruct K2 as [Hb Em]. split; [|by eapply bindings_close_previous].
    assert (conn_ok g sn (set_pc (Handling m) c)) as K'.
    { apply (conn_ok_forward _ _ _ _ m); try done; [by rewrite Hp|]. by right. }
    assert (step_ok i g sn [] s (update i (set_pc (Handling m)) (count add_message s))) as Hs.
    { eapply step_ok_alter; [exact Hi|reflexivity| |quiet]. by rewrite !app_nil_r. }
    unfold close_previous. destruct prev as [j|]; [|exact Hs]. case_bool_decide as Hne; [exact Hs|].
    split.
    + eexists. rewrite !app_nil_r. split; [|exact K']. apply (lookup_update_eq (count add_message _)).
      cbn -[lookup alter]. by rewrite list_lookup_alter_ne.
    + cbn. by rewrite !length_alter.
    + intros k Hk. split; [done|]. split; [done|]. intros c'. cbn -[lookup alter].
      rewrite list_lookup_alter_ne by done. rewrite list_lookup_alter. case_decide; [|eauto].
      subst k. intros (c0 & Hc0 & ->)%fmap_Some. eauto.
  - apply (inj Some) in E. destruct (routed_ok i now m g sn s c K Hi Hp) as (Hs & Eo & Eb).
    rewrite E in *. cbn [fst snd] in *. split; [done|].
    eapply (bindings_alter s _ i _ B Eo Eb). intros c' Hc'. rewrite Hi in Hc'. injection Hc' as <-.
    cbn. by rewrite Hp.
  - injection E as <- <-. split; [|by apply bindings_leave].
    eapply step_ok_alter; [exact Hi|reflexivity| |quiet]. rewrite !app_nil_r.
    apply (conn_ok_idle _ _ c); try done. by rewrite Hp.
  - injection E as <- <-. split; [eapply (step_ok_idle _ _ _ _ _ _ c); try done; by rewrite Hp|].
    eapply (bindings_alter s _ i _ B); [reflexivity|reflexivity|]. intros c' Hc'. rewrite Hi in Hc'. injection Hc' as <-.
    cbn. by rewrite Hp.
  - injection E as <- <-. split; [eapply (step_ok_idle _ _ _ _ _ _ c); try done; by rewrite Hp|].
    eapply (bindings_alter s _ i _ B); [reflexivity|reflexivity|]. intros c' Hc'. rewrite Hi in Hc'. injection Hc' as <-.
    cbn. by rewrite Hp.
  - injection E as <- <-. split.
    + eapply (step_ok_idle _ _ _ _ _ _ c); try done; [by rewrite Hp|]. intros j. by destruct (bound c).
    + eapply (bindings_alter s _ i _ B); [reflexivity|reflexivity|]. intros c' Hc'. rewrite Hi in Hc'. injection Hc' as <-.
      cbn. by rewrite Hp.
Qed.
End global.

Section theorems.
Context {H : Type} `{!MessageHandler H}.
Implicit Types s : TCPServer H.

Definition sessions_ok (tr : list event) s : Prop :=
  bindings s /\ forall i, match objects s !! i with
                          | Some c => conn_ok (got tr i) (sent tr i) c
                          | None => got tr i = [] /\ sent tr i = []
                          end.

(** Steps that leave the connections, the bindings and the sessions alone. *)
Lemma sessions_quiet tr evs s s' :
  sessions_ok tr s -> objects s' = objects s -> byMAC s' = byMAC s ->
  (forall i, got evs i = [] /\ sent evs i = []) -> sessions_ok (tr ++ evs) s'.
Proof.
  intros [[B1 B2 B3] K] Eo Eb Hev. split; [split; by rewrite ?Eo, ?Eb|].
  intros i. rewrite Eo, got_app, sent_app. destruct (Hev i) as [-> ->]. rewrite !app_nil_r. apply K.
Qed.

Lemma sessions_step tr evs s s' i c :
  sessions_ok tr s -> objects s !! i = Some c -> step_ok i (got tr i) (sent tr i) evs s s' -> bindings s' ->
  sessions_ok (tr ++ evs) s'.
Proof.
  intros [_ K] Hi [(c' & Hc' & Kc') Hl Hj] B'. split; [done|]. intros j. rewrite got_app, sent_app.
  destruct (decide (j = i)) as [->|Hne]; [by rewrite Hc'|].
  destruct (Hj j Hne) as (-> & -> & Ho). rewrite !app_nil_r. specialize (K j).
  destruct (objects s' !! j) as [cj|] eqn:Ej.
  - destruct (Ho cj eq_refl) as (cj0 & Ej0 & [->| ->]); rewrite Ej0 in K; [done|by apply conn_ok_close].
  - apply lookup_ge_None in Ej. rewrite Hl in Ej. by rewrite lookup_ge_None_2 in K by done.
Qed.

Lemma serve_step_sessions tr a s evs s' :
  limits s -> sessions_ok tr s -> serve_step a s = Some (evs, s') -> sessions_ok (tr ++ evs) s'.
Proof.
  intros L K E. unfold serve_step, startConnection, register, start in E.
  destruct a as [[[n r]|e]| | | | | | | | | | | | | | | | | |]; try done;
    destruct (serve s) as [|id n0 r0|i|r0|] eqn:Es; try done.
  - destruct (listener_closed s); [done|]. destruct (_ <? _); injection E as <- <-; by eapply sessions_quiet.
  - injection E as <- <-. by eapply sessions_quiet.
  - injection E as <- <-. destruct K as [[B1 B2 B3] K]. rewrite app_nil_r.
    set (c0 := mkConnection id n0 r0 zero_mac false false Created).
    assert (forall j c, (objects s ++ [c0]) !! j = Some c -> objects s !! j = Some c \/ c = c0) as Hl.
    { intros j c. rewrite lookup_app_Some. intros [?|[_ Hc]]; [by left|right].
      by apply list_lookup_singleton_Some in Hc as [_ <-]. }
    assert (forall j c, objects s !! j = Some c -> (objects s ++ [c0]) !! j = Some c) as Hl'.
    { intros j c Hj. by apply lookup_app_l_Some. }
    split; [split; cbn -[lookup]; fold c0|].
    + intros m j Hm. destruct (B1 m j Hm) as (c & Hc & Hr). eauto.
    + intros j c Hj Hb Hs. destruct (Hl j c Hj) as [Hj'| ->]; [|done].
      destruct (B2 j c Hj' Hb Hs) as [?|[?|(k & ck & Hk & Hck)]]; eauto 7.
    + intros j c Hj. destruct (Hl j c Hj) as [Hj'| ->]; [by apply (B3 j)|done].
    + intros j. cbn -[lookup]. fold c0. specialize (K j). destruct (objects s !! j) as [c|] eqn:Ej.
      * by rewrite (Hl' j c Ej).
      * destruct K as [-> ->]. destruct ((objects s ++ [c0]) !! j) as [c|] eqn:Ej'; [|done].
        destruct (Hl j c Ej') as [?| ->]; [congruence|]. by split.
  - destruct (objects s !! i) as [c|] eqn:Hi; [|done]. injection E as <- <-.
    assert (pc c = Created) as Hp by (by apply (li_created _ L i c Hi)).
    pose proof (proj2 K i) as Ki. rewrite Hi in Ki.
    eapply sessions_step; [exact K|exact Hi| |].
    + eapply step_ok_alter; [exact Hi|reflexivity| |by intros ??]. rewrite !app_nil_r.
      destruct Ki as [K1 K2 K3]. rewrite Hp in K1, K2. split; cbn; [done| |done]. right. apply K2.
    + destruct Ki as [K1 K2 K3]. rewrite Hp in K2. destruct K2 as [Hb _].
      eapply (bindings_alter s _ i _ (proj1 K)); [reflexivity|reflexivity|]. intros c' Hc'. rewrite Hi in Hc'.
      injection Hc' as <-. cbn. rewrite Hp, Hb. done.
  - injection E as <- <-. by eapply sessions_quiet.
Qed.

Lemma close_step_sessions tr a s evs s' :
  sessions_ok tr s -> close_step a s = Some (evs, s') -> sessions_ok (tr ++ evs) s'.
Proof.
  intros K E. unfold close_step in E.
  destruct a; try done; destruct (closing s) as [| |ce|[|k l] ce|]; try done.
  1-3: injection E as <- <-; by eapply sessions_quiet.
  - injection E as <- <-. rewrite app_nil_r. destruct K as [B K]. split.
    + eapply (bindings_alter s close_conn k _ B); [reflexivity|reflexivity|done].
    + intros j. specialize (K j). cbn -[lookup alter]. rewrite list_lookup_alter.
      case_decide; [subst k|done]. destruct (objects s !! j); [by apply conn_ok_close|done].
  - destruct (_ =? _); [|done]. injection E as <- <-. by eapply sessions_quiet.
Qed.

Lemma exec_sessions tr a s evs s' :
  limits s -> sessions_ok tr s -> exec a s = Some (evs, s') -> sessions_ok (tr ++ evs) s'.
Proof.
  intros L K E. unfold exec in E. destruct (crashed s); [done|].
  destruct (conn_of a) as [i|] eqn:Ec.
  - destruct (objects s !! i) as [c|] eqn:Hi; [|done].
    pose proof (proj2 K i) as Ki. rewrite Hi in Ki.
    destruct (conn_step_ok a i c _ _ s evs s' (proj1 K) Ki Hi E). by eapply sessions_step.
  - destruct a; try done; first [by eapply serve_step_sessions|by eapply close_step_sessions].
Qed.

Lemma reachable_sessions h o s0 tr s :
  NewTCPServer h o = inr s0 -> reachable s0 tr s -> sessions_ok tr s.
Proof.
  intros E R. induction R as [|tr s a evs s' R IH Ex].
  - unfold NewTCPServer in E. destruct (_ <? 1); [done|]. destruct (_ || _); [done|]. injection E as <-.
    split; [split; cbn; [intros ??; by rewrite lookup_empty|done|done]|]. intros i. by destruct i.
  - eapply exec_sessions; [by eapply reachable_limits|done|done].
Qed.

Lemma exec_options a s evs s' : exec a s = Some (evs, s') -> options s' = options s.
Proof.
  unfold exec. destruct (crashed s); [done|]. destruct (conn_of a) as [i|] eqn:Ec.
  - destruct (objects s !! i) as [c|] eqn:Hi; [|done]. intros E.
    unfold conn_step in E. destruct a; try done; destruct (pc c); try done;
      repeat case_match; unfold received, routed, close_previous in *; repeat case_match; by simplify_eq.
  - intros E. destruct a; try done; unfold serve_step, startConnection, register, start, close_step in E; repeat case_match; by simplify_eq.
Qed.

Lemma reachable_options s0 tr s : reachable s0 tr s -> options s = options s0.
Proof. induction 1 as [|tr s a evs s' R IH E]; [done|]. by rewrite (exec_options _ _ _ _ E). Qed.
End theorems.

(** ** Reading frames *)

(** Bytes that a valid header delimits: whatever their payload, the boundary
    of the next message is known. *)
Definition framed (f : list byte) : Prop :=
  exists h, (16 <= length f)%nat /\ check_header (parse_header (take 16 f)) = Ret h /\
    Z.of_nat (length f) = 16 + PayloadLength h.

Definition frame_message (f : list byte) : option Message :=
  match decode_bytes f with Ret m => Some m | _ => None end.

Lemma check_payload_sentinels h l e :
  check_payload h l = Some e -> errors_Is e io_EOF = false /\ errors_Is e net_ErrClosed = false.
Proof. unfold check_payload. repeat case_match_eqn; intros [= <-]; by split. Qed.

Lemma conn_ReadFull_bytes n c :
  exists c', conn_ReadFull n c = ((read_full_bytes n (pending (stream c)) (read_err (stream c))).1, c') /\
    pending (stream c') = (read_full_bytes n (pending (stream c)) (read_err (stream c))).2 /\
    read_err (stream c') = read_err (stream c) /\ deadline_results c' = deadline_results c /\
    deadline c' = deadline c.
Proof.
  unfold conn_ReadFull, zoom. destruct (ReadFull_bytes n (stream c)) as (r & -> & Hp & He).
  exists (set_stream r c). by split_and!.
Qed.

Lemma read_full_app n l rest e : length l = n -> read_full_bytes n (l ++ rest) e = (Ret l, rest).
Proof.
  intros <-. unfold read_full_bytes. rewrite length_app, (proj2 (Nat.leb_le _ _)) by lia.
  by rewrite take_app_length, drop_app_length.
Qed.

(** A frame is read whole: a message, or an error that keeps the boundary. *)
Lemma readMessage_frame now d c f rest :
  framed f -> deadline_results c = [] -> pending (stream c) = f ++ rest ->
  exists c' outcome, readMessage now d c = (Ret outcome, c') /\ pending (stream c') = rest /\
    read_err (stream c') = read_err (stream c) /\ deadline_results c' = [] /\ deadline c' = None /\
    match frame_message f with
    | Some m => outcome = GotMessage m
    | None => exists e, outcome = ReadError false e /\ errors_Is e io_EOF = false /\ errors_Is e net_ErrClosed = false
    end.
Proof.
  intros (h & Hl & Hh & Hlen) Hd Hp. unfold readMessage, mbind, M_bind, attempt.
  change (Z.to_nat MessageHeaderSize) with 16%nat.
  destruct (conn_ReadFull_bytes 16 c) as (c1 & -> & P1 & E1 & D1 & _).
  assert (pending (stream c) = take 16 f ++ drop 16 f ++ rest) as Hp' by (by rewrite app_assoc, take_drop).
  rewrite Hp', read_full_app in P1 by (rewrite length_take; lia).
  rewrite Hp', read_full_app by (rewrite length_take; lia). cbn [fst snd] in *.
  rewrite DecodeHeader_slice_of, Hh by (rewrite length_take; lia).
  assert (0 <= PayloadLength h) as H0 by lia.
  assert (exists c2, (if 0 <? PayloadLength h then attempt_err (SetReadDeadline (Some (now + d))) else mret None) c1
    = (Ret None, c2) /\ stream c2 = stream c1 /\ deadline_results c2 = []) as (c2 & E2 & S2 & D2).
  { destruct (0 <? PayloadLength h); [|exists c1; by rewrite D1].
    unfold attempt_err, SetReadDeadline. rewrite D1, Hd. eauto. }
  rewrite E2. destruct (conn_ReadFull_bytes (Z.to_nat (PayloadLength h)) c2) as (c3 & -> & P3 & E3 & D3 & _).
  rewrite S2, P1, read_full_app in P3 by (rewrite length_drop; lia).
  rewrite S2, P1, read_full_app by (rewrite length_drop; lia). cbn [fst snd] in *.
  unfold attempt_err, SetReadDeadline. rewrite D3, D2, DecodeMessage_slice_of.
  assert (decode_bytes f = match check_payload h (drop 16 f) with
    | Some e => Fail e | None => Ret (mkMessage h (drop 16 f) (sensors_of (drop 16 f))) end) as Ef.
  { unfold decode_bytes, MessageHeaderSize. rewrite (proj2 (Z.ltb_ge _ _)), Hh by lia.
    by rewrite (proj2 (negb_false_iff _)) by (apply Z.eqb_eq; lia). }
  unfold frame_message. rewrite Ef.
  destruct (check_payload h (drop 16 f)) as [e|] eqn:Ec; eexists _, _; (split; [reflexivity|]); cbn;
    rewrite E3, S2, E1; split_and!; try done. exists e. split; [done|]. by eapply check_payload_sentinels.
Qed.

(** At the end of the stream. *)
Lemma readMessage_end now d c :
  pending (stream c) = [] -> read_err (stream c) = ErrNew io_EOF ->
  exists c', readMessage now d c = (Ret (ReadError true (ErrWrap "read header" (ErrNew io_EOF))), c') /\
    pending (stream c') = [] /\ read_err (stream c') = ErrNew io_EOF /\ deadline_results c' = deadline_results c.
Proof.
  intros Hp He. unfold readMessage, mbind, M_bind, attempt. change (Z.to_nat MessageHeaderSize) with 16%nat.
  destruct (conn_ReadFull_bytes 16 c) as (c1 & -> & P1 & E1 & D1 & _). rewrite Hp, He in *. cbn in *.
  exists c1. by split_and!.
Qed.

Section frames.
Context {H : Type} `{!MessageHandler H}.
Implicit Types s : TCPServer H.

(** Connection [i] in the middle of its frames, of which [k] have been read;
    [tr] is what happened since the connection was registered. *)
Record reading (frames : list (list byte)) (i : nat) (tr : list event) s : Prop := mkReadingSt {
  rd_conn : exists c k, objects s !! i = Some c /\ (k <= length frames)%nat /\
    deadline_results (conn c) = [] /\ read_err (stream (conn c)) = ErrNew io_EOF /\
    pending (stream (conn c)) = concat (drop k frames) /\
    got tr i = omap frame_message (take k frames) /\
    (pc c = Leaving -> k = length frames \/ conn_closed c = true \/ cancelled s = true) }.

(** A step that leaves the connection as it is, or closes it. *)
Lemma reading_other frames i tr evs s s' c :
  reading frames i tr s -> objects s !! i = Some c -> got evs i = [] ->
  (cancelled s = true -> cancelled s' = true) ->
  (exists c', objects s' !! i = Some c' /\ conn c' = conn c /\
    (conn_closed c = true -> conn_closed c' = true) /\ (pc c' = Leaving -> pc c = Leaving \/ conn_closed c = true)) ->
  reading frames i (tr ++ evs) s'.
Proof.
  intros [(c0 & k & Hi & Hk & Hd & He & Hp & Hg & Hl)] Hi' Hev Hc (c' & Hc' & Ec & Hcl & Hlv).
  rewrite Hi in Hi'. injection Hi' as ->. split. exists c', k. rewrite Ec, got_app, Hev, app_nil_r.
  split_and!; try done. intros HL. destruct (Hlv HL) as [HL'|HL']; [|by auto]. destruct (Hl HL') as [?|[?|?]]; auto.
Qed.

Lemma received_conn i c outcome s :
  (received i c outcome s).2 = update i (set_pc (
     match outcome with
     | ReadError st e =>
         if cancelled s || errors_Is e io_EOF || errors_Is e net_ErrClosed then Leaving
         else if st then Leaving else Reading
     | GotMessage m => if negb (bound c) then Binding m
                       else if negb (bool_decide (mac c = MAC (Header m))) then Reading else Handling m
     end)) s \/ exists f, (received i c outcome s).2 = update i (set_pc (
     match outcome with
     | ReadError st e =>
         if cancelled s || errors_Is e io_EOF || errors_Is e net_ErrClosed then Leaving
         else if st then Leaving else Reading
     | GotMessage m => if negb (bound c) then Binding m
                       else if negb (bool_decide (mac c = MAC (Header m))) then Reading else Handling m
     end)) (count f s).
Proof. unfold received. destruct outcome; repeat case_match; eauto. Qed.

Lemma received_got i c outcome s :
  got (received i c outcome s).1 i = match outcome with GotMessage m => [m] | _ => [] end.
Proof.
  unfold received. destruct outcome; repeat case_match; cbn; try done; by rewrite decide_True.
Qed.

(** The step that reads. *)
Lemma reading_read frames i tr now s evs s' c :
  Forall framed frames -> reading frames i tr s -> objects s !! i = Some c ->
  conn_step (ARead i now) i c s = Some (evs, s') -> reading frames i (tr ++ evs) s'.
Proof.
  intros Hf [(c0 & k & Hi & Hk & Hd & He & Hp & Hg & Hl)] Hi' E. rewrite Hi in Hi'. injection Hi' as ->.
  unfold conn_step in E. destruct (pc c) eqn:Hpc; try done. destruct (conn_closed c) eqn:Hcl; [done|].
  assert (forall n outcome, readMessage now (PayloadDeadline (options s)) (conn c) = (Ret outcome, n) ->
    received i c outcome (update i (set_conn n) s) = (evs, s') ->
    exists p, objects s' !! i = Some (set_pc p (set_conn n c)) /\ cancelled s' = cancelled s /\
      got evs i = match outcome with GotMessage m => [m] | _ => [] end /\
      (p = Leaving -> cancelled s = true \/ exists st e, outcome = ReadError st e /\
         (errors_Is e io_EOF = true \/ errors_Is e net_ErrClosed = true \/ st = true))) as K.
  { intros n outcome _ Er.
    pose proof (received_got i c outcome (update i (set_conn n) s)) as Hgot.
    pose proof (received_conn i c outcome (update i (set_conn n) s)) as Hc. rewrite Er in *. cbn [fst snd] in *.
    set (p := match outcome with GotMessage _ => _ | _ => _ end) in Hc.
    exists p. assert (p = Leaving -> cancelled s = true \/ exists st e, outcome = ReadError st e /\
         (errors_Is e io_EOF = true \/ errors_Is e net_ErrClosed = true \/ st = true)) as Hlv.
    { unfold p. destruct outcome as [m|st e]; [by repeat case_match|]. cbn [update set_objects cancelled].
      destruct (cancelled s); [by left|]. intros Hx. right. exists st, e. split; [done|].
      destruct (errors_Is e io_EOF); [by left|]. destruct (errors_Is e net_ErrClosed); [by right; left|].
      destruct st; [by right; right|done]. }
    split_and!; [|by destruct Hc as [->|[f ->]]|done|done].
    destruct Hc as [->|[f ->]]; cbn -[lookup alter]; by rewrite !list_lookup_alter_eq, Hi. }
  destruct (frames !! k) as [f|] eqn:Ek.
  - assert (drop k frames = f :: drop (S k) frames) as Edr by (by apply drop_S).
    rewrite Edr in Hp. cbn [concat] in Hp.
    destruct (readMessage_frame now (PayloadDeadline (options s)) (conn c) f (concat (drop (S k) frames)))
      as (n & outcome & Er & P1 & E1 & D1 & _ & Ho); [by eapply Forall_lookup_1|done|done|].
    rewrite Er in E. apply (inj Some) in E. destruct (K n outcome Er E) as (p & Hi1 & Hc1 & Hg1 & Hl1).
    split. exists (set_pc p (set_conn n c)), (S k). apply lookup_lt_Some in Ek as Hlt.
    rewrite got_app, Hg, Hg1, (take_S_r _ _ _ Ek), omap_app. cbn [conn set_pc set_conn omap list_omap pc conn_closed].
    split_and!; try done; try lia; try congruence.
    + destruct (frame_message f); [by rewrite Ho|]. destruct Ho as (e & -> & _). done.
    + intros Hlv. rewrite Hc1. destruct (Hl1 Hlv) as [?|(st & e & -> & Hx)]; [by right; right|].
      destruct (frame_message f); [done|]. destruct Ho as (e' & [= -> ->] & ? & ?). naive_solver congruence.
  - apply lookup_ge_None in Ek. assert (k = length frames) as -> by lia.
    rewrite drop_all in Hp. cbn in Hp.
    destruct (readMessage_end now (PayloadDeadline (options s)) (conn c) Hp He) as (n & Er & P1 & E1 & D1).
    rewrite Er in E. apply (inj Some) in E. destruct (K n _ Er E) as (p & Hi1 & Hc1 & Hg1 & Hl1).
    split. exists (set_pc p (set_conn n c)), (length frames).
    rewrite got_app, Hg1, app_nil_r, drop_all. cbn [conn set_pc set_conn pc conn_closed].
    split_and!; try done; [congruence|]. intros _. by left.
Qed.
End frames.

Section results.
Context {H : Type} `{!MessageHandler H}.
Implicit Types s : TCPServer H.

(** What a step that does not read makes of its connection. *)
Definition keeps (c : tcpConnection) (i : nat) s' : Prop :=
  exists c', objects s' !! i = Some c' /\ conn c' = conn c /\
    (conn_closed c = true -> conn_closed c' = true) /\ (pc c' = Leaving -> pc c = Leaving \/ conn_closed c = true).

Lemma keeps_update s s1 f i c :
  objects s1 !! i = Some c -> objects s = objects (update i f s1) -> conn (f c) = conn c ->
  (conn_closed c = true -> conn_closed (f c) = true) ->
  (pc (f c) = Leaving -> pc c = Leaving \/ conn_closed c = true) -> keeps c i s.
Proof. intros Hi Eo ? ? ?. exists (f c). rewrite Eo. split; [by apply lookup_update_eq|done]. Qed.

Lemma conn_step_quiet a i c s evs s' :
  objects s !! i = Some c -> conn_step a i c s = Some (evs, s') ->
  match a with ARead _ _ => True | _ => got evs i = [] /\ keeps c i s' end.
Proof.
  intros Hi E. unfold conn_step in E. destruct a; try done; destruct (pc c) eqn:Hp; try done.
  2-3, 6-9: injection E as <- <-; split; [by try destruct (bound c)|]; eapply (keeps_update _ s);
    [exact Hi|reflexivity|done|done|done].
  - destruct (conn_closed c) eqn:Hcl; [|done]. apply (inj Some) in E.
    pose proof (received_got i c (ReadError true (ErrWrap msg (ErrNew net_ErrClosed))) s) as Hg.
    pose proof (received_conn i c (ReadError true (ErrWrap msg (ErrNew net_ErrClosed))) s) as Hc.
    rewrite E in Hg, Hc. split; [done|]. cbn [snd] in Hc.
    destruct Hc as [->|[f ->]]; eapply (keeps_update _ s); try done; cbn; auto.
  - injection E as <- <-. split; [done|]. unfold close_previous.
    destruct prev as [j|]; [case_bool_decide|].
    2: eapply (keeps_update _ (count add_message (update j close_conn s)));
         [etrans; [by apply (lookup_update_ne s j i close_conn)|done]|reflexivity|done..].
    all: by eapply (keeps_update _ s).
  - injection E as E. unfold routed in E. destruct (handle _ _ _ _) as [r h].
    assert (objects s' = objects (update i (set_pc Reading) s)) as Eo by (by destruct r; injection E as <- <-).
    split; [destruct r; injection E as <- <-; cbn; try done; by repeat case_match|].
    by eapply (keeps_update _ s).
Qed.

Lemma conn_step_cancelled a i c s evs s' :
  conn_step a i c s = Some (evs, s') -> cancelled s' = cancelled s.
Proof.
  intros E. unfold conn_step in E. destruct a; try done; destruct (pc c); try done;
    repeat case_match; unfold received, routed, close_previous in *; repeat case_match; by simplify_eq.
Qed.

(** The other goroutines. *)
Lemma serve_step_keeps a i c s evs s' :
  objects s !! i = Some c -> serve_step a s = Some (evs, s') ->
  got evs i = [] /\ cancelled s' = cancelled s /\ keeps c i s'.
Proof.
  intros Hi E. unfold serve_step, startConnection, register, start in E.
  destruct a as [[[n r]|e]| | | | | | | | | | | | | | | | | |]; try done;
    destruct (serve s) as [|id n0 r0|k|r0|]; try done.
  - destruct (listener_closed s); [done|]. destruct (_ <? _); injection E as <- <-;
      (split; [done|]; split; [done|]; exists c; auto).
  - injection E as <- <-. split; [done|]. split; [done|]. exists c; auto.
  - injection E as <- <-. split; [done|]. split; [done|]. exists c.
    split; [by apply lookup_app_l_Some|auto].
  - destruct (objects s !! k) as [c'|] eqn:Hk; [|done]. injection E as <- <-. split; [done|]. split; [done|].
    destruct (decide (k = i)) as [->|Hne]; [by eapply (keeps_update _ s)|].
    exists c. split; [|auto]. change (objects (update k (set_pc Reading) s) !! i = Some c).
    by rewrite lookup_update_ne.
  - injection E as <- <-. split; [done|]. split; [done|]. exists c; auto.
Qed.

Lemma close_step_keeps a i c s evs s' :
  objects s !! i = Some c -> close_step a s = Some (evs, s') ->
  got evs i = [] /\ (cancelled s = true -> cancelled s' = true) /\ keeps c i s'.
Proof.
  intros Hi E. unfold close_step in E.
  destruct a; try done; destruct (closing s) as [| |ce|[|k l] ce|]; try done.
  1-3: injection E as <- <-; split; [done|]; split; [done|]; exists c; auto.
  - injection E as <- <-. split; [done|]. split; [done|].
    destruct (decide (k = i)) as [->|Hne].
    + eapply (keeps_update _ s); [exact Hi|reflexivity|done|done|]. cbn. auto.
    + exists c. split; [|auto]. change (objects (update k close_conn s) !! i = Some c).
      by rewrite lookup_update_ne.
  - destruct (_ =? _); [|done]. injection E as <- <-. split; [done|]. split; [done|]. exists c; auto.
Qed.

Lemma exec_reading frames i tr tr0 a s evs s' :
  Forall framed frames -> reading frames i tr s -> sessions_ok tr0 s ->
  exec a s = Some (evs, s') -> reading frames i (tr ++ evs) s'.
Proof.
  intros Hf R [B K] E. pose proof R as [(c & k & Hi & _)].
  unfold exec in E. destruct (crashed s); [done|]. destruct (conn_of a) as [j|] eqn:Ej.
  - destruct (objects s !! j) as [cj|] eqn:Hj; [|done].
    pose proof (conn_step_cancelled _ _ _ _ _ _ E) as Ec. pose proof (K j) as Kj. rewrite Hj in Kj.
    destruct (decide (j = i)) as [->|Hne].
    + rewrite Hi in Hj. injection Hj as <-. pose proof (conn_step_quiet a i c s evs s' Hi E) as Q.
      destruct a; try done; [by eapply reading_read|..];
        (destruct Q as [Hg Q]; eapply reading_other; [exact R|exact Hi|exact Hg|by rewrite Ec|exact Q]).
    + destruct (conn_step_ok a j cj _ _ s evs s' B Kj Hj E) as [[_ Hlen Ho] _].
      destruct (Ho i (not_eq_sym Hne)) as (Hg & _ & Hc).
      eapply reading_other; [exact R|exact Hi|exact Hg|by rewrite Ec|].
      destruct (objects s' !! i) as [c'|] eqn:Hi'.
      * exists c'. destruct (Hc c' eq_refl) as (c1 & Hc1 & Hx). rewrite Hi in Hc1. injection Hc1 as <-.
        destruct Hx as [->| ->]; cbn; auto.
      * exfalso. apply lookup_ge_None in Hi'. apply lookup_lt_Some in Hi. lia.
  - assert (got evs i = [] /\ (cancelled s = true -> cancelled s' = true) /\ keeps c i s') as (Hg & Hc & Q).
    { destruct a; try done; first [by eapply close_step_keeps|
        destruct (serve_step_keeps _ i c _ _ _ Hi E) as (? & Ec & ?); by rewrite Ec]. }
    by eapply reading_other.
Qed.

Lemma reachable_trans s0 tr1 s1 tr2 s2 : reachable s0 tr1 s1 -> reachable s1 tr2 s2 -> reachable s0 (tr1 ++ tr2) s2.
Proof.
  intros R1 R2. induction R2 as [|tr s a evs s' R2 IH E]; [by rewrite app_nil_r|].
  rewrite app_assoc. by econstructor.
Qed.

Lemma reachable_reading frames i h o s0 tr1 s1 tr s :
  NewTCPServer h o = inr s0 -> reachable s0 tr1 s1 -> Forall framed frames ->
  reading frames i [] s1 -> reachable s1 tr s -> reading frames i tr s.
Proof.
  intros E R1 Hf Hr R. induction R as [|tr s a evs s' R IH Ex]; [done|].
  eapply exec_reading; [done|done| |exact Ex]. eapply reachable_sessions; [exact E|by eapply reachable_trans].
Qed.
End results.

(** ** Properties *)

Section properties.
Context {H : Type} `{!MessageHandler H}.
Implicit Types s : TCPServer H.

Lemma total_zero f l i c :
  (forall c, 0 <= f c <= 1) -> total f l = 0 -> l !! i = Some c -> f c = 0.
Proof.
  intros Hf. revert i. induction l as [|c' l IH]; intros [|i] Ht Hi; try done; cbn in *;
    pose proof (total_bounds f l Hf); pose proof (Hf c').
  - injection Hi as ->. lia.
  - apply (IH i); [lia|done].
Qed.

Lemma close_return_idle a s evs e s' :
  exec a s = Some (evs, s') -> EvCloseReturn e ∈ evs -> waiting s = 0.
Proof.
  unfold exec. destruct (crashed s); [done|]. destruct (conn_of a) as [i|] eqn:Ec.
  - destruct (objects s !! i) as [c|] eqn:Hi; [|done]. intros E Hin. exfalso.
    unfold conn_step in E. destruct a; try done; destruct (pc c); try done;
      repeat case_match; unfold received, routed, close_previous in *; repeat case_match; simplify_eq; set_solver.
  - intros E Hin. destruct a; try done; unfold serve_step, startConnection, register, start, close_step in E; repeat case_match; simplify_eq;
      try (exfalso; set_solver); by bool_to_prop.
Qed.


(** C20. One connection per device.  In every interleaving the connection
    registered for a MAC is bound to it and still being served, so that a
    removed connection is never found; and a bound connection still being
    served that is not the registered one has been replaced: it has been
    closed, or the goroutine of its successor is about to close it. *)
Theorem tcp_bindings h o s0 tr s :
  NewTCPServer h o = inr s0 -> reachable s0 tr s ->
  (forall m i, byMAC s !! m = Some i ->
     exists c, objects s !! i = Some c /\ bound c = true /\ mac c = m /\ serving (pc c) = true) /\
  (forall i c, objects s !! i = Some c -> bound c = true -> serving (pc c) = true ->
     byMAC s !! mac c = Some i \/ conn_closed c = true \/
     exists j cj, j <> i /\ objects s !! j = Some cj /\ closes (pc cj) = Some i).
Proof.
  intros E R. destruct (reachable_sessions _ _ _ _ _ E R) as [[B1 B2 B3] _]. split; [done|].
  intros i c Hi Hb Hs. destruct (B2 i c Hi Hb Hs) as [?|[?|(j & cj & Hj & Hc)]]; auto.
  right. right. exists j, cj. split; [|done]. intros ->. by apply (B3 i cj).
Qed.

(** C16. A connection speaks for one device.  In every interleaving what the
    goroutine of a connection has given to the handler, with the message it is
    busy with, is exactly the messages it has read that carry the MAC of the
    first one, each once and in order; so every message routed carries the MAC
    the connection is bound to. *)
Theorem tcp_routes_once h o s0 tr s i c :
  NewTCPServer h o = inr s0 -> reachable s0 tr s -> objects s !! i = Some c ->
  sent tr i ++ inflight (pc c) = wanted (got tr i) /\
  (forall m, m ∈ sent tr i -> bound c = true /\ MAC (Header m) = mac c).
Proof.
  intros E R Hi. destruct (reachable_sessions _ _ _ _ _ E R) as [_ K].
  specialize (K i). rewrite Hi in K. destruct K as [K1 K2 K3]. split; [done|].
  intros m Hm. assert (m ∈ wanted (got tr i)) as Hw by (rewrite <- K1; set_solver).
  destruct (bound c) eqn:Hb.
  - split; [done|]. destruct (K3 eq_refl) as (m0 & l & Eg & <-). rewrite Eg in Hw. cbn [wanted] in Hw.
    by apply list_elem_of_filter in Hw as [? _].
  - exfalso. assert (sent tr i = []) as Es; [|rewrite Es in Hm; by apply not_elem_of_nil in Hm].
    destruct (pc c) eqn:Hp; try (by destruct K2); cbn [inflight] in K1.
    3: { destruct K2 as [_ Eg]. rewrite Eg in K1. unfold wanted in K1.
         rewrite (filter_singleton_True (fun m => MAC (Header m) = MAC (Header m0)) m0 []) in K1 by done.
         destruct (sent tr i) as [|x [|y l]]; done. }
    all: rewrite app_nil_r in K1; assert (got tr i = []) as Eg by (by destruct K2); by rewrite K1, Eg.
Qed.
End properties.

Section more_properties.
Context {H : Type} `{!MessageHandler H}.
Implicit Types s : TCPServer H.

(** The frames of a connection, as they are read and routed. *)
Lemma frames_session h o s0 tr1 s1 i c1 frames tr s c :
  NewTCPServer h o = inr s0 -> reachable s0 tr1 s1 ->
  objects s1 !! i = Some c1 -> pc c1 = Created ->
  deadline_results (conn c1) = [] -> read_err (stream (conn c1)) = ErrNew io_EOF ->
  pending (stream (conn c1)) = concat frames -> Forall framed frames ->
  reachable s1 tr s -> objects s !! i = Some c ->
  exists k, (k <= length frames)%nat /\
    pending (stream (conn c)) = concat (drop k frames) /\
    sent tr i ++ inflight (pc c) = wanted (omap frame_message (take k frames)) /\
    (pc c = Leaving -> k = length frames \/ conn_closed c = true \/ cancelled s = true).
Proof.
  intros E R1 Hi1 Hp1 Hd He Hpend Hf R Hi.
  assert (reading frames i [] s1) as R0.
  { split. exists c1, 0%nat. rewrite drop_0, take_0. split_and!; try done; [lia|by rewrite Hp1]. }
  destruct (reachable_reading frames i _ _ _ _ _ _ _ E R1 Hf R0 R) as [(c' & k & Hi' & Hk & _ & _ & P & G & L)].
  rewrite Hi in Hi'. injection Hi' as <-. exists k. rewrite <- G. split_and!; try done.
  destruct (reachable_sessions _ _ _ _ _ E R1) as [_ K1]. specialize (K1 i). rewrite Hi1 in K1.
  destruct K1 as [S1 P1 _]. rewrite Hp1 in S1, P1. destruct P1 as [_ G1]. rewrite G1 in S1.
  cbn in S1. rewrite app_nil_r in S1.
  destruct (reachable_sessions _ _ _ _ _ E (reachable_trans _ _ _ _ _ R1 R)) as [_ K2]. specialize (K2 i).
  rewrite Hi in K2. pose proof (co_sent _ _ _ K2) as S2. by rewrite got_app, sent_app, G1, S1 in S2.
Qed.

(** From bytes to routed messages.  A connection whose stream consists of
    frames, each a message or a damaged one under a valid header, reads them
    one by one in every interleaving: after [k] of them the bytes left are
    those of the other frames, the damaged ones have been skipped, and of the
    intact ones exactly those with the MAC of the first have been routed or
    are about to be.  The goroutine leaves only at the end of the stream,
    unless the connection was closed or the server is closing. *)
Theorem tcp_session h o s0 tr1 s1 i c1 frames tr s c :
  NewTCPServer h o = inr s0 -> reachable s0 tr1 s1 ->
  objects s1 !! i = Some c1 -> pc c1 = Created ->
  deadline_results (conn c1) = [] -> read_err (stream (conn c1)) = ErrNew io_EOF ->
  pending (stream (conn c1)) = concat frames -> Forall framed frames ->
  reachable s1 tr s -> objects s !! i = Some c ->
  exists k, (k <= length frames)%nat /\
    pending (stream (conn c)) = concat (drop k frames) /\
    sent tr i ++ inflight (pc c) = wanted (omap frame_message (take k frames)) /\
    (pc c = Leaving -> k = length frames \/ conn_closed c = true \/ cancelled s = true).
Proof. apply frames_session. Qed.

Lemma tcp_execs_reachable s0 : forall l tr s evs s',
  reachable s0 tr s -> execs l s = Some (evs, s') -> reachable s0 (tr ++ evs) s'.
Proof.
  induction l as [|a l IH]; intros tr s evs s' R E; cbn [execs] in E.
  - injection E as <- <-. by rewrite app_nil_r.
  - destruct (exec a s) as [[evs1 s1]|] eqn:E1; [|done].
    destruct (execs l s1) as [[evs2 s2]|] eqn:E2; [|done]. injection E as <- <-.
    rewrite app_assoc. eapply IH; [|exact E2]. by econstructor.
Qed.
(** The outcome of a schedule. *)
Definition outcome (l : list action) (s : TCPServer H) : list event * TCPServer H :=
  match execs l s with Some p => p | None => ([], s) end.

Lemma outcome_reachable l s : reachable s (outcome l s).1 (outcome l s).2.
Proof.
  unfold outcome. destruct (execs l s) as [[evs s']|] eqn:E; [|constructor].
  change evs with ([] ++ evs). eapply tcp_execs_reachable; [constructor|exact E].
Qed.
End more_properties.

(** ** Concrete runs *)

(** A handler that keeps the messages. *)
#[local] Instance log_handler : MessageHandler (list Message) := fun _ _ m l => (Ret tt, l ++ [m]).

Definition sample_tcp : TCPServer (list Message) :=
  mkTCPServer (mkTCPOptions 2 5000000000) [] false false 0 [] ∅ ∅ 0 0 (mkTCPCounters 0 0 0 0 0 0)
    Accepting NotClosing false.

Lemma sample_tcp_new : NewTCPServer [] (mkTCPOptions 2 5000000000) = inr sample_tcp.
Proof. reflexivity. Qed.

Definition damaged (f : list byte) : list byte := <[16%nat := Byte.xff]> f.

(** A message, a damaged one, one of another device, and the first again. *)
Definition sample_frames : list (list byte) :=
  [wire sample_mac sample_payload; damaged (wire sample_mac sample_payload);
   wire zero_mac sample_payload; wire sample_mac []].

Definition sample_conn : netConn := mkNetConn (mkReader [concat sample_frames] (ErrNew io_EOF)) None [].

Definition open_connection (c : netConn) : list action := [AAccept (inl (c, "peer"%string)); ARegister].

Definition serve_frames (i : nat) : list action :=
  [AStart; ARead i 1; ABind i; AAnnounce i; AClosePrevious i; AHandle i 2; ARead i 3; ARead i 4;
   ARead i 5; AHandle i 6; ARead i 7].

Lemma sample_frames_framed : Forall framed sample_frames.
Proof.
  repeat constructor; eexists; (split; [vm_compute; lia|]; split; [vm_compute; reflexivity|vm_compute; reflexivity]).
Qed.

Definition sample_run : list event * TCPServer (list Message) :=
  outcome (open_connection sample_conn ++ serve_frames 0) sample_tcp.


Lemma tcp_bindings_witness :
  byMAC sample_run.2 !! sample_mac = Some 0%nat /\
  exists c, objects sample_run.2 !! 0%nat = Some c /\ bound c = true /\ mac c = sample_mac /\ serving (pc c) = true.
Proof.
  assert (byMAC sample_run.2 !! sample_mac = Some 0%nat) as E by (vm_compute; reflexivity).
  split; [exact E|].
  exact (proj1 (tcp_bindings [] (mkTCPOptions 2 5000000000) sample_tcp sample_run.1 sample_run.2 sample_tcp_new
                  (outcome_reachable _ _)) sample_mac 0%nat E).
Defined.

(** Of the four frames two are routed: the first and the last. *)
Lemma tcp_routes_once_witness :
  sent sample_run.1 0 = [message_of sample_mac sample_payload; message_of sample_mac []] /\
  wanted (got sample_run.1 0) = [message_of sample_mac sample_payload; message_of sample_mac []] /\
  counters sample_run.2 = mkTCPCounters 1 1 0 2 1 1.
Proof.
  destruct (objects sample_run.2 !! 0%nat) as [c|] eqn:E; [|vm_compute in E; discriminate E].
  assert (inflight (pc c) = []) as Ep.
  { assert (pc <$> objects sample_run.2 !! 0%nat = Some Leaving) as F by (vm_compute; reflexivity).
    rewrite E in F. injection F as F. by rewrite F. }
  destruct (tcp_routes_once [] (mkTCPOptions 2 5000000000) sample_tcp sample_run.1 sample_run.2 0 c sample_tcp_new
              (outcome_reachable _ _) E) as [H1 _].
  rewrite Ep, app_nil_r in H1.
  assert (sent sample_run.1 0 = [message_of sample_mac sample_payload; message_of sample_mac []]) as Es
    by (vm_compute; reflexivity).
  split; [exact Es|]. split; [rewrite <- H1; exact Es|vm_compute; reflexivity].
Defined.

Definition sample_opened : list event * TCPServer (list Message) :=
  outcome (open_connection sample_conn) sample_tcp.
Definition sample_served : list event * TCPServer (list Message) :=
  outcome (serve_frames 0) sample_opened.2.

Lemma tcp_session_witness :
  sent sample_served.1 0 ++ [] = wanted (omap frame_message (take 4 sample_frames)) /\
  length (sent sample_served.1 0) = 2%nat.
Proof.
  destruct (objects sample_opened.2 !! 0%nat) as [c1|] eqn:E1; [|vm_compute in E1; discriminate E1].
  destruct (objects sample_served.2 !! 0%nat) as [c|] eqn:E; [|vm_compute in E; discriminate E].
  assert (Some (pc c1, conn c1) = Some (Created, sample_conn)) as F1.
  { change (Some (pc c1, conn c1)) with ((fun c => (pc c, conn c)) <$> Some c1). rewrite <- E1. vm_compute. reflexivity. }
  injection F1 as Hp1 Hc1.
  assert (Some (pc c, conn_closed c) = Some (Leaving, false)) as F.
  { change (Some (pc c, conn_closed c)) with ((fun c => (pc c, conn_closed c)) <$> Some c). rewrite <- E. vm_compute. reflexivity. }
  injection F as Hp Hc.
  assert (cancelled sample_served.2 = false) as Hcan by (vm_compute; reflexivity).
  destruct (tcp_session [] (mkTCPOptions 2 5000000000) sample_tcp sample_opened.1 sample_opened.2 0 c1 sample_frames
              sample_served.1 sample_served.2 c sample_tcp_new (outcome_reachable _ _) E1 Hp1
              ltac:(rewrite Hc1; reflexivity) ltac:(rewrite Hc1; reflexivity)
              ltac:(rewrite Hc1; apply app_nil_r) sample_frames_framed (outcome_reachable _ _) E)
    as (k & Hk & _ & Hs & Hl).
  rewrite Hp in Hs. split; [|vm_compute; reflexivity].
  destruct (Hl Hp) as [->|[H2|H3]]; [exact Hs|congruence|congruence].
Defined.

(** A connection accepted before [Close] and registered after [Close] has
    copied the connections is not closed: [Close] waits for its goroutine,
    which waits for its peer. *)
Definition sample_late : list event * TCPServer (list Message) :=
  outcome [AAccept (inl (mkNetConn (mkReader [] (ErrNew io_EOF)) None [], "peer"%string));
           ACancel; ACloseListener None; ACollect; ARegister; AStart] sample_tcp.

Example close_misses_late_connection :
  closing sample_late.2 = CloseConnections [] None /\
  (fun c => (pc c, conn_closed c)) <$> objects sample_late.2 !! 0%nat = Some (Reading, false) /\
  exec AWaited sample_late.2 = None.
Proof. split_and!; vm_compute; reflexivity. Qed.

(** The callbacks of two connections of one device are not ordered as their
    bindings: here the second connection replaces the first, but the first is
    reported after it, and then reported as disconnected, although the second
    one is registered and being served. *)
Definition sample_reorder : list event * TCPServer (list Message) :=
  let c := mkNetConn (mkReader [wire sample_mac sample_payload] (ErrNew io_EOF)) None [] in
  outcome (open_connection c ++ [AStart; ARead 0 1] ++ open_connection c ++
    [AStart; ARead 1 1; ABind 0; ABind 1; AAnnounce 1; AClosePrevious 1; AAnnounce 0; AClosePrevious 0; AHandle 0 2;
     AReadClosed 0 "read header"; ALeave 0; ARelease 0; ADeactivate 0; ANotify 0]) sample_tcp.

Example callbacks_reordered :
  omap (fun e => match e with
                 | EvDeviceConnected id _ => Some (true, id)
                 | EvDeviceDisconnected id _ => Some (false, id)
                 | _ => None
                 end) sample_reorder.1 = [(true, 2); (true, 1); (false, 1)] /\
  byMAC sample_reorder.2 !! sample_mac = Some 1%nat /\
  (fun c => (id c, serving (pc c), conn_closed c)) <$> objects sample_reorder.2 !! 1%nat = Some (2, true, false).
Proof. split_and!; vm_compute; reflexivity. Qed.

(** A stream that ends right after a header is taken for a regular end: the
    error of the empty read of the payload is [io.EOF]. *)
Example header_then_end :
  (readMessage 0 5000000000 (mkNetConn (mkReader [take 16 (wire sample_mac sample_payload)] (ErrNew io_EOF)) None [])).1 =
  Ret (ReadError true (ErrWrap "read payload" (ErrNew io_EOF))).
Proof. vm_compute. reflexivity. Qed.
