(* ===== verification/UdpServer.v ===== *)
(** * The UDP server

    Model of [src/sensor-server/udp-server.go]: one goroutine receives
    datagrams into packets of a pool and queues them, a fixed number of workers
    decode and route them, and [Close] stops both.  The packets are shared: a
    packet is an address in a store, which the pool, the queue, the receiving
    goroutine or a worker may hold.  An [action] is one atomic step of one
    goroutine; a critical section of [queueMu] is one step. *)

From S2P Require Import Prelude GoRuntime BinaryData Protocol Config Router TcpServer.
Open Scope Z_scope.

(** ** State *)

(** [src/sensor-server/udp-server.go:12-16] UDPServerOptions; the warnings are
    events of the model *)
Record UDPServerOptions : Type := mkUDPOptions { WorkerCount : Z; QueueCapacity : Z }.

(** [src/sensor-server/udp-server.go:18-23] UDPServerCounters *)
Record UDPServerCounters : Type := mkUDPCounters {
  Datagrams : Z; UMessages : Z; UMalformed : Z; UDropped : Z }.

(** [src/sensor-server/udp-server.go:77-77] UdpMaxPacketSize *)
Definition UdpMaxPacketSize : Z := 1500.

(** [src/sensor-server/udp-server.go:79-83] UdpPacket *)
Record UdpPacket : Type := mkPacket { Buf : list byte; N : Z; Remote : string }.

(** The [New] function of the pool. *)
Definition new_packet : UdpPacket :=
  mkPacket (replicate (Z.to_nat UdpMaxPacketSize) Byte.x00) 0 "".

(** Where the goroutine of [Serve] is; [a] is the packet it holds. *)
Inductive udp_serve_pc : Type :=
| Getting
| Receiving (a : nat)
| Sending (a : nat)
| Returned.

(** Where a worker is. *)
Inductive worker_pc : Type :=
| Idle
| Decoding (a : nat)
| Routing (a : nat) (m : Message)
| Putting (a : nat)
| Exited.

(** The goroutine of [Close]. *)
Inductive udp_close_pc : Type :=
| Open
| ClosingConnection
| ClosingQueue (closeErr : option error)
| WaitingWorkers (closeErr : option error)
| Closed.

(** [src/sensor-server/udp-server.go:30-47] UDPServer, with its goroutines and
    the store of the packets *)
Record UDPServer (H : Type) : Type := mkUDPServer {
  uoptions : UDPServerOptions;
  uhandler : H;
  ucancelled : bool;
  connection_closed : bool;
  queue : list nat;
  queue_closed : bool;
  packets : list UdpPacket;
  pool : list nat;
  ucounters : UDPServerCounters;
  userve : udp_serve_pc;
  workers : list worker_pc;
  uclosing : udp_close_pc;
  ucrashed : bool }.
Arguments uoptions {H}. Arguments uhandler {H}. Arguments ucancelled {H}. Arguments connection_closed {H}.
Arguments queue {H}. Arguments queue_closed {H}. Arguments packets {H}. Arguments pool {H}.
Arguments ucounters {H}. Arguments userve {H}. Arguments workers {H}. Arguments uclosing {H}.
Arguments ucrashed {H}. Arguments mkUDPServer {H}.

(** What happens to the datagrams, the warnings and the results. *)
Inductive uevent : Type :=
| Received (d : list byte)       (* counted *)
| Dropped (d : list byte)        (* the queue was full *)
| Abandoned (d : list byte)      (* the server is closing *)
| Decoded (d : list byte)        (* by a worker *)
| Routed (timestamp : Z) (m : Message)
| UWarning (e : error)
| UServeReturn (e : option error)
| UServePanic (p : panic)
| UCloseReturn (e : option error)
| UPanic (p : panic).

Inductive uaction : Type :=
| UGet (from : option nat)                     (* Serve: the pool gives one of its packets, or a new one *)
| URead (r : list byte * string + error)       (* Serve: ReadFrom returns *)
| USend (done : bool)                          (* Serve: the select, under queueMu; [done]: ctx.Done is preferred *)
| UTake (j : nat)                              (* worker: the next packet, or the end of the queue *)
| UDecode (j : nat)                            (* worker: DecodeDatagram *)
| URoute (j : nat) (now : Z)                   (* worker: Route *)
| UPut (j : nat)                               (* worker: the packet goes back to the pool *)
| UCancel                                      (* Close: the context is cancelled *)
| UCloseConnection (r : option error)          (* Close: the connection is closed *)
| UCloseQueue                                  (* Close: the queue is closed, under queueMu *)
| UWaited.                                     (* Close: the workers have ended *)

(** ** Operations *)

Section udp.
Context {H : Type} `{!MessageHandler H}.
Implicit Types s : UDPServer H.

(** [src/sensor-server/udp-server.go:49-74] NewUDPServer (nil arguments cannot
    be expressed; without [OnWarning] the warnings are lost) *)
Definition NewUDPServer (h : H) (o : UDPServerOptions) : error + UDPServer H :=
  if (WorkerCount o <? 1) || (QueueCapacity o <? 1)
  then inl (ErrText "new UDP server: worker count and queue capacity must be positive")
  else inr (mkUDPServer o h false false [] false [] [] (mkUDPCounters 0 0 0 0) Getting
              (replicate (Z.to_nat (WorkerCount o)) Idle) Open false).

Definition uset_handler (h : H) (s : UDPServer H) : UDPServer H :=
  mkUDPServer (uoptions s) h (ucancelled s) (connection_closed s) (queue s) (queue_closed s)
    (packets s) (pool s) (ucounters s) (userve s) (workers s) (uclosing s) (ucrashed s).
Definition uset_cancelled (s : UDPServer H) : UDPServer H :=
  mkUDPServer (uoptions s) (uhandler s) true (connection_closed s) (queue s) (queue_closed s)
    (packets s) (pool s) (ucounters s) (userve s) (workers s) (uclosing s) (ucrashed s).
Definition uset_connection_closed (s : UDPServer H) : UDPServer H :=
  mkUDPServer (uoptions s) (uhandler s) (ucancelled s) true (queue s) (queue_closed s) (packets s)
    (pool s) (ucounters s) (userve s) (workers s) (uclosing s) (ucrashed s).
Definition uset_queue (q : list nat) (s : UDPServer H) : UDPServer H :=
  mkUDPServer (uoptions s) (uhandler s) (ucancelled s) (connection_closed s) q (queue_closed s)
    (packets s) (pool s) (ucounters s) (userve s) (workers s) (uclosing s) (ucrashed s).
Definition uset_queue_closed (s : UDPServer H) : UDPServer H :=
  mkUDPServer (uoptions s) (uhandler s) (ucancelled s) (connection_closed s) (queue s) true
    (packets s) (pool s) (ucounters s) (userve s) (workers s) (uclosing s) (ucrashed s).
Definition uset_packets (l : list UdpPacket) (s : UDPServer H) : UDPServer H :=
  mkUDPServer (uoptions s) (uhandler s) (ucancelled s) (connection_closed s) (queue s)
    (queue_closed s) l (pool s) (ucounters s) (userve s) (workers s) (uclosing s) (ucrashed s).
Definition uset_pool (l : list nat) (s : UDPServer H) : UDPServer H :=
  mkUDPServer (uoptions s) (uhandler s) (ucancelled s) (connection_closed s) (queue s)
    (queue_closed s) (packets s) l (ucounters s) (userve s) (workers s) (uclosing s) (ucrashed s).
Definition uset_counters (c : UDPServerCounters) (s : UDPServer H) : UDPServer H :=
  mkUDPServer (uoptions s) (uhandler s) (ucancelled s) (connection_closed s) (queue s)
    (queue_closed s) (packets s) (pool s) c (userve s) (workers s) (uclosing s) (ucrashed s).
Definition uset_serve (p : udp_serve_pc) (s : UDPServer H) : UDPServer H :=
  mkUDPServer (uoptions s) (uhandler s) (ucancelled s) (connection_closed s) (queue s)
    (queue_closed s) (packets s) (pool s) (ucounters s) p (workers s) (uclosing s) (ucrashed s).
Definition uset_workers (l : list worker_pc) (s : UDPServer H) : UDPServer H :=
  mkUDPServer (uoptions s) (uhandler s) (ucancelled s) (connection_closed s) (queue s)
    (queue_closed s) (packets s) (pool s) (ucounters s) (userve s) l (uclosing s) (ucrashed s).
Definition uset_closing (p : udp_close_pc) (s : UDPServer H) : UDPServer H :=
  mkUDPServer (uoptions s) (uhandler s) (ucancelled s) (connection_closed s) (queue s)
    (queue_closed s) (packets s) (pool s) (ucounters s) (userve s) (workers s) p (ucrashed s).
Definition uset_crashed (s : UDPServer H) : UDPServer H :=
  mkUDPServer (uoptions s) (uhandler s) (ucancelled s) (connection_closed s) (queue s)
    (queue_closed s) (packets s) (pool s) (ucounters s) (userve s) (workers s) (uclosing s) true.

(** The atomic counters. *)
Definition add_datagram (c : UDPServerCounters) : UDPServerCounters :=
  mkUDPCounters (u64 (Datagrams c + 1)) (UMessages c) (UMalformed c) (UDropped c).
Definition add_umessage (c : UDPServerCounters) : UDPServerCounters :=
  mkUDPCounters (Datagrams c) (u64 (UMessages c + 1)) (UMalformed c) (UDropped c).
Definition add_umalformed (c : UDPServerCounters) : UDPServerCounters :=
  mkUDPCounters (Datagrams c) (UMessages c) (u64 (UMalformed c + 1)) (UDropped c).
Definition add_dropped (c : UDPServerCounters) : UDPServerCounters :=
  mkUDPCounters (Datagrams c) (UMessages c) (UMalformed c) (u64 (UDropped c + 1)).

Definition ucount (f : UDPServerCounters -> UDPServerCounters) (s : UDPServer H) : UDPServer H :=
  uset_counters (f (ucounters s)) s.

(** The datagram in a packet: [Buf[:N]]. *)
Definition datagram_of (p : UdpPacket) : slice := Slice (Buf p) (Z.to_nat (N p)).
Definition content (s : UDPServer H) (a : nat) : list byte :=
  match packets s !! a with Some p => slice_data (datagram_of p) | None => [] end.

(** [ReadFrom] into the buffer of a packet: what does not fit is lost. *)
Definition read_from (d : list byte) (remote : string) (p : UdpPacket) : UdpPacket :=
  let got := take (length (Buf p)) d in
  mkPacket (got ++ drop (length got) (Buf p)) (Z.of_nat (length got)) remote.

(** [src/sensor-server/udp-server.go:109-118] Serve, the select under
    [queueMu]: a send on the closed queue panics, and of two cases that are
    ready [done] says which one is taken *)
Definition send (a : nat) (done : bool) (s : UDPServer H) : list uevent * UDPServer H :=
  let abandon := ([Abandoned (content s a); UServeReturn None], uset_serve Returned s) in
  if queue_closed s
  then if done && ucancelled s then abandon
       else ([Abandoned (content s a); UServePanic PanicClosedChannel], uset_serve Returned s)
  else if Z.of_nat (length (queue s)) <? QueueCapacity (uoptions s)
  then if done && ucancelled s then abandon
       else ([], uset_serve Getting (uset_queue (queue s ++ [a]) s))
  else if ucancelled s then abandon
  else ([Dropped (content s a); UWarning (ErrText "drop UDP datagram: processing queue full")],
        uset_serve Getting (ucount add_dropped s)).

(** [src/sensor-server/udp-server.go:86-120] Serve *)
Definition userve_step (a : uaction) (s : UDPServer H) : option (list uevent * UDPServer H) :=
  match a, userve s with
  | UGet None, Getting =>
      Some ([], uset_serve (Receiving (length (packets s))) (uset_packets (packets s ++ [new_packet]) s))
  | UGet (Some i), Getting =>
      match pool s !! i with
      | Some p => Some ([], uset_serve (Receiving p) (uset_pool (delete i (pool s)) s))
      | None => None
      end
  | URead (inr err), Receiving p =>
      Some ([UServeReturn (if ucancelled s || errors_Is err net_ErrClosed then None
                           else Some (ErrWrap "read UDP datagram" err))],
            uset_serve Returned (uset_pool (pool s ++ [p]) s))
  | URead (inl (d, remote)), Receiving p =>
      if connection_closed s then None else
      let s' := uset_packets (alter (read_from d remote) p (packets s)) s in
      Some ([Received (content s' p)], uset_serve (Sending p) (ucount add_datagram s'))
  | USend done, Sending p => Some (send p done s)
  | _, _ => None
  end.

Definition set_worker (j : nat) (w : worker_pc) (s : UDPServer H) : UDPServer H :=
  uset_workers (<[j := w]> (workers s)) s.

(** [src/sensor-server/udp-server.go:146-163] worker, one step of worker [j] *)
Definition worker_step (a : uaction) (j : nat) (w : worker_pc) (s : UDPServer H)
    : option (list uevent * UDPServer H) :=
  match a, w with
  | UTake _, Idle =>
      match queue s with
      | p :: q => Some ([], set_worker j (Decoding p) (uset_queue q s))
      | [] => if queue_closed s then Some ([], set_worker j Exited s) else None
      end
  | UDecode _, Decoding p =>
      match packets s !! p with
      | None => None
      | Some packet =>
          match DecodeDatagram (datagram_of packet) with
          | Fail err => Some ([Decoded (content s p); UWarning (ErrWrap "UDP datagram" err)],
                              set_worker j (Putting p) (ucount add_umalformed s))
          | Ret m => Some ([Decoded (content s p)], set_worker j (Routing p m) (ucount add_umessage s))
          | Panic q => Some ([UPanic q], uset_crashed s)
          end
      end
  | URoute _ now, Routing p m =>
      let '(r, h) := handle TransportUDP now m (uhandler s) in
      let s' := set_worker j (Putting p) (uset_handler h s) in
      match r with
      | Ret _ => Some ([Routed now m], s')
      | Fail err =>
          Some (Routed now m ::
                (if errors_Is err ErrUnknownDevice || errors_Is err ErrUnknownSensor then []
                 else [UWarning (ErrWrap "route UDP datagram" err)]), s')
      | Panic q => Some ([Routed now m; UPanic q], uset_crashed s')
      end
  | UPut _, Putting p => Some ([], set_worker j Idle (uset_pool (pool s ++ [p]) s))
  | _, _ => None
  end.

(** [src/sensor-server/udp-server.go:122-135] Close *)
Definition uclose_step (a : uaction) (s : UDPServer H) : option (list uevent * UDPServer H) :=
  match a, uclosing s with
  | UCancel, Open => Some ([], uset_closing ClosingConnection (uset_cancelled s))
  | UCloseConnection r, ClosingConnection =>
      Some ([], uset_closing (ClosingQueue r) (uset_connection_closed s))
  | UCloseQueue, ClosingQueue r => Some ([], uset_closing (WaitingWorkers r) (uset_queue_closed s))
  | UWaited, WaitingWorkers r =>
      if forallb (fun w => match w with Exited => true | _ => false end) (workers s)
      then Some ([UCloseReturn (if err_Is r net_ErrClosed then None else r)], uset_closing Closed s)
      else None
  | _, _ => None
  end.

(** One atomic step; a panic of a worker ends the program, a panic of [Serve]
    ends its goroutine, where the caller recovers it. *)
Definition uexec (a : uaction) (s : UDPServer H) : option (list uevent * UDPServer H) :=
  if ucrashed s then None else
  match a with
  | UGet _ | URead _ | USend _ => userve_step a s
  | UTake j | UDecode j | URoute j _ | UPut j =>
      match workers s !! j with Some w => worker_step a j w s | None => None end
  | _ => uclose_step a s
  end.

Fixpoint uexecs (l : list uaction) (s : UDPServer H) : option (list uevent * UDPServer H) :=
  match l with
  | [] => Some ([], s)
  | a :: l =>
      match uexec a s with
      | Some (evs, s) =>
          match uexecs l s with Some (evs', s) => Some (evs ++ evs', s) | None => None end
      | None => None
      end
  end.

Inductive ureachable (s0 : UDPServer H) : list uevent -> UDPServer H -> Prop :=
| ureachable_init : ureachable s0 [] s0
| ureachable_step tr s a evs s' :
    ureachable s0 tr s -> uexec a s = Some (evs, s') -> ureachable s0 (tr ++ evs) s'.

(** [src/sensor-server/udp-server.go:137-144] Counters *)
Definition UCounters (s : UDPServer H) : UDPServerCounters := ucounters s.
End udp.

(** ** Lemmas: what the goroutines hold *)

Lemma concat_insert_perm {A B} (f : A -> list B) (l : list A) j w w' :
  l !! j = Some w -> concat (f <$> <[j := w']> l) ++ f w ≡ₚ concat (f <$> l) ++ f w'.
Proof.
  revert j. induction l as [|x l IH]; intros [|j] E; try done.
  - injection E as ->. cbn. solve_Permutation.
  - change ((f x ++ concat (f <$> <[j := w']> l)) ++ f w ≡ₚ (f x ++ concat (f <$> l)) ++ f w').
    rewrite <- !app_assoc. apply Permutation_app_head. by apply IH.
Qed.

Definition serve_holds (p : udp_serve_pc) : list nat :=
  match p with Receiving a | Sending a => [a] | _ => [] end.
Definition worker_holds (w : worker_pc) : list nat :=
  match w with Decoding a | Routing a _ | Putting a => [a] | _ => [] end.

(** The datagrams on their way, and the messages being routed. *)
Definition serve_waiting (p : udp_serve_pc) : list nat := match p with Sending a => [a] | _ => [] end.
Definition worker_waiting (w : worker_pc) : list nat := match w with Decoding a => [a] | _ => [] end.
Definition worker_message (w : worker_pc) : list Message := match w with Routing _ m => [m] | _ => [] end.

Definition udp_received (tr : list uevent) : list (list byte) :=
  omap (fun e => match e with Received d => Some d | _ => None end) tr.
Definition udp_dropped (tr : list uevent) : list (list byte) :=
  omap (fun e => match e with Dropped d => Some d | _ => None end) tr.
Definition udp_abandoned (tr : list uevent) : list (list byte) :=
  omap (fun e => match e with Abandoned d => Some d | _ => None end) tr.
Definition udp_decoded (tr : list uevent) : list (list byte) :=
  omap (fun e => match e with Decoded d => Some d | _ => None end) tr.
Definition udp_routed (tr : list uevent) : list Message :=
  omap (fun e => match e with Routed _ m => Some m | _ => None end) tr.

(** The message of a datagram, if it is one. *)
Definition datagram_message (d : list byte) : option Message :=
  match decode_bytes d with Ret m => Some m | _ => None end.

Section invariants.
Context {H : Type} `{!MessageHandler H}.
Implicit Types s : UDPServer H.

Definition owners s : list nat :=
  pool s ++ serve_holds (userve s) ++ queue s ++ concat (worker_holds <$> workers s).

Definition waiting s : list nat :=
  serve_waiting (userve s) ++ queue s ++ concat (worker_waiting <$> workers s).

Definition packet_ok (p : UdpPacket) : Prop :=
  length (Buf p) = Z.to_nat UdpMaxPacketSize /\ 0 <= N p <= UdpMaxPacketSize.

Record owned s : Prop := mkOwned {
  ow_nodup : NoDup (owners s);
  ow_range : forall a, a ∈ owners s -> (a < length (packets s))%nat;
  ow_packets : Forall packet_ok (packets s) }.

Record flow (tr : list uevent) s : Prop := mkFlow {
  fl_datagrams : udp_received tr ≡ₚ
    udp_dropped tr ++ udp_abandoned tr ++ udp_decoded tr ++ (content s <$> waiting s);
  fl_messages : omap datagram_message (udp_decoded tr) ≡ₚ
    udp_routed tr ++ concat (worker_message <$> workers s);
  fl_routing : forall j a m, workers s !! j = Some (Routing a m) -> datagram_message (content s a) = Some m;
  fl_counters : ucounters s = mkUDPCounters (u64 (Z.of_nat (length (udp_received tr))))
    (u64 (Z.of_nat (length (omap datagram_message (udp_decoded tr)))))
    (u64 (Z.of_nat (length (udp_decoded tr)) - Z.of_nat (length (omap datagram_message (udp_decoded tr)))))
    (u64 (Z.of_nat (length (udp_dropped tr)))) }.

(** The queue and its end. *)
Record bounded s : Prop := mkBounded {
  bo_workers : workers s <> [];
  bo_capacity : 1 <= QueueCapacity (uoptions s);
  bo_queue : Z.of_nat (length (queue s)) <= QueueCapacity (uoptions s);
  bo_exited : forall j, workers s !! j = Some Exited -> queue_closed s = true /\ queue s = [] }.

(** Moves of packets between holders. *)
Lemma owned_perm s s' :
  owned s -> owners s' ≡ₚ owners s -> packets s' = packets s -> owned s'.
Proof.
  intros [H1 H2 H3] Ho Hp. split; rewrite ?Hp; [by rewrite Ho| |done].
  intros a Ha. apply H2. by rewrite <- Ho.
Qed.

Lemma owned_submset s s' :
  owned s -> owners s' ⊆+ owners s -> packets s' = packets s -> owned s'.
Proof.
  intros [H1 H2 H3] Ho Hp. split; rewrite ?Hp; [| |done].
  - apply submseteq_Permutation in Ho as [k Ek]. rewrite Ek in H1. by apply NoDup_app in H1 as [? _].
  - intros a Ha. apply H2. by eapply elem_of_submseteq.
Qed.
End invariants.

Section steps.
Context {H : Type} `{!MessageHandler H}.
Implicit Types s : UDPServer H.

(** Steps of a worker move its packet. *)
Lemma worker_holds_perm (f : worker_pc -> list nat) ws j w w' rest :
  ws !! j = Some w ->
  f w ++ rest ≡ₚ f w' ++ rest -> concat (f <$> <[j := w']> ws) ++ rest ≡ₚ concat (f <$> ws) ++ rest.
Proof.
  intros Hj E. pose proof (concat_insert_perm f ws j w w' Hj) as K.
  apply (Permutation_app_inv_l (f w)).
  transitivity (concat (f <$> <[j := w']> ws) ++ f w ++ rest); [solve_Permutation|].
  rewrite app_assoc, K, <- app_assoc, <- E. solve_Permutation.
Qed.

Lemma worker_step_owned a j w s evs s' :
  owned s -> workers s !! j = Some w -> worker_step a j w s = Some (evs, s') -> owned s'.
Proof.
  intros O Hj E. unfold worker_step in E. destruct a; try done; destruct w as [|p|p m|p|]; try done.
  - destruct (queue s) as [|p q] eqn:Eq.
    + destruct (queue_closed s); [|done]. injection E as <- <-.
      apply (owned_perm s); [done| |done]. unfold owners. cbn -[insert]. rewrite Eq.
      pose proof (concat_insert_perm worker_holds _ j _ Exited Hj) as K. rewrite !app_nil_r in K. by rewrite K.
    + injection E as <- <-. apply (owned_perm s); [done| |done]. unfold owners. cbn -[insert]. rewrite Eq.
      pose proof (concat_insert_perm worker_holds _ j _ (Decoding p) Hj) as K. cbn [worker_holds] in K.
      rewrite app_nil_r in K. rewrite K. solve_Permutation.
  - destruct (packets s !! p) as [packet|]; [|done].
    destruct (DecodeDatagram _) as [m|e|q]; injection E as <- <-; (apply (owned_perm s); [done| |done]); [..|done];
      unfold owners; cbn -[insert]; do 3 apply Permutation_app_head;
      apply (Permutation_app_inv_r [p]); by apply (concat_insert_perm worker_holds _ j (Decoding p)).
  - destruct (handle _ _ _ _) as [r h].
    assert (owned (set_worker j (Putting p) (uset_handler h s))) as O'.
    { apply (owned_perm s); [done| |done]. unfold owners. cbn -[insert]. do 3 apply Permutation_app_head.
      apply (Permutation_app_inv_r [p]). by apply (concat_insert_perm worker_holds _ j (Routing p m)). }
    destruct r as [|e|q]; injection E as <- <-; [exact O'|exact O'|].
    by destruct O'; split.
  - injection E as <- <-. apply (owned_perm s); [done| |done]. unfold owners. cbn -[insert].
    pose proof (concat_insert_perm worker_holds _ j _ Idle Hj) as K. cbn [worker_holds] in K.
    rewrite app_nil_r in K. rewrite <- K. solve_Permutation.
Qed.

Lemma read_from_ok d r p : packet_ok p -> packet_ok (read_from d r p) /\
  slice_data (datagram_of (read_from d r p)) = take (Z.to_nat UdpMaxPacketSize) d.
Proof.
  intros [H1 H2]. unfold read_from, packet_ok, datagram_of, slice_data. cbn [Buf N arr len]. rewrite H1.
  rewrite Nat2Z.id, length_app, length_drop, length_take, H1. split; [split; lia|].
  by rewrite <- length_take, take_app_length.
Qed.

Lemma userve_step_owned a s evs s' : owned s -> userve_step a s = Some (evs, s') -> owned s'.
Proof.
  intros O E. unfold userve_step in E. destruct a as [from|[[d r]|e]|done'| | | | | | | |]; try done;
    destruct (userve s) as [|p|p|] eqn:Es; try done; try (by destruct from).
  - destruct from as [i|].
    + destruct (pool s !! i) as [p|] eqn:Ei; [|done]. injection E as <- <-.
      apply (owned_perm s); [done| |done]. unfold owners. cbn -[delete]. rewrite Es. cbn.
      etrans; [|apply Permutation_app_tail; symmetry; exact (delete_Permutation _ _ _ Ei)]. solve_Permutation.
    + injection E as <- <-. destruct O as [H1 H2 H3]. unfold owners in *. cbn. rewrite Es in *. cbn in *. split.
      * unfold owners. cbn. rewrite <- Permutation_middle. constructor; [|done].
        intros Hin. apply H2 in Hin. lia.
      * unfold owners. cbn. intros x. rewrite <- Permutation_middle, elem_of_cons, length_app. cbn.
        intros [->|Hx]; [lia|]. apply H2 in Hx. lia.
      * cbn. apply Forall_app. split; [done|]. repeat constructor; cbn; by rewrite ?length_replicate.
  - destruct (connection_closed s); [done|]. injection E as <- <-. destruct O as [H1 H2 H3]. split.
    + unfold owners in *. cbn. by rewrite Es in H1.
    + unfold owners in *. cbn -[alter]. rewrite length_alter. by rewrite Es in H2.
    + cbn -[alter]. apply Forall_alter; [done|]. intros x _ Hx. by apply read_from_ok.
  - injection E as <- <-. apply (owned_perm s); [done| |done]. unfold owners. cbn. rewrite Es. cbn. solve_Permutation.
  - apply (inj Some) in E. unfold send in *.
    assert (forall s1, owners s1 = pool s ++ queue s ++ concat (worker_holds <$> workers s) ->
      packets s1 = packets s -> owned s1) as K.
    { intros s1 E1 E2. apply (owned_submset s); [done| |done]. rewrite E1. unfold owners. rewrite Es.
      apply submseteq_app; [done|]. cbn. by apply submseteq_cons. }
    repeat case_match; simplify_eq; cbn [snd]; try (by apply K).
    apply (owned_perm s); [done| |done]. unfold owners. cbn. rewrite Es. cbn. solve_Permutation.
Qed.
End steps.

Section flows.
Context {H : Type} `{!MessageHandler H}.
Implicit Types s : UDPServer H.

Lemma content_packets s s' : packets s' = packets s -> forall l : list nat, content s' <$> l = content s <$> l.
Proof. intros E l. apply list_fmap_ext. intros i x _. unfold content. by rewrite E. Qed.

Lemma received_app tr evs : udp_received (tr ++ evs) = udp_received tr ++ udp_received evs.
Proof. apply omap_app. Qed.
Lemma dropped_app tr evs : udp_dropped (tr ++ evs) = udp_dropped tr ++ udp_dropped evs.
Proof. apply omap_app. Qed.
Lemma abandoned_app tr evs : udp_abandoned (tr ++ evs) = udp_abandoned tr ++ udp_abandoned evs.
Proof. apply omap_app. Qed.
Lemma decoded_app tr evs : udp_decoded (tr ++ evs) = udp_decoded tr ++ udp_decoded evs.
Proof. apply omap_app. Qed.
Lemma routed_app tr evs : udp_routed (tr ++ evs) = udp_routed tr ++ udp_routed evs.
Proof. apply omap_app. Qed.

(** Steps that move packets without an event of a datagram. *)
Lemma flow_quiet tr evs s s' :
  flow tr s -> udp_received evs = [] -> udp_dropped evs = [] -> udp_abandoned evs = [] -> udp_decoded evs = [] ->
  waiting s' ≡ₚ waiting s -> packets s' = packets s -> ucounters s' = ucounters s ->
  udp_routed evs ++ concat (worker_message <$> workers s') ≡ₚ concat (worker_message <$> workers s) ->
  (forall j a m, workers s' !! j = Some (Routing a m) -> exists k, workers s !! k = Some (Routing a m)) ->
  flow (tr ++ evs) s'.
Proof.
  intros [F1 F2 F3 F4] E1 E2 E3 E4 Hw Hp Hc Hm Hr.
  split; rewrite ?received_app, ?dropped_app, ?abandoned_app, ?decoded_app, ?routed_app, ?E1, ?E2, ?E3, ?E4, ?app_nil_r.
  - rewrite (content_packets s s' Hp), F1. by rewrite Hw.
  - rewrite F2, <- app_assoc. by rewrite Hm.
  - intros j a m Hj. destruct (Hr j a m Hj) as [k Hk]. unfold content. rewrite Hp. exact (F3 k a m Hk).
  - by rewrite Hc.
Qed.

(** Worker steps other than decoding. *)
Lemma insert_routing (ws : list worker_pc) j w' k a m :
  (forall a m, w' <> Routing a m) -> <[j := w']> ws !! k = Some (Routing a m) -> ws !! k = Some (Routing a m).
Proof.
  intros Hn. destruct (decide (j = k)) as [->|Hne]; [|by rewrite list_lookup_insert_ne].
  intros Hk. pose proof (lookup_lt_Some _ _ _ Hk) as Hl. rewrite length_insert in Hl.
  rewrite list_lookup_insert_eq in Hk by done. injection Hk as ->. by edestruct Hn.
Qed.

Lemma insert_same {A B} (f : A -> list B) (ws : list A) j w w' :
  ws !! j = Some w -> f w = f w' -> concat (f <$> <[j := w']> ws) ≡ₚ concat (f <$> ws).
Proof.
  intros Hj E. pose proof (concat_insert_perm f ws j w w' Hj) as K. rewrite E in K.
  by apply Permutation_app_inv_r in K.
Qed.

Lemma insert_move {A B} (f : A -> list B) (ws : list A) j w w' x :
  ws !! j = Some w -> f w = x -> f w' = [] -> x ++ concat (f <$> <[j := w']> ws) ≡ₚ concat (f <$> ws).
Proof.
  intros Hj <- E. pose proof (concat_insert_perm f ws j w w' Hj) as K. rewrite E, app_nil_r in K.
  rewrite <- K. solve_Permutation.
Qed.

Lemma insert_gain {A B} (f : A -> list B) (ws : list A) j w w' x :
  ws !! j = Some w -> f w = [] -> f w' = x -> concat (f <$> <[j := w']> ws) ≡ₚ x ++ concat (f <$> ws).
Proof.
  intros Hj E <-. pose proof (concat_insert_perm f ws j w w' Hj) as K. rewrite E, app_nil_r in K.
  rewrite K. solve_Permutation.
Qed.

Lemma decode_bytes_no_panic l q : decode_bytes l <> Panic q.
Proof.
  unfold decode_bytes. destruct (_ <? _); [done|].
  destruct (check_header_inv (parse_header (take 16 l)) _ eq_refl) as [(-> & _)|[e ->]]; [|done].
  destruct (negb _); [done|]. by destruct (check_payload _ _).
Qed.

Lemma owned_packet s a : owned s -> a ∈ owners s -> exists p, packets s !! a = Some p /\ packet_ok p.
Proof.
  intros [_ O2 O3] Ha. destruct (lookup_lt_is_Some_2 _ _ (O2 a Ha)) as [p Hp]. exists p. split; [done|].
  by eapply Forall_lookup_1.
Qed.

Lemma datagram_of_ok p : packet_ok p -> slice_ok (datagram_of p).
Proof. intros [H1 H2]. unfold slice_ok, datagram_of, UdpMaxPacketSize in *. cbn. rewrite H1. lia. Qed.

Lemma worker_step_flow tr a j w s evs s' :
  owned s -> flow tr s -> workers s !! j = Some w -> worker_step a j w s = Some (evs, s') ->
  flow (tr ++ evs) s'.
Proof.
  intros O F Hj E. unfold worker_step in E. destruct a; try done; destruct w as [|p|p m|p|]; try done.
  - destruct (queue s) as [|p q] eqn:Eq.
    + destruct (queue_closed s); [|done]. injection E as <- <-. eapply flow_quiet; try done.
      * unfold waiting. cbn -[insert]. by rewrite (insert_same _ _ _ Idle).
      * cbn -[insert]. by rewrite (insert_same _ _ _ Idle).
      * intros k a m Hk. exists k. by eapply insert_routing in Hk.
    + injection E as <- <-. eapply flow_quiet; try done.
      * unfold waiting. cbn -[insert]. rewrite Eq. rewrite (insert_gain _ _ _ Idle _ [p]) by done. solve_Permutation.
      * cbn -[insert]. by rewrite (insert_same _ _ _ Idle).
      * intros k a m Hk. exists k. by eapply insert_routing in Hk.
  - assert (p ∈ owners s) as Ho.
    { unfold owners. apply elem_of_app. right. apply elem_of_app. right. apply elem_of_app. right.
      apply list_elem_of_In, in_concat. exists [p]. split; [|by left].
      apply list_elem_of_In, list_elem_of_fmap. exists (Decoding p). split; [done|]. by eapply list_elem_of_lookup_2. }
    destruct (owned_packet s p O Ho) as (packet & Hp & Hpk). rewrite Hp in E.
    rewrite (DecodeDatagram_spec _ (datagram_of_ok _ Hpk)) in E.
    assert (slice_data (datagram_of packet) = content s p) as Ec by (unfold content; by rewrite Hp).
    rewrite Ec in E. destruct F as [F1 F2 F3 F4].
    assert (forall w' s2, worker_waiting w' = [] -> packets s2 = packets s -> userve s2 = userve s ->
      queue s2 = queue s -> workers s2 = <[j := w']> (workers s) ->
      content s <$> waiting s ≡ₚ content s p :: (content s2 <$> waiting s2)) as Ew.
    { intros w' s2 E0 E1 E2 E3 E4. rewrite (content_packets s s2 E1).
      change (content s p :: (content s <$> waiting s2)) with (content s <$> p :: waiting s2).
      apply fmap_Permutation. unfold waiting. rewrite E2, E3, E4.
      rewrite <- (insert_move worker_waiting _ j (Decoding p) w' [p] Hj) by done. solve_Permutation. }
    destruct (decode_bytes (content s p)) as [m|e|q] eqn:Ed.
    + injection E as <- <-.
      assert (datagram_message (content s p) = Some m) as Em by (unfold datagram_message; by rewrite Ed).
      split; rewrite ?received_app, ?dropped_app, ?abandoned_app, ?decoded_app, ?routed_app;
        rewrite ?app_nil_r, ?omap_app.
      * rewrite F1. rewrite (Ew (Routing p m) (set_worker j (Routing p m) (ucount add_umessage s))) by done.
        cbn [udp_dropped udp_abandoned udp_decoded omap list_omap]. rewrite ?app_nil_r. solve_Permutation.
      * rewrite F2. cbn -[insert]. rewrite Em, ?app_nil_r. rewrite (insert_gain worker_message _ j (Decoding p) _ [m]) by done.
        solve_Permutation.
      * intros k a' m'. cbn -[insert]. destruct (decide (j = k)) as [->|Hne].
        -- rewrite list_lookup_insert_eq by (by eapply lookup_lt_Some). intros [= <- <-]. exact Em.
        -- rewrite list_lookup_insert_ne by done. apply F3.
      * cbn -[u64]. rewrite F4, Em. unfold add_umessage. cbn -[u64]. rewrite ?app_nil_r, wrapu_add_l, !length_app.
        cbn [length]. f_equal; f_equal; lia.
    + injection E as <- <-.
      assert (datagram_message (content s p) = None) as Em by (unfold datagram_message; by rewrite Ed).
      split; rewrite ?received_app, ?dropped_app, ?abandoned_app, ?decoded_app, ?routed_app;
        rewrite ?app_nil_r, ?omap_app.
      * rewrite F1. rewrite (Ew (Putting p) (set_worker j (Putting p) (ucount add_umalformed s))) by done.
        cbn [udp_dropped udp_abandoned udp_decoded omap list_omap]. rewrite ?app_nil_r. solve_Permutation.
      * rewrite F2. cbn -[insert]. rewrite Em, ?app_nil_r. by rewrite (insert_same worker_message _ j (Decoding p)).
      * intros k a' m' Hk. apply (F3 k). by eapply insert_routing in Hk.
      * cbn -[u64]. rewrite F4, Em. unfold add_umalformed. cbn -[u64]. rewrite ?app_nil_r, wrapu_add_l, !length_app.
        cbn [length]. f_equal; f_equal; lia.
    + by apply decode_bytes_no_panic in Ed.
  - destruct (handle _ _ _ _) as [r h].
    assert (forall evs', udp_received evs' = [] -> udp_dropped evs' = [] -> udp_abandoned evs' = [] ->
      udp_decoded evs' = [] -> udp_routed evs' = [m] ->
      flow (tr ++ evs') (set_worker j (Putting p) (uset_handler h s))) as K.
    { intros evs' E1 E2 E3 E4 E5. eapply flow_quiet; try done.
      - unfold waiting. cbn -[insert]. by rewrite (insert_same _ _ _ (Routing p m)).
      - rewrite E5. cbn -[insert]. exact (insert_move worker_message _ j (Routing p m) (Putting p) [m] Hj eq_refl eq_refl).
      - intros k a' m' Hk. exists k. by eapply insert_routing in Hk. }
    destruct r as [|e|q]; injection E as <- <-; [by apply K|apply K; by repeat case_match|].
    pose proof (K [Routed now m; UPanic q] eq_refl eq_refl eq_refl eq_refl eq_refl) as [? ? ? ?]. by split.
  - injection E as <- <-. eapply flow_quiet; try done.
    + unfold waiting. cbn -[insert]. by rewrite (insert_same _ _ _ (Putting p)).
    + cbn -[insert]. by rewrite (insert_same _ _ _ (Putting p)).
    + intros k a' m' Hk. exists k. by eapply insert_routing in Hk.
Qed.
End flows.

Section serving.
Context {H : Type} `{!MessageHandler H}.
Implicit Types s : UDPServer H.

Lemma waiting_owners s : forall a, a ∈ queue s ++ concat (worker_waiting <$> workers s) -> 
  a ∈ queue s ++ concat (worker_holds <$> workers s).
Proof.
  intros a. rewrite !elem_of_app. intros [?|Ha]; [by left|right].
  apply list_elem_of_In, in_concat in Ha as (l & Hl & Ha). apply list_elem_of_In, list_elem_of_fmap in Hl as (w & -> & Hw).
  apply list_elem_of_In, in_concat. exists (worker_holds w). split.
  - apply list_elem_of_In, list_elem_of_fmap. eauto.
  - destruct w; try done.
Qed.

Lemma routing_owner s j a m : workers s !! j = Some (Routing a m) -> a ∈ concat (worker_holds <$> workers s).
Proof.
  intros Hj. apply list_elem_of_In, in_concat. exists [a]. split; [|by left].
  apply list_elem_of_In, list_elem_of_fmap. exists (Routing a m). split; [done|]. by eapply list_elem_of_lookup_2.
Qed.

(** A packet that is not held by the queue or a worker may be overwritten. *)
Lemma udp_content_other s s' p b f :
  packets s' = alter f p (packets s) -> b <> p -> content s' b = content s b.
Proof. intros E Hb. unfold content. by rewrite E, list_lookup_alter_ne. Qed.

Lemma userve_step_flow tr a s evs s' :
  owned s -> flow tr s -> userve_step a s = Some (evs, s') -> flow (tr ++ evs) s'.
Proof.
  intros O F E. unfold userve_step in E. destruct a as [from|[[d r]|e]|done'| | | | | | | |]; try done;
    destruct (userve s) as [|p|p|] eqn:Es; try done; try (by destruct from).
  - destruct from as [i|].
    + destruct (pool s !! i) as [p|]; [|done]. injection E as <- <-.
      eapply flow_quiet; try done; [unfold waiting; cbn; by rewrite Es|eauto].
    + injection E as <- <-. destruct F as [F1 F2 F3 F4].
      assert (forall b, b ∈ owners s -> content (uset_serve (Receiving (length (packets s)))
        (uset_packets (packets s ++ [new_packet]) s)) b = content s b) as Ec.
      { intros b Hb. apply (ow_range _ O) in Hb. unfold content. cbn. by rewrite lookup_app_l. }
      split; rewrite ?app_nil_r; try done.
      * rewrite F1. unfold waiting. cbn. rewrite Es. cbn. do 3 apply Permutation_app_head.
        erewrite Forall_fmap_ext_1; [reflexivity|]. apply Forall_forall. intros b Hb. symmetry. apply Ec.
        unfold owners. rewrite Es. cbn. apply elem_of_app. right. by apply waiting_owners.
      * intros j b m Hj. rewrite Ec; [by apply (F3 j)|]. unfold owners. rewrite !elem_of_app.
        right. right. right. by eapply routing_owner.
  - destruct (connection_closed s); [done|]. injection E as <- <-.
    set (s1 := uset_packets (alter (read_from d r) p (packets s)) s) in *.
    assert (NoDup (p :: queue s ++ concat (worker_holds <$> workers s))) as [Hnp _]%NoDup_cons.
    { pose proof (ow_nodup _ O) as Hn. unfold owners in Hn. rewrite Es in Hn. by apply NoDup_app in Hn as (_ & _ & ?). }
    assert (forall b, b ∈ queue s ++ concat (worker_holds <$> workers s) -> content s1 b = content s b) as Ec.
    { intros b Hb. apply (udp_content_other s s1 p b (read_from d r)); [done|]. intros ->. done. }
    destruct F as [F1 F2 F3 F4].
    split; rewrite ?received_app, ?dropped_app, ?abandoned_app, ?decoded_app, ?routed_app, ?omap_app, ?app_nil_r.
    + rewrite F1. unfold waiting. cbn -[alter content]. rewrite Es. cbn -[alter content].
      assert (content s <$> queue s ++ concat (worker_waiting <$> workers s) =
              content s1 <$> queue s ++ concat (worker_waiting <$> workers s)) as ->.
      { apply Forall_fmap_ext_1, Forall_forall. intros b Hb. symmetry. apply Ec. by apply waiting_owners. }
      rewrite ?app_nil_r.
      change (content (uset_serve (Sending p) (ucount add_datagram s1))) with (content s1). solve_Permutation.
    + cbn. by rewrite ?app_nil_r.
    + intros j b m Hj. change (datagram_message (content s1 b) = Some m). rewrite Ec; [by apply (F3 j)|].
      apply elem_of_app. right. by eapply routing_owner.
    + cbn -[u64 alter content]. rewrite F4. unfold add_datagram. cbn -[u64 alter content].
      rewrite ?app_nil_r, wrapu_add_l, length_app. cbn [length]. f_equal; f_equal; lia.
  - injection E as <- <-. eapply flow_quiet; try done; [unfold waiting; cbn; by rewrite Es|eauto].
  - apply (inj Some) in E. unfold send in E. destruct F as [F1 F2 F3 F4].
    assert (forall evs1, udp_received evs1 = [] -> udp_dropped evs1 = [] -> udp_abandoned evs1 = [content s p] ->
      udp_decoded evs1 = [] -> udp_routed evs1 = [] -> flow (tr ++ evs1) (uset_serve Returned s)) as Kab.
    { intros evs1 E1 E2 E3 E4 E5. split; rewrite ?received_app, ?dropped_app, ?abandoned_app, ?decoded_app, ?routed_app,
        ?E1, ?E2, ?E3, ?E4, ?E5, ?app_nil_r; try done.
      rewrite F1. unfold waiting. cbn. rewrite Es. cbn.
      change (content (uset_serve Returned s)) with (content s). solve_Permutation. }
    destruct (queue_closed s); [destruct (done' && ucancelled s); injection E as <- <-; by apply Kab|].
    destruct (_ <? _).
    + destruct (done' && ucancelled s); injection E as <- <-; [by apply Kab|].
      eapply flow_quiet; try done; [unfold waiting; cbn; rewrite Es; cbn; solve_Permutation|eauto].
    + destruct (ucancelled s); injection E as <- <-; [by apply Kab|].
      split; rewrite ?received_app, ?dropped_app, ?abandoned_app, ?decoded_app, ?routed_app, ?omap_app, ?app_nil_r; try done.
      * rewrite F1. unfold waiting. cbn. rewrite Es. cbn. rewrite ?app_nil_r.
        change (content (uset_serve Getting (ucount add_dropped s))) with (content s). solve_Permutation.
      * cbn -[u64]. rewrite F4. unfold add_dropped. cbn -[u64].
        rewrite ?app_nil_r, wrapu_add_l, length_app. cbn [length]. f_equal; f_equal; lia.
Qed.

Lemma uclose_step_all tr a s evs s' :
  uclose_step a s = Some (evs, s') ->
  (owned s -> owned s') /\ (flow tr s -> flow (tr ++ evs) s') /\ (bounded s -> bounded s').
Proof.
  intros E. unfold uclose_step in E. destruct a; try done; destruct (uclosing s); try done.
  4: destruct (forallb _ _); [|done].
  all: injection E as <- <-; split_and!; intros K; [by destruct K; split| |by destruct K; split; naive_solver].
  all: eapply flow_quiet; try done; eauto.
Qed.

Lemma bounded_worker a j w s evs s' :
  bounded s -> workers s !! j = Some w -> worker_step a j w s = Some (evs, s') -> bounded s'.
Proof.
  intros [B1 B2 B3 B4] Hj E.
  assert (forall w', <[j := w']> (workers s) <> []) as Hne.
  { intros w' K. apply (f_equal length) in K. rewrite length_insert in K. by destruct (workers s). }
  assert (forall w' k, w' <> Exited -> <[j := w']> (workers s) !! k = Some Exited -> workers s !! k = Some Exited) as Hex.
  { intros w' k Hw. destruct (decide (j = k)) as [->|]; [|by rewrite list_lookup_insert_ne].
    rewrite list_lookup_insert_eq by (by eapply lookup_lt_Some). by intros [= ->]. }
  unfold worker_step in E. destruct a; try done; destruct w as [|p|p m|p|]; try done.
  - destruct (queue s) as [|p q] eqn:Eq.
    + destruct (queue_closed s) eqn:Ec; [|done]. injection E as <- <-. split; cbn -[insert]; rewrite ?Eq; try done; apply Hne.
    + injection E as <- <-. split; cbn -[insert length]; try done; try apply Hne; try (cbn in B3; lia).
      intros k Hk. apply Hex in Hk; [|done]. by destruct (B4 k Hk).
  - destruct (packets s !! p); [|done]. destruct (DecodeDatagram _); injection E as <- <-;
      (split; cbn -[insert]; try done; first [apply Hne|intros k Hk; apply (B4 k); eapply Hex; [|exact Hk]; done]).
  - destruct (handle _ _ _ _) as [r h]. destruct r; injection E as <- <-;
      (split; cbn -[insert]; try done; first [apply Hne|intros k Hk; apply (B4 k); eapply Hex; [|exact Hk]; done]).
  - injection E as <- <-.
    split; cbn -[insert]; try done; first [apply Hne|intros k Hk; apply (B4 k); eapply Hex; [|exact Hk]; done].
Qed.

Lemma bounded_same s s1 :
  bounded s -> workers s1 = workers s -> queue s1 = queue s -> queue_closed s1 = queue_closed s ->
  uoptions s1 = uoptions s -> bounded s1.
Proof. intros [B1 B2 B3 B4] E1 E2 E3 E4. by split; rewrite ?E1, ?E2, ?E3, ?E4. Qed.

Lemma bounded_serve a s evs s' : bounded s -> userve_step a s = Some (evs, s') -> bounded s'.
Proof.
  intros B E. unfold userve_step in E.
  destruct a as [from|[[d r]|e]|done'| | | | | | | |]; try done; destruct (userve s) as [|p|p|]; try done; try (by destruct from).
  - destruct from as [i|]; [destruct (pool s !! i); [|done]|]; injection E as <- <-; by apply (bounded_same s).
  - destruct (connection_closed s); [done|]. injection E as <- <-; by apply (bounded_same s).
  - injection E as <- <-; by apply (bounded_same s).
  - apply (inj Some) in E. unfold send in E. destruct (queue_closed s) eqn:Ec.
    { destruct (_ && _); injection E as <- <-; by apply (bounded_same s). }
    destruct (_ <? _) eqn:El.
    + destruct (_ && _); injection E as <- <-; [by apply (bounded_same s)|].
      destruct B as [B1 B2 B3 B4]. bool_to_prop. split; cbn; try done; [rewrite length_app; cbn; lia|].
      intros j Hj. destruct (B4 j Hj). congruence.
    + destruct (ucancelled s); injection E as <- <-; by apply (bounded_same s).
Qed.

Record udp_inv (tr : list uevent) s : Prop := mkUdpInv {
  ui_owned : owned s; ui_flow : flow tr s; ui_bounded : bounded s }.

Lemma uexec_inv tr a s evs s' : udp_inv tr s -> uexec a s = Some (evs, s') -> udp_inv (tr ++ evs) s'.
Proof.
  intros [O F B] E. unfold uexec in E. destruct (ucrashed s); [done|].
  destruct a as [from|r|d|j|j|j now|j| |r| |]; try (destruct (workers s !! j) as [w|] eqn:Hj; [|done]).
  all: first
    [ destruct (uclose_step_all tr _ _ _ _ E) as (K1 & K2 & K3); by split; auto
    | split; [by eapply userve_step_owned|by eapply userve_step_flow|by eapply bounded_serve]
    | split; [by eapply worker_step_owned|by eapply worker_step_flow|by eapply bounded_worker] ].
Qed.

Lemma NewUDPServer_inv h o s0 : NewUDPServer h o = inr s0 -> udp_inv [] s0.
Proof.
  unfold NewUDPServer. destruct (_ || _) eqn:E; [done|]. intros [= <-]. bool_to_prop.
  assert (forall {A} (f : worker_pc -> list A) n, f Idle = [] -> concat (f <$> replicate n Idle) = []) as Hc.
  { intros A f n Hf. induction n as [|n IH]; [done|]. cbn. by rewrite Hf. }
  split.
  - split; unfold owners; cbn; rewrite ?Hc by done; [constructor|by intros ? ?%not_elem_of_nil|done].
  - split; unfold waiting; cbn; rewrite ?Hc by done; try done.
    intros j a m Hj. apply lookup_replicate in Hj as [? _]. done.
  - split; cbn; try lia.
    + intros K. apply (f_equal length) in K. rewrite length_replicate in K. cbn in K. lia.
    + intros j Hj. apply lookup_replicate in Hj as [? _]. done.
Qed.

Lemma ureachable_inv h o s0 tr s : NewUDPServer h o = inr s0 -> ureachable s0 tr s -> udp_inv tr s.
Proof.
  intros E R. induction R as [|tr s a evs s' R IH Ex]; [by eapply NewUDPServer_inv|by eapply uexec_inv].
Qed.
End serving.

(** ** Properties *)

Section properties.
Context {H : Type} `{!MessageHandler H}.
Implicit Types s : UDPServer H.

Lemma uclose_return a s evs e s' :
  uexec a s = Some (evs, s') -> UCloseReturn e ∈ evs -> forall j w, workers s !! j = Some w -> w = Exited.
Proof.
  intros E Hin. unfold uexec in E. destruct (ucrashed s); [done|].
  assert (uclose_step a s = Some (evs, s')) as E'.
  { destruct a as [from|r|d|j|j|j now|j| |r| |]; try done; exfalso.
    - unfold userve_step in E. repeat case_match; simplify_eq; set_solver.
    - unfold userve_step in E. repeat case_match; simplify_eq; set_solver.
    - unfold userve_step, send in E. repeat case_match; simplify_eq; set_solver.
    - unfold worker_step in E. repeat case_match; simplify_eq; set_solver.
    - unfold worker_step in E. repeat case_match; simplify_eq; set_solver.
    - unfold worker_step in E. repeat case_match; simplify_eq; set_solver.
    - unfold worker_step in E. repeat case_match; simplify_eq; set_solver. }
  unfold uclose_step in E'. destruct a; try done; destruct (uclosing s); try done.
  1-3: injection E' as <- <-; set_solver.
  destruct (forallb _ _) eqn:Ef; [|done]. intros j w Hj. rewrite forallb_forall in Ef.
  apply list_elem_of_lookup_2, list_elem_of_In, Ef in Hj. by destruct w.
Qed.

Lemma concat_nil {A B} (f : A -> list B) (l : list A) : (forall x, x ∈ l -> f x = []) -> concat (f <$> l) = [].
Proof.
  induction l as [|x l IH]; intros Hf; [done|]. cbn. rewrite Hf by set_solver. apply IH. set_solver.
Qed.

(** No datagram is lost silently or handled twice.  In every interleaving
    the datagrams received, each cut to the size of a packet, are exactly those
    dropped because the queue was full, abandoned because the server closes,
    decoded by a worker, or on their way: in the queue or held by a goroutine;
    each is in one of these places, once.  The messages routed, or about to be,
    are exactly those the decoded datagrams contain, and the counters count
    them.  When [Close] returns nothing is left in the queue or with a
    worker. *)
Theorem udp_delivery h o s0 tr s :
  NewUDPServer h o = inr s0 -> ureachable s0 tr s ->
  udp_received tr ≡ₚ udp_dropped tr ++ udp_abandoned tr ++ udp_decoded tr ++ (content s <$> waiting s) /\
  omap datagram_message (udp_decoded tr) ≡ₚ udp_routed tr ++ concat (worker_message <$> workers s) /\
  Z.of_nat (length (queue s)) <= QueueCapacity (uoptions s) /\
  UCounters s = mkUDPCounters (u64 (Z.of_nat (length (udp_received tr))))
    (u64 (Z.of_nat (length (omap datagram_message (udp_decoded tr)))))
    (u64 (Z.of_nat (length (udp_decoded tr)) - Z.of_nat (length (omap datagram_message (udp_decoded tr)))))
    (u64 (Z.of_nat (length (udp_dropped tr)))) /\
  (forall a evs e s', uexec a s = Some (evs, s') -> UCloseReturn e ∈ evs ->
     waiting s = serve_waiting (userve s) /\ omap datagram_message (udp_decoded tr) ≡ₚ udp_routed tr).
Proof.
  intros E R. destruct (ureachable_inv _ _ _ _ _ E R) as [O [F1 F2 F3 F4] [B1 B2 B3 B4]].
  split_and!; try done. intros a evs e s' Ex Hin.
  pose proof (uclose_return _ _ _ _ _ Ex Hin) as Hw.
  assert (forall w, w ∈ workers s -> w = Exited) as Hw'.
  { intros w [j Hj]%list_elem_of_lookup_1. by eapply Hw. }
  destruct (workers s) as [|w ws] eqn:Ews; [done|].
  destruct (B4 0%nat) as [_ Hq]; [cbn; f_equal; apply Hw'; set_solver|].
  split.
  - unfold waiting. rewrite Hq, Ews, concat_nil; [by rewrite !app_nil_r|]. intros x Hx. by rewrite (Hw' x Hx).
  - rewrite F2, concat_nil; [by rewrite app_nil_r|]. intros x Hx. by rewrite (Hw' x Hx).
Qed.

(** C22. A packet has one holder.  In every interleaving no packet is at the
    same time in two of the pool, the queue, a worker and the receiving
    goroutine, or twice in one of them; so nothing is received into the buffer
    of a datagram that waits or is being handled, and while a message is being
    routed its packet still holds the bytes it was decoded from. *)
Theorem udp_packets_exclusive h o s0 tr s :
  NewUDPServer h o = inr s0 -> ureachable s0 tr s ->
  NoDup (owners s) /\
  (forall a, userve s = Receiving a -> a ∉ waiting s) /\
  (forall j a m, workers s !! j = Some (Routing a m) ->
     exists p, packets s !! a = Some p /\ DecodeDatagram (datagram_of p) = Ret m).
Proof.
  intros E R. destruct (ureachable_inv _ _ _ _ _ E R) as [O [F1 F2 F3 F4] B].
  split; [apply O|]. split.
  - intros a Es Ha. pose proof (ow_nodup _ O) as Hn. unfold owners in Hn. rewrite Es in Hn.
    apply NoDup_app in Hn as (_ & _ & Hn). cbn in Hn. apply NoDup_cons in Hn as [Hn _]. apply Hn.
    apply waiting_owners. unfold waiting in Ha. by rewrite Es in Ha.
  - intros j a m Hj. destruct (owned_packet s a O) as (p & Hp & Hok).
    { unfold owners. rewrite !elem_of_app. right. right. right. by eapply routing_owner. }
    exists p. split; [done|]. rewrite (DecodeDatagram_spec _ (datagram_of_ok _ Hok)).
    pose proof (F3 j a m Hj) as Hm. unfold datagram_message, content in Hm. rewrite Hp in Hm.
    destruct (decode_bytes _); congruence.
Qed.

(** The outcome of a schedule. *)
Definition uoutcome (l : list uaction) (s : UDPServer H) : list uevent * UDPServer H :=
  match uexecs l s with Some p => p | None => ([], s) end.

Lemma uexecs_reachable s0 : forall l tr s evs s',
  ureachable s0 tr s -> uexecs l s = Some (evs, s') -> ureachable s0 (tr ++ evs) s'.
Proof.
  induction l as [|a l IH]; intros tr s evs s' R E; cbn [uexecs] in E.
  - injection E as <- <-. by rewrite app_nil_r.
  - destruct (uexec a s) as [[evs1 s1]|] eqn:E1; [|done].
    destruct (uexecs l s1) as [[evs2 s2]|] eqn:E2; [|done]. injection E as <- <-.
    rewrite app_assoc. eapply IH; [|exact E2]. by econstructor.
Qed.

Lemma uoutcome_reachable l s : ureachable s (uoutcome l s).1 (uoutcome l s).2.
Proof.
  unfold uoutcome. destruct (uexecs l s) as [[evs s']|] eqn:E; [|constructor].
  change evs with ([] ++ evs). eapply uexecs_reachable; [constructor|exact E].
Qed.
End properties.

(** ** Concrete runs *)

(** A handler that keeps the messages. *)
#[local] Instance udp_log_handler : MessageHandler (list Message) := fun _ _ m l => (Ret tt, l ++ [m]).

Definition sample_udp : UDPServer (list Message) :=
  mkUDPServer (mkUDPOptions 2 1) [] false false [] false [] [] (mkUDPCounters 0 0 0 0) Getting [Idle; Idle] Open false.

Lemma sample_udp_new : NewUDPServer [] (mkUDPOptions 2 1) = inr sample_udp.
Proof. reflexivity. Qed.

Definition sample_datagram : list byte * string + error := inl (wire sample_mac sample_payload, "peer"%string).

(** Three datagrams: the first is being routed, the second waits in the
    queue, the third finds the queue full. *)
Definition sample_udp_run : list uevent * UDPServer (list Message) :=
  uoutcome [UGet None; URead sample_datagram; USend false; UTake 0; UGet None; URead sample_datagram; USend false;
            UGet None; URead sample_datagram; USend false; UDecode 0] sample_udp.

Lemma udp_delivery_witness :
  Permutation (udp_received sample_udp_run.1)
    (udp_dropped sample_udp_run.1 ++ udp_abandoned sample_udp_run.1 ++ udp_decoded sample_udp_run.1 ++
       (content sample_udp_run.2 <$> waiting sample_udp_run.2)) /\
  map (@length _) [udp_received sample_udp_run.1; udp_dropped sample_udp_run.1; udp_decoded sample_udp_run.1] = [3; 1; 1]%nat.
Proof.
  destruct (udp_delivery [] (mkUDPOptions 2 1) sample_udp sample_udp_run.1 sample_udp_run.2 sample_udp_new
              (uoutcome_reachable _ _)) as [H1 _].
  split; [exact H1|vm_compute; reflexivity].
Defined.

Lemma udp_packets_exclusive_witness :
  workers sample_udp_run.2 !! 0%nat = Some (Routing 0 (message_of sample_mac sample_payload)) /\
  exists p, packets sample_udp_run.2 !! 0%nat = Some p /\
    DecodeDatagram (datagram_of p) = Ret (message_of sample_mac sample_payload).
Proof.
  assert (workers sample_udp_run.2 !! 0%nat = Some (Routing 0 (message_of sample_mac sample_payload))) as Hj
    by (vm_compute; reflexivity).
  split; [exact Hj|].
  destruct (udp_packets_exclusive [] (mkUDPOptions 2 1) sample_udp sample_udp_run.1 sample_udp_run.2 sample_udp_new
              (uoutcome_reachable _ _)) as (_ & _ & K).
  exact (K _ _ _ Hj).
Defined.

(** [Close] runs between the receipt of a datagram and its queueing: the send
    on the closed queue panics. *)
Example send_on_closed_queue_panics :
  (uoutcome [UGet None; URead sample_datagram; UCancel; UCloseConnection None; UCloseQueue; USend false] sample_udp).1
  = [Received (wire sample_mac sample_payload); Abandoned (wire sample_mac sample_payload);
     UServePanic PanicClosedChannel].
Proof. vm_compute. reflexivity. Qed.

(** A message of 375 records, which the protocol admits, has 1516 bytes and
    does not fit a packet: it is cut, and rejected as malformed. *)
Example large_message_cut :
  let payload := concat (replicate 375 sample_payload) in
  (match DecodeDatagram (slice_of (wire sample_mac payload)) with Ret _ => true | _ => false end) = true /\
  ucounters (uoutcome [UGet None; URead (inl (wire sample_mac payload, "peer"%string)); USend false; UTake 0; UDecode 0]
    sample_udp).2 = mkUDPCounters 1 0 1 0.
Proof. vm_compute. split; reflexivity. Qed.
