(* ===== verification/UdpClose.v ===== *)
(** * Closing the UDP server ends

    Progress and termination of [Close] of [src/sensor-server/udp-server.go]
    over the step machine of [UdpServer.v]: once the connection is closed every
    step of every goroutine uses up work that is left, and as long as [Close]
    has not returned some goroutine can step. *)

From S2P Require Import Prelude GoRuntime BinaryData Protocol Config Router TcpServer UdpServer.
Open Scope Z_scope.

Section liveness.
Context {H : Type} `{!MessageHandler H}.
Implicit Types s : UDPServer H.

(** ** The work that is left *)

Definition serve_work (p : udp_serve_pc) : nat :=
  match p with Returned => 0 | Receiving _ => 1 | Getting => 2 | Sending _ => 7 end.
Definition worker_work (w : worker_pc) : nat :=
  match w with Exited => 0 | Idle => 1 | Putting _ => 2 | Routing _ _ => 3 | Decoding _ => 4 end.
Definition close_work (p : udp_close_pc) : nat :=
  match p with Open => 4 | ClosingConnection => 3 | ClosingQueue _ => 2 | WaitingWorkers _ => 1 | Closed => 0 end.

(** A datagram in the queue has to be taken, decoded, routed and put back; a
    crash of the program ends everything. *)
Definition work s : nat :=
  serve_work (userve s) + 4 * length (queue s) + sum_list_with worker_work (workers s)
    + close_work (uclosing s) + (if ucrashed s then 0 else 1).

(** The bound of the work after the connection is closed. *)
Definition closing_steps (o : UDPServerOptions) : nat :=
  4 * Z.to_nat (QueueCapacity o) + 4 * Z.to_nat (WorkerCount o) + 10.

Lemma sum_list_with_insert {A} (f : A -> nat) (l : list A) j w w' :
  l !! j = Some w -> (sum_list_with f (<[j := w']> l) + f w = sum_list_with f l + f w')%nat.
Proof.
  revert j. induction l as [|x l IH]; intros [|j] E; try done.
  - injection E as ->. cbn. lia.
  - specialize (IH j E).
    change (f x + sum_list_with f (<[j := w']> l) + f w = f x + sum_list_with f l + f w')%nat. lia.
Qed.

Lemma sum_list_with_bound {A} (f : A -> nat) (l : list A) n :
  (forall x, f x <= n)%nat -> (sum_list_with f l <= n * length l)%nat.
Proof. intros Hf. induction l as [|x l IH]; cbn; [lia|]. specialize (Hf x). nia. Qed.

(** ** What each goroutine does to it *)

Lemma worker_step_work a j w s evs s' :
  workers s !! j = Some w -> ucrashed s = false -> worker_step a j w s = Some (evs, s') ->
  (work s' < work s)%nat /\ connection_closed s' = connection_closed s /\
  uclosing s' = uclosing s /\ queue_closed s' = queue_closed s /\ length (workers s') = length (workers s) /\
  uoptions s' = uoptions s.
Proof.
  intros Hj Hc E. unfold worker_step in E.
  pose proof (fun w' => sum_list_with_insert worker_work (workers s) j w w' Hj) as K.
  destruct a; try done; destruct w as [|p|p m|p|]; try done; repeat case_match; simplify_eq;
    split_and!; try done; try (by cbn -[insert]; rewrite length_insert);
    unfold work; cbn -[insert]; rewrite ?Hc;
    repeat match goal with
    | |- context [<[j := ?x]> _] => pose proof (K x); clear K
    | E : queue s = _ |- _ => rewrite E in *
    end; cbn [worker_work length] in *; lia.
Qed.

Lemma userve_step_work a s evs s' :
  connection_closed s = true -> userve_step a s = Some (evs, s') ->
  (work s' < work s)%nat /\ connection_closed s' = connection_closed s /\
  uclosing s' = uclosing s /\ queue_closed s' = queue_closed s /\ length (workers s') = length (workers s) /\
  uoptions s' = uoptions s /\ ucrashed s' = ucrashed s.
Proof.
  intros Hc E. unfold userve_step, send in E.
  destruct a; try done; destruct (userve s) eqn:Es; repeat case_match; simplify_eq;
    split_and!; try done; unfold work; cbn; rewrite ?Es, ?length_app; cbn; lia.
Qed.

Lemma uclose_step_work a s evs s' :
  uclose_step a s = Some (evs, s') ->
  (work s' < work s)%nat /\ (connection_closed s = true -> connection_closed s' = true) /\
  length (workers s') = length (workers s) /\ uoptions s' = uoptions s /\ ucrashed s' = ucrashed s.
Proof.
  intros E. unfold uclose_step in E.
  destruct a; try done; destruct (uclosing s) eqn:Es; try done; repeat case_match; simplify_eq;
    split_and!; try done; unfold work; cbn; rewrite ?Es; cbn; lia.
Qed.

Lemma uexec_work a s evs s' :
  connection_closed s = true -> uexec a s = Some (evs, s') ->
  (work s' < work s)%nat /\ connection_closed s' = true.
Proof.
  intros Hc E. unfold uexec in E. destruct (ucrashed s) eqn:Hcr; [done|].
  destruct a as [from|r|d|j|j|j now|j| |r| |]; try (destruct (workers s !! j) as [w|] eqn:Hj; [|done]).
  1-3: destruct (userve_step_work _ _ _ _ Hc E) as (? & -> & _); by split.
  1-4: destruct (worker_step_work _ _ _ _ _ _ Hj Hcr E) as (? & -> & _); by split.
  all: destruct (uclose_step_work _ _ _ _ E) as (? & K & _); split; by auto.
Qed.

Lemma uexecs_work : forall l s evs s',
  connection_closed s = true -> uexecs l s = Some (evs, s') -> (length l + work s' <= work s)%nat.
Proof.
  induction l as [|a l IH]; intros s evs s' Hc E; cbn [uexecs] in E.
  - by injection E as <- <-.
  - destruct (uexec a s) as [[evs1 s1]|] eqn:E1; [|done].
    destruct (uexecs l s1) as [[evs2 s2]|] eqn:E2; [|done]. injection E as <- <-.
    destruct (uexec_work _ _ _ _ Hc E1) as [Hw Hc1]. specialize (IH s1 evs2 s2 Hc1 E2). cbn [length]. lia.
Qed.

(** ** The stages of [Close] *)

Definition stage_ok s : Prop :=
  match uclosing s with
  | Open | ClosingConnection => connection_closed s = false /\ queue_closed s = false
  | ClosingQueue _ => connection_closed s = true /\ queue_closed s = false
  | WaitingWorkers _ | Closed => connection_closed s = true /\ queue_closed s = true
  end.

Record closing_inv (o : UDPServerOptions) s : Prop := mkClosingInv {
  ci_stage : stage_ok s;
  ci_options : uoptions s = o;
  ci_workers : length (workers s) = Z.to_nat (WorkerCount o);
  ci_waited : uclosing s = Closed -> Forall (fun w => w = Exited) (workers s) }.

Lemma closing_inv_same o s s' :
  closing_inv o s -> connection_closed s' = connection_closed s -> uclosing s' = uclosing s ->
  queue_closed s' = queue_closed s -> length (workers s') = length (workers s) -> uoptions s' = uoptions s ->
  (uclosing s = Closed -> Forall (fun w => w = Exited) (workers s) -> workers s' = workers s) -> closing_inv o s'.
Proof.
  intros [C1 C2 C3 C4] E1 E2 E3 E4 E5 E6. split; [|congruence|congruence|].
  - unfold stage_ok in *. by rewrite E1, E2, E3.
  - rewrite E2. intros Hc. rewrite E6; auto.
Qed.

Lemma userve_step_workers a s evs s' : userve_step a s = Some (evs, s') -> workers s' = workers s.
Proof.
  intros E. unfold userve_step, send in E.
  destruct a; try done; destruct (userve s); repeat case_match; simplify_eq; done.
Qed.

Lemma userve_step_stage a s evs s' : userve_step a s = Some (evs, s') ->
  connection_closed s' = connection_closed s /\ uclosing s' = uclosing s /\
  queue_closed s' = queue_closed s /\ uoptions s' = uoptions s /\ ucrashed s' = ucrashed s.
Proof.
  intros E. unfold userve_step, send in E.
  destruct a; try done; destruct (userve s); repeat case_match; simplify_eq; done.
Qed.

Lemma worker_step_exited a j s evs s' : worker_step a j Exited s = Some (evs, s') -> False.
Proof. by destruct a. Qed.

Lemma all_exited (l : list worker_pc) :
  forallb (fun w => match w with Exited => true | _ => false end) l = true -> Forall (fun w => w = Exited) l.
Proof.
  rewrite forallb_forall. intros K. apply Forall_forall. intros w Hw%list_elem_of_In%K. by destruct w.
Qed.

Lemma uexec_closing o a s evs s' : closing_inv o s -> uexec a s = Some (evs, s') -> closing_inv o s'.
Proof.
  intros C E. unfold uexec in E. destruct (ucrashed s) eqn:Hcr; [done|].
  destruct a as [from|r|d|j|j|j now|j| |r| |]; try (destruct (workers s !! j) as [w|] eqn:Hj; [|done]).
  1-3: destruct (userve_step_stage _ _ _ _ E) as (? & ? & ? & ? & _);
    pose proof (userve_step_workers _ _ _ _ E) as Ew;
    apply (closing_inv_same o s); by rewrite ?Ew.
  1-4: destruct (worker_step_work _ _ _ _ _ _ Hj Hcr E) as (_ & ? & ? & ? & ? & ?);
    apply (closing_inv_same o s); try done; intros _ K;
    rewrite (Forall_lookup_1 _ _ _ _ K Hj) in E; by apply worker_step_exited in E.
  all: destruct C as [C1 C2 C3 C4]; unfold uclose_step in E; unfold stage_ok in C1;
    destruct (uclosing s) eqn:Es; try done; repeat case_match; simplify_eq.
  all: split; cbn; try done; try (by destruct C1).
  all: intros _; by apply all_exited.
Qed.

Lemma NewUDPServer_closing h o s0 : NewUDPServer h o = inr s0 -> closing_inv o s0 /\ ucrashed s0 = false.
Proof.
  unfold NewUDPServer. destruct (_ || _); [done|]. intros [= <-]. repeat split; cbn; try done.
  by rewrite length_replicate.
Qed.

(** ** Nothing crashes, and somebody can step *)

Definition handler_returns : Prop :=
  forall now m (h : H) q h', handle TransportUDP now m h <> (Panic q, h').

Lemma decoding_owner s j p : workers s !! j = Some (Decoding p) -> p ∈ owners s.
Proof.
  intros Hj. unfold owners. rewrite !elem_of_app. right. right. right.
  apply list_elem_of_In, in_concat. exists [p]. split; [|by left].
  apply list_elem_of_In, list_elem_of_fmap. exists (Decoding p). split; [done|]. by eapply list_elem_of_lookup_2.
Qed.

Lemma decode_packet s j p : owned s -> workers s !! j = Some (Decoding p) ->
  exists packet, packets s !! p = Some packet /\ forall q, DecodeDatagram (datagram_of packet) <> Panic q.
Proof.
  intros O Hj. destruct (owned_packet s p O (decoding_owner s j p Hj)) as (packet & Hp & Hok).
  exists packet. split; [done|]. intros q. rewrite (DecodeDatagram_spec _ (datagram_of_ok _ Hok)).
  apply decode_bytes_no_panic.
Qed.

Lemma uexec_no_crash a s evs s' :
  handler_returns -> owned s -> uexec a s = Some (evs, s') -> ucrashed s' = false.
Proof.
  intros Hh O E. unfold uexec in E. destruct (ucrashed s) eqn:Hcr; [done|].
  destruct a as [from|r|d|j|j|j now|j| |r| |]; try (destruct (workers s !! j) as [w|] eqn:Hj; [|done]).
  1-3: destruct (userve_step_stage _ _ _ _ E) as (_ & _ & _ & _ & ->); done.
  5-8: destruct (uclose_step_work _ _ _ _ E) as (_ & _ & _ & _ & ->); done.
  all: unfold worker_step in E; destruct w as [|p|p m|p|]; try done.
  - by repeat case_match; simplify_eq.
  - destruct (decode_packet s j p O Hj) as (packet & Hp & Hq). rewrite Hp in E.
    destruct (DecodeDatagram _) as [m|e|q]; simplify_eq; [done|done|by destruct (Hq q)].
  - destruct (handle _ _ _ _) as [r h] eqn:Eh. destruct r as [|e|q]; simplify_eq; [done|done|].
    by apply Hh in Eh.
  - by simplify_eq.
Qed.

(** What a scheduler tries: the steps of [Serve] and [Close], and of each
    worker. *)
Definition main_actions : list uaction :=
  [UGet None; URead (inr (ErrNew net_ErrClosed)); USend true; UCancel; UCloseConnection None; UCloseQueue; UWaited].
Definition worker_actions (j : nat) : list uaction := [UTake j; UDecode j; URoute j 0; UPut j].
Definition candidates s : list uaction :=
  main_actions ++ concat (worker_actions <$> seq 0 (length (workers s))).

(** A state in which none of them can be done. *)
Definition stuck s : Prop := Forall (fun a => uexec a s = None) (candidates s).

Lemma stuck_main s a : stuck s -> a ∈ main_actions -> uexec a s = None.
Proof. unfold stuck. rewrite Forall_forall. intros St Ha. apply St. unfold candidates. set_solver. Qed.

Lemma stuck_action s a j w : stuck s -> workers s !! j = Some w -> a ∈ worker_actions j -> uexec a s = None.
Proof.
  unfold stuck. rewrite Forall_forall. intros St Hj%lookup_lt_Some Ha. apply St, elem_of_app. right.
  apply list_elem_of_In, in_concat. exists (worker_actions j). split; [|by apply list_elem_of_In].
  apply list_elem_of_In, list_elem_of_fmap. exists j. split; [done|]. apply elem_of_seq. lia.
Qed.

Lemma stuck_worker o s j w :
  ucrashed s = false -> owned s -> closing_inv o s -> stuck s -> workers s !! j = Some w ->
  w = Exited \/ w = Idle /\ queue s = [] /\ queue_closed s = false.
Proof.
  intros Hcr O C St Hj.
  destruct w as [|p|p m|p|]; [right| | | |by left]; idtac.
  - pose proof (stuck_action s (UTake j) j _ St Hj ltac:(set_solver)) as K. unfold uexec in K. rewrite Hcr, Hj in K. cbn in K.
    destruct (queue s); [|done]. by destruct (queue_closed s).
  - pose proof (stuck_action s (UDecode j) j _ St Hj ltac:(set_solver)) as K. unfold uexec in K. rewrite Hcr, Hj in K. cbn in K.
    destruct (decode_packet s j p O Hj) as (packet & Hp & _). rewrite Hp in K. by destruct (DecodeDatagram _).
  - pose proof (stuck_action s (URoute j 0) j _ St Hj ltac:(set_solver)) as K. unfold uexec in K. rewrite Hcr, Hj in K. cbn in K.
    destruct (handle _ _ _ _) as [r h]. by destruct r.
  - pose proof (stuck_action s (UPut j) j _ St Hj ltac:(set_solver)) as K. unfold uexec in K. by rewrite Hcr, Hj in K.
Qed.

(** A server none of whose goroutines can step, whose connection is closed,
    is closed. *)
Lemma stuck_closed o tr s :
  ucrashed s = false -> udp_inv tr s -> closing_inv o s -> 1 <= WorkerCount o -> connection_closed s = true ->
  stuck s -> uclosing s = Closed /\ userve s = Returned /\ Forall (fun w => w = Exited) (workers s) /\ queue s = [].
Proof.
  intros Hcr [O F B] C Hn Hc St.
  assert (queue_closed s = true) as Hq.
  { destruct C as [C1 _ _ _]. unfold stage_ok in C1. destruct (uclosing s) as [| |r|r|] eqn:Es; try (by destruct C1);
      [destruct C1; congruence|destruct C1; congruence|].
    pose proof (stuck_main s UCloseQueue St ltac:(set_solver)) as K. unfold uexec in K. rewrite Hcr in K. cbn in K. by rewrite Es in K. }
  assert (Forall (fun w => w = Exited) (workers s)) as Hw.
  { apply Forall_lookup. intros j w Hj.
    destruct (stuck_worker o s j w Hcr O C St Hj) as [?|(_ & _ & K)]; [done|congruence]. }
  assert (queue s = []) as Hq0.
  { destruct B as [B1 _ _ B4]. destruct (workers s) as [|w ws] eqn:Ews; [done|].
    apply (B4 0%nat). cbn. f_equal. by apply Forall_cons in Hw as [-> _]. }
  split_and!; try done.
  - destruct C as [C1 _ _ _]. unfold stage_ok in C1. destruct (uclosing s) as [| |r|r|] eqn:Es; try (destruct C1; congruence).
    pose proof (stuck_main s UWaited St ltac:(set_solver)) as K. unfold uexec in K. rewrite Hcr in K. cbn in K. rewrite Es in K.
    assert (forallb (fun w => match w with Exited => true | _ => false end) (workers s) = true) as Ke.
    { apply forallb_forall. intros w Hin%list_elem_of_In. rewrite Forall_forall in Hw. by rewrite (Hw w Hin). }
    by rewrite Ke in K.
  - destruct (userve s) as [|p|p|] eqn:Es; try done; exfalso.
    + pose proof (stuck_main s (UGet None) St ltac:(set_solver)) as K. unfold uexec in K. rewrite Hcr in K. cbn in K. by rewrite Es in K.
    + pose proof (stuck_main s (URead (inr (ErrNew net_ErrClosed))) St ltac:(set_solver)) as K. unfold uexec in K. rewrite Hcr in K. cbn in K. by rewrite Es in K.
    + pose proof (stuck_main s (USend true) St ltac:(set_solver)) as K. unfold uexec in K. rewrite Hcr in K. cbn in K. by rewrite Es in K.
Qed.

Lemma work_bound o tr s :
  udp_inv tr s -> closing_inv o s -> connection_closed s = true -> (work s <= closing_steps o)%nat.
Proof.
  intros [_ _ [_ _ B _]] [C1 C2 C3 _] Hc. unfold work, closing_steps.
  pose proof (sum_list_with_bound worker_work (workers s) 4 ltac:(by intros []; cbn; lia)) as Hw.
  rewrite C3 in Hw. rewrite C2 in B. unfold stage_ok in C1.
  assert (serve_work (userve s) <= 7)%nat by (destruct (userve s); cbn; lia).
  assert (close_work (uclosing s) <= 2)%nat by (destruct (uclosing s); cbn; try lia; destruct C1; congruence).
  destruct (ucrashed s); lia.
Qed.

(** What holds along every run of a server whose handler does not panic. *)
Lemma ureachable_closing h o s0 tr s :
  NewUDPServer h o = inr s0 -> handler_returns -> ureachable s0 tr s ->
  udp_inv tr s /\ closing_inv o s /\ ucrashed s = false /\ 1 <= WorkerCount o.
Proof.
  intros E Hh R. assert (1 <= WorkerCount o).
  { unfold NewUDPServer in E. destruct (_ || _) eqn:Eo; [done|]. bool_to_prop. lia. }
  induction R as [|tr s a evs s' R IH Ex].
  - destruct (NewUDPServer_closing h o s0 E). split_and!; try done. by eapply NewUDPServer_inv.
  - destruct IH as (I & C & Hc & _). split_and!; try done.
    + by eapply uexec_inv.
    + by eapply uexec_closing.
    + eapply uexec_no_crash; [done|apply I|done].
Qed.

Lemma uexecs_closed : forall l s evs s',
  connection_closed s = true -> uexecs l s = Some (evs, s') -> connection_closed s' = true.
Proof.
  induction l as [|a l IH]; intros s evs s' Hc E; cbn [uexecs] in E; [by injection E as <- <-|].
  destruct (uexec a s) as [[evs1 s1]|] eqn:E1; [|done].
  destruct (uexecs l s1) as [[evs2 s2]|] eqn:E2; [|done]. injection E as <- <-.
  destruct (uexec_work _ _ _ _ Hc E1) as [_ Hc1]. by eapply IH.
Qed.

(** The last step of [Close] is its return. *)
Lemma uexecs_return : forall l s evs s',
  uexecs l s = Some (evs, s') -> uclosing s' = Closed -> uclosing s = Closed \/ exists e, UCloseReturn e ∈ evs.
Proof.
  induction l as [|a l IH]; intros s evs s' E Hcl; cbn [uexecs] in E.
  { injection E as <- <-. by left. }
  destruct (uexec a s) as [[evs1 s1]|] eqn:E1; [|done].
  destruct (uexecs l s1) as [[evs2 s2]|] eqn:E2; [|done]. injection E as <- <-.
  destruct (IH s1 evs2 s2 E2 Hcl) as [H1|[e He]]; [|right; exists e; set_solver].
  unfold uexec in E1. destruct (ucrashed s) eqn:Hcr; [done|].
  destruct a as [from|r|d|j|j|j now|j| |r| |]; try (destruct (workers s !! j) as [w|] eqn:Hj; [|done]).
  1-3: left; destruct (userve_step_stage _ _ _ _ E1) as (_ & <- & _); done.
  1-4: left; destruct (worker_step_work _ _ _ _ _ _ Hj Hcr E1) as (_ & _ & <- & _); done.
  all: unfold uclose_step in E1; destruct (uclosing s) eqn:Es; try done; repeat case_match; simplify_eq; try done.
  all: right; eexists; apply elem_of_app; left; by apply list_elem_of_here.
Qed.



(** Somebody can step, or nobody. *)
Lemma stuck_or_step s : stuck s \/ exists a evs s', uexec a s = Some (evs, s').
Proof.
  unfold stuck. induction (candidates s) as [|a l IH]; [by left; constructor|].
  destruct (uexec a s) as [[evs s']|] eqn:Ea; [right; eauto|].
  destruct IH as [IH|?]; [left; by constructor|by right].
Qed.

(** A run to the end. *)
Lemma run_to_end n : forall s,
  (work s < n)%nat -> connection_closed s = true -> exists l evs s', uexecs l s = Some (evs, s') /\ stuck s'.
Proof.
  induction n as [|n IH]; intros s Hn Hc; [lia|].
  destruct (stuck_or_step s) as [St|(a & evs & s1 & Ea)]; [by exists [], [], s|].
  destruct (uexec_work _ _ _ _ Hc Ea) as [Hw Hc1].
  destruct (IH s1 ltac:(lia) Hc1) as (l & evs' & s' & El & St).
  exists (a :: l), (evs ++ evs'), s'. cbn [uexecs]. by rewrite Ea, El.
Qed.

(** C23. Closing the UDP server ends.  Take any reachable state of a server
    whose handler does not panic, at or after the point where [Close] has closed
    the connection, and let all goroutines run: receiver, workers and [Close], in
    any order.  Every run has at most as many steps as four for each place of the
    queue and each worker, and ten; and a run that has not got there can be
    continued until the receiver and every worker have ended, the queue is empty and [Close]
    has returned.  There is no order of the steps in which [Close] waits for
    ever. *)
Theorem udp_close_returns h o s0 tr s :
  NewUDPServer h o = inr s0 -> handler_returns -> ureachable s0 tr s -> connection_closed s = true ->
  (forall l evs s', uexecs l s = Some (evs, s') -> (length l <= closing_steps o)%nat) /\
  (forall l evs s', uexecs l s = Some (evs, s') ->
     exists l' evs' s'', uexecs l' s' = Some (evs', s'') /\
       uclosing s'' = Closed /\ userve s'' = Returned /\ Forall (fun w => w = Exited) (workers s'') /\ queue s'' = [] /\
       (uclosing s' = Closed \/ exists e, UCloseReturn e ∈ evs')).
Proof.
  intros E Hh R Hc. destruct (ureachable_closing _ _ _ _ _ E Hh R) as (I & C & _ & Hn). split.
  - intros l evs s' El. pose proof (uexecs_work _ _ _ _ Hc El). pose proof (work_bound _ _ _ I C Hc). lia.
  - intros l evs s' El. pose proof (uexecs_reachable s0 _ _ _ _ _ R El) as R'.
    pose proof (uexecs_closed _ _ _ _ Hc El) as Hc'.
    destruct (run_to_end (S (work s')) s' ltac:(lia) Hc') as (l' & evs' & s'' & El' & St).
    pose proof (uexecs_reachable s0 _ _ _ _ _ R' El') as R''.
    pose proof (uexecs_closed _ _ _ _ Hc' El') as Hc''.
    destruct (ureachable_closing _ _ _ _ _ E Hh R'') as (I'' & C'' & Hcr & _).
    destruct (stuck_closed _ _ _ Hcr I'' C'' Hn Hc'' St) as (K1 & K2 & K3 & K4).
    exists l', evs', s''. split_and!; try done. by eapply uexecs_return.
Qed.
End liveness.

(** ** A concrete run *)

#[local] Instance keep_messages : MessageHandler (list Message) := fun _ _ m l => (Ret tt, l ++ [m]).

Definition closing_udp : UDPServer (list Message) :=
  match NewUDPServer [] (mkUDPOptions 2 1) with
  | inr s => (uoutcome [UGet None; URead sample_datagram; USend false; UTake 0; UGet None; URead sample_datagram;
                        UCancel; UCloseConnection None] s).2
  | inl _ => sample_udp
  end.

(** One datagram with a worker, one about to be queued. *)
Lemma udp_close_returns_witness :
  connection_closed closing_udp = true /\ owners closing_udp = [1; 0]%nat /\
  exists l evs s e, uexecs l closing_udp = Some (evs, s) /\ uclosing s = Closed /\ UCloseReturn e ∈ evs.
Proof.
  split; [vm_compute; reflexivity|]. split; [vm_compute; reflexivity|].
  destruct (udp_close_returns [] (mkUDPOptions 2 1) sample_udp
    (uoutcome [UGet None; URead sample_datagram; USend false; UTake 0; UGet None; URead sample_datagram;
                        UCancel; UCloseConnection None] sample_udp).1 closing_udp) as [_ K].
  - reflexivity.
  - by intros now m h q h'.
  - apply uoutcome_reachable.
  - vm_compute; reflexivity.
  - destruct (K [] [] closing_udp eq_refl) as (l & evs & s & E & H1 & _ & _ & _ & H2).
    destruct H2 as [H2|[e He]]; [vm_compute in H2; discriminate|]. exists l, evs, s, e. auto.
Defined.
