(* ===== verification/Intake.v ===== *)
(** * The intake: both servers, the router and the reloads together

    The TCP server, the UDP server and the configuration poller of
    [src/sensor-server/server.go] share one router.  This file composes their
    step machines into one, in which every step of one of them sees the router
    as the others left it, and proves that the composition refines a sequential
    store: what has been written, quarantined and counted is what the messages
    routed and the reloads amount to, one after the other. *)

From S2P Require Import Prelude GoRuntime House BinaryData Protocol Config Router TcpServer UdpServer.
Open Scope Z_scope.

(** ** A server with another handler

    The servers use their handler in one step only, and go on by its result;
    [Tape] answers with results given beforehand. *)

Definition retag {H H'} (h : H') (s : TCPServer H) : TCPServer H' :=
  mkTCPServer (TcpServer.options s) h (cancelled s) (listener_closed s) (tokens s) (objects s)
    (connections s) (byMAC s) (nextID s) (TcpServer.waiting s) (TcpServer.counters s) (serve s) (closing s) (crashed s).
Definition uretag {H H'} (h : H') (s : UDPServer H) : UDPServer H' :=
  mkUDPServer (uoptions s) h (ucancelled s) (connection_closed s) (queue s) (queue_closed s) (packets s) (pool s)
    (ucounters s) (userve s) (workers s) (uclosing s) (ucrashed s).

Definition Tape : Type := list (res unit).
#[export] Instance tape_handler : MessageHandler Tape := fun _ _ _ tape =>
  match tape with
  | [] => (Ret tt, [])
  | r :: tape => (r, tape)
  end.

(** ** The composition *)

Section intake.
Context {D U : Type} `{!SensorDataWriter D} `{!UnknownMessageWriter U}.

(** The router and the two servers that share it. *)
Record Intake : Type := mkIntake {
  it_router : MessageRouter D U; it_tcp : TCPServer unit; it_udp : UDPServer unit }.

Inductive intake_event : Type :=
| FromTCP (e : event)
| FromUDP (e : uevent)
| Reloaded (candidate : option ConfigSnapshot).

Inductive intake_action : Type :=
| InTCP (a : action)
| InUDP (a : uaction)
| InReload (candidate : option ConfigSnapshot).

(** The reload of the poller, on the registry of the router. *)
Definition reload_router (candidate : option ConfigSnapshot) (r : MessageRouter D U) : MessageRouter D U :=
  mkRouter (Reload candidate (registry r)).2 (dataWriter r) (unknown r) (Router.counters r) (observing r) (observed r).

Definition intake_step (a : intake_action) (s : Intake) : option (list intake_event * Intake) :=
  match a with
  | InTCP a =>
      match exec a (retag (it_router s) (it_tcp s)) with
      | Some (evs, t) => Some (map FromTCP evs, mkIntake (handler t) (retag tt t) (it_udp s))
      | None => None
      end
  | InUDP a =>
      match uexec a (uretag (it_router s) (it_udp s)) with
      | Some (evs, u) => Some (map FromUDP evs, mkIntake (uhandler u) (it_tcp s) (uretag tt u))
      | None => None
      end
  | InReload c => Some ([Reloaded c], mkIntake (reload_router c (it_router s)) (it_tcp s) (it_udp s))
  end.

Inductive intake_reachable (s0 : Intake) : list intake_event -> Intake -> Prop :=
| intake_init : intake_reachable s0 [] s0
| intake_reach tr s a evs s' :
    intake_reachable s0 tr s -> intake_step a s = Some (evs, s') -> intake_reachable s0 (tr ++ evs) s'.

(** [src/sensor-server/server.go:112-135] OpenServer: the two servers on the
    router (what is released when one fails is in [Server.v]) *)
Definition open_intake (r : MessageRouter D U) (topts : TCPServerOptions) (uopts : UDPServerOptions)
    : error + Intake :=
  match NewTCPServer tt topts, NewUDPServer tt uopts with
  | inr t, inr u => inr (mkIntake r t u)
  | inl e, _ | _, inl e => inl e
  end.

(** ** The sequential store *)

(** What the messages are routed into: the configuration, the two writers and
    the number of messages. *)
Record Store : Type := mkStore { st_registry : ConfigRegistry; st_data : D; st_unknown : U; st_messages : Z }.

(** One message: a known device's known records are written in order, the
    message of an unknown device goes to the quarantine. *)
Definition store_message (tr : Transport) (ts : Z) (m : Message) (a : Store) : Store :=
  let snap := Router.Snapshot (st_registry a) in
  match snapshot_Device snap (MAC (Header m)) with
  | Some device =>
      mkStore (st_registry a) (write_each device ts (known_records snap (Protocol.Sensors m)) (st_data a)).2
        (st_unknown a) (u64 (st_messages a + 1))
  | None =>
      mkStore (st_registry a) (st_data a) (WriteUnknownMessage (mkUnknownMessage ts tr m) (st_unknown a)).2
        (u64 (st_messages a + 1))
  end.

Definition store_event (e : intake_event) (a : Store) : Store :=
  match e with
  | FromTCP (EvRouted _ ts m) => store_message TransportTCP ts m a
  | FromUDP (Routed ts m) => store_message TransportUDP ts m a
  | Reloaded c => mkStore (Reload c (st_registry a)).2 (st_data a) (st_unknown a) (st_messages a)
  | _ => a
  end.

Definition store_events (tr : list intake_event) (a : Store) : Store := fold_left (fun a e => store_event e a) tr a.

(** The store a router holds. *)
Definition store_of (r : MessageRouter D U) : Store :=
  mkStore (registry r) (dataWriter r) (unknown r) (Messages (Router.counters r)).

(** The events of the TCP server in a trace. *)
Definition tcp_events (tr : list intake_event) : list event :=
  omap (fun e => match e with FromTCP e => Some e | _ => None end) tr.
End intake.
Arguments Intake D U : clear implicits.
Arguments Store D U : clear implicits.

(** ** Lemmas: the store *)

Section store.
Context {D U : Type} `{!SensorDataWriter D} `{!UnknownMessageWriter U}.
Context (data_returns : forall f r t ts v (d : D) p, (WriteSensorData f r t ts v d).1 <> Panic p).

Lemma store_events_app tr tr' (a : Store D U) : store_events (tr ++ tr') a = store_events tr' (store_events tr a).
Proof. apply fold_left_app. Qed.

(** [Route] after its counters of messages and keepalives. *)
Lemma Route_started tr ts m (r : MessageRouter D U) :
  Route tr ts m r = (
    s ← get; let snap := Router.Snapshot (registry s) in
    match snapshot_Device snap (MAC (Header m)) with
    | None =>
        Router.count add_unknown_device;;
        err ← attempt_err (on_unknown (WriteUnknownMessage (mkUnknownMessage ts tr (cloneMessage m))));
        match err with
        | Some e => Router.count add_quarantine_failure;; fail (ErrWrap "quarantine message" e)
        | None => fail (ErrNew ErrUnknownDevice)
        end
    | Some device =>
        result ← route_records snap (MAC (Header m)) device tr ts (Protocol.Sensors m) None;
        return_err result
    end) (mkRouter (registry r) (dataWriter r) (unknown r) (Router.started m (Router.counters r)) (observing r) (observed r)).
Proof. unfold Route, Router.started. by destruct (bool_decide _). Qed.

Lemma Route_store tr ts m (r : MessageRouter D U) :
  store_of (Route tr ts m r).2 = store_message tr ts m (store_of r).
Proof.
  unfold store_message. cbn [store_of st_registry st_data st_unknown st_messages].
  set (s1 := mkRouter (registry r) (dataWriter r) (unknown r) (Router.started m (Router.counters r)) (observing r) (observed r)).
  assert (Messages (Router.started m (Router.counters r)) = u64 (Messages (Router.counters r) + 1)) as Hm
    by (unfold Router.started; by destruct (bool_decide _)).
  rewrite Route_started. fold s1.
  unfold mbind at 1, M_bind at 1, get. cbn zeta. change (registry s1) with (registry r).
  destruct (snapshot_Device _ _) as [device|].
  - destruct (route_records_summary data_returns (Router.Snapshot (registry r)) (MAC (Header m)) device tr ts (Protocol.Sensors m) None s1)
      as (res & s' & E & [H1 H2 H3 H4 H5 (ok & failed & missing & _ & _ & _ & Hc & _)]).
    unfold mbind, M_bind. rewrite E.
    assert (store_of s' = mkStore (registry r)
      (write_each device ts (known_records (Router.Snapshot (registry r)) (Protocol.Sensors m)) (dataWriter r)).2
      (unknown r) (u64 (Messages (Router.counters r) + 1))) as <-; [|by destruct res].
    unfold store_of. rewrite H1, H2, H4, (ct_messages _ _ _ _ _ Hc). cbn [s1 Router.counters]. by rewrite <- Hm.
  - unfold mbind, M_bind, Router.count, modify, attempt_err, on_unknown, zoom. cbn [s1 unknown].
    assert (cloneMessage m = m) as -> by by destruct m.
    unfold store_of. rewrite <- Hm.
    destruct (WriteUnknownMessage (mkUnknownMessage ts tr m) (unknown r)) as [[[]|e|p] u]; cbn;
      unfold Router.started; by destruct (bool_decide _).
Qed.
End store.

(** ** Lemmas: the servers and their handler *)

Definition not_routed (e : event) : Prop := match e with EvRouted _ _ _ => False | _ => True end.
Definition not_urouted (e : uevent) : Prop := match e with Routed _ _ => False | _ => True end.
Definition is_handle (a : action) : bool := match a with AHandle _ _ => true | _ => false end.
Definition is_route (a : uaction) : bool := match a with URoute _ _ => true | _ => false end.

Section handlers.
Context {H H' : Type} `{!MessageHandler H} `{!MessageHandler H'}.

(** A step without the handler does not depend on it. *)
Lemma exec_unhandled a (s : TCPServer unit) (h : H) (h' : H') evs t :
  is_handle a = false -> exec a (retag h s) = Some (evs, t) ->
  handler t = h /\ Forall not_routed evs /\ exec a (retag h' s) = Some (evs, retag h' t).
Proof.
  intros Ha. unfold exec. cbn [retag crashed objects]. destruct (crashed s); [done|].
  destruct (conn_of a) as [i|] eqn:Ei.
  - destruct (objects s !! i) as [c|]; [|done]. unfold conn_step.
    destruct a; try done; destruct (pc c); try done; cbn [retag TcpServer.options].
    + destruct (conn_closed c); [done|]. destruct (readMessage _ _ _) as [[outcome|err|p] n];
        unfold received; cbn; repeat case_match; intros [= <- <-]; by repeat constructor.
    + destruct (conn_closed c); [|done]. unfold received; cbn; repeat case_match; intros [= <- <-]; by repeat constructor.
    + intros [= <- <-]. by repeat constructor.
    + intros [= <- <-]. by repeat constructor.
    + unfold close_previous. repeat case_match; intros [= <- <-]; by repeat constructor.
    + intros [= <- <-]. by repeat constructor.
    + intros [= <- <-]. by repeat constructor.
    + intros [= <- <-]. by repeat constructor.
    + intros [= <- <-]. cbn. destruct (bound c); by repeat constructor.
  - destruct a; try done; unfold serve_step, close_step, startConnection, register, start; cbn;
      repeat case_match; try done; intros [= <- <-]; by repeat constructor.
Qed.

(** The step with the handler gives the message to it. *)
Lemma exec_handle i now (s : TCPServer unit) (h : H) evs t :
  exec (AHandle i now) (retag h s) = Some (evs, t) ->
  exists m rest, evs = EvRouted i now m :: rest /\ Forall not_routed rest /\
    handler t = (handle TransportTCP now m h).2 /\
    forall h', (handle TransportTCP now m h').1 = (handle TransportTCP now m h).1 ->
      exec (AHandle i now) (retag (h' : H') s) = Some (evs, retag (handle TransportTCP now m h').2 t).
Proof.
  unfold exec. cbn [retag crashed objects conn_of]. destruct (crashed s); [done|].
  destruct (objects s !! i) as [c|]; [|done]. unfold conn_step. destruct (pc c) as [| | |? ?|? ?|m| | | | |]; try done.
  unfold routed. cbn [handler retag]. destruct (handle TransportTCP now m h) as [r h1] eqn:E.
  intros Hs. exists m.
  assert (exists rest, evs = EvRouted i now m :: rest /\ Forall not_routed rest /\ handler t = h1) as (rest & -> & Hr & Ht).
  { destruct r as [u|e|p]; [|destruct (_ || _)|]; injection Hs as <- <-; eexists; (split; [done|]); by repeat constructor. }
  exists rest. split_and!; [done|done|by rewrite E|]. intros h' E'. rewrite E in E'. destruct (handle TransportTCP now m h') as [r' h1']. cbn in E'. subst r'.
  destruct r as [u|e|p]; [|destruct (_ || _)|]; injection Hs as <- <-; done.
Qed.
End handlers.

Section uhandlers.
Context {H : Type} `{!MessageHandler H}.

(** The UDP server gives its handler the messages it reports as routed. *)
Lemma uexec_handler a (s : UDPServer unit) (h : H) evs t :
  uexec a (uretag h s) = Some (evs, t) ->
  (Forall not_urouted evs /\ uhandler t = h) \/
  exists now m rest, evs = Routed now m :: rest /\ Forall not_urouted rest /\
    uhandler t = (handle TransportUDP now m h).2.
Proof.
  unfold uexec. cbn [uretag ucrashed workers]. destruct (ucrashed s); [done|].
  destruct a as [from|r|d|j|j|j now|j| |r| |]; cbn; try (destruct (workers s !! j) as [w|]; [|done]); intros E.
  6: { destruct w as [| |p m| |]; try done. cbn in E. right. exists now, m.
       destruct (handle TransportUDP now m h) as [r h'] eqn:Eh.
       destruct r as [u|e|q]; [|destruct (_ || _)|]; injection E as <- <-; eexists; (split; [done|]); by repeat constructor. }
  all: left; unfold send in E; repeat case_match; simplify_eq; by repeat constructor.
Qed.
End uhandlers.

(** ** Lemmas: the composition *)

Section composition.
Context {D U : Type} `{!SensorDataWriter D} `{!UnknownMessageWriter U}.
Context (data_returns : forall f r t ts v (d : D) p, (WriteSensorData f r t ts v d).1 <> Panic p).
Implicit Types s : Intake D U.

Lemma store_quiet evs (a : Store D U) : Forall not_routed evs -> store_events (map FromTCP evs) a = a.
Proof. induction 1 as [|e evs He _ IH]; [done|]. by destruct e. Qed.
Lemma store_uquiet evs (a : Store D U) : Forall not_urouted evs -> store_events (map FromUDP evs) a = a.
Proof. induction 1 as [|e evs He _ IH]; [done|]. by destruct e. Qed.

Lemma intake_step_store a s evs s' : intake_step a s = Some (evs, s') ->
  store_of (it_router s') = store_events evs (store_of (it_router s)).
Proof.
  destruct a as [a|a|c]; cbn [intake_step].
  - destruct (exec _ _) as [[es t]|] eqn:E; [|done]. intros [= <- <-]. cbn [it_router].
    destruct (is_handle a) eqn:Ea.
    + destruct a as [| | | | | | | | |i now| | | | | | | | |]; try done.
      destruct (exec_handle (H' := Tape) _ _ _ _ _ _ E) as (m & rest & -> & Hr & -> & _).
      cbn [map]. change (store_events (FromTCP (EvRouted i now m) :: map FromTCP rest) (store_of (it_router s)))
        with (store_events (map FromTCP rest) (store_message TransportTCP now m (store_of (it_router s)))).
      rewrite store_quiet by done. by apply Route_store.
    + destruct (exec_unhandled (H' := Tape) a _ _ [] _ _ Ea E) as (-> & Hr & _). by rewrite store_quiet.
  - destruct (uexec _ _) as [[es t]|] eqn:E; [|done]. intros [= <- <-]. cbn [it_router].
    destruct (uexec_handler _ _ _ _ _ E) as [[Hr ->]|(now & m & rest & -> & Hr & ->)]; [by rewrite store_uquiet|].
    cbn [map]. change (store_events (FromUDP (Routed now m) :: map FromUDP rest) (store_of (it_router s)))
      with (store_events (map FromUDP rest) (store_message TransportUDP now m (store_of (it_router s)))).
    rewrite store_uquiet by done. by apply Route_store.
  - by intros [= <- <-].
Qed.

Lemma intake_reachable_store s0 tr s : intake_reachable s0 tr s ->
  store_of (it_router s) = store_events tr (store_of (it_router s0)).
Proof.
  induction 1 as [|tr s a evs s' R IH E]; [done|].
  rewrite store_events_app, <- IH. by apply (intake_step_store a).
Qed.

Lemma tcp_events_app tr tr' : tcp_events (tr ++ tr') = tcp_events tr ++ tcp_events tr'.
Proof. apply omap_app. Qed.
Lemma tcp_events_tcp evs : tcp_events (map FromTCP evs) = evs.
Proof. induction evs as [|e evs IH]; [done|]. cbn. by f_equal. Qed.
Lemma tcp_events_udp evs : tcp_events (map FromUDP evs) = [].
Proof. by induction evs. Qed.

(** The TCP server of the composition is one whose handler answers with the
    results the router gave. *)
Lemma intake_step_tape a s evs s' : intake_step a s = Some (evs, s') ->
  (it_tcp s' = it_tcp s /\ tcp_events evs = []) \/
  exists a' tape, forall rest : Tape,
    exec a' (retag (tape ++ rest) (it_tcp s)) = Some (tcp_events evs, retag rest (it_tcp s')).
Proof.
  destruct a as [a|a|c]; cbn [intake_step].
  - destruct (exec _ _) as [[es t]|] eqn:E; [|done]. intros [= <- <-]. right. exists a. rewrite tcp_events_tcp.
    destruct (is_handle a) eqn:Ea.
    + destruct a as [| | | | | | | | |i now| | | | | | | | |]; try done.
      destruct (exec_handle (H' := Tape) _ _ _ _ _ _ E) as (m & rest & -> & _ & _ & K).
      exists [(handle TransportTCP now m (it_router s)).1]. intros tape. by apply K.
    + exists []. intros tape. by apply (exec_unhandled (H' := Tape) a _ _ tape _ _ Ea E).
  - destruct (uexec _ _) as [[es t]|] eqn:E; [|done]. intros [= <- <-]. left. by rewrite tcp_events_udp.
  - intros [= <- <-]. by left.
Qed.

Lemma intake_reachable_tape s0 tr s : intake_reachable s0 tr s ->
  exists tape, forall rest : Tape,
    TcpServer.reachable (retag (tape ++ rest) (it_tcp s0)) (tcp_events tr) (retag rest (it_tcp s)).
Proof.
  induction 1 as [|tr s a evs s' R [tape IH] E]; [exists []; intros; constructor|].
  rewrite tcp_events_app. destruct (intake_step_tape _ _ _ _ E) as [[-> ->]|(a' & tape' & K)].
  - exists tape. intros rest. by rewrite app_nil_r.
  - exists (tape ++ tape'). intros rest. rewrite <- app_assoc. eapply reachable_step; [apply IH|apply K].
Qed.
End composition.

(** ** Properties *)

Section properties.
Context {D U : Type} `{!SensorDataWriter D} `{!UnknownMessageWriter U}.
Context (data_returns : forall f r t ts v (d : D) p, (WriteSensorData f r t ts v d).1 <> Panic p).
Implicit Types s : Intake D U.


End properties.

(** ** Concrete runs *)

#[local] Existing Instance refusing.
#[local] Existing Instance keeping.

Section runs.
Context {D U : Type} `{!SensorDataWriter D} `{!UnknownMessageWriter U}.
Implicit Types s : Intake D U.

Fixpoint intake_run (l : list intake_action) s : option (list intake_event * Intake D U) :=
  match l with
  | [] => Some ([], s)
  | a :: l =>
      match intake_step a s with
      | Some (evs, s) => match intake_run l s with Some (evs', s) => Some (evs ++ evs', s) | None => None end
      | None => None
      end
  end.

Lemma intake_run_reachable s0 : forall l tr s evs s',
  intake_reachable s0 tr s -> intake_run l s = Some (evs, s') -> intake_reachable s0 (tr ++ evs) s'.
Proof.
  induction l as [|a l IH]; intros tr s evs s' R E; cbn [intake_run] in E.
  - injection E as <- <-. by rewrite app_nil_r.
  - destruct (intake_step a s) as [[evs1 s1]|] eqn:E1; [|done].
    destruct (intake_run l s1) as [[evs2 s2]|] eqn:E2; [|done]. injection E as <- <-.
    rewrite app_assoc. eapply IH; [|exact E2]. by econstructor.
Qed.

Definition intake_outcome (l : list intake_action) s : list intake_event * Intake D U :=
  match intake_run l s with Some p => p | None => ([], s) end.

Lemma intake_outcome_reachable l s : intake_reachable s (intake_outcome l s).1 (intake_outcome l s).2.
Proof.
  unfold intake_outcome. destruct (intake_run l s) as [[evs s']|] eqn:E; [|constructor].
  change evs with ([] ++ evs). eapply intake_run_reachable; [constructor|exact E].
Qed.
End runs.

Definition sample_intake : Intake data_log (list UnknownMessage) :=
  mkIntake sample_router
    (mkTCPServer (mkTCPOptions 2 5000000000) tt false false 0 [] ∅ ∅ 0 0 (mkTCPCounters 0 0 0 0 0 0)
       Accepting NotClosing false)
    (mkUDPServer (mkUDPOptions 2 1) tt false false [] false [] [] (mkUDPCounters 0 0 0 0) Getting [Idle; Idle] Open false).

Lemma sample_intake_new :
  open_intake sample_router (mkTCPOptions 2 5000000000) (mkUDPOptions 2 1) = inr sample_intake.
Proof. reflexivity. Qed.

(** A connection with the four frames of [TcpServer.sample_frames]; a datagram
    is received and handled between its messages. *)
Definition sample_opening : list intake_action := map InTCP (open_connection sample_conn).
Definition sample_mix : list intake_action :=
  map InUDP [UGet None; URead sample_datagram] ++
  map InTCP [AStart; ARead 0 1; ABind 0; AAnnounce 0; AClosePrevious 0] ++
  map InUDP [USend false; UTake 0; UDecode 0] ++ [InReload None] ++
  map InTCP [AHandle 0 2; ARead 0 3] ++ [InUDP (URoute 0 4)] ++
  map InTCP [ARead 0 4; ARead 0 5; AHandle 0 6; ARead 0 7].

Definition sample_before : list intake_event * Intake data_log (list UnknownMessage) :=
  intake_outcome sample_opening sample_intake.
Definition sample_after : list intake_event * Intake data_log (list UnknownMessage) :=
  intake_outcome sample_mix sample_before.2.


