(* ===== verification/Pipeline.v ===== *)
(** * From the messages to the disk

    The data engine as the data writer of the intake: what [Intake.v] says of
    any writer and what [Storage.v] says of the engine, its streams and their
    files, put together.  Between two steps of a call of [WriteSensorData], the
    workers of the streams run as a schedule says; the theorems hold for every
    schedule. *)

From S2P Require Import Prelude GoRuntime GoStrings House BinaryData Protocol Router TcpServer UdpServer Intake Platform DataFile Config DataStream DataEngine Storage.
Open Scope Z_scope.

(** ** The engine as a writer *)

(** What happens around one call: steps of the workers before it and while it
    waits for a place in the queue, and whether the wait ends, by the context
    or the timer of [Write], before the record is sent. *)
Record turn : Type := mkTurn {
  before : list (nat * DataStream.action);
  meanwhile : list (nat * DataStream.action);
  gives_up : option (option error) }.

(** The engine in its environment, the events so far and the turns to come. *)
Record Scheduled : Type := mkScheduled {
  sd_engine : DataEngine.DataEngine (H := nat) (E := Disk);
  sd_trace : list storage_event;
  sd_turns : list turn }.

Definition calm : turn := mkTurn [] [] None.

Section writer.
Context (root : dir_path) (c : DataStreamConfig).

Definition worker_action (a : DataStream.action) : bool :=
  match a with AReceive | AAttempt | ATimer | ATick => true | _ => false end.

(** The steps of the workers that can be done. *)
Fixpoint background (l : list (nat * DataStream.action)) (d : Scheduled) : Scheduled :=
  match l with
  | [] => d
  | (h, a) :: l =>
      background l
        (if worker_action a then
           match storage_step root c (OnStream h a) (sd_engine d) with
           | Some (evs, s) => mkScheduled s (sd_trace d ++ evs) (sd_turns d)
           | None => d
           end
         else d)
  end.

(** The error a step returns to its caller, if it returns one. *)
Definition returned (evs : list storage_event) : option error :=
  head (omap (fun e => match e with
                       | FromEngine (EvError _ e) => Some e
                       | FromStream _ (EvReturn _ (Some e)) => Some e
                       | _ => None
                       end) evs).

(** A step of the call; a call that cannot go on ends with its context. *)
Definition call (a : storage_action) : M Scheduled unit := fun d =>
  match storage_step root c a (sd_engine d) with
  | Some (evs, s) =>
      (match returned evs with Some e => Fail e | None => Ret tt end,
       mkScheduled s (sd_trace d ++ evs) (sd_turns d))
  | None => (Fail (ErrNew context_Canceled), d)
  end.

Definition can (a : storage_action) (d : Scheduled) : bool :=
  match storage_step root c a (sd_engine d) with Some _ => true | None => false end.

(** The end of [stream.Write] on stream [h]. *)
Definition finish_write (h : nat) (ending : option (option error)) : M Scheduled unit := fun d =>
  match ending with
  | Some e => call (OnStream h (DataStream.AReject 0 e)) d
  | None =>
      if can (OnStream h (ASend 0)) d
      then (call (OnStream h (ASend 0));; call (OnStream h (ACount 0))) d
      else call (OnStream h (DataStream.AReject 0 None)) d
  end.

Definition next_turn (d : Scheduled) : turn := default calm (head (sd_turns d)).

(** [src/sensor-server/data-engine.go:70-79] WriteSensorData: the load of
    [closed], the stream of the key, and its [Write] *)
Definition write_sensor_data (f : FloorType) (r : RoomType) (t : SensorType) (timestamp value : Z)
    : M Scheduled unit :=
  turn ← gets next_turn;
  modify (fun d => mkScheduled (sd_engine d) (sd_trace d) (tail (sd_turns d)));;
  modify (background (before turn));;
  call (CallWrite (mkKey f r t));;
  call (GetStream 0);;
  h ← gets (fun d => default 0%nat (streams (sd_engine d) !! mkKey f r t));
  call (CallStream 0 (mkSensorData timestamp value));;
  modify (background (meanwhile turn));;
  finish_write h (gives_up turn).

Definition scheduled_writer : SensorDataWriter Scheduled := write_sensor_data.
End writer.

(** ** What the intake gives to the engine *)

Section given.
Context {D U : Type} `{!SensorDataWriter D} `{!UnknownMessageWriter U}.

Abbreviation entry := (dataStreamKey * SensorData)%type.

Definition entry_of (device : Device) (timestamp : Z) (p : SensorRecord * SensorDefinition) : entry :=
  (mkKey (d_Floor device) (d_Room device) (sd_Type p.2), mkSensorData timestamp (RValue p.1)).

(** The records of a message, and those whose write returned no error. *)
Definition offered_message (snap : ConfigSnapshot) (ts : Z) (m : Message) : list entry :=
  match snapshot_Device snap (MAC (Header m)) with
  | Some device => map (entry_of device ts) (known_records snap (Protocol.Sensors m))
  | None => []
  end.

Fixpoint taken_each (device : Device) (ts : Z) (l : list (SensorRecord * SensorDefinition)) (d : D) : list entry :=
  match l with
  | [] => []
  | p :: l =>
      let '(res, d) := WriteSensorData (d_Floor device) (d_Room device) (sd_Type p.2) ts (RValue p.1) d in
      (match res with Ret _ => [entry_of device ts p] | _ => [] end) ++ taken_each device ts l d
  end.

Definition taken_message (ts : Z) (m : Message) (a : Store D U) : list entry :=
  let snap := Router.Snapshot (st_registry a) in
  match snapshot_Device snap (MAC (Header m)) with
  | Some device => taken_each device ts (known_records snap (Protocol.Sensors m)) (st_data a)
  | None => []
  end.

(** The same for all messages of a trace, in order. *)
Definition event_message (e : intake_event) : option (Z * Message) :=
  match e with
  | FromTCP (EvRouted _ ts m) | FromUDP (Routed ts m) => Some (ts, m)
  | _ => None
  end.

Fixpoint offered_events (tr : list intake_event) (a : Store D U) : list entry :=
  match tr with
  | [] => []
  | e :: tr =>
      (match event_message e with
       | Some (ts, m) => offered_message (Router.Snapshot (st_registry a)) ts m
       | None => []
       end) ++ offered_events tr (store_event e a)
  end.

Fixpoint taken_events (tr : list intake_event) (a : Store D U) : list entry :=
  match tr with
  | [] => []
  | e :: tr =>
      (match event_message e with Some (ts, m) => taken_message ts m a | None => [] end)
      ++ taken_events tr (store_event e a)
  end.

(** The records of one location and sensor type. *)
Definition entries_of (k : dataStreamKey) (l : list entry) : list SensorData :=
  (filter (fun e => e.1 = k) l).*2.
End given.

(** ** Lemmas: a call, step by step *)

Section calls.
Context (root : dir_path) (cfg : Config) (valid : valid_config cfg) (fs0 : FS).
Context (disk_ready : forall k, known_key k -> ready root (Config.DataStream cfg) fs0 k).
Context (disk_faultless : no_faults fs0).
Abbreviation c := (Config.DataStream cfg).
Abbreviation engine_state := (DataEngine.DataEngine (H := nat) (E := Disk)).
Implicit Types s : engine_state.

(** What the callers see of the engine: the streams, the calls, and the
    submissions and the lock of each stream. *)
Definition submissions (o : DataStream DataFile) : list submission * DataStream.closing := (submitMu o, closeOnce o).
Record calls s (m : gmap dataStreamKey nat) (reqs : list (request (H := nat)))
    (l : list (list submission * DataStream.closing)) : Prop := mkCalls {
  ca_streams : streams s = m;
  ca_requests : requests s = reqs;
  ca_objects : submissions <$> objects (env s) = l }.

(** A state that a run with short traces reaches. *)
Record running (tr : list storage_event) s : Prop := mkRunning {
  rn_reachable : storage_reachable root c fs0 tr s;
  rn_bound : Z.of_nat (length tr) < 2 ^ 63 }.

Lemma running_ok tr s : running tr s -> storage_ok root fs0 (length tr) tr s.
Proof.
  intros [R Hn]. exact (storage_reachable_ok root cfg valid fs0 (length tr) disk_ready Hn disk_faultless tr s R ltac:(done)).
Qed.

Lemma running_step tr s a evs s' :
  running tr s -> asks_known a -> storage_step root c a s = Some (evs, s') ->
  Z.of_nat (length (tr ++ evs)) < 2 ^ 63 -> running (tr ++ evs) s'.
Proof. intros [R _] Ha E Hn. split; [by econstructor|done]. Qed.

Lemma calls_lookup s m reqs l h x : calls s m reqs l -> l !! h = Some x ->
  exists o, objects (env s) !! h = Some o /\ submissions o = x.
Proof. intros [_ _ <-]. rewrite list_lookup_fmap. intros (o & -> & ->)%fmap_Some. eauto. Qed.

(** A step of a stream, with what it does to its submissions. *)
Lemma stream_step_calls s m reqs l h o a evs (t : DataStream (DataFile * FS)) :
  calls s m reqs l -> objects (env s) !! h = Some o -> DataStream.exec a (mounted (disk (env s)) o) = Some (evs, t) ->
  exists e, stream_step h a (env s) = Some (map (FromStream h) evs, e) /\
    calls (set_env e s) m reqs (<[h := (submitMu t, closeOnce t)]> l).
Proof.
  intros [H1 H2 H3] Ho Ex. unfold stream_step. rewrite Ho, Ex. eexists. split; [done|].
  split; [done|done|]. cbn [env set_env objects]. rewrite list_fmap_insert, H3. done.
Qed.

(** The worker's steps leave the submissions alone. *)
Lemma worker_exec {W} `{!RecordWriter W} a (o : DataStream W) evs (t : DataStream W) :
  worker_action a = true -> DataStream.exec a o = Some (evs, t) ->
  submitMu t = submitMu o /\ closeOnce t = closeOnce o /\ sent evs = [].
Proof. intros Ha Ex. exec_cases Ex; done. Qed.

Lemma sent_stream h evs : sent (stream_events h (map (FromStream h) evs)) = sent evs.
Proof. by rewrite stream_events_same. Qed.

(** No record enters a queue. *)
Definition silent (evs : list storage_event) : Prop := forall h, sent (stream_events h evs) = [].

Lemma silent_app evs evs' : silent evs -> silent evs' -> silent (evs ++ evs').
Proof. intros H1 H2 h. rewrite stream_events_app. unfold sent. rewrite omap_app. fold (sent (stream_events h evs)).
  rewrite H1. apply H2. Qed.

Lemma silent_engine evs : silent (map FromEngine evs).
Proof. intros h. by rewrite stream_events_engine. Qed.

Lemma silent_stream h evs : sent evs = [] -> silent (map (FromStream h) evs).
Proof.
  intros H h'. destruct (decide (h = h')) as [<-|Hne]; [by rewrite sent_stream|]. by rewrite stream_events_other.
Qed.

Lemma worker_step_calls s m reqs l h a evs s' :
  calls s m reqs l -> worker_action a = true -> storage_step root c (OnStream h a) s = Some (evs, s') ->
  calls s' m reqs l /\ silent evs /\ DataEngine.closed s' = DataEngine.closed s.
Proof.
  intros C Ha E. unfold storage_step in E. destruct (existsb _ _); [done|].
  destruct (inner h a s); [|done]. destruct (stream_step h a (env s)) as [[es e]|] eqn:Es; [|done].
  injection E as <- <-. unfold stream_step in Es. destruct (objects (env s) !! h) as [o|] eqn:Eo; [|done].
  destruct (DataStream.exec a _) as [[es' s1]|] eqn:Ex; [|done]. injection Es as <- <-.
  destruct (worker_exec _ _ _ _ Ha Ex) as (E1 & E2 & E3). destruct C as [C1 C2 C3].
  split; [|split; [by apply silent_stream|done]].
  split; [done|done|]. cbn [env set_env objects]. rewrite list_fmap_insert, C3. unfold submissions. cbn [unmounted rewriter submitMu closeOnce].
  rewrite E1, E2. apply list_insert_id. rewrite <- C3, list_lookup_fmap, Eo. done.
Qed.

(** Any step but a new call, when no call is under way. *)
Lemma quiet_exec {W} `{!RecordWriter W} a (o : DataStream W) evs (t : DataStream W) :
  submitMu o = [] -> (forall d, a <> ASubmit d) -> DataStream.exec a o = Some (evs, t) ->
  submitMu t = [] /\ sent evs = [].
Proof.
  intros Ho Ha Ex. exec_cases Ex; try done; try (by destruct (Ha data));
    match goal with Hi : submitMu _ !! _ = Some _ |- _ => by rewrite Ho in Hi | _ => idtac end.
Qed.

Definition quiet s : Prop := requests s = [] /\ Forall (fun o => submitMu o = []) (objects (env s)).

Lemma quiet_step s a evs s' :
  quiet s -> (forall k, a <> CallWrite k) -> storage_step root c a s = Some (evs, s') ->
  quiet s' /\ streams s' = streams s /\ silent evs.
Proof.
  intros [Q1 Q2] Ha E. unfold storage_step in E. destruct (existsb _ _); [done|].
  destruct a as [k|i|i d| | | | |h a]; try (by destruct (Ha k)); unfold engine_step in E; cbn in E;
    rewrite ?Q1 in E; try done.
  - destruct (DataEngine.closed s); injection E as <- <-; (split_and!; [by split|done|apply (silent_engine [_]) || apply (silent_engine [])]).
  - unfold DataEngine.close_step in E. destruct (DataEngine.closing s); try done. injection E as <- <-.
    split_and!; [by split|done|apply (silent_engine [])].
  - unfold DataEngine.close_step in E. destruct (DataEngine.closing s) as [| |[|h l] res|]; try done.
    destruct (objects (env s) !! h); [|done]. destruct (_ && _); [|done]. injection E as <- <-.
    split_and!; [by split|done|apply (silent_engine [_])].
  - unfold DataEngine.close_step in E. destruct (DataEngine.closing s) as [| |[|h l] res|]; try done. injection E as <- <-.
    split_and!; [by split|done|apply (silent_engine [_])].
  - destruct (inner h a s) eqn:Ei; [|done]. destruct (stream_step h a (env s)) as [[es e]|] eqn:Es; [|done].
    injection E as <- <-. unfold stream_step in Es. destruct (objects (env s) !! h) as [o|] eqn:Eo; [|done].
    destruct (DataStream.exec a _) as [[es' s1]|] eqn:Ex; [|done]. injection Es as <- <-.
    assert (submitMu (mounted (disk (env s)) o) = []) as Ho by (by apply (Forall_lookup_1 _ _ _ _ Q2 Eo)).
    destruct (quiet_exec a _ _ _ Ho ltac:(by intros d ->) Ex) as [E1 E2].
    split_and!; [split; [done|]|done|by apply silent_stream].
    apply Forall_insert; [exact Q2|exact E1].
Qed.

(** The steps of a call of [WriteSensorData], when no other call is under way
    and the engine is open. *)
Definition idle (x : list submission * DataStream.closing) : Prop := x = ([], CloseIdle).

Lemma call_write_step tr s m l k :
  running tr s -> calls s m [] l -> DataEngine.closed s = false ->
  exists s', storage_step root c (CallWrite k) s = Some ([], s') /\ calls s' m [Loaded k] l /\ DataEngine.closed s' = false.
Proof.
  intros R [C1 C2 C3] Hc. unfold storage_step, engine_step. rewrite (storage_alive _ _ _ _ _ (running_ok _ _ R)).
  cbn. rewrite Hc. eexists. split; [done|]. split; [|done]. split; [done| |done]. cbn. by rewrite C2.
Qed.

Lemma get_stream_step tr s m l k :
  running tr s -> calls s m [Loaded k] l -> DataEngine.closed s = false -> Forall idle l ->
  exists evs s' h m' l', storage_step root c (GetStream 0) s = Some (map FromEngine evs, s') /\
    returned (map FromEngine evs) = None /\ calls s' m' [HasStream k h] l' /\ DataEngine.closed s' = false /\
    m' !! k = Some h /\ l' !! h = Some ([], CloseIdle) /\ Forall idle l' /\ (m !! k = Some h \/ h = length l) /\
    (forall k' h', m' !! k' = Some h' -> m !! k' = Some h' \/ m !! k' = None /\ k' = k) /\
    (forall k' h', m !! k' = Some h' -> m' !! k' = Some h').
Proof.
  intros R C Hc Hl. pose proof (running_ok _ _ R) as O. pose proof C as [C1 C2 C3].
  unfold storage_step, engine_step. rewrite (storage_alive _ _ _ _ _ O). cbn. rewrite C2. cbn.
  assert (known_key k) as Hk by (apply (sk_requests _ _ _ _ _ O 0%nat); by rewrite C2).
  assert (forall h, m !! k = Some h -> l !! h = Some ([], CloseIdle)) as Hidle.
  { intros h Hh. rewrite <- C1 in Hh. destruct (sk_streams _ _ _ _ _ O k h Hh) as (_ & o & Ho & _).
    assert (l !! h = Some (submissions o)) as E by (by rewrite <- C3, list_lookup_fmap, Ho).
    by rewrite E, (Forall_lookup_1 _ _ _ _ Hl E). }
  unfold stream, is_new. rewrite Hc, C1. destruct (m !! k) as [h|] eqn:Em.
  - rewrite bool_decide_eq_false_2 by done. exists [], (set_requests [HasStream k h] s), h, m, l.
    split_and!; try done; [by apply Hidle|by left|auto].
  - rewrite bool_decide_eq_true_2 by done. rewrite <- C1 in Em.
    destruct (ready_still root cfg fs0 _ disk_ready _ _ _ O Hk Em) as [Hrd _].
    destruct (factory_creates root cfg valid k (env s) Hrd) as (f & fs & o & Ef & _ & Eo). rewrite Ef.
    set (h := length (objects (env s))). rewrite C1 in Em.
    assert (submissions o = ([], CloseIdle)) as Hsub.
    { unfold NewDataStream in Eo. repeat case_match; try done. by injection Eo as <-. }
    eexists [EvCreated k h], _, h, (<[k := h]> m), (l ++ [([], CloseIdle)]).
    split; [done|]. split; [done|]. split; [|split; [done|]].
    + split; cbn; [done|done|]. by rewrite fmap_app, C3; cbn; rewrite Hsub.
    + split_and!.
      * apply lookup_insert_eq.
      * rewrite lookup_app_r; [|rewrite <- C3, length_fmap; done].
        rewrite <- C3, length_fmap. unfold h. by rewrite Nat.sub_diag.
      * apply Forall_app. split; [done|]. by apply Forall_singleton.
      * right. unfold h. by rewrite <- C3, length_fmap.
      * intros k' h'. destruct (decide (k = k')) as [<-|Hne]; [by right|].
        rewrite lookup_insert_ne by done. by left.
      * intros k' h' Hk'. rewrite lookup_insert_ne; [done|]. congruence.
Qed.

(** The object behind a handle, with what [Storage.v] knows of it. *)
Lemma calls_object tr s m reqs l h x :
  running tr s -> calls s m reqs l -> l !! h = Some x -> x.2 = CloseIdle ->
  exists o, objects (env s) !! h = Some o /\ submitMu o = x.1 /\ closeOnce o = CloseIdle /\
    DataStream.crashed (mounted (disk (env s)) o) = false /\ DataStream.closed o = false /\ queueClosed o = false.
Proof.
  intros R C Hx Hi. destruct (calls_lookup _ _ _ _ _ _ C Hx) as (o & Ho & <-). exists o. cbn [fst snd submissions] in *.
  pose proof (running_ok _ _ R) as O. destruct (sk_born _ _ _ _ _ O h o Ho) as [k Hk].
  destruct (sk_streams _ _ _ _ _ O k h Hk) as (_ & o' & Ho' & [_ Hlk _ (m' & _ & Hdu) _ _]).
  rewrite Ho in Ho'. injection Ho' as <-. destruct Hlk as [_ K1 K2 _ _ _ _].
  change (closeOnce (mounted (disk (env s)) o)) with (closeOnce o) in K1, K2. rewrite Hi in K1, K2.
  split_and!; try done. apply Hdu.
Qed.

Lemma submit_step tr s m l k h data :
  running tr s -> calls s m [HasStream k h] l -> l !! h = Some ([], CloseIdle) ->
  exists s', storage_step root c (CallStream 0 data) s = Some ([FromEngine (EvWrite k h)], s') /\
    calls s' m [] (<[h := ([Selecting data], CloseIdle)]> l) /\ DataEngine.closed s' = DataEngine.closed s.
Proof.
  intros R C Hx. destruct (calls_object _ _ _ _ _ _ _ R C Hx eq_refl) as (o & Ho & Es & Ecl & Ecr & Eop & _).
  pose proof C as [C1 C2 C3]. cbn [fst] in Es.
  unfold storage_step, engine_step. rewrite (storage_alive _ _ _ _ _ (running_ok _ _ R)), C2. cbn. rewrite C2. cbn.
  assert (calls (set_requests [] s) m [] l) as C' by by split.
  destruct (stream_step_calls (set_requests [] s) m [] l h o (ASubmit data) [] (set_submit [Selecting data] (mounted (disk (env s)) o)) C' Ho)
    as (e & E & Ce).
  - unfold DataStream.exec. cbn [set_requests env]. rewrite Ecr. unfold write_enter, lock_free.
    change (closeOnce (mounted _ o)) with (closeOnce o). change (DataStream.closed (mounted _ o)) with (DataStream.closed o).
    change (submitMu (mounted _ o)) with (submitMu o). rewrite Ecl, Eop, Es. done.
  - cbn [set_requests env] in E. rewrite E. eexists. split; [done|]. split; [|done].
    cbn [submitMu closeOnce set_submit mounted rewriter] in Ce. by rewrite Ecl in Ce.
Qed.

(** A step inside a stream, whose outcome is known. *)
Lemma inner_step tr s m l h x a evs y :
  running tr s -> calls s m [] l -> l !! h = Some x -> x.2 = CloseIdle -> inner h a s = true ->
  (forall o, objects (env s) !! h = Some o -> submitMu o = x.1 -> closeOnce o = CloseIdle ->
     DataStream.crashed (mounted (disk (env s)) o) = false -> queueClosed o = false ->
     forall evs0 t, DataStream.exec a (mounted (disk (env s)) o) = Some (evs0, t) ->
       evs0 = evs /\ submitMu t = y /\ closeOnce t = CloseIdle) ->
  forall evs' s', storage_step root c (OnStream h a) s = Some (evs', s') ->
  evs' = map (FromStream h) evs /\ calls s' m [] (<[h := (y, CloseIdle)]> l) /\
  DataEngine.closed s' = DataEngine.closed s.
Proof.
  intros R C Hx Hi Ha Hex evs' s' E.
  destruct (calls_object _ _ _ _ _ _ _ R C Hx Hi) as (o & Ho & Es & Ecl & Ecr & Eop & Eqc).
  unfold storage_step in E. rewrite (storage_alive _ _ _ _ _ (running_ok _ _ R)), Ha in E.
  destruct (DataStream.exec a (mounted (disk (env s)) o)) as [[evs0 t]|] eqn:Ex.
  - destruct (Hex o Ho Es Ecl Ecr Eqc evs0 t Ex) as (-> & Et1 & Et2).
    destruct (stream_step_calls s m [] l h o a evs t C Ho Ex) as (e & E1 & Ce). rewrite E1 in E. injection E as <- <-.
    rewrite Et1, Et2 in Ce. by split_and!.
  - unfold stream_step in E. by rewrite Ho, Ex in E.
Qed.

Lemma send_step tr s m l h data evs s' :
  running tr s -> calls s m [] l -> l !! h = Some ([Selecting data], CloseIdle) ->
  storage_step root c (OnStream h (ASend 0)) s = Some (evs, s') ->
  evs = [FromStream h (EvSent data)] /\ calls s' m [] (<[h := ([Sent data], CloseIdle)]> l) /\
  DataEngine.closed s' = DataEngine.closed s.
Proof.
  intros R C Hx. apply (inner_step tr s m l h _ (ASend 0) [EvSent data] [Sent data] R C Hx eq_refl eq_refl).
  intros o Ho Es Ecl Ecr Eqc evs0 t Ex. unfold DataStream.exec in Ex. rewrite Ecr in Ex. unfold write_send in Ex.
  change (submitMu (mounted _ o)) with (submitMu o) in Ex. change (queueClosed (mounted _ o)) with (queueClosed o) in Ex.
  rewrite Es, Eqc in Ex. cbn [fst lookup list_lookup] in Ex. destruct (_ <? _); [|done]. by injection Ex as <- <-.
Qed.

Lemma count_step tr s m l h data evs s' :
  running tr s -> calls s m [] l -> l !! h = Some ([Sent data], CloseIdle) ->
  storage_step root c (OnStream h (ACount 0)) s = Some (evs, s') ->
  evs = [FromStream h (EvReturn data None)] /\ calls s' m [] (<[h := ([], CloseIdle)]> l) /\
  DataEngine.closed s' = DataEngine.closed s.
Proof.
  intros R C Hx. apply (inner_step tr s m l h _ (ACount 0) [EvReturn data None] [] R C Hx eq_refl eq_refl).
  intros o Ho Es Ecl Ecr Eqc evs0 t Ex. unfold DataStream.exec in Ex. rewrite Ecr in Ex. unfold write_count in Ex.
  change (submitMu (mounted _ o)) with (submitMu o) in Ex.
  rewrite Es in Ex. cbn [fst lookup list_lookup] in Ex. by injection Ex as <- <-.
Qed.

Lemma reject_step tr s m l h data e evs s' :
  running tr s -> calls s m [] l -> l !! h = Some ([Selecting data], CloseIdle) ->
  storage_step root c (OnStream h (DataStream.AReject 0 e)) s = Some (evs, s') ->
  evs = [FromStream h (EvReturn data (Some (default (ErrNew ErrDataStreamFull) e)))] /\
  calls s' m [] (<[h := ([], CloseIdle)]> l) /\ DataEngine.closed s' = DataEngine.closed s.
Proof.
  intros R C Hx. apply (inner_step tr s m l h _ (DataStream.AReject 0 e) [EvReturn data (Some (default (ErrNew ErrDataStreamFull) e))] [] R C Hx eq_refl eq_refl).
  intros o Ho Es Ecl Ecr Eqc evs0 t Ex. unfold DataStream.exec in Ex. rewrite Ecr in Ex. unfold write_reject in Ex.
  change (submitMu (mounted _ o)) with (submitMu o) in Ex.
  rewrite Es in Ex. cbn [fst lookup list_lookup] in Ex. destruct e; by injection Ex as <- <-.
Qed.

(** The trace of a scheduled engine grows. *)
Definition longer (d d' : Scheduled) : Prop := sd_trace d `prefix_of` sd_trace d'.

#[local] Instance longer_preorder : PreOrder longer.
Proof. split; [intros d; unfold longer; reflexivity|intros d1 d2 d3; unfold longer; apply transitivity]. Qed.
#[local] Hint Resolve longer_preorder : go_steps.

Lemma background_longer acts : forall d, longer d (background root c acts d).
Proof.
  induction acts as [|[h a] acts IH]; intros d; cbn [background]; [done|]. etrans; [|apply IH].
  destruct (worker_action a); [|done]. destruct (storage_step _ _ _ _) as [[evs s]|]; [|done]. by eexists.
Qed.

Lemma call_longer a : steps longer (call root c a).
Proof. intros d. unfold call. destruct (storage_step _ _ _ _) as [[evs s]|]; [|done]. by eexists. Qed.
#[local] Hint Resolve call_longer : go_steps.

Lemma finish_longer h g : steps longer (finish_write root c h g).
Proof.
  intros d. unfold finish_write. destruct g; [apply call_longer|].
  destruct (can _ _ _ _); [|apply call_longer].
  assert (steps longer (call root c (OnStream h (ASend 0));; call root c (OnStream h (ACount 0)))) as H
    by auto with go_steps. apply H.
Qed.

Lemma background_steps_longer acts : steps longer (modify (background root c acts)).
Proof. apply steps_modify. intros d. apply background_longer. Qed.
#[local] Hint Resolve finish_longer background_steps_longer : go_steps.

Lemma write_longer f r t ts v : steps longer (write_sensor_data root c f r t ts v).
Proof.
  unfold write_sensor_data. apply steps_bind; [apply _|auto with go_steps|]. intros turn.
  apply steps_bind; [apply _|apply steps_modify; intros d; unfold longer; cbn; reflexivity|]. intros _. auto 20 with go_steps.
Qed.

Definition bounded (d : Scheduled) : Prop := Z.of_nat (length (sd_trace d)) < 2 ^ 63.

Lemma longer_bounded d d' : longer d d' -> bounded d' -> bounded d.
Proof. intros [l E]. unfold bounded. rewrite E, length_app. lia. Qed.

(** A state during a call. *)
Record at_call (m : gmap dataStreamKey nat) (reqs : list (request (H := nat)))
    (l : list (list submission * DataStream.closing)) (d : Scheduled) : Prop := mkAtCall {
  ac_running : running (sd_trace d) (sd_engine d);
  ac_calls : calls (sd_engine d) m reqs l;
  ac_open : DataEngine.closed (sd_engine d) = false }.

Lemma at_call_step m reqs l d a evs s m' reqs' l' :
  at_call m reqs l d -> asks_known a -> storage_step root c a (sd_engine d) = Some (evs, s) ->
  calls s m' reqs' l' -> DataEngine.closed s = false ->
  bounded (mkScheduled s (sd_trace d ++ evs) (sd_turns d)) ->
  at_call m' reqs' l' (mkScheduled s (sd_trace d ++ evs) (sd_turns d)).
Proof. intros [R _ _] Ha E C Hc Hb. split; [|done..]. by eapply running_step. Qed.

Lemma background_at_call m reqs l acts : forall d,
  at_call m reqs l d -> bounded (background root c acts d) ->
  at_call m reqs l (background root c acts d) /\
  exists evs, sd_trace (background root c acts d) = sd_trace d ++ evs /\ silent evs.
Proof.
  induction acts as [|[h a] acts IH]; intros d A Hb; cbn [background] in *.
  { split; [done|]. exists []. by rewrite app_nil_r. }
  destruct (worker_action a) eqn:Ew; [|by apply IH].
  destruct (storage_step root c (OnStream h a) (sd_engine d)) as [[evs s]|] eqn:E; [|by apply IH].
  set (d1 := mkScheduled s (sd_trace d ++ evs) (sd_turns d)) in *.
  destruct (worker_step_calls _ _ _ _ _ _ _ _ (ac_calls _ _ _ _ A) Ew E) as (C & Hs & Hc).
  assert (at_call m reqs l d1) as A1.
  { apply (at_call_step m reqs l d (OnStream h a)); try done; [rewrite Hc; apply A|].
    eapply longer_bounded; [|exact Hb]. apply background_longer. }
  destruct (IH d1 A1 Hb) as (A2 & evs' & E2 & Hs'). split; [done|]. exists (evs ++ evs').
  rewrite E2. cbn [d1 sd_trace]. rewrite app_assoc. split; [done|]. by apply silent_app.
Qed.

(** Going on after a step that returns nothing to the caller. *)
Lemma call_bind {A} a (rest : M Scheduled A) d evs s :
  storage_step root c a (sd_engine d) = Some (evs, s) -> returned evs = None ->
  (call root c a;; rest) d = rest (mkScheduled s (sd_trace d ++ evs) (sd_turns d)).
Proof. intros E Er. unfold mbind, M_bind, call. by rewrite E, Er. Qed.

Lemma call_fails a d evs s e :
  storage_step root c a (sd_engine d) = Some (evs, s) -> returned evs = Some e ->
  call root c a d = (Fail e, mkScheduled s (sd_trace d ++ evs) (sd_turns d)).
Proof. intros E Er. unfold call. by rewrite E, Er. Qed.

Lemma stream_events_one h h' e : stream_events h' [FromStream h e] = if decide (h = h') then [e] else [].
Proof. cbn. by destruct (decide (h = h')). Qed.

(** The end of the call: the record is in the queue, or it is not and the
    caller gets an error. *)
Lemma finish_write_spec m l h data give d :
  at_call m [] l d -> l !! h = Some ([Selecting data], CloseIdle) -> bounded (final (finish_write root c h give d)) ->
  exists r d', finish_write root c h give d = (r, d') /\ at_call m [] (<[h := ([], CloseIdle)]> l) d' /\
    exists evs, sd_trace d' = sd_trace d ++ evs /\
    ((r = Ret tt /\ forall h', sent (stream_events h' evs) = if decide (h = h') then [data] else []) \/
     (exists e, r = Fail e) /\ silent evs).
Proof.
  intros A Hx Hb. pose proof A as [R C Hc].
  assert (forall g, bounded (final (call root c (OnStream h (DataStream.AReject 0 g)) d)) ->
    exists r d', call root c (OnStream h (DataStream.AReject 0 g)) d = (r, d') /\ at_call m [] (<[h := ([], CloseIdle)]> l) d' /\
    exists evs, sd_trace d' = sd_trace d ++ evs /\ (exists e, r = Fail e) /\ silent evs) as Hrej.
  { intros g Hbg. 
    assert (exists evs s, storage_step root c (OnStream h (DataStream.AReject 0 g)) (sd_engine d) = Some (evs, s)) as (evs & s & E).
    { destruct (calls_object _ _ _ _ _ _ _ R C Hx eq_refl) as (o & Ho & Es & Ecl & Ecr & _). cbn [fst] in Es.
      unfold storage_step. rewrite (storage_alive _ _ _ _ _ (running_ok _ _ R)). cbn [inner]. unfold stream_step. rewrite Ho.
      unfold DataStream.exec. rewrite Ecr. unfold write_reject. change (submitMu (mounted _ o)) with (submitMu o). rewrite Es.
      cbn. eauto. }
    destruct (reject_step _ _ _ _ _ _ _ _ _ R C Hx E) as (-> & C' & Hc').
    assert (returned [FromStream h (EvReturn data (Some (default (ErrNew ErrDataStreamFull) g)))] =
            Some (default (ErrNew ErrDataStreamFull) g)) as Er by done.
    rewrite (call_fails _ _ _ _ _ E Er) in Hbg |- *. do 2 eexists. split; [done|].
    split; [refine (at_call_step _ _ _ _ (OnStream h (DataStream.AReject 0 g)) _ _ _ _ _ A I E C' _ _); [by rewrite Hc'|done]|]. eexists. split; [done|].
    split; [by eexists|]. by apply (silent_stream h [_]). }
  unfold finish_write in *. destruct give as [g|].
  { destruct (Hrej g Hb) as (r & d' & E & A' & evs & Et & Hr & Hs). exists r, d'. split; [done|].
    split; [done|]. exists evs. split; [done|]. by right. }
  unfold can in *. destruct (storage_step root c (OnStream h (ASend 0)) (sd_engine d)) as [[evs s]|] eqn:E.
  2: { destruct (Hrej None Hb) as (r & d' & E' & A' & evs & Et & Hr & Hs). exists r, d'. split; [done|].
       split; [done|]. exists evs. split; [done|]. by right. }
  destruct (send_step _ _ _ _ _ _ _ _ R C Hx E) as (-> & C1 & Hc1).
  rewrite (call_bind _ _ _ _ _ E ltac:(done)) in Hb |- *.
  set (d1 := mkScheduled s (sd_trace d ++ [FromStream h (EvSent data)]) (sd_turns d)) in *.
  assert (at_call m [] (<[h := ([Sent data], CloseIdle)]> l) d1) as A1.
  { refine (at_call_step _ _ _ _ (OnStream h (ASend 0)) _ _ _ _ _ A I E C1 _ _); [by rewrite Hc1|]. eapply longer_bounded; [apply call_longer|exact Hb]. }
  pose proof A1 as [R1 _ _].
  assert ((<[h := ([Sent data], CloseIdle)]> l) !! h = Some ([Sent data], CloseIdle)) as Hx1
    by (apply list_lookup_insert_eq; by eapply lookup_lt_Some).
  assert (exists evs s, storage_step root c (OnStream h (ACount 0)) (sd_engine d1) = Some (evs, s)) as (evs2 & s2 & E2).
  { destruct (calls_object _ _ _ _ _ _ _ R1 C1 Hx1 eq_refl) as (o & Ho & Es & Ecl & Ecr & _). cbn [fst] in Es.
    unfold storage_step. rewrite (storage_alive _ _ _ _ _ (running_ok _ _ R1)). cbn [inner]. unfold stream_step. rewrite Ho.
    unfold DataStream.exec. rewrite Ecr. unfold write_count. change (submitMu (mounted _ o)) with (submitMu o). rewrite Es.
    cbn. eauto. }
  destruct (count_step _ _ _ _ _ _ _ _ R1 C1 Hx1 E2) as (-> & C2 & Hc2).
  unfold call in Hb |- *. rewrite E2 in Hb |- *. do 2 eexists. split; [done|].
  rewrite list_insert_insert_eq in C2. split.
  { refine (at_call_step _ _ _ _ (OnStream h (ACount 0)) _ _ _ _ _ A1 I E2 C2 _ _); [exact (eq_trans Hc2 (eq_trans Hc1 Hc))|done]. }
  exists ([FromStream h (EvSent data)] ++ [FromStream h (EvReturn data None)]). cbn [sd_trace d1]. split; [by rewrite app_assoc|].
  left. split; [done|]. intros h'. rewrite stream_events_app, !stream_events_one. by destruct (decide (h = h')).
Qed.

(** A whole call. *)
Definition resolved (h : nat) (data : SensorData) (r : res unit) (evs : list storage_event) : Prop :=
  (r = Ret tt /\ forall h', sent (stream_events h' evs) = if decide (h = h') then [data] else []) \/
  (exists e, r = Fail e) /\ silent evs.

Lemma resolved_silent h data r evs0 evs : silent evs0 -> resolved h data r evs -> resolved h data r (evs0 ++ evs).
Proof.
  intros H0 [[-> H]|[He H]]; [left|right]; (split; [done|]); [|by apply silent_app].
  intros h'. rewrite stream_events_app. unfold sent. rewrite omap_app.
  change (sent (stream_events h' evs0) ++ sent (stream_events h' evs) = if decide (h = h') then [data] else []).
  by rewrite H0, H.
Qed.

Lemma write_spec m l d f r t ts v :
  at_call m [] l d -> Forall idle l -> known_key (mkKey f r t) ->
  bounded (final (write_sensor_data root c f r t ts v d)) ->
  exists res d' m' l', write_sensor_data root c f r t ts v d = (res, d') /\ at_call m' [] l' d' /\ Forall idle l' /\
    (forall k' h', m' !! k' = Some h' -> m !! k' = Some h' \/ m !! k' = None /\ k' = mkKey f r t) /\
    (forall k' h', m !! k' = Some h' -> m' !! k' = Some h') /\
    exists h evs, m' !! mkKey f r t = Some h /\ (m !! mkKey f r t = Some h \/ h = length l) /\
      sd_trace d' = sd_trace d ++ evs /\ resolved h (mkSensorData ts v) res evs.
Proof.
  intros A Hl Hk Hb. set (k := mkKey f r t) in *. set (data := mkSensorData ts v) in *.
  set (finish h := modify (background root c (meanwhile (next_turn d)));;
                   finish_write root c h (gives_up (next_turn d))).
  set (submit h := call root c (CallStream 0 data);; finish h).
  set (get := call root c (GetStream 0);; h ← gets (fun d => default 0%nat (streams (sd_engine d) !! k)); submit h).
  assert (forall h, steps longer (finish h)) as Hl1 by (intros h; unfold finish; auto with go_steps).
  assert (forall h, steps longer (submit h)) as Hl2 by (intros h; unfold submit; auto with go_steps).
  assert (steps longer get) as Hl3 by (unfold get; auto 10 with go_steps).
  assert (steps longer (call root c (CallWrite k);; get)) as Hl4 by auto with go_steps.
  set (d0 := mkScheduled (sd_engine d) (sd_trace d) (tail (sd_turns d))).
  set (d1 := background root c (before (next_turn d)) d0).
  assert (write_sensor_data root c f r t ts v d = (call root c (CallWrite k);; get) d1) as Ew by done.
  rewrite Ew in *.
  assert (at_call m [] l d0) as A0 by by destruct A.
  destruct (background_at_call m [] l (before (next_turn d)) d0 A0) as (A1 & evs1 & E1 & S1).
  { eapply longer_bounded; [apply Hl4|exact Hb]. }
  fold d1 in A1, E1. cbn [d0 sd_trace] in E1.
  (* the load of [closed] *)
  destruct (call_write_step _ _ _ _ k (ac_running _ _ _ _ A1) (ac_calls _ _ _ _ A1) (ac_open _ _ _ _ A1)) as (s2 & E2 & C2 & O2).
  rewrite (call_bind _ _ _ _ _ E2 eq_refl) in *.
  set (d2 := mkScheduled s2 (sd_trace d1 ++ []) (sd_turns d1)) in *.
  assert (at_call m [Loaded k] l d2) as A2.
  { refine (at_call_step _ _ _ _ (CallWrite k) _ _ _ _ _ A1 Hk E2 C2 O2 _). eapply longer_bounded; [apply Hl3|exact Hb]. }
  (* the stream *)
  destruct (get_stream_step _ _ _ _ k (ac_running _ _ _ _ A2) (ac_calls _ _ _ _ A2) O2 Hl)
    as (evs3 & s3 & h & m' & l' & E3 & N3 & C3 & O3 & Hh & Hi & Hl' & Hhl & Hm1 & Hm2).
  unfold get in Hb |- *. rewrite (call_bind _ _ _ _ _ E3 N3) in *.
  set (d3 := mkScheduled s3 (sd_trace d2 ++ map FromEngine evs3) (sd_turns d2)) in *.
  assert ((h0 ← gets (fun d => default 0%nat (streams (sd_engine d) !! k)); submit h0) d3 = submit h d3) as Eg.
  { unfold mbind, M_bind, gets. cbn [d3 sd_engine]. by rewrite (ca_streams _ _ _ _ C3), Hh. }
  rewrite Eg in *.
  assert (at_call m' [HasStream k h] l' d3) as A3.
  { refine (at_call_step _ _ _ _ (GetStream 0) _ _ _ _ _ A2 I E3 C3 O3 _). eapply longer_bounded; [apply Hl2|exact Hb]. }
  (* stream.Write *)
  destruct (submit_step _ _ _ _ _ _ data (ac_running _ _ _ _ A3) (ac_calls _ _ _ _ A3) Hi) as (s4 & E4 & C4 & O4).
  unfold submit in Hb |- *. rewrite (call_bind _ _ _ _ _ E4 eq_refl) in *.
  set (d4 := mkScheduled s4 (sd_trace d3 ++ [FromEngine (EvWrite k h)]) (sd_turns d3)) in *.
  assert (at_call m' [] (<[h := ([Selecting data], CloseIdle)]> l') d4) as A4.
  { refine (at_call_step _ _ _ _ (CallStream 0 data) _ _ _ _ _ A3 I E4 C4 (eq_trans O4 O3) _).
    eapply longer_bounded; [apply Hl1|exact Hb]. }
  (* while it waits, and its end *)
  set (d5 := background root c (meanwhile (next_turn d)) d4).
  change (finish h d4) with (finish_write root c h (gives_up (next_turn d)) d5) in *.
  destruct (background_at_call _ _ _ (meanwhile (next_turn d)) d4 A4) as (A5 & evs5 & E5 & S5).
  { eapply longer_bounded; [apply finish_longer|exact Hb]. }
  fold d5 in A5, E5.
  assert ((<[h := ([Selecting data], CloseIdle)]> l') !! h = Some ([Selecting data], CloseIdle)) as Hx
    by (apply list_lookup_insert_eq; by eapply lookup_lt_Some).
  destruct (finish_write_spec _ _ _ _ _ _ A5 Hx Hb) as (res & d' & E6 & A6 & evs6 & T6 & Hres).
  rewrite list_insert_insert_eq, list_insert_id in A6 by done.
  exists res, d', m', l'. split_and!; try done. exists h. eexists. split; [done|]. split; [done|].
  split.
  - rewrite T6, E5. cbn [d4 d3 d2 sd_trace]. rewrite E1, app_nil_r. rewrite <- !app_assoc. reflexivity.
  - apply resolved_silent; [exact S1|]. apply resolved_silent; [apply silent_engine|].
    apply resolved_silent; [apply (silent_engine [_])|]. by apply resolved_silent.
Qed.

(** The engine between two calls, with the records it has taken. *)
Definition settled (acc : list (dataStreamKey * SensorData)) (d : Scheduled) : Prop :=
  exists m l, at_call m [] l d /\ Forall idle l /\
    forall k, entries_of k acc = match m !! k with Some h => sent (stream_events h (sd_trace d)) | None => [] end.

Lemma entries_of_app k acc acc' : entries_of k (acc ++ acc') = entries_of k acc ++ entries_of k acc'.
Proof. unfold entries_of. by rewrite filter_app, fmap_app. Qed.

Definition taken_one (k : dataStreamKey) (data : SensorData) (r : res unit) : list (dataStreamKey * SensorData) :=
  match r with Ret _ => [(k, data)] | _ => [] end.

Lemma write_settled acc d f r t ts v :
  settled acc d -> known_key (mkKey f r t) -> bounded (final (write_sensor_data root c f r t ts v d)) ->
  settled (acc ++ taken_one (mkKey f r t) (mkSensorData ts v) (result (write_sensor_data root c f r t ts v d)))
    (final (write_sensor_data root c f r t ts v d)).
Proof.
  intros (m & l & A & Hl & Hbk) Hk Hb.
  destruct (write_spec m l d f r t ts v A Hl Hk Hb) as (res & d' & m' & l' & E & A' & Hl' & Hm1 & Hm2 & h & evs & Hh & Hhl & Et & Hres).
  rewrite E. cbn [result final fst snd]. exists m', l'. split; [done|]. split; [done|]. intros k.
  rewrite entries_of_app, Hbk.
  pose proof (running_ok _ _ (ac_running _ _ _ _ A)) as O. pose proof (running_ok _ _ (ac_running _ _ _ _ A')) as O'.
  pose proof (ac_calls _ _ _ _ A) as [Cs _ Co]. pose proof (ac_calls _ _ _ _ A') as [Cs' _ _].
  assert (forall h', sent (stream_events h' (sd_trace d')) = sent (stream_events h' (sd_trace d)) ++ sent (stream_events h' evs)) as Ha
    by (intros h'; rewrite Et, stream_events_app; apply omap_app).
  destruct (decide (k = mkKey f r t)) as [->|Hne].
  - rewrite Hh, Ha. f_equal.
    + destruct (m !! mkKey f r t) as [h0|] eqn:Em.
      * apply Hm2 in Em. congruence.
      * destruct Hhl as [? | ->]; [done|]. rewrite (sk_unborn _ _ _ _ _ O); [done|].
        rewrite <- Co, length_fmap. done.
    + destruct Hres as [[-> Hs]|[(e & ->) Hs]]; [|by rewrite Hs].
      rewrite Hs, decide_True by done. cbn. by rewrite decide_True.
  - assert (entries_of k (taken_one (mkKey f r t) (mkSensorData ts v) res) = []) as ->.
    { destruct res; [|done..]. unfold entries_of. cbn. rewrite decide_False; [done|]. cbn. congruence. }
    rewrite app_nil_r. destruct (m' !! k) as [h'|] eqn:Em'.
    + destruct (Hm1 k h' Em') as [->|[_ ->]]; [|done]. rewrite Ha.
      assert (sent (stream_events h' evs) = []) as ->; [|by rewrite app_nil_r].
      destruct Hres as [[_ Hs]|[_ Hs]]; [|apply Hs]. rewrite Hs, decide_False; [done|]. intros <-.
      apply Hne. apply (sk_handles _ _ _ _ _ O' k (mkKey f r t) h); by rewrite Cs'.
    + destruct (m !! k) as [h'|] eqn:Em; [|done]. by apply Hm2 in Em; rewrite Em in Em'.
Qed.

(** After the last call nothing enters a queue. *)
Definition no_new_call (a : storage_action) : Prop := match a with CallWrite _ => False | _ => True end.

Lemma quiet_steps acts : forall s evs s',
  quiet s -> Forall no_new_call acts -> storage_steps root c acts s = Some (evs, s') ->
  streams s' = streams s /\ silent evs.
Proof.
  induction acts as [|a acts IH]; intros s evs s' Q Ha E; cbn [storage_steps] in E.
  { injection E as <- <-. split; [done|]. by intros h. }
  apply Forall_cons in Ha as [Ha Hacts].
  destruct (storage_step root c a s) as [[evs1 s1]|] eqn:E1; [|done].
  destruct (storage_steps root c acts s1) as [[evs2 s2]|] eqn:E2; [|done]. injection E as <- <-.
  destruct (quiet_step s a evs1 s1 Q ltac:(by intros k ->) E1) as (Q1 & Es1 & Hs1).
  destruct (IH s1 evs2 s2 Q1 Hacts E2) as [Es2 Hs2]. split; [congruence|]. by apply silent_app.
Qed.

Lemma at_call_quiet m l d : at_call m [] l d -> Forall idle l -> quiet (sd_engine d).
Proof.
  intros [_ [_ H1 H2] _] Hl. split; [done|]. rewrite <- H2 in Hl.
  apply Forall_lookup. intros h o Ho.
  assert ((submissions <$> objects (env (sd_engine d))) !! h = Some (submissions o)) as E by (by rewrite list_lookup_fmap, Ho).
  pose proof (Forall_lookup_1 _ _ _ _ Hl E) as Hi. unfold idle, submissions in Hi. congruence.
Qed.

(** What the disk holds when a settled engine has been closed. *)
Lemma settled_closed acc d acts evs s' k :
  settled acc d -> storage_steps root c acts (sd_engine d) = Some (evs, s') -> Forall no_new_call acts ->
  DataEngine.closing s' = CloseReturned -> Z.of_nat (length (sd_trace d ++ evs)) < 2 ^ 63 -> known_key k ->
  match streams s' !! k with
  | Some _ => holds root fs0 (disk (env s')) k (entries_of k acc)
  | None => entries_of k acc = [] /\ forall name,
      files (disk (env s')) !! (key_directory root k, name) = files fs0 !! (key_directory root k, name)
  end.
Proof.
  intros (m & l & A & Hl & Hbk) E Ha Hcl Hn Hk.
  destruct (quiet_steps acts _ _ _ (at_call_quiet _ _ _ A Hl) Ha E) as [Es Hs].
  assert (running (sd_trace d ++ evs) s') as R'.
  { split; [|done]. eapply storage_steps_reachable; [apply A| |exact E].
    eapply Forall_impl; [exact Ha|]. by intros []. }
  pose proof (storage_closed _ _ _ _ _ _ (running_ok _ _ R') Hcl Hk) as H.
  specialize (Hbk k). rewrite Es, (ca_streams _ _ _ _ (ac_calls _ _ _ _ A)) in *.
  destruct (m !! k) as [h|]; [|by split]. destruct H as [H _].
  assert (sent (stream_events h (sd_trace d ++ evs)) = sent (stream_events h (sd_trace d))) as Eh.
  { rewrite stream_events_app. unfold sent at 1. rewrite omap_app.
    change (sent (stream_events h (sd_trace d)) ++ sent (stream_events h evs) = sent (stream_events h (sd_trace d))).
    by rewrite Hs, app_nil_r. }
  by rewrite Hbk, <- Eh.
Qed.
End calls.

(** ** Lemmas: a trace of the intake *)

(** A configuration the program made a snapshot of. *)
Definition valid_snapshot (snap : ConfigSnapshot) : Prop := exists c0, NewConfigSnapshot c0 = inr snap.

Lemma known_entry snap mac device p records : valid_snapshot snap ->
  snapshot_Device snap mac = Some device -> p ∈ known_records snap records ->
  known_key (mkKey (d_Floor device) (d_Room device) (sd_Type p.2)).
Proof.
  intros [c0 E] Hd Hp. destruct (snapshot_registry c0 snap E) as (Hdev & Hsen & Hrange).
  apply Hdev in Hd as (dc & Hin & _ & ->). cbn [d_Floor d_Room].
  assert (valid_config (applyConfigDefaults c0)) as Hv.
  { apply validateConfig_None. unfold NewConfigSnapshot in E. by destruct (validateConfig _). }
  pose proof (vc_devices _ Hv) as Hg. rewrite Forall_forall in Hg. destruct (Hg dc Hin) as (_ & Hf & Hr).
  split; [by apply location_names_canonical|]. split; [by apply location_names_canonical|]. cbn [sensorType].
  unfold known_records in Hp. apply list_elem_of_omap in Hp as (record & _ & Hp).
  destruct (snapshot_Sensor snap (RType record)) as [sd|] eqn:Es; [|done]. injection Hp as <-. cbn [snd].
  pose proof (Hrange _ _ Es). apply Hsen in Es as (_ & _ & _ & -> & _). lia.
Qed.

(** A writer that does not panic. *)
Definition never_panics {A} (m : M Scheduled A) : Prop := forall d p, (m d).1 <> Panic p.

Lemma never_bind {A B} (m : M Scheduled A) (k : A -> M Scheduled B) :
  never_panics m -> (forall a, never_panics (k a)) -> never_panics (m ≫= k).
Proof.
  intros Hm Hk d p. unfold mbind, M_bind. specialize (Hm d). destruct (m d) as [[a|e|q] d']; [apply Hk|done|].
  by destruct (Hm q).
Qed.

Lemma call_never_panics root c a : never_panics (call root c a).
Proof. intros d p. unfold call. destruct (storage_step _ _ _ _) as [[evs s]|]; [|done]. by destruct (returned evs). Qed.

Lemma write_never_panics root c f r t ts v : never_panics (write_sensor_data root c f r t ts v).
Proof.
  repeat (apply never_bind; [first [apply call_never_panics|by intros]|intros ?]).
  intros d p. unfold finish_write. destruct (gives_up _); [apply call_never_panics|].
  destruct (can _ _ _ _); [|apply call_never_panics]. apply never_bind; [|intros _]; apply call_never_panics.
Qed.

Section trace.
Context (root : dir_path) (cfg : Config) (valid : valid_config cfg) (fs0 : FS).
Context (disk_ready : forall k, known_key k -> ready root (Config.DataStream cfg) fs0 k).
Context (disk_faultless : no_faults fs0).
Context {U : Type} `{!UnknownMessageWriter U}.
#[local] Instance engine_writer : SensorDataWriter Scheduled := scheduled_writer root (Config.DataStream cfg).
Implicit Types a : Store Scheduled U.
Abbreviation settled := (settled root cfg fs0).

Lemma write_each_longer device ts l : forall d, longer d (write_each device ts l d).2.
Proof.
  induction l as [|[r sn] l IH]; intros d; cbn [write_each]; [unfold longer; cbn; reflexivity|].
  pose proof (write_longer root cfg (d_Floor device) (d_Room device) (sd_Type sn) ts (RValue r) d) as H.
  unfold WriteSensorData, engine_writer, scheduled_writer. destruct (write_sensor_data _ _ _ _ _ _ _ d) as [res d1].
  cbn [final snd] in H. specialize (IH d1). destruct (write_each device ts l d1) as [errs d2]. cbn [snd] in *.
  unfold longer in *. by etrans.
Qed.

Lemma writes_settled device ts l : forall acc d,
  settled acc d -> (forall p, p ∈ l -> known_key (mkKey (d_Floor device) (d_Room device) (sd_Type p.2))) ->
  bounded (write_each device ts l d).2 -> settled (acc ++ taken_each device ts l d) (write_each device ts l d).2.
Proof.
  induction l as [|[r sn] l IH]; intros acc d S Hk Hb; cbn [write_each taken_each] in *; [by rewrite app_nil_r|].
  unfold WriteSensorData, engine_writer, scheduled_writer in *. cbn [fst snd] in *.
  pose proof (write_settled root cfg valid fs0 disk_ready disk_faultless acc d (d_Floor device) (d_Room device) (sd_Type sn) ts (RValue r) S
                (Hk (r, sn) ltac:(by left))) as H.
  destruct (write_sensor_data root (Config.DataStream cfg) _ _ _ _ _ d) as [res d1] eqn:E. cbn [final result fst snd] in H.
  pose proof (write_each_longer device ts l d1) as Hlo.
  destruct (write_each device ts l d1) as [errs d2] eqn:E2. cbn [snd] in *.
  specialize (H (longer_bounded _ _ Hlo Hb)).
  specialize (IH _ _ H ltac:(intros p Hp; apply Hk; by right)). rewrite E2 in IH. specialize (IH Hb).
  rewrite app_assoc. exact IH.
Qed.

Definition keeps_valid (e : intake_event) : Prop :=
  match e with Reloaded (Some snap) => valid_snapshot snap | _ => True end.

Lemma store_message_settled tr ts m acc a :
  settled acc (st_data a) -> valid_snapshot (Router.Snapshot (st_registry a)) ->
  bounded (st_data (store_message tr ts m a)) ->
  settled (acc ++ taken_message ts m a) (st_data (store_message tr ts m a)) /\
  st_registry (store_message tr ts m a) = st_registry a.
Proof.
  intros S V Hb. unfold store_message, taken_message in *. cbv zeta in *.
  destruct (snapshot_Device _ _) as [device|] eqn:Ed; cbn [st_data st_registry] in *; [|by rewrite app_nil_r].
  split; [|done]. apply writes_settled; [done| |done]. intros p Hp. by eapply known_entry.
Qed.

Lemma store_event_settled e acc a :
  settled acc (st_data a) -> valid_snapshot (Router.Snapshot (st_registry a)) -> keeps_valid e ->
  bounded (st_data (store_event e a)) ->
  settled (acc ++ match event_message e with Some (ts, m) => taken_message ts m a | None => [] end)
    (st_data (store_event e a)) /\
  valid_snapshot (Router.Snapshot (st_registry (store_event e a))).
Proof.
  intros S V Hv Hb.
  assert (forall tr ts m, bounded (st_data (store_message tr ts m a)) ->
    settled (acc ++ taken_message ts m a) (st_data (store_message tr ts m a)) /\
    valid_snapshot (Router.Snapshot (st_registry (store_message tr ts m a)))) as K.
  { intros tr ts m Hb'. destruct (store_message_settled tr ts m acc a S V Hb') as [H1 ->]. by split. }
  destruct e as [e|e|[snap|]]; cbn [event_message store_event] in *; [destruct e|destruct e|..]; rewrite ?app_nil_r;
    try (by split); try (by apply K); cbn [st_data st_registry] in *; (split; [done|]);
    unfold Reload; by destruct (ValidateReload _ _).
Qed.

Lemma store_event_longer e a : longer (st_data a) (st_data (store_event e a)).
Proof.
  assert (forall tr ts m, longer (st_data a) (st_data (store_message tr ts m a))) as K.
  { intros tr ts m. unfold store_message. cbv zeta.
    destruct (snapshot_Device _ _); cbn [st_data]; [apply write_each_longer|unfold longer; reflexivity]. }
  destruct e as [e|e|c]; [destruct e|destruct e|]; try apply K; unfold longer; reflexivity.
Qed.

Lemma store_events_longer tr : forall a, longer (st_data a) (st_data (store_events tr a)).
Proof.
  induction tr as [|e tr IH]; intros a; [unfold longer; reflexivity|].
  pose proof (store_event_longer e a) as H1. pose proof (IH (store_event e a)) as H2.
  change (store_events (e :: tr) a) with (store_events tr (store_event e a)). unfold longer in *. by etrans.
Qed.

Lemma store_events_settled tr : forall acc a,
  settled acc (st_data a) -> valid_snapshot (Router.Snapshot (st_registry a)) -> Forall keeps_valid tr ->
  bounded (st_data (store_events tr a)) -> settled (acc ++ taken_events tr a) (st_data (store_events tr a)).
Proof.
  induction tr as [|e tr IH]; intros acc a S V Hv Hb; [by rewrite app_nil_r|].
  apply Forall_cons in Hv as [He Hv]. change (store_events (e :: tr) a) with (store_events tr (store_event e a)) in *.
  destruct (store_event_settled e acc a S V He) as [S1 V1].
  { eapply longer_bounded; [apply store_events_longer|exact Hb]. }
  cbn [taken_events]. rewrite app_assoc. by apply IH.
Qed.

Lemma taken_offered tr : forall a, taken_events tr a `sublist_of` offered_events tr a.
Proof.
  assert (forall device ts l (d : Scheduled), taken_each device ts l d `sublist_of` map (entry_of device ts) l) as K.
  { intros device ts l. induction l as [|p l IH]; intros d; cbn [taken_each map]; [done|].
    destruct (WriteSensorData _ _ _ _ _ d) as [[u|e|q] d1]; cbn [app]; [by apply sublist_skip|by apply sublist_cons..]. }
  induction tr as [|e tr IH]; intros a; cbn [taken_events offered_events]; [done|].
  apply sublist_app; [|apply IH]. destruct (event_message e) as [[ts m]|]; [|done].
  unfold taken_message, offered_message. cbv zeta. destruct (snapshot_Device _ _); [|done]. apply K.
Qed.

Lemma settled_new turns : settled [] (mkScheduled (NewDataEngine (mkDisk [] fs0)) [] turns).
Proof.
  exists ∅, []. split; [|split; [by constructor|]].
  - split; [split; [constructor|done]|by split|done].
  - intros k. by rewrite lookup_empty.
Qed.
(** ** Properties *)

End trace.

(** ** A concrete run *)

(** Three messages of one device, two by TCP and one by UDP: the record of the
    second finds its caller's context ended.  The worker writes the first
    record while the third message comes in; then the engine is closed. *)
#[local] Existing Instance keeping.

Definition live_snapshot : ConfigSnapshot :=
  match NewConfigSnapshot (sample_config [sample_device]) with inr s => s | inl _ => sample_snapshot end.
Lemma live_snapshot_valid : valid_snapshot live_snapshot.
Proof. exists (sample_config [sample_device]). vm_compute. reflexivity. Qed.

Definition temperature (v : byte) : list byte := [Byte.x01; v; Byte.x00; Byte.x00].
Definition live_turns : list turn :=
  [calm; mkTurn [(0%nat, AReceive)] [(0%nat, AAttempt)] (Some None); mkTurn [(0%nat, ATick)] [] None].
Definition live_router : MessageRouter Scheduled (list UnknownMessage) :=
  NewMessageRouter (mkRegistry live_snapshot) (mkScheduled (NewDataEngine (mkDisk [] sample_root_fs)) [] live_turns) [].
Definition live_conn : netConn :=
  mkNetConn (mkReader [wire sample_address (temperature Byte.x2a); wire sample_address (temperature Byte.x07)]
    (ErrNew io_EOF)) None [].
Definition live_messages : list intake_action :=
  map InTCP (open_connection live_conn ++ [AStart; ARead 0 1; ABind 0; AAnnounce 0; AClosePrevious 0; AHandle 0 2]) ++
  map InTCP [ARead 0 3; AHandle 0 4] ++
  map InUDP [UGet None; URead (inl (wire sample_address (temperature Byte.x15), "peer"%string)); USend false;
             UTake 0; UDecode 0; URoute 0 5].
Definition live_closing : list storage_action :=
  [CallClose; TakeStreams] ++ closing_of 0 ++
  [OnStream 0 AReceive; OnStream 0 AAttempt; OnStream 0 AReceive; StreamClosed; CloseReturns].

#[local] Hint Extern 0 (SensorDataWriter Scheduled) =>
  exact (engine_writer ["data"] sample_data_config) : typeclass_instances.

Definition live_intake : Intake Scheduled (list UnknownMessage) :=
  mkIntake live_router
    (mkTCPServer (mkTCPOptions 2 5000000000) tt false false 0 [] ∅ ∅ 0 0 (mkTCPCounters 0 0 0 0 0 0)
       TcpServer.Accepting TcpServer.NotClosing false)
    (mkUDPServer (mkUDPOptions 2 1) tt false false [] false [] [] (mkUDPCounters 0 0 0 0) UdpServer.Getting
       [UdpServer.Idle; UdpServer.Idle] UdpServer.Open false).
Definition live_run : list intake_event * Intake Scheduled (list UnknownMessage) := intake_outcome live_messages live_intake.
Abbreviation live_end :=
  (storage_steps ["data"] (Config.DataStream sample_data_config) live_closing (sd_engine (dataWriter (it_router live_run.2)))).

Lemma live_keeps_valid : Forall keeps_valid live_run.1.
Proof.
  apply Forall_forall. intros e He.
  assert (forallb (fun e => match e with Reloaded _ => false | _ => true end) live_run.1 = true) as H by (vm_compute; reflexivity).
  rewrite forallb_forall in H. specialize (H e (proj1 (list_elem_of_In _ _) He)). by destruct e.
Qed.

Lemma live_trace : length (sd_trace (dataWriter (it_router live_run.2))) = 10%nat.
Proof. vm_compute. reflexivity. Qed.

Lemma live_entries : entries_of sample_key (taken_events live_run.1 (store_of live_router)) =
  [mkSensorData 2 42; mkSensorData 5 21].
Proof. vm_compute. reflexivity. Qed.

Lemma live_end_facts : exists evs s', live_end = Some (evs, s') /\ DataEngine.closing s' = CloseReturned /\
  length evs = 3%nat /\ streams s' !! sample_key = Some 0%nat.
Proof.
  assert (match live_end with
          | Some (evs, s') => (match DataEngine.closing s' with CloseReturned => true | _ => false end,
                               length evs, streams s' !! sample_key)
          | None => (false, 0%nat, None)
          end = (true, 3%nat, Some 0%nat)) as H by (vm_compute; reflexivity).
  destruct live_end as [[evs s']|]; [|discriminate H]. exists evs, s'.
  pose proof (f_equal (fun x => x.1.1) H) as Hc. pose proof (f_equal (fun x => x.1.2) H) as Hl.
  pose proof (f_equal (fun x => x.2) H) as Hh. cbv beta in *. cbn [fst snd] in *. split_and!; try done.
  by destruct (DataEngine.closing s').
Qed.

