(* ===== verification/Typing.v ===== *)
(** * Types of what the intake carries

    The messages in the goroutines of both servers, the messages routed, the
    entries given to the data writer and the messages given to the quarantine
    are well-typed: decoded from a valid payload, with values of 24 bits and
    known locations and sensor types, so that the records of the segments and
    the entries of the quarantine hold them exactly. *)

From S2P Require Import Prelude GoRuntime House BinaryData Crc32 Protocol DataFile DataStream DataEngine Storage Router Quarantine Config Pipeline TcpServer UdpServer Intake.
Open Scope Z_scope.

(** ** Types *)

(** A record of the wire: a known sensor type or the unknown one, a value of
    24 bits. *)
Definition typed_record (r : SensorRecord) : Prop :=
  0 <= RType r <= SENSOR_ID_kWAh /\ - 2 ^ 23 <= RValue r < 2 ^ 23.

(** A message: its header describes its payload, its records are those of the
    payload. *)
Record typed_message (m : Message) : Prop := mkTypedMessage {
  tm_magic : Magic (Header m) = MessageMagic;
  tm_type : HType (Header m) = MessageTypeSensorData;
  tm_length : PayloadLength (Header m) = Z.of_nat (length (Payload m)) /\ Z.of_nat (length (Payload m)) <= MaximumPayloadSize;
  tm_checksum : Checksum (Header m) = ChecksumIEEE (Payload m);
  tm_count : Z.of_nat (length (Payload m)) = SensorRecordSize * Z.of_nat (length (Protocol.Sensors m));
  tm_sensors : Protocol.Sensors m = sensors_of (Payload m) /\ Forall typed_record (Protocol.Sensors m) }.

(** An entry for the data writer: a location and sensor type the program
    knows, a timestamp of 64 bits and a value of 24. *)
Definition typed_entry (e : dataStreamKey * SensorData) : Prop :=
  known_key e.1 /\ - 2 ^ 63 <= Timestamp e.2 < 2 ^ 63 /\ - 2 ^ 23 <= Value e.2 < 2 ^ 23.

(** ** Lemmas: decoding *)

Lemma sensors_typed l : Forall typed_record (sensors_of l).
Proof.
  induction l as [l IH] using (induction_ltof1 _ (@length byte)).
  destruct l as [|t [|a [|b [|c l]]]]; cbn [sensors_of]; try by constructor.
  constructor; [|apply IH; unfold ltof; simpl; lia]. split; cbn [RType RValue].
  - apply ToSensorType_range. apply byte_to_Z_range.
  - apply (wraps_range 24). lia.
Qed.

(** What the decoder accepts: see [decode_bytes_Ret]. *)
Definition decoded (m : Message) : Prop := exists mac payload, valid_payload payload /\ m = message_of mac payload.

Lemma decoded_typed m : decoded m -> typed_message m.
Proof.
  intros (mac & payload & [Hl Hm] & ->).
  assert (Z.of_nat (length payload) = SensorRecordSize * (Z.of_nat (length payload) / SensorRecordSize)) as E
    by (pose proof (Z.div_mod (Z.of_nat (length payload)) SensorRecordSize ltac:(done)); lia).
  split; try done; cbn [message_of Header header_of Payload Protocol.Sensors PayloadLength].
  - rewrite (sensors_of_length payload (Z.to_nat (Z.of_nat (length payload) / SensorRecordSize)));
      [|unfold SensorRecordSize in *; apply Nat2Z.inj]; rewrite ?Nat2Z.inj_mul, Z2Nat.id; unfold SensorRecordSize in *;
      try (apply Z.div_pos; lia); lia.
  - split; [done|apply sensors_typed].
Qed.

(** [readMessage] returns only what the decoder accepts. *)
Lemma readMessage_decoded now d c m c' : readMessage now d c = (Ret (GotMessage m), c') -> decoded m.
Proof.
  unfold readMessage, mbind, M_bind, attempt, attempt_err. intros E.
  destruct (conn_ReadFull_bytes (Z.to_nat MessageHeaderSize) c) as (c1 & E1 & P1 & _). rewrite E1 in E. clear E1.
  unfold read_full_bytes at 1 in E. change (Z.to_nat MessageHeaderSize) with 16%nat in *.
  destruct (16 <=? length (GoRuntime.pending (TcpServer.stream c)))%nat eqn:Hl; cbn [fst] in E; [|by repeat case_match].
  apply Nat.leb_le in Hl. set (hb := take 16 (GoRuntime.pending (TcpServer.stream c))) in *.
  assert (length hb = 16%nat) as Hh by (unfold hb; rewrite length_take; lia).
  rewrite DecodeHeader_slice_of in E by done.
  destruct (check_header_inv (parse_header hb) _ eq_refl) as [(Er & Hm & Hp)|[e Er]]; rewrite Er in E; [|done].
  set (h := parse_header hb) in *.
  match type of E with context [if ?b then _ else mret None] => set (dl := (if b then _ else mret None) : M netConn (option error)) in E end.
  destruct (dl c1) as [[[e|]|e|q] c2] eqn:Edl; try done.
  destruct (conn_ReadFull_bytes (Z.to_nat (PayloadLength h)) c2) as (c3 & E3 & _). rewrite E3 in E. clear E3.
  unfold read_full_bytes at 1 in E.
  destruct (Z.to_nat (PayloadLength h) <=? length (GoRuntime.pending (TcpServer.stream c2)))%nat eqn:Hl2; cbn [fst] in E; [|by repeat case_match].
  apply Nat.leb_le in Hl2. set (p := take (Z.to_nat (PayloadLength h)) (GoRuntime.pending (TcpServer.stream c2))) in *.
  destruct (SetReadDeadline None c3) as [[u|e|q] c4]; rewrite ?DecodeMessage_slice_of in E; try done;
    destruct (check_payload h p) eqn:C; try done; injection E as <- <-;
    apply check_payload_None in C as (C1 & C2 & C3 & C4); exists (MAC h), p;
    (split; [split; lia || by rewrite C1|]);
    (unfold message_of, header_of; rewrite <- Hm, <- C2, C1, C4; by destruct h).
Qed.

(** ** Lemmas: the messages in the goroutines *)

Definition pc_typed (p : conn_pc) : Prop :=
  match p with
  | Binding m | Announcing m _ | TcpServer.ClosingPrevious m _ | Handling m => decoded m
  | _ => True
  end.
Definition tcp_typed {H} (s : TCPServer H) : Prop := Forall (fun c => pc_typed (pc c)) (TcpServer.objects s).
Definition tcp_event_typed (e : TcpServer.event) : Prop := match e with EvRouted _ _ m => decoded m | _ => True end.

Section tcp.
Context {H : Type} `{!MessageHandler H}.
Implicit Types s : TCPServer H.

Lemma update_typed i f s : tcp_typed s -> (forall c, TcpServer.objects s !! i = Some c -> pc_typed (pc (f c))) -> tcp_typed (update i f s).
Proof.
  intros T Hf. unfold tcp_typed, update in *. cbn [TcpServer.objects TcpServer.set_objects]. rewrite Forall_lookup in *.
  intros j c. destruct (decide (i = j)) as [<-|Hne].
  - rewrite list_lookup_alter_eq. intros (c0 & E & ->)%fmap_Some. exact (Hf _ E).
  - rewrite list_lookup_alter_ne by done. intros Hc. exact (T _ _ Hc).
Qed.

Lemma typed_pc i c s : tcp_typed s -> TcpServer.objects s !! i = Some c -> pc_typed (pc c).
Proof. intros T Hi. exact (Forall_lookup_1 _ _ _ _ T Hi). Qed.

Lemma received_typed i c outcome s : tcp_typed s -> (forall m, outcome = GotMessage m -> decoded m) ->
  tcp_typed (received i c outcome s).2 /\ Forall tcp_event_typed (received i c outcome s).1.
Proof.
  intros T Ho. unfold received. destruct outcome as [m|structural err].
  - specialize (Ho m eq_refl). repeat case_match; (split; [by apply update_typed|by repeat constructor]).
  - repeat case_match; (split; [by apply update_typed|by repeat constructor]).
Qed.

Lemma conn_step_typed a i c s evs s' : tcp_typed s -> TcpServer.objects s !! i = Some c -> conn_step a i c s = Some (evs, s') ->
  tcp_typed s' /\ Forall tcp_event_typed evs.
Proof.
  intros T Hi. pose proof (typed_pc _ _ _ T Hi) as Hp. unfold conn_step.
  destruct a; try done; destruct (pc c) as [| |m|m prev|m prev|m| | | | |] eqn:Epc; try done; cbn [pc_typed] in Hp.
  - destruct (conn_closed c); [done|]. destruct (readMessage _ _ _) as [[outcome|e|q] n] eqn:Er; intros E.
    + injection E as E. pose proof (received_typed i c outcome (update i (set_conn n) s)) as K. rewrite E in K. apply K.
      * apply update_typed; [done|]. intros c0 Hc. exact (typed_pc _ _ _ T Hc).
      * intros m ->. by eapply readMessage_decoded.
    + injection E as <- <-. split; [done|by repeat constructor].
    + injection E as <- <-. split; [done|by repeat constructor].
  - destruct (conn_closed c); [|done].
    pose proof (received_typed i c (ReadError true (ErrWrap msg (ErrNew net_ErrClosed))) s T ltac:(done)) as K.
    destruct (received _ _ _ _) as [es s1]. by intros [= <- <-].
  - intros [= <- <-]. split; [|constructor]. by apply update_typed.
  - intros [= <- <-]. split; [by apply update_typed|by repeat constructor].
  - intros [= <- <-]. split; [|constructor]. unfold close_previous. apply update_typed; [|done].
    repeat case_match; try done. apply update_typed; [done|]. intros c' Hc. by eapply typed_pc in Hc.
  - unfold routed. destruct (handle TransportTCP _ m _) as [r h].
    assert (tcp_typed (update i (set_pc Reading) (set_handler h s))) as K by by apply update_typed.
    destruct r as [u|e|p]; intros [= <- <-]; (split; [exact K|repeat constructor; try done]); by repeat case_match; repeat constructor.
  - intros [= <- <-]. split; [|constructor]. by apply update_typed.
  - intros [= <- <-]. split; [|constructor]. by apply update_typed.
  - intros [= <- <-]. split; [|constructor]. by apply update_typed.
  - intros [= <- <-]. split; [by apply update_typed|]. destruct (bound c); by repeat constructor.
Qed.

Lemma exec_typed a s evs s' : tcp_typed s -> exec a s = Some (evs, s') -> tcp_typed s' /\ Forall tcp_event_typed evs.
Proof.
  intros T. unfold exec. destruct (TcpServer.crashed s); [done|]. destruct (conn_of a) as [i|] eqn:Ei.
  - destruct (TcpServer.objects s !! i) as [c|] eqn:Ec; [|done]. by apply conn_step_typed.
  - destruct a; try done; unfold serve_step, close_step, startConnection, register, start;
      repeat case_match; try done; intros [= <- <-]; (split; [|by repeat constructor]); try done;
      try (apply update_typed; [done|intros c Hc; by eapply typed_pc in Hc]).
    apply Forall_app. split; [done|by repeat constructor].
Qed.
End tcp.

Definition worker_typed (w : worker_pc) : Prop := match w with Routing _ m => decoded m | _ => True end.
Definition udp_typed {H} (s : UDPServer H) : Prop := Forall packet_ok (packets s) /\ Forall worker_typed (workers s).
Definition udp_event_typed (e : uevent) : Prop := match e with Routed _ m => decoded m | _ => True end.

Section udp.
Context {H : Type} `{!MessageHandler H}.
Implicit Types s : UDPServer H.

Lemma new_packet_ok : packet_ok new_packet.
Proof. split; [apply length_replicate|done]. Qed.

Lemma userve_typed a s evs s' : udp_typed s -> userve_step a s = Some (evs, s') ->
  udp_typed s' /\ Forall udp_event_typed evs.
Proof.
  intros [Hp Hw]. unfold userve_step, send.
  destruct a as [[i|]|[[d remote]|err]|d|j|j|j now|j| |r| |]; destruct (userve s); try done;
    repeat case_match; try done; intros [= <- <-];
    (split; [split; cbn; try done|repeat constructor; done]).
  - apply Forall_app. split; [done|]. repeat constructor; apply new_packet_ok.
  - rewrite Forall_lookup in *. intros j p. destruct (decide (a = j)) as [<-|Hne].
    + rewrite list_lookup_alter_eq. intros (p0 & E & ->)%fmap_Some. by eapply read_from_ok, Hp.
    + rewrite list_lookup_alter_ne by done. intros Hj. exact (Hp _ _ Hj).
Qed.

Lemma worker_typed_step a j w s evs s' : udp_typed s -> workers s !! j = Some w -> worker_step a j w s = Some (evs, s') ->
  udp_typed s' /\ Forall udp_event_typed evs.
Proof.
  intros [Hp Hw] Hj. pose proof (Forall_lookup_1 _ _ _ _ Hw Hj) as Hwj. unfold worker_step.
  assert (forall w' s1, packets s1 = packets s -> workers s1 = workers s -> worker_typed w' -> udp_typed (set_worker j w' s1)) as K.
  { intros w' s1 E1 E2 T. split; cbn [set_worker packets workers uset_workers]; [by rewrite E1|]. rewrite E2. by apply Forall_insert. }
  destruct a; try done; destruct w as [|p|p m|p|]; try done.
  - repeat case_match; try done; intros [= <- <-]; (split; [by apply K|constructor]).
  - destruct (packets s !! p) as [packet|] eqn:Epk; [|done]. pose proof (Forall_lookup_1 _ _ _ _ Hp Epk) as Hok.
    rewrite DecodeDatagram_spec by (by apply datagram_of_ok).
    destruct (decode_bytes _) as [m|e|q] eqn:Ed; intros [= <- <-].
    + split; [|by repeat constructor]. apply K; [done..|]. apply decode_bytes_Ret in Ed as (mac & payload & Hv & _ & ->).
      by exists mac, payload.
    + split; [by apply K|by repeat constructor].
    + split; [done|by repeat constructor].
  - destruct (handle TransportUDP _ m _) as [r h]. intros E.
    destruct r as [u|e|q]; injection E as <- <-; (split; [by apply K|]); repeat constructor; try done;
      by repeat case_match; repeat constructor.
  - intros [= <- <-]. split; [by apply K|constructor].
Qed.

Lemma uexec_typed a s evs s' : udp_typed s -> uexec a s = Some (evs, s') -> udp_typed s' /\ Forall udp_event_typed evs.
Proof.
  intros T. unfold uexec. destruct (ucrashed s); [done|].
  destruct a; try (destruct (workers s !! j) as [w|] eqn:Ej; [by apply worker_typed_step|done]); try by apply userve_typed.
  all: unfold uclose_step; repeat case_match; try done; intros [= <- <-]; (split; [exact T|by repeat constructor]).
Qed.
End udp.

(** ** Lemmas: the intake *)

Section intake.
Context {D U : Type} `{!SensorDataWriter D} `{!UnknownMessageWriter U}.
Implicit Types s : Intake D U.

Definition intake_event_typed (e : intake_event) : Prop :=
  match e with FromTCP e => tcp_event_typed e | FromUDP e => udp_event_typed e | Reloaded _ => True end.
Definition intake_typed s : Prop := tcp_typed (it_tcp s) /\ udp_typed (it_udp s).

Lemma intake_step_typed a s evs s' : intake_typed s -> intake_step a s = Some (evs, s') ->
  intake_typed s' /\ Forall intake_event_typed evs.
Proof.
  intros [T1 T2]. destruct a as [a|a|c]; cbn [intake_step].
  - destruct (exec a _) as [[es t]|] eqn:E; [|done]. intros [= <- <-].
    destruct (exec_typed a (retag (it_router s) (it_tcp s)) es t T1 E) as [H1 H2].
    split; [by split|by apply Forall_map].
  - destruct (uexec a _) as [[es t]|] eqn:E; [|done]. intros [= <- <-].
    destruct (uexec_typed a (uretag (it_router s) (it_udp s)) es t T2 E) as [H1 H2].
    split; [by split|by apply Forall_map].
  - intros [= <- <-]. split; [by split|by repeat constructor].
Qed.

Lemma intake_reachable_typed s0 tr s : intake_typed s0 -> intake_reachable s0 tr s ->
  intake_typed s /\ Forall intake_event_typed tr.
Proof.
  intros T0. induction 1 as [|tr s a evs s' _ [T IH] E]; [by split|].
  destruct (intake_step_typed _ _ _ _ T E) as [T' He]. split; [done|]. by apply Forall_app.
Qed.

Lemma open_intake_typed (r : MessageRouter D U) topts uopts s0 : open_intake r topts uopts = inr s0 -> intake_typed s0.
Proof.
  unfold open_intake, NewTCPServer, NewUDPServer. repeat case_match; try done; intros [= <-]; simplify_eq.
  split; [constructor|]. split; [constructor|]. apply Forall_forall. intros w Hw. cbn in Hw.
  apply list_elem_of_In, repeat_spec in Hw || apply elem_of_replicate in Hw as [-> _]; by subst.
Qed.

(** The messages of a trace given to the quarantine. *)
Definition quarantined_event (e : intake_event) (a : Store D U) : list UnknownMessage :=
  match event_message e with
  | Some (ts, m) =>
      match snapshot_Device (Router.Snapshot (st_registry a)) (MAC (Header m)) with
      | Some _ => []
      | None => [mkUnknownMessage ts (match e with FromTCP _ => TransportTCP | _ => TransportUDP end) m]
      end
  | None => []
  end.
Fixpoint quarantined_events (tr : list intake_event) (a : Store D U) : list UnknownMessage :=
  match tr with
  | [] => []
  | e :: tr => quarantined_event e a ++ quarantined_events tr (store_event e a)
  end.

(** The timestamps of the messages are 64-bit integers. *)
Definition timed (e : intake_event) : Prop :=
  match event_message e with Some (ts, _) => - 2 ^ 63 <= ts < 2 ^ 63 | None => True end.

Lemma event_message_decoded e ts m : intake_event_typed e -> event_message e = Some (ts, m) -> decoded m.
Proof. destruct e as [[]|[]|]; try done; cbn; by intros T [= <- <-]. Qed.

Lemma offered_typed snap ts m : valid_snapshot snap -> decoded m -> - 2 ^ 63 <= ts < 2 ^ 63 ->
  Forall typed_entry (offered_message snap ts m).
Proof.
  intros V Hm Ht. unfold offered_message. destruct (snapshot_Device _ _) as [device|] eqn:Ed; [|constructor].
  apply Forall_map, Forall_forall. intros p Hp. split; [by eapply known_entry|]. split; [done|].
  unfold known_records in Hp. apply list_elem_of_omap in Hp as (r & Hr & Hp).
  destruct (snapshot_Sensor snap (RType r)); [|done]. injection Hp as <-. cbn.
  destruct (decoded_typed m Hm) as [_ _ _ _ _ [_ Hs]]. rewrite Forall_forall in Hs. by apply Hs.
Qed.

Lemma store_event_valid e (a : Store D U) : valid_snapshot (Router.Snapshot (st_registry a)) -> keeps_valid e ->
  valid_snapshot (Router.Snapshot (st_registry (store_event e a))).
Proof.
  intros V Hv. destruct e as [e|e|[snap|]]; cbn [store_event]; [destruct e|destruct e|..]; try done;
    try (unfold store_message; cbv zeta; by destruct (snapshot_Device _ _)).
  cbn [st_registry]. unfold Reload. by destruct (ValidateReload _ _).
Qed.

Lemma events_typed tr : forall a : Store D U,
  valid_snapshot (Router.Snapshot (st_registry a)) -> Forall keeps_valid tr -> Forall timed tr ->
  Forall intake_event_typed tr ->
  Forall typed_entry (offered_events tr a) /\ Forall storable (quarantined_events tr a).
Proof.
  induction tr as [|e tr IH]; intros a V Hv Ht Hm; [by split|].
  apply Forall_cons in Hv as [Hve Hv]. apply Forall_cons in Ht as [Hte Ht]. apply Forall_cons in Hm as [Hme Hm].
  destruct (IH (store_event e a) (store_event_valid e a V Hve) Hv Ht Hm) as [I1 I2].
  cbn [offered_events quarantined_events]. unfold quarantined_event, timed in *.
  destruct (event_message e) as [[ts m]|] eqn:Ee; [|done]. pose proof (event_message_decoded _ _ _ Hme Ee) as Hd.
  split; apply Forall_app; (split; [|done]); [by apply offered_typed|].
  destruct (snapshot_Device _ _); [constructor|]. apply Forall_singleton. split; [|split; [exact Hte|exact Hd]].
  cbn. destruct e; tauto.
Qed.
End intake.

(** ** Properties *)

(** C9. Types are kept from the wire to the disk.  From the start of both
    servers with a validated configuration, through any interleaving of their
    goroutines with valid reloads and 64-bit timestamps: every message held by
    a goroutine or routed is one the decoder produced, with its header
    describing its payload and its values within 24 bits; every entry offered
    to the data writer has a known location and sensor type, and the record
    encoded for a segment decodes to exactly that entry; and every message
    given to the quarantine can be stored, and its encoding is read back as
    the same message. *)
Theorem intake_well_typed {D U : Type} `{!SensorDataWriter D} `{!UnknownMessageWriter U}
    (r : MessageRouter D U) topts uopts s0 tr s :
  open_intake r topts uopts = inr s0 -> valid_snapshot (Router.Snapshot (registry r)) ->
  intake_reachable s0 tr s -> Forall keeps_valid tr -> Forall timed tr ->
  intake_typed s /\
  (forall e ts m, e ∈ tr -> event_message e = Some (ts, m) -> typed_message m) /\
  Forall (fun e => typed_entry e /\
    decode_records 1 (encode_record (Timestamp e.2) (Value e.2)) = [(Timestamp e.2, Value e.2)])
    (offered_events tr (store_of r)) /\
  Forall (fun m => storable m /\ exists b, encodeQuarantineEntry m = Ret b /\
    (decodeQuarantineEntry (slice_of b)).1 = Ret m) (quarantined_events tr (store_of r)).
Proof.
  intros Ho Hv R Hk Ht. pose proof (open_intake_typed _ _ _ _ Ho) as T0.
  destruct (intake_reachable_typed _ _ _ T0 R) as [T He].
  split; [done|]. split.
  { intros e ts m Hin Em. rewrite Forall_forall in He. apply decoded_typed. by eapply event_message_decoded; [apply He|]. }
  destruct (events_typed tr (store_of r) Hv Hk Ht He) as [H1 H2]. split.
  - eapply Forall_impl; [exact H1|]. intros [k d] Hd. split; [done|]. destruct Hd as (_ & Hts & Hval). cbn [fst snd] in *.
    pose proof (decode_encode_records [(Timestamp d, Value d)]) as K. unfold encode_records in K. cbn [map concat length fst snd] in K.
    rewrite app_nil_r in K. apply K. repeat constructor; cbn [fst snd]; lia.
  - eapply Forall_impl; [exact H2|]. intros m Hm. split; [done|]. exists (image m).
    split; [by apply storable_encode|].
    pose proof (decode_image m []) as K. rewrite app_nil_r in K. unfold slice_of. by rewrite K.
Qed.

(** ** A concrete run *)

#[local] Existing Instance refusing.
#[local] Existing Instance keeping.

Definition typed_router : MessageRouter data_log (list UnknownMessage) :=
  NewMessageRouter (mkRegistry live_snapshot) [] [].
Definition typed_intake : Intake data_log (list UnknownMessage) :=
  mkIntake typed_router (it_tcp sample_intake) (it_udp sample_intake).
(** Two messages of a known device by TCP, one of an unknown device by UDP. *)
Definition typed_messages : list intake_action :=
  live_messages ++ map InUDP [UPut 0; UGet None; URead sample_datagram; USend false; UTake 0; UDecode 0; URoute 0 6].
Definition typed_run : list intake_event * Intake data_log (list UnknownMessage) := intake_outcome typed_messages typed_intake.

Lemma typed_run_events : forallb (fun e => match e with Reloaded _ => false | _ => true end &&
  match event_message e with Some (ts, _) => (0 <=? ts) && (ts <? 10) | None => true end) typed_run.1 = true.
Proof. vm_compute. reflexivity. Qed.

Lemma intake_well_typed_witness :
  offered_events typed_run.1 (store_of typed_router) =
    [(sample_key, mkSensorData 2 42); (sample_key, mkSensorData 4 7); (sample_key, mkSensorData 5 21)] /\
  quarantined_events typed_run.1 (store_of typed_router) =
    [mkUnknownMessage 6 TransportUDP (message_of sample_mac sample_payload)] /\
  Forall (fun e => typed_entry e /\
    decode_records 1 (encode_record (Timestamp e.2) (Value e.2)) = [(Timestamp e.2, Value e.2)])
    (offered_events typed_run.1 (store_of typed_router)).
Proof.
  split; [vm_compute; reflexivity|]. split; [vm_compute; reflexivity|].
  pose proof typed_run_events as He. rewrite forallb_forall in He.
  apply (intake_well_typed typed_router (mkTCPOptions 2 5000000000) (mkUDPOptions 2 1) typed_intake typed_run.1 typed_run.2).
  - reflexivity.
  - exact live_snapshot_valid.
  - apply intake_outcome_reachable.
  - apply Forall_forall. intros e Hin. apply list_elem_of_In, He, andb_true_iff in Hin as [Hr _]. by destruct e.
  - apply Forall_forall. intros e Hin. apply list_elem_of_In, He, andb_true_iff in Hin as [_ Ht]. unfold timed.
    destruct (event_message e) as [[ts m]|]; [|done]. apply andb_true_iff in Ht as [H1%Z.leb_le H2%Z.ltb_lt]. lia.
Defined.
