(* ===== verification/Unknown.v ===== *)
(** * Unknown messages: quarantine, restart, delivery

    The quarantine writer in the place of the writer of unknown messages of the
    intake, then the restart of the server: opening the quarantine again and
    replaying it under the configuration of the day.  What [Intake.v] says of
    any writer and what [Quarantine.v] says of the writer and the replay, put
    together. *)

From S2P Require Import Prelude GoRuntime House Protocol Platform Config DataFile TcpServer UdpServer Intake Pipeline Typing Router Quarantine.
Open Scope Z_scope.

(** ** The quarantine as a writer *)

(** The writer with its files, and what [ctx.Err()] returns to the calls to
    come (nil when the list is used up). *)
Record Holding : Type := mkHolding { hd_writer : QuarantineWriter * FS; hd_ctx : list (option error) }.

(** [src/sensor-server/quarantine.go:97-121] WriteUnknownMessage, as the writer
    of the router *)
Definition quarantine_writer : UnknownMessageWriter Holding := fun m u =>
  let '(r, q) := Quarantine.WriteUnknownMessage (default None (head (hd_ctx u))) m (hd_writer u) in
  (r, mkHolding q (tail (hd_ctx u))).

(** The messages of a trace given to the quarantine whose write returned no
    error. *)
Section kept.
Context {D U : Type} `{!SensorDataWriter D} `{!UnknownMessageWriter U}.

Definition kept_of (m : UnknownMessage) (u : U) : list UnknownMessage :=
  match (Router.WriteUnknownMessage m u).1 with Ret _ => [m] | _ => [] end.
Fixpoint kept_events (tr : list intake_event) (a : Store D U) : list UnknownMessage :=
  match tr with
  | [] => []
  | e :: tr => (quarantined_event e a ≫= fun m => kept_of m (st_unknown a)) ++ kept_events tr (store_event e a)
  end.
End kept.

(** ** Lemmas: the messages in the segments *)

Section intake.
Context {D : Type} `{!SensorDataWriter D}.
#[local] Existing Instance quarantine_writer.
Implicit Types a : Store D Holding.

(** What an event does to the writer of unknown messages. *)
Lemma store_event_unknown e a : exists ms, quarantined_event e a = ms /\
  (ms = [] /\ st_unknown (store_event e a) = st_unknown a \/
   exists m, ms = [m] /\ st_unknown (store_event e a) = (quarantine_writer m (st_unknown a)).2).
Proof.
  eexists. split; [done|]. unfold quarantined_event.
  destruct e as [e|e|c]; [destruct e|destruct e|]; cbn [event_message store_event]; try (by left);
    unfold store_message; cbv zeta; destruct (snapshot_Device _ _); [by left| |by left|];
    right; eexists; (split; [reflexivity|reflexivity]).
Qed.

(** The writer opened as [w0] on the files [F0] holds the messages [acc]. *)
Record holds_all (w0 : QuarantineWriter) (F0 : gmap file_path (list byte)) (Dr : gset dir_path)
    (acc : list UnknownMessage) (F : gmap file_path (list byte)) (u : Holding) : Prop := mkHoldsAll {
  ha_stored : stored (hd_writer u).1 (foldl (place (RotationSize (options w0))) [[]] acc) F Dr;
  ha_clean : clean F Dr (hd_writer u).2;
  ha_keeps : keeps w0 (hd_writer u).1 F0 F;
  ha_sequence : sequence (hd_writer u).1 <= sequence w0 + Z.of_nat (length acc);
  ha_segments : sequence (hd_writer u).1 - Z.of_nat (length (foldl (place (RotationSize (options w0))) [[]] acc)) =
    sequence w0 - 1 }.

Lemma holds_all_start w0 F0 Dr fs ctx : stored w0 [[]] F0 Dr -> clean F0 Dr fs ->
  holds_all w0 F0 Dr [] F0 (mkHolding (w0, fs) ctx).
Proof.
  intros S C. split; cbn [hd_writer fst snd foldl length]; try done; try lia.
Qed.

(** One message: it is added, or its caller's context had ended. *)
Lemma holds_all_write w0 F0 Dr acc F u m : holds_all w0 F0 Dr acc F u -> storable m ->
  sequence w0 + Z.of_nat (length acc) + 1 < 2 ^ 64 ->
  (exists F', holds_all w0 F0 Dr (acc ++ kept_of m u) F' (quarantine_writer m u).2) /\
  (hd_ctx u = [] -> kept_of m u = [m] /\ hd_ctx (quarantine_writer m u).2 = []).
Proof.
  intros [S C K Hs Hg] Hm Hb. unfold kept_of. unfold Router.WriteUnknownMessage, quarantine_writer.
  destruct (default None (head (hd_ctx u))) as [err|] eqn:Ec.
  - unfold Quarantine.WriteUnknownMessage, fail. destruct (hd_writer u) as [w fs] eqn:Eu. cbn [fst snd].
    split; [|intros Hx; by rewrite Hx in Ec]. exists F. rewrite app_nil_r. split; cbn [hd_writer]; by rewrite ?Eu in *.
  - destruct (hd_writer u) as [w fs]. cbn [fst snd] in *.
    destruct (write_stored w _ F Dr fs m S C Hm) as (w' & F' & fs' & E & C' & S' & K' & Hs' & Hg'); [lia|].
    rewrite E. cbn [fst snd hd_ctx]. split; [|intros ->; by split]. exists F'. rewrite (kp_options _ _ _ _ K) in *.
    split; cbn [hd_writer fst snd]; rewrite ?foldl_app; cbn [foldl]; try done.
    + by eapply keeps_trans.
    + rewrite length_app. cbn. lia.
    + lia.
Qed.

Lemma kept_length m (u : Holding) : (length (kept_of m u) <= 1)%nat.
Proof. unfold kept_of. destruct (Router.WriteUnknownMessage m u) as [[]]; cbn; lia. Qed.

Lemma events_hold w0 F0 Dr tr : forall a acc F,
  holds_all w0 F0 Dr acc F (st_unknown a) -> Forall storable (quarantined_events tr a) ->
  sequence w0 + Z.of_nat (length acc + length tr) + 1 < 2 ^ 64 ->
  (exists F', holds_all w0 F0 Dr (acc ++ kept_events tr a) F' (st_unknown (store_events tr a))) /\
  (hd_ctx (st_unknown a) = [] -> kept_events tr a = quarantined_events tr a).
Proof.
  induction tr as [|e tr IH]; intros a acc F H Hm Hb; [split; [exists F; by rewrite app_nil_r|done]|].
  change (store_events (e :: tr) a) with (store_events tr (store_event e a)).
  cbn [kept_events quarantined_events length] in *. apply Forall_app in Hm as [Hm Hms].
  destruct (store_event_unknown e a) as (ms & E & [[-> Eu]|(m & -> & Eu)]); rewrite E in *.
  - cbn [mbind list_bind app]. rewrite <- Eu in *. apply (IH _ _ F); [done|done|lia].
  - apply Forall_cons in Hm as [Hm _]. destruct (holds_all_write _ _ _ _ _ _ m H Hm ltac:(lia)) as [(F1 & H1) Hx].
    rewrite <- Eu in H1. pose proof (kept_length m (st_unknown a)) as Hl.
    destruct (IH (store_event e a) _ F1 H1 Hms) as [I1 I2]; [rewrite length_app; lia|].
    cbn [mbind list_bind]. rewrite app_nil_r. split; [by rewrite app_assoc|]. intros Hc. destruct (Hx Hc) as [-> E'].
    rewrite I2; [done|]. by rewrite Eu.
Qed.

(** Every message kept was given to the quarantine, and all of them are when
    no context ends. *)
Lemma kept_sublist tr : forall a, kept_events tr a `sublist_of` quarantined_events tr a.
Proof.
  induction tr as [|e tr IH]; intros a; cbn [kept_events quarantined_events]; [done|].
  apply sublist_app; [|apply IH]. induction (quarantined_event e a) as [|m l IHl]; [done|].
  cbn [mbind list_bind]. unfold kept_of at 1. destruct (Router.WriteUnknownMessage _ _).1; cbn [app].
  - by apply sublist_skip.
  - by apply sublist_cons.
  - by apply sublist_cons.
Qed.

Lemma kept_count tr : forall a, (length (kept_events tr a) <= length tr)%nat.
Proof.
  induction tr as [|e tr IH]; intros a; cbn [kept_events length]; [lia|]. rewrite length_app.
  pose proof (IH (store_event e a)). destruct (store_event_unknown e a) as (ms & -> & [[-> _]|(m & -> & _)]); cbn [mbind list_bind length].
  - lia.
  - rewrite app_nil_r. pose proof (kept_length m (st_unknown a)). lia.
Qed.
End intake.

(** ** Lemmas: what the restart finds *)

Lemma NoDup_omap_inj {A B} (f : A -> option B) l :
  (forall x y b, x ∈ l -> y ∈ l -> f x = Some b -> f y = Some b -> x = y) -> NoDup l -> NoDup (omap f l).
Proof.
  intros Hf. induction 1 as [|x l Hx Hl IH]; [constructor|]. cbn [omap list_omap].
  assert (NoDup (omap f l)) as IH' by (apply IH; intros y z b Hy Hz; apply Hf; by right).
  destruct (f x) as [b|] eqn:E; [|done]. constructor; [|done].
  intros (y & Hy & Ey)%list_elem_of_omap. by rewrite (Hf x y b) in Hx; [|left|right| |].
Qed.

(** The segments found, each once. *)
Lemma discover_distinct F D d fs l fs' : clean F D fs -> d ∈ D ->
  discoverQuarantineSegments d fs = (Ret l, fs') -> NoDup l.
Proof.
  intros H Hd. unfold discoverQuarantineSegments, ReadDir, mbind, M_bind, wrap_err.
  match goal with |- context [fs_call ?m fs] => destruct (fs_call_clean F D m fs H) as (fs0 & -> & H0) end.
  destruct H0 as (Hf & HD & _). rewrite bool_decide_eq_true_2 by (by rewrite HD). intros [= <- _].
  rewrite !merge_sort_Permutation, omap_app.
  set (g := fun e : dir_entry => match parseQuarantineSegmentName e.1 with
                                 | Some sequence => if e.2 then None else Some (sequence, (d, e.1))
                                 | None => None end).
  assert (omap g (subdir_entries fs0 d) = []) as ->.
  { assert (forall l, (forall e, e ∈ l -> e.2 = true) -> omap g l = []) as K; [|apply K, subdir_entries_dir].
    intros ents; induction ents as [|e ents IH]; intros He; [done|]. cbn [omap list_omap]. unfold g at 1.
    rewrite (He e) by (by left). destruct (parseQuarantineSegmentName e.1); apply IH; intros e' He'; apply He; by right. }
  rewrite app_nil_r. apply NoDup_omap_inj.
  - intros [n1 b1] [n2 b2] b _ _ E1 E2. unfold g in *. cbn [fst snd] in *.
    destruct (parseQuarantineSegmentName n1); [|done]. destruct (parseQuarantineSegmentName n2); [|done].
    destruct b1, b2; by simplify_eq.
  - apply NoDup_omap_inj; [|apply NoDup_map_to_list].
    intros [[d1 n1] c1] [[d2 n2] c2] b H1%elem_of_map_to_list H2%elem_of_map_to_list E1 E2. cbn in *.
    destruct (decide (d1 = d)); [|done]. destruct (decide (d2 = d)); [|done]. by simplify_eq.
Qed.

(** A directory whose segments are numbered without a gap. *)
Lemma discover_range F D d fs a k : clean F D fs -> d ∈ D -> 1 <= a -> a + Z.of_nat k <= 100000000 ->
  (forall n, 1 <= n <= 99999999 -> is_Some (F !! (d, quarantineSegmentName n)) <-> a <= n < a + Z.of_nat k) ->
  exists fs', discoverQuarantineSegments d fs = (Ret (segment_list d (seqZ a (Z.of_nat k))), fs') /\ clean F D fs'.
Proof.
  intros H Hd Ha Hk Hn. destruct (discover_clean F D d fs H Hd) as (l & fs' & E & H' & Hsort & Hl).
  pose proof (discover_distinct F D d fs l fs' H Hd E) as Hnd. exists fs'. split; [|done]. rewrite E.
  assert (forall x, x ∈ segment_list d (seqZ a (Z.of_nat k)) <->
            exists n, x = (n, (d, quarantineSegmentName n)) /\ a <= n < a + Z.of_nat k) as Hs.
  { intros x. unfold segment_list. change (map ?f ?l) with (f <$> l). rewrite list_elem_of_fmap.
    split; intros (n & -> & Hin); exists n; (split; [done|]); by apply elem_of_seqZ. }
  assert (l ≡ₚ segment_list d (seqZ a (Z.of_nat k))) as Hp.
  { apply NoDup_Permutation; [done| |].
    - unfold segment_list. change (map ?f ?l) with (f <$> l). apply NoDup_fmap_2_strong; [|apply NoDup_seqZ].
      by intros x y _ _ [= ->].
    - intros [n p]. rewrite Hl, Hs. split.
      + intros (-> & Hr & Hsome). exists n. split; [done|]. by apply Hn.
      + intros (n' & [= -> ->] & Hr). split; [done|]. split; [lia|]. apply Hn; lia. }
  f_equal. f_equal. apply (StronglySorted_unique_strong segment_le); [|done| |done].
  - intros [n p] [n' p'] (-> & _)%Hl (m & [= -> ->] & _)%Hs. unfold segment_le. cbn. intros ??. by assert (n = m) as -> by lia.
  - clear. revert a. induction k as [|k IH]; intros a; [constructor|].
    replace (Z.of_nat (S k)) with (Z.succ (Z.of_nat k)) by lia. rewrite seqZ_cons by lia.
    replace (Z.pred (Z.succ (Z.of_nat k))) with (Z.of_nat k) by lia. cbn [segment_list map]. fold (segment_list d).
    constructor; [apply IH|]. unfold segment_list. apply Forall_map, Forall_seqZ. intros m Hm. unfold segment_le. cbn. lia.
Qed.

(** ** Lemmas: from the first start to the restart *)

(** A directory that no quarantine has been kept in. *)
Record fresh_quarantine (opts : QuarantineOptions) (fs : FS) : Prop := mkFresh {
  fq_faults : no_faults fs;
  fq_path : blank_path (Directory opts) = false;
  fq_rotation : cQuarantineEntryMinimum <= RotationSize opts < 2 ^ 61;
  fq_parents : existsb (is_file fs) (ancestors (Directory opts)) = false;
  fq_empty : forall q, q.1 = Directory opts -> files fs !! q = None;
  fq_flat : forall name, Directory opts ++ [name] ∉ dirs fs }.

(** What a quarantine that held [segs] (the newest first) leaves behind. *)
Record left_behind (opts : QuarantineOptions) (segs : list (list UnknownMessage)) (fs : FS) : Prop := mkLeft {
  lb_faults : no_faults fs;
  lb_parents : existsb (is_file fs) (ancestors (Directory opts)) = false;
  lb_flat : flat (Directory opts) (dirs fs);
  lb_segments : forall i ms, segs !! i = Some ms ->
    files fs !! (Directory opts, quarantineSegmentName (Z.of_nat (length segs) - Z.of_nat i)) = Some (images ms);
  lb_others : forall q, q.1 = Directory opts ->
    (forall n, 1 <= n <= Z.of_nat (length segs) -> q <> (Directory opts, quarantineSegmentName n)) -> files fs !! q = None;
  lb_storable : Forall (Forall storable) segs }.

Lemma parents_same fs fs' d : (forall q, q.1 <> d -> files fs' !! q = files fs !! q) ->
  existsb (is_file fs') (ancestors d) = existsb (is_file fs) (ancestors d).
Proof.
  intros H. assert (forall p, p ∈ ancestors d -> is_file fs' p = is_file fs p) as K.
  { intros p Hp%ancestors_length. unfold is_file. destruct (last p) as [name|] eqn:El; [|done]. rewrite H; [done|]. cbn.
    intros <-. rewrite length_take in Hp. destruct p as [|x p]; [done|]. cbn [length] in Hp. lia. }
  revert K. induction (ancestors d) as [|p l IH]; intros K; [done|]. cbn [existsb].
  rewrite (K p) by (by left). rewrite IH; [done|]. intros q Hq. apply K. by right.
Qed.

Lemma flat_dirs (d : dir_path) (D D' : gset dir_path) : d <> [] -> (forall name, d ++ [name] ∉ D) -> (forall p, p ∈ D' <-> p ∈ ancestors d \/ p ∈ D) -> flat d D'.
Proof.
  intros Hd Hf H. split; [apply H; left; by apply ancestors_self|]. intros name [Hin%ancestors_length|Hin]%H.
  - rewrite length_app in Hin. cbn in Hin. lia.
  - by apply (Hf name).
Qed.

Lemma open_fresh spare opts fs w fs1 : fresh_quarantine opts fs -> OpenQuarantineWriter spare opts fs = (Ret w, fs1) ->
  clean (files fs1) (dirs fs1) fs1 /\ stored w [[]] (files fs1) (dirs fs1) /\
  Directory (options w) = Directory opts /\ RotationSize (options w) = RotationSize opts /\ sequence w = 1 /\
  flat (Directory opts) (dirs fs1) /\ existsb (is_file fs1) (ancestors (Directory opts)) = false /\
  (forall q, q.1 = Directory opts -> q <> q_segment w 1 -> files fs1 !! q = None).
Proof.
  intros [ff fp fr fpa fe ffl] E.
  assert (q_openable opts (fun _ => []) fs) as Ho.
  { constructor; try done.
    - intros n c _ Hc. by rewrite fe in Hc.
    - intros n _. by apply fe. }
  destruct (open_stored spare opts _ fs Ho) as (w' & fs' & E' & C & S & Hd & Hr & _ & _ & Hout & Hex & Hdirs & Hl).
  rewrite E in E'. injection E' as <- <-.
  assert (sequence w = 1) as Hs by (destruct Hl as [|[c Hc]]; [done|]; by rewrite fe in Hc).
  assert (segmentPath w = q_segment w 1) as Hp by (by unfold segmentPath, q_segment; rewrite Hs).
  split_and!; try done.
  - apply (flat_dirs _ (dirs fs)); [by apply blank_path_nil|done|done].
  - rewrite (parents_same fs _ (Directory opts)); [done|]. intros q Hq. apply Hout; [by left|]. rewrite Hp. intros ->. by apply Hq.
  - intros q Hq Hne. apply eq_None_not_Some. rewrite Hex by (by rewrite Hp). rewrite fe by done. by intros [].
Qed.

(** Closing a quarantine that holds [acc]. *)
Lemma close_left opts w fs1 acc F u :
  Directory (options w) = Directory opts -> sequence w = 1 -> flat (Directory opts) (dirs fs1) ->
  existsb (is_file fs1) (ancestors (Directory opts)) = false ->
  (forall q, q.1 = Directory opts -> q <> q_segment w 1 -> files fs1 !! q = None) ->
  holds_all w (files fs1) (dirs fs1) acc F u -> Forall storable acc -> Z.of_nat (length acc) + 1 < 2 ^ 64 ->
  exists w2 fs2, Close (hd_writer u) = (Ret tt, (w2, fs2)) /\
    left_behind opts (foldl (place (RotationSize (options w))) [[]] acc) fs2 /\
    (length (foldl (place (RotationSize (options w))) [[]] acc) <= S (length acc))%nat.
Proof.
  intros Hd Hs Hf Hp He [S C K Hq Hg] Hm Hl. set (segs := foldl _ _ acc) in *.
  destruct (hd_writer u) as [w1 fs]. cbn [fst snd] in *.
  destruct (close_stored w1 _ F _ fs S C) as (fs2 & E & (Hfiles & Hdirs & Hnf)).
  do 2 eexists. split; [exact E|]. pose proof (st_nonempty _ _ _ _ S) as Hne. pose proof (st_sequence _ _ _ _ S) as Hsq.
  assert (sequence w1 = Z.of_nat (length segs)) as Hw1 by lia.
  split; [|lia].
  assert (forall n, q_segment w n = (Directory opts, quarantineSegmentName n)) as Hseg by (intros; unfold q_segment; by rewrite Hd).
  assert (forall q, (forall n, 1 <= n <= Z.of_nat (length segs) -> q <> (Directory opts, quarantineSegmentName n)) ->
    F !! q = files fs1 !! q) as Hkeep.
  { intros q H. apply (kp_others _ _ _ _ K). intros n Hn. rewrite Hseg. apply H. lia. }
  split.
  - done.
  - rewrite (parents_same fs1); [done|]. intros q H. rewrite Hfiles. apply Hkeep. intros n _ ->. by apply H.
  - by rewrite Hdirs.
  - intros i ms Hi. pose proof (st_images _ _ _ _ S i ms Hi) as H. unfold q_segment in H.
    rewrite (kp_options _ _ _ _ K), Hd, Hw1 in H. by rewrite Hfiles.
  - intros q H1 H2. rewrite Hfiles, Hkeep by done. apply He; [done|]. rewrite Hseg. apply H2. lia.
  - apply Forall_forall. intros seg Hin. apply (placed_storable (RotationSize (options w)) acc [[]]); try done.
    repeat constructor.
Qed.

(** The messages of segment [n]. *)
Definition held_in (segs : list (list UnknownMessage)) (n : Z) : list UnknownMessage :=
  default [] (segs !! Z.to_nat (Z.of_nat (length segs) - n)).

Lemma held_lookup segs n : 1 <= n <= Z.of_nat (length segs) ->
  exists i ms, segs !! i = Some ms /\ held_in segs n = ms /\ n = Z.of_nat (length segs) - Z.of_nat i.
Proof.
  intros Hn. unfold held_in. destruct (lookup_lt_is_Some_2 segs (Z.to_nat (Z.of_nat (length segs) - n))) as [ms E]; [lia|].
  exists (Z.to_nat (Z.of_nat (length segs) - n)), ms. rewrite E. split_and!; [done..|lia].
Qed.

Lemma held_messages segs : concat (map (held_in segs) (seqZ 1 (Z.of_nat (length segs)))) = messages segs.
Proof.
  unfold messages. f_equal. change (map ?f ?l) with (f <$> l). apply list_eq. intros i. rewrite list_lookup_fmap.
  destruct (decide (i < length segs)%nat) as [Hi|Hi].
  - rewrite lookup_seqZ_lt, reverse_lookup by lia. cbn. unfold held_in.
    replace (Z.to_nat (Z.of_nat (length segs) - (1 + Z.of_nat i))) with (length segs - S i)%nat by lia.
    destruct (lookup_lt_is_Some_2 segs (length segs - S i)) as [ms E]; [lia|]. by rewrite E.
  - rewrite lookup_seqZ_ge, lookup_ge_None_2 by (rewrite ?length_reverse; lia). done.
Qed.

Lemma left_segment opts segs fs n : left_behind opts segs fs -> Z.of_nat (length segs) < 2 ^ 64 -> 1 <= n <= Z.of_nat (length segs) ->
  files fs !! (Directory opts, quarantineSegmentName n) = Some (images (held_in segs n)) /\ Forall storable (held_in segs n).
Proof.
  intros [_ _ _ Hs _ Hm] Hl Hn. destruct (held_lookup segs n Hn) as (i & ms & Hi & -> & ->). split; [by apply Hs|].
  by eapply (Forall_lookup_1 _ _ _ _ Hm Hi).
Qed.

(** The other files of the directory are missing. *)
Lemma left_missing opts segs fs n : left_behind opts segs fs -> Z.of_nat (length segs) < n < 2 ^ 64 ->
  files fs !! (Directory opts, quarantineSegmentName n) = None.
Proof.
  intros L Hn. apply (lb_others _ _ _ L); [done|]. intros k Hk E.
  apply (q_segment_inj (mkQuarantineWriter opts None 0 0 false)) in E; lia.
Qed.

Lemma left_markers opts segs fs n : left_behind opts segs fs ->
  files fs !! with_suffix (Directory opts, quarantineSegmentName n) ".done" = None.
Proof. intros L. apply (lb_others _ _ _ L); [done|]. intros k _. apply (proj1 (marker_not_segment _ _ _ _)). Qed.

Lemma left_openable opts segs fs : blank_path (Directory opts) = false ->
  cQuarantineEntryMinimum <= RotationSize opts < 2 ^ 61 -> left_behind opts segs fs -> Z.of_nat (length segs) < 99999999 -> Z.of_nat (length (messages segs)) < 2 ^ 62 ->
  q_openable opts (held_in segs) fs.
Proof.
  intros Hp Hr L Hl. pose proof L as [lf lp [_ ln] ls lo lm]. constructor; try done.
  - intros n c Hn Hc. destruct (decide (n <= Z.of_nat (length segs))).
    + destruct (left_segment opts segs fs n L) as [E Hst]; [lia..|]. rewrite E in Hc. injection Hc as <-.
      exists []. rewrite app_nil_r. split; [done|]. split; [done|].
      apply (torn_nil _ sample_torn).
    + by rewrite (left_missing opts segs fs n L) in Hc by lia.
  - intros n Hn. apply (left_missing opts segs); [done|lia].
Qed.

(** Opening it again: every segment is there to be replayed. *)
Lemma reopened spare opts segs fs : blank_path (Directory opts) = false ->
  cQuarantineEntryMinimum <= RotationSize opts < 2 ^ 61 -> left_behind opts segs fs -> Z.of_nat (length segs) < 99999999 -> Z.of_nat (length (messages segs)) < 2 ^ 62 ->
  let b := Z.of_nat (length segs) in
  exists w fs', OpenQuarantineWriter spare opts fs = (Ret w, fs') /\
    clean (files fs') (dirs fs') fs' /\ stored w [[]] (files fs') (dirs fs') /\
    Directory (options w) = Directory opts /\ RotationSize (options w) = RotationSize opts /\ sequence w = b + 1 /\
    replayable w (files fs') (dirs fs') (held_in segs) (seqZ 1 b) /\
    pending (files fs') (Directory opts) (held_in segs) (seqZ 1 b) = messages segs /\
    exists fs'', discoverQuarantineSegments (Directory opts) fs' = (Ret (segment_list (Directory opts) (seqZ 1 (b + 1))), fs'') /\
      clean (files fs') (dirs fs') fs''.
Proof.
  intros Hp Hr L Hl Hml b.
  destruct (open_stored spare opts (held_in segs) fs) as (w & fs' & E & C & S & Hd & Hro & _ & Hh & _ & Hex & Hdirs & Hlast);
    [by apply left_openable|].
  assert (forall n, 1 <= n <= b -> n < sequence w /\
    files fs' !! (Directory opts, quarantineSegmentName n) = Some (images (held_in segs n))) as Hin.
  { intros n Hn. apply Hh; [lia|]. destruct (left_segment opts segs fs n L) as [-> _]; [lia|done|by eexists]. }
  pose proof (st_sequence _ _ _ _ S) as [H1 H2]. cbn [length] in H1.
  assert (sequence w = b + 1) as Hw.
  { destruct (decide (b = 0)) as [H0|H0].
    - destruct Hlast as [|[c Hc]]; [lia|]. destruct (decide (sequence w = 1)); [lia|].
      by rewrite (left_missing opts segs fs (sequence w - 1) L) in Hc by lia.
    - destruct (Hin b ltac:(lia)) as [Hb _]. destruct Hlast as [|[c Hc]]; [lia|].
      destruct (decide (sequence w = b + 1)); [done|]. by rewrite (left_missing opts segs fs (sequence w - 1) L) in Hc by lia. }
  assert (segmentPath w = (Directory opts, quarantineSegmentName (b + 1))) as Hsp by (unfold segmentPath; by rewrite Hd, Hw).
  assert (flat (Directory opts) (dirs fs')) as Hf.
  { apply (flat_dirs _ (dirs fs)); [by apply blank_path_nil|apply (proj2 (lb_flat _ _ _ L))|done]. }
  exists w, fs'. split; [done|]. split; [done|]. split; [done|]. split; [done|]. split; [done|]. split; [done|]. split; [|split].
  - constructor; rewrite ?Hd; try done.
    + apply NoDup_seqZ.
    + intros n Hn%elem_of_seqZ. lia.
    + intros n Hn%elem_of_seqZ. unfold q_segment. rewrite Hd. apply Hin. lia.
    + intros n Hn%elem_of_seqZ. by apply (left_segment opts segs fs n L); lia.
    + rewrite held_messages. lia.
  - unfold pending. rewrite <- (held_messages segs). f_equal. apply map_ext_Forall, Forall_forall. intros n _.
    unfold pending_of, marked. rewrite bool_decide_eq_false_2; [done|].
    rewrite Hex; [by rewrite (left_markers opts segs fs n L); intros []|].
    rewrite Hsp. intros Hs. by apply (proj1 (marker_not_segment _ _ _ _)) in Hs.
  - destruct (discover_range (files fs') (dirs fs') (Directory opts) fs' 1 (1 + length segs) C) as (fs'' & Ed & Cd); [apply Hf|lia|lia| |].
    + intros n Hn. destruct (decide (n = b + 1)) as [->|Hne].
      * rewrite <- Hsp. pose proof (st_images _ _ _ _ S 0%nat [] eq_refl) as Hi. rewrite Z.sub_0_r in Hi.
        change (q_segment w (sequence w)) with (segmentPath w) in Hi. rewrite Hi. split; [lia|by eexists].
      * rewrite Hex by (rewrite Hsp; intros Hs; apply (q_segment_inj (mkQuarantineWriter opts None 0 0 false)) in Hs; lia).
        split; [|intros Hr2; destruct (left_segment opts segs fs n L) as [-> _]; [lia|lia|by eexists]].
        intros Hsome. destruct (decide (n <= b)); [lia|].
        rewrite (left_missing opts segs fs n L) in Hsome by lia. by destruct Hsome.
    + replace (b + 1) with (Z.of_nat (1 + length segs)) by lia. by exists fs''.
Qed.

(** Messages that fit into the segment being written. *)
Lemma place_fits rotation ms : forall acc, Z.of_nat (length (images (acc ++ ms))) <= rotation ->
  foldl (place rotation) [acc] ms = [acc ++ ms].
Proof.
  induction ms as [|m ms IH]; intros acc H; [by rewrite app_nil_r|]. cbn [foldl place].
  assert (images (acc ++ m :: ms) = images acc ++ image m ++ images ms) as E by by rewrite images_app, images_cons.
  rewrite E, !length_app in H. rewrite (proj2 (Z.ltb_ge rotation _)), andb_false_r by lia.
  rewrite IH; rewrite <- app_assoc; [done|]. cbn [app]. rewrite E, !length_app. lia.
Qed.

Lemma replay_segments_app spare {D} `{!SensorDataWriter D} snap l l' (s : Replay D) :
  replay_segments spare snap (l ++ l') s = (replay_segments spare snap l;; replay_segments spare snap l') s.
Proof.
  revert s. induction l as [|x l IH]; intros s; [done|]. cbn [app replay_segments]. unfold mbind, M_bind in *.
  destruct (replay_segment spare snap x s) as [[]]; [apply IH|done..].
Qed.

(** Replaying what was left behind, the messages of devices still unknown
    fitting into the new segment. *)
Lemma replay_left spare opts segs fs {D} `{!SensorDataWriter D} (registry : ConfigRegistry) (d : D) :
  (forall f r t ts v (d : D), (WriteSensorData f r t ts v d).1 = Ret tt) ->
  blank_path (Directory opts) = false -> cQuarantineEntryMinimum <= RotationSize opts < 2 ^ 61 ->
  left_behind opts segs fs -> Z.of_nat (length segs) < 99999999 -> Z.of_nat (length (messages segs)) < 2 ^ 62 ->
  let snap := Snapshot registry in
  Z.of_nat (length (images (carried snap (messages segs)))) <= RotationSize opts ->
  exists w fs' s', OpenQuarantineWriter spare opts fs = (Ret w, fs') /\
    ReplayQuarantine spare registry (mkReplay w fs' d (mkReplayCounters 0 0 0 0) []) = (Ret tt, s') /\
    rp_data s' = delivered snap (messages segs) d /\
    sequence (rp_writer s') = Z.of_nat (length segs) + 1 /\
    files (rp_fs s') !! segmentPath (rp_writer s') = Some (images (carried snap (messages segs))).
Proof.
  intros Ha Hp Hr L Hl Hml snap Hfit. set (b := Z.of_nat (length segs)).
  destruct (reopened spare opts segs fs Hp Hr L Hl Hml)
    as (w & fs1 & E & C & S & Hd & Hro & Hw & Hre & Hpe & fs2 & Edisc & C2). fold b in Hw, Hre, Hpe, Edisc.
  set (s1 := mkReplay w fs2 d (mkReplayCounters 0 0 0 0) []).
  destruct (replay_segments_all spare Ha snap (held_in segs) (seqZ 1 b) s1 [[]] _ _ eq_refl S C2 Hre)
    as (s' & F' & Er & _ & Dd & (Hf & _) & St & O & _ & Hlen & _).
  cbn [s1 rp_writer rp_data] in Er, Dd, St, O, Hlen. rewrite Hd in Er, Dd, St, Hlen. rewrite Hpe in *.
  rewrite Hro, place_fits in St, Hlen by done. cbn [app length] in *.
  exists w, fs1, s'. split; [done|]. split; [|split; [done|split; [lia|]]].
  - unfold ReplayQuarantine, tally, modify, get, mbind, M_bind, on_fs, zoom. cbn [rp_writer rp_fs]. rewrite Hd, Edisc.
    cbn [rp_writer rp_data rp_counters rp_ctx]. fold s1.
    assert (seqZ 1 (b + 1) = seqZ 1 b ++ [b + 1]) as ->.
    { rewrite seqZ_app by lia. f_equal. rewrite seqZ_cons by lia. cbn. f_equal. lia. }
    unfold segment_list. rewrite map_app. change (map ?f (seqZ 1 b)) with (segment_list (Directory opts) (seqZ 1 b)).
    rewrite replay_segments_app. unfold mbind, M_bind. change (Snapshot registry) with snap. rewrite Er.
    cbn [map replay_segments]. unfold replay_segment, mbind, M_bind, get. cbn [fst].
    rewrite (proj2 (Z.leb_le _ _)) by lia. done.
  - pose proof (st_images _ _ _ _ St 0%nat _ eq_refl) as Hi. rewrite Z.sub_0_r in Hi. by rewrite Hf.
Qed.

(** ** Properties *)

#[local] Existing Instance quarantine_writer.

(** C6. A message of an unknown device is not lost.  The servers run with a
    quarantine in a new directory behind the router, their goroutines and the
    reloads interleaved in any way; the quarantine keeps every message given
    to it whose caller's context had not ended (so all of them while no context
    ends), in the order in which they were routed.  After the quarantine is
    closed it can be opened again, and replaying it under the configuration of
    that day writes to the data writer exactly the records that this
    configuration knows of exactly these messages, in their order, and puts
    the messages of devices still unknown, in order, into the new segment
    (when they fit into it). *)
Theorem intake_quarantined spare {D D2} `{!SensorDataWriter D} `{!SensorDataWriter D2}
    (data_returns : forall f r t ts v (d : D) p, (WriteSensorData f r t ts v d).1 <> Panic p)
    (accepting : forall f r t ts v (d : D2), (WriteSensorData f r t ts v d).1 = Ret tt)
    opts fs0 w fs1 ctxs (r : MessageRouter D Holding) topts uopts s0 tr s :
  fresh_quarantine opts fs0 -> OpenQuarantineWriter spare opts fs0 = (Ret w, fs1) ->
  open_intake r topts uopts = inr s0 -> unknown r = mkHolding (w, fs1) ctxs ->
  valid_snapshot (Router.Snapshot (registry r)) ->
  intake_reachable s0 tr s -> Forall keeps_valid tr -> Forall timed tr -> Z.of_nat (length tr) < 99999998 ->
  let given := quarantined_events tr (store_of r) in
  exists kept w2 fs2,
    kept `sublist_of` given /\ (ctxs = [] -> kept = given) /\
    Close (hd_writer (unknown (it_router s))) = (Ret tt, (w2, fs2)) /\
    forall (today : ConfigRegistry) (d : D2),
      let still := carried (Router.Snapshot today) kept in
      Z.of_nat (length (images still)) <= RotationSize opts ->
      exists w3 fs3 s3, OpenQuarantineWriter spare opts fs2 = (Ret w3, fs3) /\
        ReplayQuarantine spare today (mkReplay w3 fs3 d (mkReplayCounters 0 0 0 0) []) = (Ret tt, s3) /\
        rp_data s3 = delivered (Router.Snapshot today) kept d /\
        files (rp_fs s3) !! segmentPath (rp_writer s3) = Some (images still).
Proof.
  intros Hfr Eo Ho Hu Hv R Hk Ht Hl given.
  destruct (open_fresh _ _ _ _ _ Hfr Eo) as (C & S & Hd & Hro & Hw & Hf & Hpa & He).
  destruct (intake_reachable_typed _ _ _ (open_intake_typed _ _ _ _ Ho) R) as [_ Hty].
  destruct (events_typed tr (store_of r) Hv Hk Ht Hty) as [_ Hst]. fold given in Hst.
  assert (it_router s0 = r) as E0.
  { unfold open_intake in Ho. destruct (NewTCPServer _ _); [done|]. destruct (NewUDPServer _ _); [done|]. by injection Ho as <-. }
  pose proof (f_equal st_unknown (intake_reachable_store data_returns s0 tr s R)) as Eu. cbn [store_of st_unknown] in Eu. rewrite E0 in Eu.
  destruct (events_hold w (files fs1) (dirs fs1) tr (store_of r) [] (files fs1)) as [(F & HF) Hall].
  { cbn [store_of st_unknown]. rewrite Hu. by apply holds_all_start. }
  { exact Hst. }
  { cbn [length]. lia. }
  rewrite <- Eu in HF. cbn [app] in HF. set (kept := kept_events tr (store_of r)) in *.
  pose proof (kept_sublist tr (store_of r)) as Hsub. pose proof (kept_count tr (store_of r)) as Hc. fold kept given in Hsub, Hc.
  assert (Forall storable kept) as Hks by by (rewrite Forall_forall in Hst |- *; intros m Hm; by eapply Hst, elem_of_sublist).
  destruct (close_left opts w fs1 kept F _ Hd Hw Hf Hpa He HF Hks) as (w2 & fs2 & Ec & L & Hlen); [lia|].
  exists kept, w2, fs2. split; [done|]. split; [|split; [done|]].
  { intros ->. apply Hall. cbn [store_of st_unknown]. by rewrite Hu. }
  intros today d still Hfit.
  destruct (replay_left spare opts _ fs2 today d accepting (fq_path _ _ Hfr) (fq_rotation _ _ Hfr) L)
    as (w3 & fs3 & s3 & E3 & E4 & H1 & _ & H2); rewrite ?placed_messages; [lia|cbn; lia|exact Hfit|].
  rewrite placed_messages in H1, H2. by exists w3, fs3, s3.
Qed.

(** ** A concrete run *)

#[local] Existing Instance storing.

(** An unknown device sends a message by UDP while a known one is served; on
    the next day its address has become that of the configured device. *)
Definition night_fs : FS := mkFS ∅ ∅ [].
Definition night_open : QuarantineWriter * FS :=
  match OpenQuarantineWriter (fun _ => []) sample_q_options night_fs with
  | (Ret w, fs) => (w, fs)
  | (_, fs) => (sample_writer, fs)
  end.
Definition night_router : MessageRouter data_log Holding :=
  NewMessageRouter (mkRegistry live_snapshot) [] (mkHolding night_open []).
Definition night_intake : Intake data_log Holding :=
  mkIntake night_router (it_tcp sample_intake) (it_udp sample_intake).
Definition night_run : list intake_event * Intake data_log Holding := intake_outcome typed_messages night_intake.
Definition morning_snapshot : ConfigSnapshot :=
  match NewConfigSnapshot (sample_config [mkDeviceConfig "02:00:00:ab:cd:ef" "first" "kitchen"]) with inr s => s | inl _ => sample_snapshot end.

Lemma storing_returns f r t ts v (d : data_log) p : (WriteSensorData f r t ts v d).1 <> Panic p.
Proof. done. Qed.
Lemma storing_accepts f r t ts v (d : data_log) : (WriteSensorData f r t ts v d).1 = Ret tt.
Proof. reflexivity. Qed.

Lemma night_quiet : forallb (fun e => match e with Reloaded _ => false | _ => true end &&
  match event_message e with Some (ts, _) => (0 <=? ts) && (ts <? 10) | None => true end) night_run.1 = true.
Proof. vm_compute. reflexivity. Qed.

Lemma night_length : Z.of_nat (length night_run.1) < 100.
Proof. vm_compute. reflexivity. Qed.

Lemma intake_quarantined_witness : exists w2 fs2 w3 fs3 s3,
  Close (hd_writer (unknown (it_router night_run.2))) = (Ret tt, (w2, fs2)) /\
  OpenQuarantineWriter (fun _ => []) sample_q_options fs2 = (Ret w3, fs3) /\
  ReplayQuarantine (fun _ => []) (mkRegistry morning_snapshot) (mkReplay w3 fs3 [] (mkReplayCounters 0 0 0 0) []) = (Ret tt, s3) /\
  rp_data s3 = [(FLOOR_FIRST, ROOM_KITCHEN, SENSOR_ID_TEMPERATURE, 6, 42)].
Proof.
  pose proof night_quiet as He. rewrite forallb_forall in He.
  destruct (intake_quarantined (fun _ => []) storing_returns storing_accepts sample_q_options night_fs night_open.1 night_open.2 []
    night_router (mkTCPOptions 2 5000000000) (mkUDPOptions 2 1) night_intake night_run.1 night_run.2)
    as (kept & w2 & fs2 & _ & Hall & Ec & H).
  - constructor; try done. by apply Forall_nil.
  - vm_compute. reflexivity.
  - reflexivity.
  - change (mkHolding night_open [] = mkHolding (night_open.1, night_open.2) []). by rewrite <- surjective_pairing.
  - exact live_snapshot_valid.
  - apply intake_outcome_reachable.
  - apply Forall_forall. intros e Hin. apply list_elem_of_In, He, andb_true_iff in Hin as [Hr _]. by destruct e.
  - apply Forall_forall. intros e Hin. apply list_elem_of_In, He, andb_true_iff in Hin as [_ Ht]. unfold timed.
    destruct (event_message e) as [[ts m]|]; [|done]. apply andb_true_iff in Ht as [H1%Z.leb_le H2%Z.ltb_lt]. lia.
  - pose proof night_length. lia.
  - rewrite (Hall eq_refl) in H. destruct (H (mkRegistry morning_snapshot) []) as (w3 & fs3 & s3 & E3 & E4 & Hd & _).
    + vm_compute. discriminate.
    + exists w2, fs2, w3, fs3, s3. split; [exact Ec|]. split; [exact E3|]. split; [exact E4|].
      etrans; [exact Hd|]. vm_compute. reflexivity.
Defined.

(** Messages carried over that fill the segment being written rotate it; the
    segment then counts as one of the past and is replayed as well, within the
    same run: its messages are carried, and counted, a second time. *)
Definition crowded_writer : QuarantineWriter :=
  mkQuarantineWriter sample_q_options (Some (["quarantine"], quarantineSegmentName 3)) 3 0 false.
Definition crowded_files : gmap file_path (list byte) :=
  <[q_segment crowded_writer 1 := images [sample_unknown; sample_unknown]]>
    (<[q_segment crowded_writer 2 := images [sample_unknown; sample_unknown]]> {[ q_segment crowded_writer 3 := [] ]}).

Example carried_twice :
  let s := mkReplay crowded_writer (mkFS crowded_files {[ ["quarantine"] ]} []) ([] : data_log) (mkReplayCounters 0 0 0 0) [] in
  let '(r, s') := ReplayQuarantine (fun _ => []) (mkRegistry sample_snapshot) s in
  r = Ret tt /\ rp_counters s' = mkReplayCounters 3 0 6 0.
Proof. vm_compute. by split. Qed.
