(* ===== verification/Closing.v ===== *)
(** * Closing both servers inside the intake

    When [Close] of both servers and both [Serve] goroutines have returned
    ([src/sensor-server/server.go], [Close], before it closes the storage), the
    intake is at rest: every datagram and every message of a connection has its
    fate, and nothing more is routed, so that the storage can be closed.  The
    one exception is a connection whose registration [Close] overtook. *)

From S2P Require Import Prelude GoRuntime House Protocol Config Router TcpServer UdpServer UdpClose Intake Pipeline Typing.
Open Scope Z_scope.

(** ** The UDP server with another handler

    The invariants of the UDP server do not mention its handler. *)

Section uretag.
Context {H H' : Type}.
Implicit Types s : UDPServer H.

Lemma udp_inv_retag (h : H') tr s : udp_inv tr s -> udp_inv tr (uretag h s).
Proof. intros [[] [] []]. split; by constructor. Qed.

Lemma closing_inv_retag (h : H') o s : closing_inv o s -> closing_inv o (uretag h s).
Proof. intros []. by split. Qed.
End uretag.

(** The events of the UDP server in a trace. *)
Definition udp_events (tr : list intake_event) : list uevent :=
  omap (fun e => match e with FromUDP e => Some e | _ => None end) tr.

Lemma udp_events_app tr tr' : udp_events (tr ++ tr') = udp_events tr ++ udp_events tr'.
Proof. apply omap_app. Qed.
Lemma udp_events_udp evs : udp_events (map FromUDP evs) = evs.
Proof. induction evs as [|e evs IH]; [done|]. cbn. by f_equal. Qed.
Lemma udp_events_tcp evs : udp_events (map FromTCP evs) = [].
Proof. by induction evs. Qed.

Section intake.
Context {D U : Type} `{!SensorDataWriter D} `{!UnknownMessageWriter U}.
Implicit Types s : Intake D U.

(** The invariants of both servers hold inside the intake. *)
Record intake_inv (uopts : UDPServerOptions) (tr : list intake_event) s : Prop := mkIntakeInv {
  ii_udp : udp_inv (udp_events tr) (it_udp s);
  ii_closing : closing_inv uopts (it_udp s) }.

Lemma intake_step_inv uopts a tr s evs s' :
  intake_inv uopts tr s -> intake_step a s = Some (evs, s') -> intake_inv uopts (tr ++ evs) s'.
Proof.
  intros [I C]. destruct a as [a|a|c]; cbn [intake_step].
  - destruct (exec _ _) as [[es t]|]; [|done]. intros [= <- <-].
    split; [|done]. by rewrite udp_events_app, udp_events_tcp, app_nil_r.
  - destruct (uexec a _) as [[es u]|] eqn:E; [|done]. intros [= <- <-].
    split; cbn [it_udp].
    + rewrite udp_events_app, udp_events_udp. apply udp_inv_retag.
      eapply uexec_inv; [|exact E]. by apply udp_inv_retag.
    + apply closing_inv_retag. eapply uexec_closing; [|exact E]. by apply closing_inv_retag.
  - intros [= <- <-]. split; [|done]. by rewrite udp_events_app, app_nil_r.
Qed.

Lemma intake_reachable_inv (r : MessageRouter D U) topts uopts s0 tr s :
  open_intake r topts uopts = inr s0 -> intake_reachable s0 tr s -> intake_inv uopts tr s.
Proof.
  intros Ho R. induction R as [|tr s a evs s' R IH E]; [|by eapply intake_step_inv].
  unfold open_intake in Ho. destruct (NewTCPServer _ _); [done|].
  destruct (NewUDPServer tt uopts) as [|u] eqn:Eu; [done|]. injection Ho as <-.
  split; [by eapply NewUDPServer_inv|]. by eapply NewUDPServer_closing.
Qed.

(** The limits and the sessions of the TCP server. *)
Lemma intake_reachable_tcp (r : MessageRouter D U) topts uopts s0 tr s :
  open_intake r topts uopts = inr s0 -> intake_reachable s0 tr s ->
  limits (retag ([] : Tape) (it_tcp s)) /\ sessions_ok (tcp_events tr) (retag ([] : Tape) (it_tcp s)).
Proof.
  intros Ho R. destruct (intake_reachable_tape _ _ _ R) as [tape T]. specialize (T []). rewrite app_nil_r in T.
  unfold open_intake in Ho. destruct (NewTCPServer tt topts) as [|t] eqn:Et; [done|].
  destruct (NewUDPServer tt uopts) as [|u]; [done|]. injection Ho as <-. cbn [it_tcp] in T.
  assert (NewTCPServer tape topts = inr (retag tape t)) as Et'.
  { revert Et. unfold NewTCPServer. repeat case_match; try done. by intros [= <-]. }
  split; [by eapply reachable_limits|by eapply reachable_sessions].
Qed.
End intake.

(** ** At rest *)

Section rest.
Context {D U : Type} `{!SensorDataWriter D} `{!UnknownMessageWriter U}.
Implicit Types s : Intake D U.

(** [Close] of both servers has returned, both [Serve] have, and no goroutine
    of a connection is counted. *)
Record at_rest s : Prop := mkAtRest {
  ar_udp : uclosing (it_udp s) = Closed /\ userve (it_udp s) = Returned;
  ar_tcp : closing (it_tcp s) = CloseReturned /\ serve (it_tcp s) = Served /\ TcpServer.waiting (it_tcp s) = 0 }.

Definition is_reload (e : intake_event) : Prop := match e with Reloaded _ => True | _ => False end.

(** The messages of a trace. *)
Definition routed_messages (tr : list intake_event) : list Message := (omap event_message tr).*2.

Lemma rest_connections s i c : limits (retag ([] : Tape) (it_tcp s)) -> at_rest s ->
  objects (it_tcp s) !! i = Some c -> pc c = Gone.
Proof.
  intros [_ _ _ Hw _ _ Hc] [_ (_ & Hs & H0)] Hi. cbn in Hw, Hc. rewrite H0 in Hw.
  assert (forall c, 0 <= TcpServer.running c <= 1) as Hr by (intros c'; unfold TcpServer.running; destruct (pc c'); lia).
  pose proof (total_zero TcpServer.running _ i c Hr (eq_sym Hw) Hi) as Hz. unfold TcpServer.running in Hz.
  specialize (Hc i c Hi). rewrite Hs in Hc. destruct (pc c); try done. by destruct Hc as [Hc _]; specialize (Hc eq_refl).
Qed.

Lemma rest_workers uopts s j w : closing_inv uopts (it_udp s) -> at_rest s -> workers (it_udp s) !! j = Some w -> w = Exited.
Proof. intros [_ _ _ Hw] [[Hc _] _] Hj. exact (Forall_lookup_1 _ _ _ _ (Hw Hc) Hj). Qed.

(** Only a reload of the configuration is left to happen. *)
Lemma rest_step uopts a s evs s' :
  limits (retag ([] : Tape) (it_tcp s)) -> closing_inv uopts (it_udp s) -> at_rest s -> intake_step a s = Some (evs, s') ->
  Forall is_reload evs /\ it_tcp s' = it_tcp s /\ it_udp s' = it_udp s /\
  dataWriter (it_router s') = dataWriter (it_router s) /\ unknown (it_router s') = unknown (it_router s).
Proof.
  intros L C R. pose proof R as [[Hu1 Hu2] (Ht1 & Ht2 & _)]. destruct a as [a|a|c]; cbn [intake_step].
  - destruct (exec a _) as [[es t]|] eqn:E; [|done]. exfalso. revert E. unfold exec. cbn [retag crashed objects].
    destruct (crashed (it_tcp s)); [done|]. destruct (conn_of a) as [i|] eqn:Ei.
    + destruct (objects (it_tcp s) !! i) as [c|] eqn:Hi; [|done]. unfold conn_step.
      rewrite (rest_connections s i c L R Hi). by destruct a.
    + unfold serve_step, close_step. cbn [retag serve closing]. rewrite Ht1, Ht2. destruct a as [[[]|]| | | | | | | | | | | | | | | | | |]; done.
  - destruct (uexec a _) as [[es u]|] eqn:E; [|done]. exfalso. revert E. unfold uexec. cbn [uretag ucrashed workers].
    destruct (ucrashed (it_udp s)); [done|].
    assert (forall j w, workers (it_udp s) !! j = Some w -> w = Exited) as Hw by (intros j w; by eapply rest_workers).
    unfold userve_step, uclose_step. cbn [uretag userve uclosing]. rewrite Hu1, Hu2.
    destruct a as [[i|]|[[d r]|e]|d|j|j|j now|j| |r| |]; try done;
      (destruct (workers (it_udp s) !! j) as [w|] eqn:Hj; [|done]); rewrite (Hw j w Hj); done.
  - intros [= <- <-]. split_and!; try done. by apply Forall_singleton.
Qed.

Lemma rest_reachable uopts s tr s' :
  limits (retag ([] : Tape) (it_tcp s)) -> closing_inv uopts (it_udp s) -> at_rest s -> intake_reachable s tr s' ->
  Forall is_reload tr /\ it_tcp s' = it_tcp s /\ it_udp s' = it_udp s /\
  dataWriter (it_router s') = dataWriter (it_router s) /\ unknown (it_router s') = unknown (it_router s).
Proof.
  intros L C Hr R. induction R as [|tr s1 a evs s2 R (I1 & I2 & I3 & I4 & I5) E]; [by split_and!|].
  destruct (rest_step uopts a s1 evs s2) as (J1 & J2 & J3 & J4 & J5); try done; rewrite ?I2, ?I3; try done.
  { destruct Hr as [H1 H2]. split; by rewrite ?I2, ?I3. }
  split; [by apply Forall_app|]. by rewrite J2, J3, J4, J5.
Qed.

(** ** Lemmas: counting what was routed *)

Lemma store_event_messages e (a : Store D U) : st_messages (store_event e a) =
  match event_message e with Some _ => u64 (st_messages a + 1) | None => st_messages a end.
Proof. destruct e as [[]|[]|]; try done; cbn; unfold store_message; cbv zeta; by destruct (snapshot_Device _ _). Qed.

Lemma store_events_messages tr : forall (a : Store D U) n, st_messages a = u64 n ->
  st_messages (store_events tr a) = u64 (n + Z.of_nat (length (routed_messages tr))).
Proof.
  unfold routed_messages. induction tr as [|e tr IH]; intros a n Ha; [cbn; by rewrite Z.add_0_r|].
  change (store_events (e :: tr) a) with (store_events tr (store_event e a)).
  pose proof (store_event_messages e a) as He. cbn [omap list_omap].
  destruct (event_message e) as [[ts m]|]; cbn [fmap list_fmap length].
  - rewrite (IH _ (n + 1)).
    + f_equal. lia.
    + by rewrite He, Ha, wrapu_add_l.
  - apply IH. by rewrite He.
Qed.

Lemma concat_app_perm {A B} (f g : A -> list B) l : concat ((fun x => f x ++ g x) <$> l) ≡ₚ concat (f <$> l) ++ concat (g <$> l).
Proof. induction l as [|x l IH]; [done|]. cbn. rewrite IH. solve_Permutation. Qed.

Lemma concat_single {B} (x : B) j n : (j < n)%nat ->
  concat ((fun i => if decide (j = i) then [x] else []) <$> seq 0 n) = [x].
Proof.
  intros Hj. replace n with (j + S (n - S j))%nat by lia. rewrite seq_app, fmap_app, concat_app. cbn [seq fmap list_fmap concat].
  rewrite decide_True by done. rewrite !concat_nil; [done|..].
  - intros i Hi%elem_of_seq. rewrite decide_False by lia. done.
  - intros i Hi%elem_of_seq. rewrite decide_False by lia. done.
Qed.

(** The messages of a trace are those of the connections and those of the
    datagrams. *)
Lemma routed_split n tr : (forall i, (n <= i)%nat -> sent (tcp_events tr) i = []) ->
  routed_messages tr ≡ₚ udp_routed (udp_events tr) ++ concat (sent (tcp_events tr) <$> seq 0 n).
Proof.
  unfold routed_messages. induction tr as [|e tr IH]; intros Hn.
  { cbn. rewrite concat_nil; [done|]. done. }
  assert (forall i, (n <= i)%nat -> sent (tcp_events tr) i = []) as Hn'.
  { intros i Hi. specialize (Hn i Hi). destruct e as [[]|e|c]; try done. cbn in Hn. by destruct (decide _). }
  specialize (IH Hn'). destruct e as [e|e|c]; [| |exact IH].
  - destruct e as [| | | | |i ts m| | | |]; try exact IH.
    assert (i < n)%nat as Hi.
    { destruct (decide (i < n)%nat); [done|]. specialize (Hn i ltac:(lia)). cbn in Hn. by rewrite decide_True in Hn. }
    change (m :: (omap event_message tr).*2 ≡ₚ udp_routed (udp_events tr) ++
      concat ((fun k => sent (EvRouted i ts m :: tcp_events tr) k) <$> seq 0 n)).
    assert (((fun k => sent (EvRouted i ts m :: tcp_events tr) k) <$> seq 0 n) =
            ((fun k => (if decide (i = k) then [m] else []) ++ sent (tcp_events tr) k) <$> seq 0 n)) as ->.
    { apply list_fmap_ext. intros k x _. unfold sent. cbn. by destruct (decide (i = x)). }
    rewrite concat_app_perm, concat_single by done. rewrite IH. solve_Permutation.
  - destruct e; try exact IH. cbn. by constructor.
Qed.
End rest.

(** ** Properties *)

(** C13. What is left when both servers are closed.  When the servers started
    on a new router, their goroutines and the reloads interleaved in any way,
    have come to rest: every datagram received was dropped, abandoned or
    decoded, exactly one of them and once; what each connection has routed is
    what it read with the MAC of its first message, in order; the messages
    routed are exactly those of the decoded datagrams and of the connections,
    and the counter of the router is their number.  From then on nothing but
    the configuration changes: no message reaches the data writer or the
    quarantine any more, which can be closed. *)
Theorem intake_rests {D U} `{!SensorDataWriter D} `{!UnknownMessageWriter U}
    (data_returns : forall f r t ts v (d : D) p, (WriteSensorData f r t ts v d).1 <> Panic p)
    registry (d : D) (u : U) topts uopts s0 tr s :
  open_intake (NewMessageRouter registry d u) topts uopts = inr s0 -> intake_reachable s0 tr s -> at_rest s ->
  let us := udp_events tr in let ts := tcp_events tr in
  udp_received us ≡ₚ udp_dropped us ++ udp_abandoned us ++ udp_decoded us /\
  (forall i, sent ts i = wanted (got ts i)) /\
  routed_messages tr ≡ₚ omap datagram_message (udp_decoded us) ++
    concat ((fun i => wanted (got ts i)) <$> seq 0 (length (objects (it_tcp s)))) /\
  Messages (Router.counters (it_router s)) = u64 (Z.of_nat (length (routed_messages tr))) /\
  forall tr' s', intake_reachable s tr' s' ->
    Forall is_reload tr' /\ dataWriter (it_router s') = dataWriter (it_router s) /\
    unknown (it_router s') = unknown (it_router s).
Proof.
  intros Ho R Hr us ts.
  destruct (intake_reachable_inv _ _ _ _ _ _ Ho R) as [[_ [F1 F2 _ _] [B1 _ _ B4]] C].
  destruct (intake_reachable_tcp _ _ _ _ _ _ Ho R) as [L [_ S]].
  assert (forall w, w ∈ workers (it_udp s) -> w = Exited) as Hw.
  { intros w [j Hj]%list_elem_of_lookup_1. by eapply rest_workers. }
  assert (forall i, sent ts i = wanted (got ts i)) as Hsent.
  { intros i. specialize (S i). cbn [retag objects] in S. destruct (objects (it_tcp s) !! i) as [c|] eqn:Hi.
    - destruct S as [S _ _]. by rewrite (rest_connections s i c L Hr Hi), app_nil_r in S.
    - fold ts in S. destruct S as [-> ->]. done. }
  assert (omap datagram_message (udp_decoded us) ≡ₚ udp_routed us) as Hu.
  { unfold us. rewrite F2, concat_nil; [by rewrite app_nil_r|]. intros w Hin. by rewrite (Hw w Hin). }
  split; [|split; [done|split; [|split]]].
  - destruct (workers (it_udp s)) as [|w ws] eqn:Ews; [done|].
    assert (waiting (it_udp s) = []) as Hwait.
    { unfold waiting. rewrite (proj2 (ar_udp _ Hr)), Ews. destruct (B4 0%nat) as [_ ->]; [rewrite (Hw w) by (by left); done|].
      rewrite concat_nil; [done|]. intros x Hx. by rewrite (Hw x Hx). }
    rewrite Hwait in F1. cbn [fmap list_fmap] in F1. by rewrite app_nil_r in F1.
  - rewrite (routed_split (length (objects (it_tcp s)))).
    + fold us ts. rewrite Hu. apply Permutation_app_head. f_equiv.
      assert ((sent ts <$> seq 0 (length (objects (it_tcp s)))) = ((fun i => wanted (got ts i)) <$> seq 0 (length (objects (it_tcp s))))) as ->; [|done].
      apply list_fmap_ext. intros k x _. apply Hsent.
    + intros i Hi. specialize (S i). cbn [retag objects] in S. rewrite lookup_ge_None_2 in S by done. by destruct S.
  - change (Messages (Router.counters (it_router s))) with (st_messages (store_of (it_router s))).
    rewrite (intake_reachable_store data_returns _ _ _ R). rewrite (store_events_messages tr _ 0); [done|].
    unfold open_intake in Ho. destruct (NewTCPServer _ _); [done|]. destruct (NewUDPServer _ _); [done|]. by injection Ho as <-.
  - intros tr' s' R'. by destruct (rest_reachable uopts s tr' s' L C Hr R') as (H1 & _ & _ & H2 & H3).
Qed.

(** ** Concrete runs *)

#[local] Existing Instance refusing.
#[local] Existing Instance keeping.

(** The run of [Typing.v], and then [Close] of both servers. *)
Definition closing_actions : list intake_action :=
  map InUDP [UPut 0; UGet None; UCancel; UCloseConnection None; URead (inr (ErrNew net_ErrClosed)); UCloseQueue;
             UTake 0; UTake 1; UWaited] ++
  map InTCP [ACancel; ACloseListener None; AAccept (inr (ErrNew net_ErrClosed)); ACollect; ACloseNext;
             AReadClosed 0 "read header"; ALeave 0; ARelease 0; ADeactivate 0; ANotify 0; AWaited].
Definition rest_run : list intake_event * Intake data_log (list UnknownMessage) :=
  intake_outcome (typed_messages ++ closing_actions) typed_intake.

Definition at_rest_b {D U} (s : Intake D U) : bool :=
  match uclosing (it_udp s), userve (it_udp s), closing (it_tcp s), serve (it_tcp s) with
  | Closed, Returned, CloseReturned, Served => TcpServer.waiting (it_tcp s) =? 0
  | _, _, _, _ => false
  end.

Lemma at_rest_b_spec {D U} (s : Intake D U) : at_rest_b s = true -> at_rest s.
Proof.
  unfold at_rest_b. intros H. split; repeat case_match; try done. split_and!; try done. by apply Z.eqb_eq.
Qed.

Lemma intake_rests_witness :
  routed_messages rest_run.1 ≡ₚ omap datagram_message (udp_decoded (udp_events rest_run.1)) ++
    concat ((fun i => wanted (got (tcp_events rest_run.1) i)) <$> seq 0 (length (objects (it_tcp rest_run.2)))) /\
  Messages (Router.counters (it_router rest_run.2)) = 4 /\
  wanted (got (tcp_events rest_run.1) 0) = [message_of sample_address (temperature Byte.x2a); message_of sample_address (temperature Byte.x07)].
Proof.
  destruct (intake_rests refusing_returns (mkRegistry live_snapshot) [] [] (mkTCPOptions 2 5000000000) (mkUDPOptions 2 1)
    typed_intake rest_run.1 rest_run.2) as (_ & _ & H & Hm & _).
  - reflexivity.
  - apply intake_outcome_reachable.
  - apply at_rest_b_spec. vm_compute. reflexivity.
  - split; [exact H|]. split; [rewrite Hm; vm_compute; reflexivity|vm_compute; reflexivity].
Defined.

(** A connection accepted before [Close] and counted only after [Close] has
    found nothing to wait for: both [Close] calls and both [Serve] calls have
    returned, and the storage is about to be closed, but the goroutine of the
    connection is running, and routes a message. *)
Definition late_actions : list intake_action :=
  InTCP (AAccept (inl (live_conn, "peer"%string))) ::
  map InUDP [UGet None; UCancel; UCloseConnection None; URead (inr (ErrNew net_ErrClosed)); UCloseQueue;
             UTake 0; UTake 1; UWaited] ++
  map InTCP [ACancel; ACloseListener None; ACollect; AWaited; ARegister; AStart; AAccept (inr (ErrNew net_ErrClosed))].
Definition late_run : list intake_event * Intake data_log (list UnknownMessage) := intake_outcome late_actions typed_intake.

Example late_connection_routes :
  (uclosing (it_udp late_run.2), userve (it_udp late_run.2), closing (it_tcp late_run.2), serve (it_tcp late_run.2)) =
    (Closed, Returned, CloseReturned, Served) /\
  routed_messages (intake_outcome (map InTCP [ARead 0 1; ABind 0; AAnnounce 0; AClosePrevious 0; AHandle 0 2]) late_run.2).1 =
    [message_of sample_address (temperature Byte.x2a)].
Proof. split; vm_compute; reflexivity. Qed.
