(* ===== verification/Watching.v ===== *)
(** * What the HTTP plugin shows

    The callbacks [cmd/sensor-server/main.go] connects: every sensor record
    the router observes and every device a connection is bound to reach the
    monitoring state of the plugin while the intake runs.  What the plugin then
    shows of a sensor is what was given to the data writer. *)

From S2P Require Import Prelude GoRuntime House BinaryData Protocol DataFile DataStream DataEngine Config Router TcpServer UdpServer Intake Pipeline Typing Monitor.
Open Scope Z_scope.

(** ** The callbacks *)

(** What a message amounts to for the observation callback. *)
Definition observations (snap : ConfigSnapshot) (tr : Transport) (ts : Z) (m : Message) : list SensorObservation :=
  match snapshot_Device snap (MAC (Header m)) with
  | Some device => map (observation (MAC (Header m)) device tr ts) (known_records snap (Protocol.Sensors m))
  | None => []
  end.

Section callbacks.
Context {D U : Type} `{!SensorDataWriter D} `{!UnknownMessageWriter U}.

Definition seen_event (e : intake_event) (a : Store D U) : list SensorObservation :=
  match event_message e with
  | Some (ts, m) =>
      observations (Router.Snapshot (st_registry a)) (match e with FromTCP _ => TransportTCP | _ => TransportUDP end) ts m
  | None => []
  end.
Fixpoint seen_events (tr : list intake_event) (a : Store D U) : list SensorObservation :=
  match tr with
  | [] => []
  | e :: tr => seen_event e a ++ seen_events tr (store_event e a)
  end.

(** [src/cmd/sensor-server/main.go:77-81] run, the callbacks of the server set
    to the operations of the monitoring state: the calls an event makes *)
Definition callbacks (e : intake_event) (a : Store D U) : list input :=
  match e with
  | FromTCP (EvDeviceConnected id m) => [Connected_ id m]
  | FromTCP (EvDeviceDisconnected id m) => [Disconnected_ id m]
  | _ => map Observed (seen_event e a)
  end.
Fixpoint all_callbacks (tr : list intake_event) (a : Store D U) : list input :=
  match tr with
  | [] => []
  | e :: tr => callbacks e a ++ all_callbacks tr (store_event e a)
  end.
End callbacks.

(** The entry of the data writer that a sample belongs to. *)
Definition shown_entry (o : SensorObservation) : dataStreamKey * DataStream.SensorData :=
  (mkKey (ob_Floor o) (ob_Room o) (ob_SensorType o), mkSensorData (ob_Timestamp o) (ob_Value o)).

(** The samples of one sensor of one device. *)
Definition samples_of (m : MACAddress) (t : SensorType) (l : list SensorObservation) : list Sample :=
  map (fun o => mkSample (ob_Timestamp o) (ob_Value o)) (filter (fun o => ob_MAC o = m /\ ob_SensorType o = t) l).

(** ** Lemmas *)

Section watching.
Context {D U : Type} `{!SensorDataWriter D} `{!UnknownMessageWriter U}.
Context (data_returns : forall f r t ts v (d : D) p, (WriteSensorData f r t ts v d).1 <> Panic p).
Implicit Types (a : Store D U) (r : MessageRouter D U).

Lemma Route_observed tr ts m r :
  observing (Route tr ts m r).2 = observing r /\
  Router.observed (Route tr ts m r).2 = Router.observed r ++
    (if observing r then observations (Router.Snapshot (registry r)) tr ts m else []).
Proof.
  rewrite Route_started. set (s1 := mkRouter _ _ _ _ _ _).
  unfold mbind, M_bind, get. cbn zeta. change (registry s1) with (registry r). unfold observations.
  destruct (snapshot_Device _ _) as [device|].
  - destruct (route_records_summary data_returns (Router.Snapshot (registry r)) (MAC (Header m)) device tr ts (Protocol.Sensors m) None s1)
      as (res & s' & E & [_ _ H3 _ H5 _]).
    rewrite E. by destruct res.
  - unfold Router.count, modify, attempt_err, on_unknown, zoom. cbn [s1 unknown].
    assert (cloneMessage m = m) as -> by by destruct m.
    destruct (WriteUnknownMessage (mkUnknownMessage ts tr m) (unknown r)) as [[[]|e|p] u]; cbn;
      destruct (observing r); by rewrite ?app_nil_r.
Qed.
End watching.

Section trace.
Context {D U : Type} `{!SensorDataWriter D} `{!UnknownMessageWriter U}.
Implicit Types (s : Intake D U).

Lemma seen_events_app tr tr' (a : Store D U) : seen_events (tr ++ tr') a = seen_events tr a ++ seen_events tr' (store_events tr a).
Proof.
  revert a. induction tr as [|e tr IH]; intros a; [done|]. cbn [app seen_events]. rewrite IH.
  change (store_events (e :: tr) a) with (store_events tr (store_event e a)). by rewrite app_assoc.
Qed.

Lemma seen_quiet evs (a : Store D U) : Forall not_routed evs -> seen_events (map FromTCP evs) a = [].
Proof. induction 1 as [|e evs He _ IH] in a |- *; [done|]. destruct e; try done; apply IH. Qed.
Lemma seen_uquiet evs (a : Store D U) : Forall not_urouted evs -> seen_events (map FromUDP evs) a = [].
Proof. induction 1 as [|e evs He _ IH] in a |- *; [done|]. destruct e; try done; apply IH. Qed.

Lemma observed_callbacks tr a m t : Monitor.observed (all_callbacks tr a) m t = samples_of m t (seen_events tr a).
Proof.
  assert (forall l, Monitor.observed (map Observed l) m t = samples_of m t l) as Hm.
  { intros l. unfold Monitor.observed, samples_of. induction l as [|o l IH]; [done|]. cbn [map omap list_omap].
    rewrite filter_cons. rewrite decide_bool_decide. destruct (bool_decide _); cbn [map]; by rewrite IH. }
  revert a. induction tr as [|e tr IH]; intros a; [done|]. cbn [all_callbacks seen_events].
  unfold Monitor.observed, samples_of in *. rewrite omap_app, filter_app, map_app, IH. f_equal.
  destruct e as [[]|e|c]; try done; apply Hm.
Qed.

(** What is observed is what is offered to the data writer. *)
Lemma observations_offered snap tr ts m : valid_snapshot snap ->
  map shown_entry (observations snap tr ts m) = offered_message snap ts m.
Proof.
  intros [c0 E]. destruct (snapshot_registry c0 snap E) as (_ & Hsen & _).
  unfold observations, offered_message. destruct (snapshot_Device _ _) as [device|]; [|done].
  rewrite map_map. apply map_ext_Forall, Forall_forall. intros p Hp.
  unfold known_records in Hp. apply list_elem_of_omap in Hp as (record & _ & Hp).
  destruct (snapshot_Sensor snap (RType record)) as [sd|] eqn:Es; [|done]. injection Hp as <-.
  apply Hsen in Es as (_ & _ & _ & Ht & _). unfold shown_entry, entry_of. cbn. by rewrite Ht.
Qed.

Lemma seen_offered tr : forall a : Store D U, valid_snapshot (Router.Snapshot (st_registry a)) -> Forall keeps_valid tr ->
  map shown_entry (seen_events tr a) = offered_events tr a.
Proof.
  induction tr as [|e tr IH]; intros a V Hv; [done|]. apply Forall_cons in Hv as [He Hv].
  cbn [seen_events offered_events]. rewrite map_app, IH; [|by apply store_event_valid|done]. f_equal.
  unfold seen_event. destruct (event_message e) as [[ts m]|]; [|done]. by apply observations_offered.
Qed.

Context (data_returns : forall f r t ts v (d : D) p, (WriteSensorData f r t ts v d).1 <> Panic p).

(** The router reports what the trace says. *)
Lemma intake_step_observed a s evs s' : intake_step a s = Some (evs, s') ->
  observing (it_router s') = observing (it_router s) /\
  (observing (it_router s) = true ->
   Router.observed (it_router s') = Router.observed (it_router s) ++ seen_events evs (store_of (it_router s))).
Proof.
  destruct a as [a|a|c]; cbn [intake_step].
  - destruct (exec _ _) as [[es t]|] eqn:E; [|done]. intros [= <- <-]. cbn [it_router].
    destruct (is_handle a) eqn:Ea.
    + destruct a as [| | | | | | | | |i now| | | | | | | | |]; try done.
      destruct (exec_handle (H' := Tape) _ _ _ _ _ _ E) as (m & rest & -> & Hr & -> & _).
      destruct (Route_observed data_returns TransportTCP now m (it_router s)) as [H1 H2].
      split; [exact H1|]. intros Ho. etrans; [exact H2|]. rewrite Ho. cbn [map seen_events]. f_equal.
      by rewrite seen_quiet, app_nil_r.
    + destruct (exec_unhandled (H' := Tape) a _ _ [] _ _ Ea E) as (-> & Hr & _).
      split; [done|]. intros _. by rewrite seen_quiet, app_nil_r.
  - destruct (uexec _ _) as [[es t]|] eqn:E; [|done]. intros [= <- <-]. cbn [it_router].
    destruct (uexec_handler _ _ _ _ _ E) as [[Hr ->]|(now & m & rest & -> & Hr & ->)].
    + split; [done|]. intros _. by rewrite seen_uquiet, app_nil_r.
    + destruct (Route_observed data_returns TransportUDP now m (it_router s)) as [H1 H2].
      split; [exact H1|]. intros Ho. etrans; [exact H2|]. rewrite Ho. cbn [map seen_events]. f_equal.
      by rewrite seen_uquiet, app_nil_r.
  - intros [= <- <-]. split; [done|]. intros _. cbn. by rewrite app_nil_r.
Qed.

Lemma intake_reachable_observed s0 tr s : intake_reachable s0 tr s -> observing (it_router s0) = true ->
  observing (it_router s) = true /\
  Router.observed (it_router s) = Router.observed (it_router s0) ++ seen_events tr (store_of (it_router s0)).
Proof.
  intros R Ho. induction R as [|tr s a evs s' R [IH1 IH2] E]; [by rewrite app_nil_r|].
  destruct (intake_step_observed _ _ _ _ E) as [H1 H2]. split; [by rewrite H1|].
  rewrite H2, IH2, seen_events_app, <- app_assoc by done. do 2 f_equal. symmetry.
  rewrite (intake_reachable_store data_returns _ _ _ R). done.
Qed.
End trace.

(** ** Properties *)


(** ** A concrete run *)

#[local] Existing Instance refusing.
#[local] Existing Instance keeping.

(** The run of [Typing.v], with a history of two samples: two values come by
    TCP and one by UDP. *)
Definition watched_router : MessageRouter data_log (list UnknownMessage) :=
  mkRouter (mkRegistry live_snapshot) [] [] (Router.counters typed_router) true [].
Definition watched_run : list intake_event * Intake data_log (list UnknownMessage) :=
  intake_outcome typed_messages (mkIntake watched_router (it_tcp sample_intake) (it_udp sample_intake)).

Lemma watched_valid : forallb (fun e => match e with Reloaded _ => false | _ => true end) watched_run.1 = true.
Proof. vm_compute. reflexivity. Qed.

