(* ===== verification/Lifetimes.v ===== *)
(** * The lives of a quarantine

    Every start of the server opens the quarantine and replays it under the
    configuration of the day, before new messages are written to it; every stop
    closes it.  Over any number of such lives the quarantine refines a list of
    outstanding messages: each message reaches the data writer once, in the
    first life whose configuration knows its device. *)

From S2P Require Import Prelude GoRuntime House BinaryData Protocol Platform Config DataFile TcpServer UdpServer Router Quarantine Unknown.
Open Scope Z_scope.

(** ** One life *)

Section lives.
Context (spare : list byte -> list byte) {D : Type} `{!SensorDataWriter D}.

(** [src/sensor-server/server.go:80-94] OpenServer, the quarantine and its
    replay; then the messages of unknown devices of that life, and
    [QuarantineWriter.Close] *)
Definition life (opts : QuarantineOptions) (registry : ConfigRegistry) (ms : list UnknownMessage) : M (FS * D) unit :=
  fun '(fs, d) =>
  match OpenQuarantineWriter spare opts fs with
  | (Ret w, fs) =>
      match ReplayQuarantine spare registry (mkReplay w fs d (mkReplayCounters 0 0 0 0) []) with
      | (Ret _, s) =>
          let '(r, q) := (write_messages ms;; Close) (rp_writer s, rp_fs s) in (r, (q.2, rp_data s))
      | (r, s) => let '(_, q) := Close (rp_writer s, rp_fs s) in (r, (q.2, rp_data s))
      end
  | (Fail e, fs) => (Fail e, (fs, d))
  | (Panic p, fs) => (Panic p, (fs, d))
  end.

Fixpoint lives (opts : QuarantineOptions) (l : list (ConfigRegistry * list UnknownMessage)) : M (FS * D) unit :=
  match l with
  | [] => mret tt
  | (registry, ms) :: l => life opts registry ms;; lives opts l
  end.

(** ** Specification: the messages outstanding and the data writer *)

Definition spec_life (g : ConfigRegistry * list UnknownMessage) (a : list UnknownMessage * D) : list UnknownMessage * D :=
  let snap := Router.Snapshot g.1 in
  (carried snap a.1 ++ g.2, delivered snap a.1 a.2).
Definition spec_lives (l : list (ConfigRegistry * list UnknownMessage)) (a : list UnknownMessage * D) : list UnknownMessage * D :=
  fold_left (fun a g => spec_life g a) l a.

(** What is carried over fits into one segment, in every life. *)
Fixpoint carried_fit (rotation : Z) (l : list (ConfigRegistry * list UnknownMessage)) (a : list UnknownMessage * D) : Prop :=
  match l with
  | [] => True
  | g :: l =>
      Z.of_nat (length (images (carried (Router.Snapshot g.1) a.1))) <= rotation /\ carried_fit rotation l (spec_life g a)
  end.

(** The segments that the lives can fill, at most. *)
Definition segments_bound (l : list (ConfigRegistry * list UnknownMessage)) : Z :=
  Z.of_nat (sum_list_with (fun g => 1 + length g.2)%nat l).

(** ** The state between two lives *)

(** A closed quarantine with [b] segments that hold [held], those of [done]
    marked complete. *)
Record outstanding (opts : QuarantineOptions) (b : Z) (held : Z -> list UnknownMessage) (done : Z -> bool) (fs : FS) : Prop :=
  mkOutstanding {
  os_faults : no_faults fs;
  os_parents : existsb (is_file fs) (ancestors (Directory opts)) = false;
  os_names : forall name, Directory opts ++ [name] ∉ dirs fs;
  os_segments : forall n, 1 <= n <= b -> files fs !! (Directory opts, quarantineSegmentName n) = Some (images (held n));
  os_storable : forall n, 1 <= n <= b -> Forall storable (held n);
  os_missing : forall n, b < n < 2 ^ 64 -> files fs !! (Directory opts, quarantineSegmentName n) = None;
  os_marked : forall n, 1 <= n <= b -> marked (files fs) (Directory opts, quarantineSegmentName n) = done n;
  os_unmarked : forall n, b < n < 2 ^ 64 -> marked (files fs) (Directory opts, quarantineSegmentName n) = false }.

(** The messages it owes. *)
Definition due (b : Z) (held : Z -> list UnknownMessage) (done : Z -> bool) : list UnknownMessage :=
  concat (map (fun n => if done n then [] else held n) (seqZ 1 b)).
End lives.

(** ** Lemmas *)

Section opening.
Context (opts : QuarantineOptions) (Hp : blank_path (Directory opts) = false)
  (Hr : cQuarantineEntryMinimum <= RotationSize opts < 2 ^ 61).

Lemma outstanding_openable b held done fs : 0 <= b < 99999999 -> outstanding opts b held done fs -> q_openable opts held fs.
Proof.
  intros Hb [of_ op on os om omi _ _]. constructor; try assumption.
  - intros n. apply on.
  - intros n c Hn Hc. destruct (decide (n <= b)).
    + rewrite os in Hc by lia. injection Hc as <-. exists []. rewrite app_nil_r.
      split; [done|]. split; [apply om; lia|apply (torn_nil _ sample_torn)].
    + by rewrite omi in Hc by lia.
  - intros n Hn. apply omi. lia.
Qed.

Lemma outstanding_fresh fs : fresh_quarantine opts fs -> outstanding opts 0 (fun _ => []) (fun _ => false) fs.
Proof.
  intros [ff fp fr fpa fe ffl]. constructor; try done; try (intros n Hn; lia); intros n _.
  - by apply fe.
  - unfold marked. rewrite bool_decide_eq_false_2; [done|]. rewrite fe by done. by intros [].
Qed.

(** Opening: a new segment after the others, everything due to be replayed. *)
Lemma outstanding_opened spare b held done fs :
  0 <= b < 99999998 -> outstanding opts b held done fs ->
  Z.of_nat (length (concat (map held (seqZ 1 b)))) < 2 ^ 62 ->
  exists w fs', OpenQuarantineWriter spare opts fs = (Ret w, fs') /\
    clean (files fs') (dirs fs') fs' /\ stored w [[]] (files fs') (dirs fs') /\
    Directory (options w) = Directory opts /\ RotationSize (options w) = RotationSize opts /\ sequence w = b + 1 /\
    replayable w (files fs') (dirs fs') held (seqZ 1 b) /\
    existsb (is_file fs') (ancestors (Directory opts)) = false /\
    (forall n, 1 <= n < 2 ^ 64 -> marked (files fs') (Directory opts, quarantineSegmentName n) =
       marked (files fs) (Directory opts, quarantineSegmentName n)) /\
    pending (files fs') (Directory opts) held (seqZ 1 b) = due b held done.
Proof.
  intros Hb O Hl. pose proof O as [of_ op on os om omi oma oun].
  destruct (open_stored spare opts held fs) as (w & fs' & E & C & S & Hd & Hro & _ & Hh & Hout & Hex & Hdirs & Hlast);
    [apply (outstanding_openable b held done); [lia|done]|].
  assert (forall n, 1 <= n <= b -> n < sequence w /\
    files fs' !! (Directory opts, quarantineSegmentName n) = Some (images (held n))) as Hin.
  { intros n Hn. apply Hh; [lia|]. rewrite os by lia. by eexists. }
  pose proof (st_sequence _ _ _ _ S) as [H1 H2]. cbn [length] in H1.
  assert (sequence w = b + 1) as Hw.
  { destruct (decide (b = 0)) as [H0|H0].
    - destruct Hlast as [|[c Hc]]; [lia|]. destruct (decide (sequence w = 1)); [lia|]. by rewrite omi in Hc by lia.
    - destruct (Hin b ltac:(lia)) as [Hlt _]. destruct Hlast as [|[c Hc]]; [lia|].
      destruct (decide (sequence w = b + 1)); [done|]. by rewrite omi in Hc by lia. }
  assert (segmentPath w = (Directory opts, quarantineSegmentName (b + 1))) as Hsp by (unfold segmentPath; by rewrite Hd, Hw).
  assert (flat (Directory opts) (dirs fs')) as Hf by (apply (flat_dirs _ (dirs fs)); [by apply blank_path_nil|done|done]).
  assert (forall n, marked (files fs') (Directory opts, quarantineSegmentName n) =
    marked (files fs) (Directory opts, quarantineSegmentName n)) as Hm.
  { intros n. unfold marked. apply bool_decide_ext. apply Hex. rewrite Hsp. apply (proj1 (marker_not_segment _ _ _ _)). }
  exists w, fs'. do 6 (split; [done|]). split; [|split; [|split; [by intros|]]].
  - constructor; rewrite ?Hd; try done.
    + apply NoDup_seqZ.
    + intros n Hn%elem_of_seqZ. lia.
    + intros n Hn%elem_of_seqZ. unfold q_segment. rewrite Hd. apply Hin. lia.
    + intros n Hn%elem_of_seqZ. apply om. lia.
    + lia.
  - rewrite (parents_same fs _ (Directory opts)); [done|]. intros q Hq. apply Hout; [by left|]. rewrite Hsp. intros ->. by apply Hq.
  - unfold pending, due. f_equal. apply map_ext_Forall, Forall_forall. intros n Hn%elem_of_seqZ.
    unfold pending_of. rewrite Hm, oma by lia. done.
Qed.
End opening.

(** What a directory listing finds after opening. *)
Lemma opened_discover opts b held F Dr fs :
  0 <= b < 99999998 -> clean F Dr fs -> Directory opts ∈ Dr ->
  (forall n, 1 <= n <= b -> F !! (Directory opts, quarantineSegmentName n) = Some (images (held n))) ->
  F !! (Directory opts, quarantineSegmentName (b + 1)) = Some [] ->
  (forall n, b + 1 < n < 2 ^ 64 -> F !! (Directory opts, quarantineSegmentName n) = None) ->
  exists fs', discoverQuarantineSegments (Directory opts) fs =
      (Ret (segment_list (Directory opts) (seqZ 1 b) ++ segment_list (Directory opts) [b + 1]), fs') /\ clean F Dr fs'.
Proof.
  intros Hb C Hd Hin Hnew Hnone.
  destruct (discover_range F Dr (Directory opts) fs 1 (Z.to_nat (b + 1)) C Hd) as (fs' & E & C'); [lia|lia| |].
  - intros n Hn. destruct (decide (n <= b)); [rewrite Hin by lia; split; [lia|by eexists]|].
    destruct (decide (n = b + 1)) as [->|]; [rewrite Hnew; split; [lia|by eexists]|].
    rewrite Hnone by lia. split; [by intros []|lia].
  - exists fs'. split; [|done]. rewrite E. f_equal. f_equal.
    replace (Z.of_nat (Z.to_nat (b + 1))) with (b + 1) by lia. rewrite seqZ_app by lia.
    unfold segment_list. rewrite map_app. f_equal. replace (1 + b) with (b + 1) by lia. by rewrite seqZ_cons by lia.
Qed.

Section step.
Context (spare : list byte -> list byte) {D : Type} `{!SensorDataWriter D}.
Context (accepting : forall f r t ts v (d : D), (WriteSensorData f r t ts v d).1 = Ret tt).
Context (opts : QuarantineOptions) (Hp : blank_path (Directory opts) = false)
  (Hr : cQuarantineEntryMinimum <= RotationSize opts < 2 ^ 61).

(** Opening and replaying: everything due has been delivered or is in the new
    segment, and all segments before it are marked. *)
Lemma life_replayed registry b held done fs (d : D) :
  0 <= b < 99999998 -> outstanding opts b held done fs ->
  Z.of_nat (length (concat (map held (seqZ 1 b)))) < 2 ^ 62 ->
  let snap := Router.Snapshot registry in let owed := due b held done in
  Z.of_nat (length (images (carried snap owed))) <= RotationSize opts ->
  exists w fs1 s F Dr, OpenQuarantineWriter spare opts fs = (Ret w, fs1) /\
    ReplayQuarantine spare registry (mkReplay w fs1 d (mkReplayCounters 0 0 0 0) []) = (Ret tt, s) /\
    rp_data s = delivered snap owed d /\ clean F Dr (rp_fs s) /\
    stored (rp_writer s) [carried snap owed] F Dr /\
    Directory (options (rp_writer s)) = Directory opts /\ RotationSize (options (rp_writer s)) = RotationSize opts /\
    sequence (rp_writer s) = b + 1 /\ flat (Directory opts) Dr /\
    (forall n, 1 <= n <= b -> F !! (Directory opts, quarantineSegmentName n) = Some (images (held n))) /\
    (forall n, 1 <= n <= b -> marked F (Directory opts, quarantineSegmentName n) = true) /\
    (forall n, b < n < 2 ^ 64 -> marked F (Directory opts, quarantineSegmentName n) = false) /\
    existsb (is_file (rp_fs s)) (ancestors (Directory opts)) = false.
Proof.
  intros Hb O Hl snap owed Hfit.
  destruct (outstanding_opened opts Hp Hr spare b held done fs Hb O Hl)
    as (w & fs1 & E & C & S & Hd & Hro & Hw & Hre & Hpa & Hm & Hpe).
  pose proof (re_flat _ _ _ _ _ Hre) as Hfl. rewrite Hd in Hfl.
  assert (forall n, 1 <= n <= b -> files fs1 !! (Directory opts, quarantineSegmentName n) = Some (images (held n))) as Hin.
  { intros n Hn. pose proof (re_held _ _ _ _ _ Hre n) as H. unfold q_segment in H. rewrite Hd in H. rewrite H by (apply elem_of_seqZ; lia). done. }
  destruct (opened_discover opts b held (files fs1) (dirs fs1) fs1 Hb C (proj1 Hfl) Hin) as (fs2 & Ed & C2).
  { pose proof (st_images _ _ _ _ S 0%nat [] eq_refl) as H. unfold q_segment in H. by rewrite Hd, Hw, Z.sub_0_r in H. }
  { intros n Hn. pose proof (st_fresh _ _ _ _ S n) as H. unfold q_segment in H. rewrite Hd, Hw in H. apply H. lia. }
  set (s1 := mkReplay w fs2 d (mkReplayCounters 0 0 0 0) []).
  destruct (replay_segments_all spare accepting snap held (seqZ 1 b) s1 [[]] _ _ eq_refl S C2 Hre)
    as (s & F & Er & _ & Dd & C3 & St & Oo & _ & Hlen & M & G & N & T).
  cbn [s1 rp_writer rp_data] in Er, Dd, St, Oo, Hlen, M, G, N, T. rewrite Hd in Er, Dd, St, Hlen, M, G, N, T. rewrite Hpe in *.
  rewrite Hro, place_fits in St, Hlen by done. cbn [app length] in *. fold owed in Dd, St, Hlen.
  exists w, fs1, s, F, (dirs fs1). split; [done|]. split; [|].
  - unfold ReplayQuarantine, tally, modify, get, mbind, M_bind, on_fs, zoom. cbn [rp_writer rp_fs]. rewrite Hd, Ed.
    cbn [rp_writer rp_data rp_counters rp_ctx]. fold s1. rewrite replay_segments_app. unfold mbind, M_bind.
    change (Snapshot registry) with snap. rewrite Er.
    cbn [segment_list map replay_segments]. unfold replay_segment, mbind, M_bind, get. cbn [fst].
    rewrite (proj2 (Z.leb_le _ _)) by lia. done.
  - rewrite Oo. split_and!; try done; try lia.
    + intros n Hn. rewrite G by lia. by apply Hin.
    + intros n Hn. apply M, elem_of_seqZ. lia.
    + intros n Hn. rewrite N; [|lia|rewrite elem_of_seqZ; lia]. rewrite Hm by lia. apply (os_unmarked _ _ _ _ _ O). lia.
    + rewrite (parents_same fs1 _ (Directory opts)); [done|]. destruct C3 as (-> & _ & _). by apply T.
Qed.
End step.

(** The segments after a life: the old ones, and those of the writer. *)
Definition held_after (b : Z) (held : Z -> list UnknownMessage) (segs : list (list UnknownMessage)) (n : Z) : list UnknownMessage :=
  if n <=? b then held n else default [] (segs !! Z.to_nat (b + Z.of_nat (length segs) - n)).

Lemma held_after_new b held segs n : 0 <= b -> b < n <= b + Z.of_nat (length segs) ->
  exists i ms, segs !! i = Some ms /\ held_after b held segs n = ms /\ n = b + Z.of_nat (length segs) - Z.of_nat i.
Proof.
  intros Hb Hn. unfold held_after. rewrite (proj2 (Z.leb_gt _ _)) by lia.
  destruct (lookup_lt_is_Some_2 segs (Z.to_nat (b + Z.of_nat (length segs) - n))) as [ms E]; [lia|].
  exists (Z.to_nat (b + Z.of_nat (length segs) - n)), ms. rewrite E. split_and!; [done..|lia].
Qed.

Lemma concat_after (f : Z -> list UnknownMessage) b held segs : 0 <= b ->
  concat (map (fun n => if n <=? b then f n else held_after b held segs n) (seqZ 1 (b + Z.of_nat (length segs)))) =
  concat (map f (seqZ 1 b)) ++ messages segs.
Proof.
  intros Hb. rewrite seqZ_app, map_app, concat_app by lia. f_equal.
  - f_equal. apply map_ext_Forall, Forall_forall. intros n Hn%elem_of_seqZ. by rewrite (proj2 (Z.leb_le _ _)) by lia.
  - rewrite <- held_messages. f_equal. replace (1 + b) with (b + 1) by lia.
    rewrite <- (fmap_add_seqZ b 1). change (map ?f ?l) with (f <$> l). rewrite <- list_fmap_compose. apply list_fmap_ext.
    intros i n Hi%list_elem_of_lookup_2%elem_of_seqZ. cbn. rewrite (proj2 (Z.leb_gt _ _)) by lia.
    unfold held_after, held_in. rewrite (proj2 (Z.leb_gt _ _)) by lia. do 2 f_equal. lia.
Qed.

Lemma due_after b held segs : 0 <= b ->
  due (b + Z.of_nat (length segs)) (held_after b held segs) (fun n => n <=? b) = messages segs.
Proof.
  intros Hb. unfold due. rewrite (concat_after (fun _ => [])) by done.
  change (map ?f ?l) with (f <$> l). by rewrite concat_nil.
Qed.

Lemma total_after b held segs : 0 <= b ->
  concat (map (held_after b held segs) (seqZ 1 (b + Z.of_nat (length segs)))) = concat (map held (seqZ 1 b)) ++ messages segs.
Proof.
  intros Hb. rewrite <- (concat_after held b held segs) by done. f_equal. apply map_ext. intros n.
  unfold held_after. by destruct (n <=? b).
Qed.

Lemma due_storable opts b held done fs : outstanding opts b held done fs -> Forall storable (due b held done).
Proof.
  intros O. unfold due. apply Forall_concat, Forall_map, Forall_forall. intros n Hn%elem_of_seqZ.
  destruct (done n); [constructor|]. apply (os_storable _ _ _ _ _ O). lia.
Qed.

Section life_step.
Context (spare : list byte -> list byte) {D : Type} `{!SensorDataWriter D}.
Context (accepting : forall f r t ts v (d : D), (WriteSensorData f r t ts v d).1 = Ret tt).
Context (opts : QuarantineOptions) (Hp : blank_path (Directory opts) = false)
  (Hr : cQuarantineEntryMinimum <= RotationSize opts < 2 ^ 61).

(** One life: what was due is delivered or carried, what was written is due. *)
Lemma life_step registry ms b held done fs (d : D) :
  0 <= b -> b + Z.of_nat (1 + length ms) < 99999998 -> outstanding opts b held done fs ->
  Z.of_nat (length (concat (map held (seqZ 1 b)))) < 2 ^ 62 ->
  Z.of_nat (length (images (carried (Router.Snapshot registry) (due b held done)))) <= RotationSize opts ->
  Forall storable ms ->
  exists fs' b' held' done', life spare opts registry ms (fs, d) =
      (Ret tt, (fs', delivered (Router.Snapshot registry) (due b held done) d)) /\
    b <= b' <= b + Z.of_nat (1 + length ms) /\ outstanding opts b' held' done' fs' /\
    due b' held' done' = carried (Router.Snapshot registry) (due b held done) ++ ms /\
    length (concat (map held' (seqZ 1 b'))) = (length (concat (map held (seqZ 1 b))) + length (due b' held' done'))%nat.
Proof.
  intros Hb Hbound O Hl Hfit Hms. set (snap := Router.Snapshot registry) in *. set (owed := due b held done) in *.
  destruct (life_replayed spare accepting opts Hp Hr registry b held done fs d ltac:(lia) O Hl Hfit)
    as (w & fs1 & s & F & Dr & E1 & E2 & Ed & C & St & Hd & Hro & Hw & Hfl & Hin & Hma & Hun & Hpa).
  fold snap owed in Ed, St.
  destruct (write_all_stored ms (rp_writer s) [carried snap owed] F Dr (rp_fs s) St C Hms)
    as (w2 & F2 & fs2 & E3 & C2 & S2 & K & Q2 & L2); [lia|].
  destruct (close_stored w2 _ F2 Dr fs2 S2 C2) as (fs3 & E4 & (Hfiles & Hdirs & Hnf)).
  set (segs := foldl (place (RotationSize (options (rp_writer s)))) [carried snap owed] ms) in *.
  cbn [length] in L2. assert (sequence w2 = b + Z.of_nat (length segs)) as Hw2 by lia.
  pose proof (st_nonempty _ _ _ _ S2) as Hne. pose proof (st_sequence _ _ _ _ S2) as Hsq.
  assert (forall n, q_segment (rp_writer s) n = (Directory opts, quarantineSegmentName n)) as Hseg
    by (intros n; unfold q_segment; by rewrite Hd).
  assert (forall n, q_segment w2 n = (Directory opts, quarantineSegmentName n)) as Hseg2
    by (intros n; unfold q_segment; by rewrite (kp_options _ _ _ _ K), Hd).
  assert (Forall (Forall storable) segs) as Hss.
  { apply Forall_forall. intros seg Hseg'. apply (placed_storable (RotationSize (options (rp_writer s))) ms [carried snap owed]); try done.
    apply Forall_singleton, Forall_forall. intros m [_ Hm]%list_elem_of_filter.
    pose proof (due_storable _ _ _ _ _ O) as Hos. rewrite Forall_forall in Hos. by apply Hos. }
  assert (forall q, q.1 <> Directory opts \/ (forall n, b < n <= sequence w2 -> q <> (Directory opts, quarantineSegmentName n)) ->
    F2 !! q = F !! q) as Hkeep.
  { intros q Hq. apply (kp_others _ _ _ _ K). intros n Hn. rewrite Hseg. destruct Hq as [Hq|Hq]; [by intros ->|apply Hq; lia]. }
  assert (forall n, marked (files fs3) (Directory opts, quarantineSegmentName n) = marked F (Directory opts, quarantineSegmentName n)) as Hm3.
  { intros n. rewrite Hfiles. apply marked_other, Hkeep. right. intros k _. apply (proj1 (marker_not_segment _ _ _ _)). }
  exists fs3, (b + Z.of_nat (length segs)), (held_after b held segs), (fun n => n <=? b).
  split; [|split; [lia|split; [|split]]].
  - unfold life. rewrite E1, E2. unfold mbind, M_bind. rewrite E3, E4. cbn [snd]. by rewrite Ed.
  - constructor; try done.
    + rewrite (parents_same (rp_fs s) _ (Directory opts)); [exact Hpa|]. destruct C as (-> & _ & _).
      intros q Hq. rewrite Hfiles. apply Hkeep. by left.
    + rewrite Hdirs. apply (proj2 Hfl).
    + intros n Hn. destruct (decide (n <= b)) as [Hnb|Hnb].
      * unfold held_after. rewrite (proj2 (Z.leb_le _ _)), Hfiles by done. rewrite Hkeep; [apply Hin; lia|].
        right. intros k Hk E. apply (q_segment_inj (mkQuarantineWriter opts None 0 0 false)) in E; lia.
      * destruct (held_after_new b held segs n Hb ltac:(lia)) as (i & seg & Hi & -> & ->).
        pose proof (st_images _ _ _ _ S2 i seg Hi) as H. rewrite Hseg2, Hw2 in H. by rewrite Hfiles.
    + intros n Hn. destruct (decide (n <= b)) as [Hnb|Hnb].
      * unfold held_after. rewrite (proj2 (Z.leb_le _ _)) by done. apply (os_storable _ _ _ _ _ O). lia.
      * destruct (held_after_new b held segs n Hb ltac:(lia)) as (i & seg & Hi & -> & ->).
        exact (Forall_lookup_1 _ _ _ _ Hss Hi).
    + intros n Hn. pose proof (st_fresh _ _ _ _ S2 n) as H. rewrite Hseg2, Hw2 in H. rewrite Hfiles. apply H. lia.
    + intros n Hn. rewrite Hm3. destruct (decide (n <= b)) as [Hnb|Hnb].
      * rewrite (proj2 (Z.leb_le _ _)) by done. apply Hma. lia.
      * rewrite (proj2 (Z.leb_gt _ _)) by lia. apply Hun. lia.
    + intros n Hn. rewrite Hm3. apply Hun. lia.
  - rewrite due_after by done. unfold segs. rewrite placed_messages. unfold messages. cbn. by rewrite app_nil_r.
  - by rewrite due_after, total_after, length_app by done.
Qed.
End life_step.

(** ** Lemmas: several lives *)

Section several.
Context (spare : list byte -> list byte) {D : Type} `{!SensorDataWriter D}.
Context (accepting : forall f r t ts v (d : D), (WriteSensorData f r t ts v d).1 = Ret tt).
Context (opts : QuarantineOptions) (Hp : blank_path (Directory opts) = false)
  (Hr : cQuarantineEntryMinimum <= RotationSize opts < 2 ^ 61).

Definition written (l : list (ConfigRegistry * list UnknownMessage)) : nat := sum_list_with (fun g => length g.2) l.

Lemma lives_refine l : forall b held done fs (d : D),
  0 <= b -> b + segments_bound l < 99999998 -> outstanding opts b held done fs ->
  Forall (fun g => Forall storable g.2) l -> carried_fit (RotationSize opts) l (due b held done, d) ->
  Z.of_nat (length (concat (map held (seqZ 1 b)))) + Z.of_nat (length l) * Z.of_nat (length (due b held done) + written l) < 2 ^ 62 ->
  exists fs', lives spare opts l (fs, d) = (Ret tt, (fs', (spec_lives l (due b held done, d)).2)).
Proof.
  induction l as [|[registry ms] l IH]; intros b held done fs d Hb Hs O Hms Hfit Ht; [by exists fs|].
  apply Forall_cons in Hms as [Hm Hms]. cbn [carried_fit] in Hfit. destruct Hfit as [Hf Hfit]. cbn [fst snd spec_life] in *.
  unfold segments_bound in *. unfold written in *. cbn [sum_list_with snd] in *. change (length ((registry, ms) :: l)) with (S (length l)) in *.
  destruct (life_step spare accepting opts Hp Hr registry ms b held done fs d Hb ltac:(lia) O ltac:(lia) Hf Hm)
    as (fs1 & b1 & held1 & done1 & E1 & Hb1 & O1 & Hd1 & Ht1).
  pose proof (carried_length (Router.Snapshot registry) (due b held done)) as Hc.
  pose proof (f_equal length Hd1) as Hd2. rewrite length_app in Hd2.
  destruct (IH b1 held1 done1 fs1 (delivered (Router.Snapshot registry) (due b held done) d)) as (fs2 & E2).
  - lia.
  - lia.
  - done.
  - done.
  - rewrite Hd1. exact Hfit.
  - rewrite Ht1. nia.
  - exists fs2. cbn [lives]. unfold mbind, M_bind. rewrite E1, E2, Hd1. done.
Qed.
End several.

(** The messages delivered in some lives, in the order of delivery. *)
Fixpoint handed_over (l : list (ConfigRegistry * list UnknownMessage)) (P : list UnknownMessage) : list UnknownMessage :=
  match l with
  | [] => []
  | (registry, ms) :: l =>
      let snap := Router.Snapshot registry in
      filter (fun m => known_device snap m <> None) P ++ handed_over l (carried snap P ++ ms)
  end.

Lemma handed_split {D} `{!SensorDataWriter D} l : forall P (d : D),
  P ++ concat (map snd l) ≡ₚ handed_over l P ++ (spec_lives l (P, d)).1.
Proof.
  induction l as [|[registry ms] l IH]; intros P d; [by rewrite app_nil_r|]. cbn [map snd concat handed_over].
  change (spec_lives ((registry, ms) :: l) (P, d)) with (spec_lives l (spec_life (registry, ms) (P, d))).
  unfold spec_life at 1. cbn [fst snd]. rewrite <- app_assoc, <- IH.
  assert (P ≡ₚ filter (fun m => known_device (Router.Snapshot registry) m <> None) P ++ carried (Router.Snapshot registry) P) as HP.
  { clear. unfold carried. induction P as [|m P IHP]; [done|]. rewrite !filter_cons.
    destruct (known_device _ m) as [x|].
    - rewrite decide_True, decide_False by done. cbn [app]. by constructor.
    - rewrite decide_False, decide_True by (done || by intros H; apply H). rewrite <- Permutation_middle. by constructor. }
  rewrite HP at 1. solve_Permutation.
Qed.

(** ** Properties *)

(** C7. The quarantine over any number of restarts refines a list of
    outstanding messages.  In a directory that no quarantine has been kept in,
    any sequence of lives (opening, replay under the configuration of the day,
    messages of unknown devices, closing) returns no error; the data writer
    ends up with what the specification says: in each life the records of the
    outstanding messages of the devices then known, in order, while the others
    stay outstanding, before the new ones.  So of all messages ever written
    each is either handed over in exactly one life or still outstanding.  What
    is carried over has to fit into one segment. *)
Theorem quarantine_lives spare {D} `{!SensorDataWriter D}
    (accepting : forall f r t ts v (d : D), (WriteSensorData f r t ts v d).1 = Ret tt)
    opts fs0 l (d : D) :
  fresh_quarantine opts fs0 -> Forall (fun g => Forall storable g.2) l ->
  segments_bound l < 99999998 -> carried_fit (RotationSize opts) l ([], d) ->
  let '(owed, stored_in) := spec_lives l ([], d) in
  (exists fs', lives spare opts l (fs0, d) = (Ret tt, (fs', stored_in))) /\
  concat (map snd l) ≡ₚ handed_over l [] ++ owed.
Proof.
  intros Hf Hms Hb Hfit. destruct (spec_lives l ([], d)) as [P d'] eqn:E. split.
  - destruct (lives_refine spare accepting opts (fq_path _ _ Hf) (fq_rotation _ _ Hf) l 0 (fun _ => []) (fun _ => false) fs0 d)
      as (fs' & E'); try done.
    + by apply outstanding_fresh.
    + cbn [length due map concat seqZ]. change (length (concat (map _ (seqZ 1 0)))) with 0%nat.
      change (length (due 0 _ _)) with 0%nat.
      assert ((length l + written l <= Z.to_nat (segments_bound l))%nat) as Hl.
      { unfold segments_bound, written. rewrite Nat2Z.id. clear. induction l as [|g l IH]; cbn [sum_list_with length]; lia. }
      assert (Z.of_nat (length l) <= 99999998 /\ Z.of_nat (0 + written l) <= 99999998) as [H1 H2] by lia. nia.
    + exists fs'. change (due 0 (fun _ => []) (fun _ => false)) with (@nil UnknownMessage) in E'. by rewrite E in E'.
  - pose proof (handed_split l [] d) as H. by rewrite E in H.
Qed.

(** ** A concrete run *)

#[local] Existing Instance storing.

(** In the first life two devices are unknown; in the second one of them is
    known; in the third the other one is. *)
Definition sample_lives : list (ConfigRegistry * list UnknownMessage) :=
  [(mkRegistry sample_snapshot, [sample_unknown; sample_unknown; sample_known]);
   (mkRegistry sample_snapshot, []);
   (mkRegistry morning_snapshot, [])].

Lemma quarantine_lives_witness :
  exists fs', lives (fun _ => []) (mkQuarantineOptions ["quarantine"] 80 0 0) sample_lives (night_fs, []) =
    (Ret tt, (fs', [(FLOOR_FIRST, ROOM_KITCHEN, SENSOR_ID_TEMPERATURE, 1700000000000, 42);
                    (FLOOR_FIRST, ROOM_KITCHEN, SENSOR_ID_TEMPERATURE, 1700000000001, 42);
                    (FLOOR_FIRST, ROOM_KITCHEN, SENSOR_ID_TEMPERATURE, 1700000000001, 42)])).
Proof.
  assert (Forall storable [sample_unknown; sample_unknown; sample_known]) as Hs.
  { destruct sample_storable. do 3 (apply Forall_cons_2; [done|]). constructor. }
  pose proof (quarantine_lives (fun _ => []) storing_accepts (mkQuarantineOptions ["quarantine"] 80 0 0) night_fs sample_lives []) as H.
  assert (spec_lives sample_lives ([], [] : data_log) = ([],
    [(FLOOR_FIRST, ROOM_KITCHEN, SENSOR_ID_TEMPERATURE, 1700000000000, 42);
     (FLOOR_FIRST, ROOM_KITCHEN, SENSOR_ID_TEMPERATURE, 1700000000001, 42);
     (FLOOR_FIRST, ROOM_KITCHEN, SENSOR_ID_TEMPERATURE, 1700000000001, 42)])) as E by (vm_compute; reflexivity).
  rewrite E in H. apply H.
  - constructor; try done. by apply Forall_nil.
  - apply Forall_cons_2; [exact Hs|]. do 2 (apply Forall_cons_2; [constructor|]). constructor.
  - done.
  - vm_compute. repeat split; discriminate.
Defined.
