(* ===== verification/Server.v ===== *)
(** * The configuration poller and the life cycle of the server

    Model of [src/sensor-server/config-poller.go] and
    [src/sensor-server/server.go]: loading the configuration file, polling it
    for reloads, opening the parts of the server with their release when one
    fails, and closing.  The JSON decoder and the modification times the
    operating system reports are parameters. *)

From S2P Require Import Prelude GoRuntime Platform DataFile Config Router.
Open Scope Z_scope.

Section server.
(** What the two [Decode] calls of [LoadConfig] return on the bytes of a file,
    and the modification time of a file. *)
Context (decode : list byte -> (error + Config) * option error).
Context (mtime : FS -> file_path -> Z).

(** ** Loading *)

(** [LoadConfig] on an open file: an error of a read is an error of the first
    [Decode]. *)
Definition load_open_file (path : file_path) : M FS (error + ConfigSnapshot) :=
  data ← attempt (file_ReadAll path);
  mret (match data with
        | inl c => LoadConfig (decode c).1 (decode c).2
        | inr e => LoadConfig (inl e) None
        end).

(** [src/sensor-server/server.go:246-263] LoadConfigFile (a nil file system and
    the empty path cannot be expressed) *)
Definition LoadConfigFile (path : file_path) : M FS ConfigSnapshot :=
  wrap_err "open configuration" (OpenFile path readOnlyFlags);;
  snapshot ← load_open_file path;
  closeErr ← attempt_err (file_Close path);
  match snapshot, closeErr with
  | inr s, None => mret s
  | inl e, _ => fail (ErrWrap "load configuration" (ErrJoin (omap id [Some e; closeErr])))
  | inr _, Some e => fail (ErrWrap "load configuration" (ErrJoin [e]))
  end.

(** ** The poller *)

(** [src/sensor-server/config-poller.go:25-28] configFileFingerprint *)
Record configFileFingerprint : Set := mkFingerprint { modified : Z; size : Z }.
#[export] Instance fingerprint_eq_dec : EqDecision configFileFingerprint.
Proof. solve_decision. Defined.

(** [src/sensor-server/config-poller.go:16-23] ConfigPoller; [reloads] are the
    calls of [OnReload] *)
Record ConfigPoller : Type := mkPoller {
  p_registry : ConfigRegistry;
  p_path : file_path;
  observed : configFileFingerprint;
  reloads : list ConfigSnapshot }.

(** [src/sensor-server/config-poller.go:103-105] fingerprint *)
Definition fingerprint (m n : Z) : configFileFingerprint := mkFingerprint m n.

(** [fileSystem.Stat], the modification time and the size. *)
Definition stat_file (path : file_path) : M FS configFileFingerprint := fun fs =>
  match Stat path fs with
  | (Ret n, fs') => (Ret (fingerprint (mtime fs path) n), fs')
  | (Fail e, fs') => (Fail e, fs')
  | (Panic p, fs') => (Panic p, fs')
  end.

(** [src/sensor-server/config-poller.go:30-58] NewConfigPoller (nil arguments
    and the empty path cannot be expressed) *)
Definition NewConfigPoller (registry : ConfigRegistry) (path : file_path) (interval : Z) : M FS ConfigPoller :=
  if interval <=? 0 then fail (ErrText "new config poller: interval must be positive") else
  info ← wrap_err "stat configuration" (stat_file path);
  mret (mkPoller registry path info []).

Definition PSt : Type := ConfigPoller * FS.
Definition p_fsop {A} (m : M FS A) : M PSt A := zoom snd (fun fs s => (s.1, fs)) m.
Definition p_modify (g : ConfigPoller -> ConfigPoller) : M PSt unit := modify (fun s => (g s.1, s.2)).
Definition p_observe (f : configFileFingerprint) (p : ConfigPoller) : ConfigPoller :=
  mkPoller (p_registry p) (p_path p) f (reloads p).

(** [registry.Reload], on the registry the poller shares. *)
Definition p_reload (candidate : ConfigSnapshot) : M PSt unit := fun '(p, fs) =>
  let '(r, registry) := Reload (Some candidate) (p_registry p) in
  (r, (mkPoller registry (p_path p) (observed p) (reloads p), fs)).

(** [src/sensor-server/config-poller.go:76-101] Poll *)
Definition Poll : M PSt bool :=
  s ← get;
  let path := p_path s.1 in
  current ← wrap_err "stat configuration" (p_fsop (stat_file path));
  if decide (current = observed s.1) then mret false else
  p_modify (p_observe current);;
  wrap_err "open configuration" (p_fsop (OpenFile path readOnlyFlags));;
  candidate ← p_fsop (load_open_file path);
  closeErr ← attempt_err (p_fsop (file_Close path));
  match candidate, closeErr with
  | inr c, None =>
      wrap_err "reload configuration" (p_reload c);;
      p_modify (fun p => mkPoller (p_registry p) (p_path p) (observed p) (reloads p ++ [c]));;
      mret true
  | inl e, _ => fail (ErrWrap "load configuration" (ErrJoin (omap id [Some e; closeErr])))
  | inr _, Some e => fail (ErrWrap "load configuration" (ErrJoin [e]))
  end.

(** [src/sensor-server/config-poller.go:60-73] Run: one poll for each tick of
    the ticker until the context is done; [views] are the file systems found
    at the ticks, and the errors are the calls of [OnError] *)
Fixpoint Run (views : list FS) (p : ConfigPoller) : list error * ConfigPoller :=
  match views with
  | [] => ([], p)
  | fs :: views =>
      let '(r, (p, _)) := Poll (p, fs) in
      let '(errs, p) := Run views p in
      (match r with Fail e => e :: errs | _ => errs end, p)
  end.
End server.

(** ** Opening the server *)

Inductive part : Set := EnginePart | QuarantinePart | ListenerPart | PacketPart | TCPPart | UDPPart.
#[export] Instance part_eq_dec : EqDecision part.
Proof. solve_decision. Defined.

(** The parts opened and closed, in order. *)
Inductive part_event : Set := Opened (p : part) | ClosedPart (p : part).
#[export] Instance part_event_eq_dec : EqDecision part_event.
Proof. solve_decision. Defined.

(** The results of the calls of [OpenServer], nil or an error. *)
Record opening : Type := mkOpening {
  o_config : option error; o_registry : option error; o_engine : option error;
  o_quarantine : option error; o_replay : option error; o_router : option error;
  o_listen : option error; o_listen_packet : option error; o_tcp : option error;
  o_udp : option error; o_poller : option error }.

Definition Log : Type := list part_event.
Definition open_part (p : part) (r : option error) : M Log unit :=
  return_err r;; modify (fun l => l ++ [Opened p]).
Definition close_part (p : part) : M Log unit := modify (fun l => l ++ [ClosedPart p]).

(** [if err != nil { cleanup; return nil, err }] *)
Definition or_release (cleanup : M Log unit) (m : M Log unit) : M Log unit := fun l =>
  match m l with
  | (Fail e, l) => (cleanup;; fail e) l
  | r => r
  end.

(** [src/sensor-server/server.go:86-89] OpenServer, cleanupStorage *)
Definition cleanupStorage : M Log unit := close_part QuarantinePart;; close_part EnginePart.
(** [tcp.Close] closes the listener, [udp.Close] the packet connection. *)
Definition close_tcp : M Log unit := close_part TCPPart;; close_part ListenerPart.
Definition close_udp : M Log unit := close_part UDPPart;; close_part PacketPart.

(** [src/sensor-server/server.go:58-162] OpenServer, up to the start of the
    goroutines (a nil context or platform cannot be expressed) *)
Definition OpenServer (r : opening) : M Log unit :=
  return_err (o_config r);;
  return_err (o_registry r);;
  open_part EnginePart (o_engine r);;
  or_release (close_part EnginePart) (open_part QuarantinePart (o_quarantine r));;
  or_release cleanupStorage (wrap_err "replay quarantine" (return_err (o_replay r)));;
  or_release cleanupStorage (return_err (o_router r));;
  or_release cleanupStorage (wrap_err "listen TCP" (open_part ListenerPart (o_listen r)));;
  or_release (close_part ListenerPart;; cleanupStorage)
    (wrap_err "listen UDP" (open_part PacketPart (o_listen_packet r)));;
  or_release (close_part PacketPart;; close_part ListenerPart;; cleanupStorage) (open_part TCPPart (o_tcp r));;
  or_release (close_tcp;; close_part PacketPart;; cleanupStorage) (open_part UDPPart (o_udp r));;
  or_release (close_udp;; close_tcp;; cleanupStorage) (return_err (o_poller r)).

(** [src/sensor-server/server.go:12-12] DefaultConfigPollInterval *)
Definition DefaultConfigPollInterval : Z := 15 * time_Second.
(** [src/sensor-server/server.go:13-13] DefaultUDPWorkerCount *)
Definition DefaultUDPWorkerCount : Z := 4.
(** [src/sensor-server/server.go:14-14] DefaultUDPQueueCapacity *)
Definition DefaultUDPQueueCapacity : Z := 1024.

(** [src/sensor-server/server.go:17-29] ServerOptions, the numbers *)
Record ServerOptions : Type := mkServerOptions {
  ConfigPollInterval : Z; UDPWorkerCount : Z; UDPQueueCapacity : Z }.

(** [src/sensor-server/server.go:265-281] applyServerOptionDefaults (the
    callbacks left out do nothing) *)
Definition applyServerOptionDefaults (o : ServerOptions) : ServerOptions :=
  mkServerOptions
    (if ConfigPollInterval o <=? 0 then DefaultConfigPollInterval else ConfigPollInterval o)
    (if UDPWorkerCount o <=? 0 then DefaultUDPWorkerCount else UDPWorkerCount o)
    (if UDPQueueCapacity o <=? 0 then DefaultUDPQueueCapacity else UDPQueueCapacity o).

(** ** The running server *)

(** The goroutines that [start] starts. *)
Inductive component : Set := PollerRun | TCPServe | UDPServe.
#[export] Instance component_eq_dec : EqDecision component.
Proof. solve_decision. Defined.

(** Where such a goroutine is: running, returned with an error or nil (a
    panic is recovered as an error), the error recorded, counted off. *)
Inductive component_pc : Type :=
| Running
| ReturnedWith (e : option error)
| Recorded
| Finished.

(** The call of [Close] that runs the function of [closeOnce]. *)
Inductive shutdown_pc : Type :=
| NotClosed
| CancelledCtx
| WaitingGroup (e : option error)
| ClosingEngine (e q : option error)
| Joining (e : option error)
| ClosedAll.

(** [src/sensor-server/server.go:31-49] Server: the goroutines, the errors and
    the closing *)
Record Server : Type := mkServer {
  poller_pc : component_pc; tcp_pc : component_pc; udp_pc : component_pc;
  ctx_done : bool; runErr : option error; closeErr : option error;
  shutdown : shutdown_pc; done_closed : bool }.

(** [src/sensor-server/server.go:209-227] start: the three goroutines *)
Definition started_server : Server := mkServer Running Running Running false None None NotClosed false.

Definition pc_of (c : component) (s : Server) : component_pc :=
  match c with PollerRun => poller_pc s | TCPServe => tcp_pc s | UDPServe => udp_pc s end.
Definition set_pc_of (c : component) (p : component_pc) (s : Server) : Server :=
  match c with
  | PollerRun => mkServer p (tcp_pc s) (udp_pc s) (ctx_done s) (runErr s) (closeErr s) (shutdown s) (done_closed s)
  | TCPServe => mkServer (poller_pc s) p (udp_pc s) (ctx_done s) (runErr s) (closeErr s) (shutdown s) (done_closed s)
  | UDPServe => mkServer (poller_pc s) (tcp_pc s) p (ctx_done s) (runErr s) (closeErr s) (shutdown s) (done_closed s)
  end.
Definition set_run_err (e : option error) (s : Server) : Server :=
  mkServer (poller_pc s) (tcp_pc s) (udp_pc s) (ctx_done s) e (closeErr s) (shutdown s) (done_closed s).
Definition set_shutdown (p : shutdown_pc) (s : Server) : Server :=
  mkServer (poller_pc s) (tcp_pc s) (udp_pc s) true (runErr s) (closeErr s) p (done_closed s).
Definition set_result (e : option error) (s : Server) : Server :=
  mkServer (poller_pc s) (tcp_pc s) (udp_pc s) true (runErr s) e ClosedAll true.

Inductive server_event : Type :=
| Failed (c : component) (e : error)     (* fail: recorded, warned *)
| NetworkClosed (udp tcp : option error) (* udp.Close and tcp.Close have returned *)
| QuarantineClosed (e : option error)
| EngineClosed (e : option error)
| ClosedWith (e : option error).

Inductive server_action : Type :=
| SReturn (c : component) (e : option error)     (* the component returns, or panics *)
| SRecord (c : component)                        (* fail, when there is an error *)
| SDone (c : component)                          (* waitGroup.Done *)
| SCancel                                        (* Close: the context is cancelled *)
| SCloseNetwork (udp tcp : option error)         (* Close: udp.Close, tcp.Close *)
| SCloseQuarantine (e : option error)            (* Close: after the wait, quarantine.Close *)
| SCloseEngine (e : option error)                (* Close: engine.Close *)
| SJoin.                                         (* Close: the errors are joined, under errMu *)

(** [src/sensor-server/server.go:229-244] componentDone and fail: the first
    error is kept, every one is reported *)
Definition component_step (a : server_action) (s : Server) : option (list server_event * Server) :=
  match a with
  | SReturn c e =>
      match pc_of c s with
      | Running => Some ([], set_pc_of c (ReturnedWith e) s)
      | _ => None
      end
  | SRecord c =>
      match pc_of c s with
      | ReturnedWith None => Some ([], set_pc_of c Recorded s)
      | ReturnedWith (Some e) =>
          Some ([Failed c e],
                set_run_err (match runErr s with None => Some e | Some e0 => Some e0 end) (set_pc_of c Recorded s))
      | _ => None
      end
  | SDone c =>
      match pc_of c s with
      | Recorded => Some ([], set_pc_of c Finished s)
      | _ => None
      end
  | _ => None
  end.

Definition all_finished (s : Server) : bool :=
  match poller_pc s, tcp_pc s, udp_pc s with
  | Finished, Finished, Finished => true
  | _, _, _ => false
  end.

(** [src/sensor-server/server.go:164-176] Close *)
Definition shutdown_step (a : server_action) (s : Server) : option (list server_event * Server) :=
  match a, shutdown s with
  | SCancel, NotClosed => Some ([], set_shutdown CancelledCtx s)
  | SCloseNetwork udp tcp, CancelledCtx =>
      Some ([NetworkClosed udp tcp], set_shutdown (WaitingGroup (errors_Join [udp; tcp])) s)
  | SCloseQuarantine e, WaitingGroup e0 =>
      if all_finished s
      then Some ([QuarantineClosed e], set_shutdown (ClosingEngine e0 e) s)
      else None
  | SCloseEngine e, ClosingEngine e0 q => Some ([EngineClosed e], set_shutdown (Joining (errors_Join [e0; q; e])) s)
  | SJoin, Joining e =>
      let result := errors_Join [runErr s; e] in Some ([ClosedWith result], set_result result s)
  | _, _ => None
  end.

Definition server_step (a : server_action) (s : Server) : option (list server_event * Server) :=
  match a with
  | SReturn _ _ | SRecord _ | SDone _ => component_step a s
  | _ => shutdown_step a s
  end.

Inductive server_reachable : list server_event -> Server -> Prop :=
| server_init : server_reachable [] started_server
| server_reach tr s a evs s' :
    server_reachable tr s -> server_step a s = Some (evs, s') -> server_reachable (tr ++ evs) s'.

(** [src/sensor-server/server.go:178-192] Shutdown: the result of [Close], or
    the error of the context when its deadline comes first *)
Definition Shutdown (closed : option (option error)) (ctx_err : error) : option error :=
  match closed with
  | Some e => e
  | None => Some (ErrWrap "shutdown server" ctx_err)
  end.

(** ** Lemmas: polling *)

Section polling.
Context (decode : list byte -> (error + Config) * option error).
Context (mtime : FS -> file_path -> Z).

(** A call changes nothing but the fault script. *)
Definition reads_only {A} (m : M FS A) : Prop := forall fs, files (m fs).2 = files fs.

Lemma fs_call_reads {A} (m : M FS A) : (forall fs, files (m fs).2 = files fs) -> reads_only (fs_call m).
Proof.
  intros Hm fs. unfold fs_call, next_fault, mbind, M_bind. destruct (faults fs) as [|[f|] l]; cbn; [apply Hm|done|].
  etrans; [apply Hm|done].
Qed.

Lemma stat_reads p : reads_only (stat_file mtime p).
Proof.
  intros fs. unfold stat_file. assert (files (Stat p fs).2 = files fs) as E.
  { apply fs_call_reads. intros fs0. repeat case_match; done. }
  destruct (Stat p fs) as [[n|e|q] fs']; exact E.
Qed.

Lemma open_reads p : reads_only (OpenFile p readOnlyFlags).
Proof. apply fs_call_reads. intros fs. repeat case_match; done. Qed.

Lemma read_all_spec p fs r fs' :
  file_ReadAll p fs = (r, fs') -> files fs' = files fs /\ (forall c, r = Ret c -> c = content fs p) /\ forall q, r <> Panic q.
Proof.
  unfold file_ReadAll, fs_call, next_fault, mbind, M_bind.
  destruct (faults fs) as [|[f|] l]; cbn; intros [= <- <-]; split_and!; try done; by intros c [= <-].
Qed.

Lemma load_open_file_spec p fs r fs' :
  load_open_file decode p fs = (r, fs') ->
  files fs' = files fs /\ exists res, r = Ret res /\
    forall c, res = inr c -> LoadConfig (decode (content fs p)).1 (decode (content fs p)).2 = inr c.
Proof.
  unfold load_open_file, mbind, M_bind, attempt. destruct (file_ReadAll p fs) as [[c|e|q] fs1] eqn:E;
    destruct (read_all_spec _ _ _ _ E) as (Hf & Hc & Hq); [| |by edestruct Hq];
    intros [= <- <-]; (split; [done|]); eexists; (split; [reflexivity|]); [|done].
  by rewrite (Hc c eq_refl).
Qed.

Lemma close_spec p fs : exists r fs', attempt_err (file_Close p) fs = (Ret r, fs') /\ files fs' = files fs.
Proof.
  unfold attempt_err, file_Close, fs_call, next_fault, mbind, M_bind.
  destruct (faults fs) as [|[f|] l]; cbn; eauto.
Qed.

(** What one poll does. *)
Inductive poll_result (p : ConfigPoller) (fs : FS) : res bool -> ConfigPoller -> Prop :=
| poll_unchanged :
    fingerprint (mtime fs (p_path p)) (Z.of_nat (length (content fs (p_path p)))) = observed p ->
    poll_result p fs (Ret false) p
| poll_reloaded f c :
    f <> observed p ->
    LoadConfig (decode (content fs (p_path p))).1 (decode (content fs (p_path p))).2 = inr c ->
    configsEqual (without_devices (config (snapshot (p_registry p)))) (without_devices (config c)) = true ->
    poll_result p fs (Ret true) (mkPoller (mkRegistry c) (p_path p) f (reloads p ++ [c]))
| poll_failed e f : poll_result p fs (Fail e) (p_observe f p).

Lemma p_observe_id p : p_observe (observed p) p = p.
Proof. by destruct p. Qed.

Lemma stat_spec p fs r fs' :
  stat_file mtime p fs = (r, fs') -> files fs' = files fs /\
  (forall f, r = Ret f -> f = fingerprint (mtime fs p) (Z.of_nat (length (content fs p)))) /\ forall q, r <> Panic q.
Proof.
  intros E. split; [by rewrite <- (stat_reads p fs), E|]. revert E.
  unfold stat_file, Stat, fs_call, next_fault, mbind, M_bind, content.
  destruct (faults fs) as [|[f|] l]; cbn; repeat case_match; intros; simplify_eq; split; intros; by simplify_eq.
Qed.

(** Every poll does one of three things, whatever fails; it never panics and
    never changes a file. *)
Lemma Poll_spec p fs r p' fs' :
  Poll decode mtime (p, fs) = (r, (p', fs')) -> files fs' = files fs /\ poll_result p fs r p'.
Proof.
  unfold Poll, mbind, M_bind, wrap_err, get, p_fsop, zoom. cbn [fst snd].
  destruct (stat_file mtime (p_path p) fs) as [rs fs1] eqn:Es.
  destruct (stat_spec _ _ _ _ Es) as (F1 & S1 & S2).
  destruct rs as [f|e|q]; [|intros [= <- <- <-]; split; [done|]; rewrite <- (p_observe_id p) at 2; constructor|by edestruct S2].
  cbn [fst snd]. destruct (decide _) as [E|Hne].
  { intros [= <- <- <-]. split; [done|]. constructor. by rewrite <- (S1 f eq_refl). }
  unfold p_modify, modify. cbn [fst snd].
  destruct (OpenFile (p_path p) readOnlyFlags fs1) as [ro fs2] eqn:Eo.
  assert (files fs2 = files fs) as F2 by (by rewrite <- F1, <- (open_reads (p_path p) fs1), Eo).
  destruct ro as [[]|e|q]; [|intros [= <- <- <-]; split; [done|constructor]|].
  2: { exfalso. revert Eo. unfold OpenFile, fs_call, next_fault, mbind, M_bind.
       destruct (faults fs1) as [|[ft|] l]; cbn; repeat case_match; done. }
  cbn [fst snd]. destruct (load_open_file decode (p_path p) fs2) as [rl fs3] eqn:El.
  destruct (load_open_file_spec _ _ _ _ El) as (F3 & res & -> & Hres). cbn [fst snd].
  unfold attempt_err, p_fsop, zoom. cbn [fst snd].
  destruct (file_Close (p_path p) fs3) as [rc fs4] eqn:Ec.
  assert (files fs4 = files fs) as F4.
  { rewrite <- F2, <- F3. pose proof (fs_call_reads (mret tt) (fun _ => eq_refl) fs3) as K.
    unfold file_Close in Ec. by rewrite Ec in K. }
  assert (content fs2 (p_path p) = content fs (p_path p)) as Ect by (unfold content; by rewrite F2).
  destruct rc as [[]|e|q]; cbn [fst snd].
  - destruct res as [e|c]; [intros [= <- <- <-]; split; [done|constructor]|].
    unfold p_reload. destruct (Reload_cases (Some c) (p_registry p)) as [(s & [= <-] & Er & Hok)|[e Er]]; cbn [p_observe p_registry];
      rewrite Er; intros [= <- <- <-]; (split; [done|]).
    + cbn. apply poll_reloaded; [done|by rewrite <- Ect; apply Hres|done].
    + constructor.
  - destruct res as [e'|c]; intros [= <- <- <-]; (split; [done|constructor]).
  - exfalso. revert Ec. unfold file_Close, fs_call, next_fault, mbind, M_bind.
    destruct (faults fs3) as [|[ft|] l]; cbn; done.
Qed.

(** C36. Polling.  Whatever the polls find and whatever fails, the registry
    holds the last of the configurations reported as reloaded, or the one it
    had; each of them is what the file contained at some poll, valid, and
    differs from the first configuration in its devices only; a poll that
    fails leaves the registry alone. *)
Theorem poller_reloads : forall views p errs p',
  Run decode mtime views p = (errs, p') ->
  exists cs, reloads p' = reloads p ++ cs /\ p_path p' = p_path p /\
    snapshot (p_registry p') = default (snapshot (p_registry p)) (last cs) /\
    Forall (fun c => configsEqual (without_devices (config (snapshot (p_registry p)))) (without_devices (config c)) = true /\
      exists fs, fs ∈ views /\
        LoadConfig (decode (content fs (p_path p))).1 (decode (content fs (p_path p))).2 = inr c) cs.
Proof.
  induction views as [|fs views IH]; intros p errs p' E; cbn [Run] in E.
  - injection E as <- <-. exists []. by rewrite app_nil_r.
  - destruct (Poll decode mtime (p, fs)) as [r [p1 fs1]] eqn:Ep.
    destruct (Run decode mtime views p1) as [errs1 p2] eqn:Er. injection E as _ <-.
    destruct (Poll_spec _ _ _ _ _ Ep) as [_ R]. destruct (IH _ _ _ Er) as (cs & H1 & H2 & H3 & H4).
    inversion R as [Hu|f c Hne Hl Hc|e f]; subst.
    + exists cs. split_and!; try done. eapply Forall_impl; [exact H4|]. intros c [Ha (fs0 & Hin & Hb)].
      split; [done|]. exists fs0. set_solver.
    + exists (c :: cs). cbn in *. rewrite H1, <- app_assoc. split_and!; try done.
      * rewrite H3, last_cons. by destruct (last cs).
      * constructor; [split; [done|]; exists fs; set_solver|].
        eapply Forall_impl; [exact H4|]. intros c' [Ha (fs0 & Hin & Hb)].
        split; [by eapply configsEqual_trans|]. exists fs0. set_solver.
    + exists cs. cbn in *. split_and!; try done. eapply Forall_impl; [exact H4|]. intros c [Ha (fs0 & Hin & Hb)].
      split; [done|]. exists fs0. set_solver.
Qed.

(** A changed file is published.  When nothing fails and the size or the
    modification time of the file differs from what was last seen, a valid
    configuration that differs in its devices only becomes the configuration of
    the registry and is reported; and until the size or the time changes again
    no poll reads the file any more. *)
Theorem poll_publishes p fs bytes c :
  faults fs = [] -> (p_path p).1 ++ [(p_path p).2] ∉ dirs fs -> files fs !! p_path p = Some bytes ->
  fingerprint (mtime fs (p_path p)) (Z.of_nat (length bytes)) <> observed p ->
  LoadConfig (decode bytes).1 (decode bytes).2 = inr c ->
  configsEqual (without_devices (config (snapshot (p_registry p)))) (without_devices (config c)) = true ->
  exists p', Poll decode mtime (p, fs) = (Ret true, (p', fs)) /\
    snapshot (p_registry p') = c /\ reloads p' = reloads p ++ [c] /\
    Poll decode mtime (p', fs) = (Ret false, (p', fs)).
Proof.
  intros Hf Hd Hb Hne Hl Hc. set (f := fingerprint (mtime fs (p_path p)) (Z.of_nat (length bytes))) in *.
  assert (stat_file mtime (p_path p) fs = (Ret f, fs)) as Es.
  { unfold stat_file, Stat, fs_call, next_fault, mbind, M_bind. by rewrite Hf, Hb. }
  exists (mkPoller (mkRegistry c) (p_path p) f (reloads p ++ [c])). split; [|split; [done|split; [done|]]].
  - unfold Poll, mbind, M_bind, wrap_err, get, p_fsop, zoom. cbn [fst snd]. rewrite Es. cbn [fst snd].
    rewrite decide_False by done. unfold p_modify, modify. cbn [fst snd].
    assert (OpenFile (p_path p) readOnlyFlags fs = (Ret tt, fs)) as ->.
    { unfold OpenFile, fs_call, next_fault, mbind, M_bind. by rewrite Hf, bool_decide_eq_false_2, Hb. }
    cbn [fst snd].
    assert (load_open_file decode (p_path p) fs = (Ret (inr c), fs)) as ->.
    { unfold load_open_file, attempt, file_ReadAll, fs_call, next_fault, mbind, M_bind, content. rewrite Hf, Hb. cbn.
      by rewrite Hl. }
    cbn [fst snd]. unfold attempt_err, p_fsop, zoom. cbn [fst snd].
    assert (file_Close (p_path p) fs = (Ret tt, fs)) as ->.
    { unfold file_Close, fs_call, next_fault, mbind, M_bind. by rewrite Hf. }
    cbn [fst snd]. unfold p_reload, Reload, ValidateReload. cbn [p_observe p_registry]. by rewrite Hc.
  - unfold Poll, mbind, M_bind, wrap_err, get, p_fsop, zoom. cbn [fst snd p_path observed].
    rewrite Es. cbn [fst snd]. by rewrite decide_True.
Qed.
End polling.

(** ** Properties of the life cycle *)

(** Every part opened is closed, once. *)
Definition released (l : Log) : Prop := (forall p, Opened p ∈ l <-> ClosedPart p ∈ l) /\ NoDup l.

Lemma released_dec l :
  forallb (fun p => bool_decide (bool_decide (Opened p ∈ l) = bool_decide (ClosedPart p ∈ l)))
    [EnginePart; QuarantinePart; ListenerPart; PacketPart; TCPPart; UDPPart] = true ->
  bool_decide (NoDup l) = true -> released l.
Proof.
  intros H N. split; [|by apply bool_decide_eq_true in N].
  rewrite forallb_forall in H. intros p.
  assert (bool_decide (Opened p ∈ l) = bool_decide (ClosedPart p ∈ l)) as E.
  { eapply bool_decide_eq_true, H. destruct p; simpl; tauto. }
  rewrite <- (bool_decide_eq_true (Opened p ∈ l)), <- (bool_decide_eq_true (ClosedPart p ∈ l)). by rewrite E.
Qed.

Ltac open_fails :=
  cbn; split; [by apply released_dec|]; eexists; by split.

(** Opening is all or nothing.  When any of the steps of [OpenServer]
    fails, every part opened before has been closed, each exactly once, and
    the error is the one of the first step that failed; when none fails every
    part is open. *)
Theorem open_releases r :
  match OpenServer r [] with
  | (Ret _, l) => l = map Opened [EnginePart; QuarantinePart; ListenerPart; PacketPart; TCPPart; UDPPart]
  | (Fail e, l) =>
      released l /\
      exists e0, head (omap id [o_config r; o_registry r; o_engine r; o_quarantine r; o_replay r; o_router r;
        o_listen r; o_listen_packet r; o_tcp r; o_udp r; o_poller r]) = Some e0 /\
        forall t, errors_Is e t = errors_Is e0 t
  | (Panic _, _) => False
  end.
Proof.
  destruct r as [r1 r2 r3 r4 r5 r6 r7 r8 r9 r10 r11].
  destruct r1; [open_fails|]. destruct r2; [open_fails|]. destruct r3; [open_fails|].
  destruct r4; [open_fails|]. destruct r5; [open_fails|]. destruct r6; [open_fails|].
  destruct r7; [open_fails|]. destruct r8; [open_fails|]. destruct r9; [open_fails|].
  destruct r10; [open_fails|]. destruct r11; [open_fails|]. reflexivity.
Qed.

(** The errors the components reported, and the steps of the closing. *)
Definition failures (tr : list server_event) : list error :=
  omap (fun e => match e with Failed _ e => Some e | _ => None end) tr.
Definition closings (tr : list server_event) : list server_event :=
  List.filter (fun e => match e with Failed _ _ => false | _ => true end) tr.

Lemma failures_app a b : failures (a ++ b) = failures a ++ failures b.
Proof. apply omap_app. Qed.
Lemma closings_app a b : closings (a ++ b) = closings a ++ closings b.
Proof. apply List.filter_app. Qed.

(** The steps of the closing already taken, by where [Close] is. *)
Definition closing_inv (tr : list server_event) (s : Server) : Prop :=
  match shutdown s with
  | NotClosed => closings tr = [] /\ done_closed s = false
  | CancelledCtx => closings tr = [] /\ done_closed s = false /\ ctx_done s = true
  | WaitingGroup e => done_closed s = false /\ ctx_done s = true /\
      exists u t, closings tr = [NetworkClosed u t] /\ e = errors_Join [u; t]
  | ClosingEngine e q => all_finished s = true /\ done_closed s = false /\ ctx_done s = true /\
      exists u t, closings tr = [NetworkClosed u t; QuarantineClosed q] /\ e = errors_Join [u; t]
  | Joining e => all_finished s = true /\ done_closed s = false /\ ctx_done s = true /\
      exists u t q g, closings tr = [NetworkClosed u t; QuarantineClosed q; EngineClosed g] /\
        e = errors_Join [errors_Join [u; t]; q; g]
  | ClosedAll => all_finished s = true /\ done_closed s = true /\ ctx_done s = true /\
      exists u t q g, closings tr =
          [NetworkClosed u t; QuarantineClosed q; EngineClosed g; ClosedWith (closeErr s)] /\
        closeErr s = errors_Join [head (failures tr); errors_Join [errors_Join [u; t]; q; g]]
  end.

Definition server_inv (tr : list server_event) (s : Server) : Prop :=
  runErr s = head (failures tr) /\ closing_inv tr s.

(** A component's step leaves the closing alone, and none is possible once all
    have finished. *)
Lemma component_step_frame a s evs s' :
  component_step a s = Some (evs, s') ->
  shutdown s' = shutdown s /\ done_closed s' = done_closed s /\ ctx_done s' = ctx_done s /\
  closeErr s' = closeErr s /\ closings evs = [] /\ all_finished s = false /\
  runErr s' = match runErr s with Some e => Some e | None => head (failures evs) end.
Proof.
  intros H. destruct s as [p1 p2 p3 cd re ce sh dc], a as [c e|c|c| | | | | ]; try discriminate;
    destruct c; cbn in H; repeat case_match; simplify_eq; cbn; split_and!; try done;
    unfold all_finished; cbn in *; try (by destruct re); by repeat case_match; simplify_eq.
Qed.

Lemma server_step_inv tr s a evs s' :
  server_inv tr s -> server_step a s = Some (evs, s') -> server_inv (tr ++ evs) s'.
Proof.
  intros [Hr Hc] Hs. unfold server_inv. rewrite failures_app.
  destruct (match a with SReturn _ _ | SRecord _ | SDone _ => true | _ => false end) eqn:Ea.
  - assert (component_step a s = Some (evs, s')) as Hs' by (by destruct a).
    destruct (component_step_frame _ _ _ _ Hs') as (E1 & E2 & E3 & E4 & E5 & E6 & E7). split.
    + rewrite E7, Hr. cbn. by destruct (failures tr).
    + unfold closing_inv in *. rewrite E1. destruct (shutdown s); rewrite closings_app, E5, app_nil_r, ?E2, ?E3;
        try done; destruct Hc as [Hc _]; congruence.
  - assert (shutdown_step a s = Some (evs, s')) as Hs' by (by destruct a). clear Hs.
    unfold closing_inv in *. unfold shutdown_step in Hs'.
    destruct a as [ | | | |u t|q|g| ]; try discriminate; destruct (shutdown s) eqn:Esh; try discriminate;
      try (destruct (all_finished s) eqn:Hf; [|discriminate]); injection Hs' as <- <-; cbn;
      rewrite ?closings_app, ?app_nil_r.
    + split; [by rewrite ?app_nil_r|]. by destruct Hc as [-> ->].
    + split; [by rewrite ?app_nil_r|]. destruct Hc as (E & -> & _). split_and!; [done..|].
      exists u, t. by rewrite ?closings_app, E.
    + split; [by rewrite ?app_nil_r|]. destruct Hc as (-> & _ & u & t & E & ->). split_and!; [done..|].
      exists u, t. by rewrite ?closings_app, E.
    + split; [by rewrite ?app_nil_r|]. destruct Hc as (Hf & -> & _ & u & t & E & ->). split_and!; [done..|].
      eexists u, t, _, _. by rewrite ?closings_app, E.
    + split; [by rewrite ?app_nil_r|]. destruct Hc as (Hf & _ & _ & u & t & q & g & E & ->). split_and!; [done..|].
      exists u, t, q, g. by rewrite ?closings_app, E, ?failures_app, app_nil_r, Hr.
Qed.

Lemma server_reachable_inv tr s : server_reachable tr s -> server_inv tr s.
Proof. induction 1; [by split|]. by eapply server_step_inv. Qed.


(** ** Witnesses *)

(** A decoder that finds one device in every file, and a clock that stands. *)
Definition one_device_file (_ : list byte) : (error + Config) * option error :=
  (inr (sample_config [sample_device]), Some (ErrNew io_EOF)).
Definition config_path : file_path := ([], "config.json").
Definition config_fs : FS := mkFS {[ config_path := [Byte.x7b; Byte.x7d] ]} ∅ [].
Definition polling (s : ConfigSnapshot) : ConfigPoller := mkPoller (mkRegistry s) config_path (fingerprint 0 0) [].

Lemma poll_publishes_witness :
  exists s c, NewConfigSnapshot (sample_config []) = inr s /\ NewConfigSnapshot (sample_config [sample_device]) = inr c /\
    exists p', Poll one_device_file (fun _ _ => 0) (polling s, config_fs) = (Ret true, (p', config_fs)) /\
      snapshot (p_registry p') = c /\ reloads p' = [c] /\
      Poll one_device_file (fun _ _ => 0) (p', config_fs) = (Ret false, (p', config_fs)).
Proof.
  destruct sample_snapshots as (s & c & E & E'). exists s, c. split; [exact E|split; [exact E'|]].
  apply (poll_publishes one_device_file (fun _ _ => 0) (polling s) config_fs [Byte.x7b; Byte.x7d] c).
  - reflexivity.
  - set_solver.
  - by vm_compute.
  - by vm_compute.
  - exact E'.
  - apply NewConfigSnapshot_config in E, E'. cbn [p_registry polling snapshot]. rewrite E, E'. by vm_compute.
Defined.

Lemma poller_reloads_witness :
  exists s, NewConfigSnapshot (sample_config []) = inr s /\
    let '(errs, p') := Run one_device_file (fun _ _ => 0) [config_fs; config_fs] (polling s) in
    exists cs, reloads p' = [] ++ cs /\ p_path p' = config_path /\
      snapshot (p_registry p') = default s (last cs) /\
      Forall (fun c => configsEqual (without_devices (config s)) (without_devices (config c)) = true /\
        exists fs, fs ∈ [config_fs; config_fs] /\
          LoadConfig (one_device_file (content fs config_path)).1 (one_device_file (content fs config_path)).2 = inr c) cs.
Proof.
  destruct sample_snapshots as (s & _ & E & _). exists s. split; [exact E|].
  destruct (Run _ _ _ _) as [errs p'] eqn:R.
  exact (poller_reloads one_device_file (fun _ _ => 0) [config_fs; config_fs] (polling s) errs p' R).
Defined.

(** One of the components fails, the others are stopped by the closing. *)
Definition sample_shutdown : list server_action :=
  [SReturn TCPServe (Some (ErrText "accept")); SRecord TCPServe; SCancel; SDone TCPServe;
   SCloseNetwork None None; SReturn UDPServe None; SReturn PollerRun None; SRecord UDPServe; SDone UDPServe;
   SRecord PollerRun; SDone PollerRun; SCloseQuarantine None; SCloseEngine (Some (ErrText "flush")); SJoin].

Fixpoint server_run (l : list server_action) (s : Server) : option (list server_event * Server) :=
  match l with
  | [] => Some ([], s)
  | a :: l =>
      match server_step a s with
      | Some (evs, s') =>
          match server_run l s' with
          | Some (evs', s'') => Some (evs ++ evs', s'')
          | None => None
          end
      | None => None
      end
  end.

Lemma server_run_reachable l : forall tr s evs s',
  server_reachable tr s -> server_run l s = Some (evs, s') -> server_reachable (tr ++ evs) s'.
Proof.
  induction l as [|a l IH]; intros tr s evs s' R E; cbn in E; [injection E as <- <-; by rewrite app_nil_r|].
  destruct (server_step a s) as [[e1 s1]|] eqn:E1; [|done].
  destruct (server_run l s1) as [[e2 s2]|] eqn:E2; [|done]. injection E as <- <-.
  rewrite app_assoc. by eapply IH; [eapply server_reach|].
Qed.

