(* ===== verification/Logging.v ===== *)
(** * Logging

    Model of [src/logging/logging.go]: the levels and their parsing, the
    loggers of each level, the header of a line and its numbers, the writing of
    one line, and the limiter that keeps repeated warnings apart.  Text is a
    list of characters; what [fmt] prints for the arguments of a call, the
    caller that [runtime] finds and the results of the writes are parameters. *)

From S2P Require Import Prelude GoRuntime GoStrings Config.
From Stdlib Require Import Ascii.
Open Scope Z_scope.

Abbreviation text := (list Ascii.ascii).

(** ** Levels *)

(** [src/logging/logging.go:19-19] LogLevel *)
Definition LogLevel : Set := Z.
(** [src/logging/logging.go:22-22] LevelNone *)
Definition LevelNone : LogLevel := 0.
(** [src/logging/logging.go:23-23] LevelFatal *)
Definition LevelFatal : LogLevel := 1.
(** [src/logging/logging.go:24-24] LevelError *)
Definition LevelError : LogLevel := 2.
(** [src/logging/logging.go:25-25] LevelWarning *)
Definition LevelWarning : LogLevel := 3.
(** [src/logging/logging.go:26-26] LevelInfo *)
Definition LevelInfo : LogLevel := 4.
(** [src/logging/logging.go:27-27] LevelDebug *)
Definition LevelDebug : LogLevel := 5.

(** [src/logging/logging.go:102-117] ParseLevel *)
Definition ParseLevel (value : text) : error + LogLevel :=
  let named := fun s => bool_decide (ToLower value = chars s) in
  if named "disabled"%string || named "none"%string then inr LevelNone else
  if named "error"%string then inr LevelError else
  if named "warn"%string || named "warning"%string then inr LevelWarning else
  if named "info"%string || named ""%string then inr LevelInfo else
  if named "debug"%string then inr LevelDebug else
  inl (ErrText "unsupported log level").

(** ** The clock *)

(** [time.Time]: the nanoseconds since the epoch and the offset of the zone in
    seconds. *)
Record Time : Set := mkTime { unix : Z; zone : Z }.
Definition Time_UTC (t : Time) : Time := mkTime (unix t) 0.
(** The seconds since the epoch that a clock in the zone shows. *)
Definition wall_seconds (t : Time) : Z := unix t / 1000000000 + zone t.
Definition Time_Nanosecond (t : Time) : Z := unix t mod 1000000000.
Definition Time_Clock (t : Time) : Z * Z * Z :=
  let s := wall_seconds t mod 86400 in (s / 3600, s mod 3600 / 60, s mod 60).

(** The proleptic Gregorian calendar: in an era of 400 years that begins on the
    first of March, the centuries, the four-year cycles and the years, each
    with its leap day at its end; the year and the day in it. *)
Definition era_days : Z := 146097.
Definition year_and_day (day : Z) : Z * Z :=
  let century := Z.min 3 (day / 36524) in
  let day := day - 36524 * century in
  let cycle := day / 1461 in
  let day := day - 1461 * cycle in
  let year := Z.min 3 (day / 365) in
  (100 * century + 4 * cycle + year, day - 365 * year).

(** The month and the day in it, of a day of a year that begins in March. *)
Definition month_and_day (day : Z) : Z * Z :=
  let m := (5 * day + 2) / 153 in
  ((if m <? 10 then m + 3 else m - 9), day - (153 * m + 2) / 5 + 1).

Definition Time_Date (t : Time) : Z * Z * Z :=
  let z := wall_seconds t / 86400 + 719468 in
  let '(year, day) := year_and_day (z mod era_days) in
  let '(month, day) := month_and_day day in
  (year + z / era_days * 400 + (if month <=? 2 then 1 else 0), month, day).

(** [time.Time.Sub]: the difference in nanoseconds, saturated. *)
Definition Time_Sub (t u : Time) : Z := Z.max (- 2 ^ 63) (Z.min (2 ^ 63 - 1) (unix t - unix u)).

Example date_1 : Time_Date (mkTime 0 0) = (1970, 1, 1).
Proof. reflexivity. Qed.
Example date_2 : Time_Date (mkTime (951782400 * 1000000000) 0) = (2000, 2, 29).
Proof. reflexivity. Qed.
Example date_3 : Time_Date (mkTime (1767225599 * 1000000000) 3600) = (2026, 1, 1).
Proof. reflexivity. Qed.
Example date_4 : Time_Date (mkTime (1767225599 * 1000000000) 0) = (2025, 12, 31).
Proof. reflexivity. Qed.
Example clock_1 : Time_Clock (mkTime (1767225599 * 1000000000) 0) = (23, 59, 59).
Proof. reflexivity. Qed.

(** ** The header of a line *)

(** The flags of the package [log]. *)
Definition Ldate : Z := 1.
Definition Ltime : Z := 2.
Definition Lmicroseconds : Z := 4.
Definition Llongfile : Z := 8.
Definition Lshortfile : Z := 16.
Definition LUTC : Z := 32.
Definition Lmsgprefix : Z := 64.
Definition has_flag (flag mask : Z) : bool := negb (Z.land flag mask =? 0).

(** Appending to the buffer a function was given. *)
Definition append (s : text) : M text unit := modify (fun buf => buf ++ s).
Definition byte_char (z : Z) : Ascii.ascii := Ascii.ascii_of_N (Z.to_N (z mod 256)).

(** The loop of [itoa] on the array of 20 bytes; after 20 rounds the index is
    negative and the next store panics, so 21 rounds are enough. *)
Fixpoint itoa_loop (fuel : nat) (b : text) (bp i wid : Z) : res text :=
  let store c := <[Z.to_nat bp := byte_char c]> b in
  if negb ((0 <=? bp) && (bp <? 20)) then Panic PanicIndex else
  if (10 <=? i) || (1 <? wid) then
    let q := Z.quot i 10 in
    match fuel with
    | O => Panic PanicIndex
    | S fuel => itoa_loop fuel (store (48 + i - q * 10)) (bp - 1) q (wid - 1)
    end
  else Ret (drop (Z.to_nat bp) (store (48 + i))).

(** [src/logging/logging.go:282-296] itoa *)
Definition itoa (i wid : Z) : M text unit :=
  digits ← lift (itoa_loop 21 (replicate 20 "000"%char) 19 i wid);
  append digits.

(** The base name: the loop over [i] from [len(file)-1] down to 1. *)
Fixpoint short_name (i : nat) (file : text) : text :=
  match i with
  | O => file
  | S i' => match file !! i with
            | Some c => if Ascii.eqb c "/" then drop (S i) file else short_name i' file
            | None => short_name i' file
            end
  end.

Definition when (b : bool) (m : M text unit) : M text unit := if b then m else mret tt.

(** [src/logging/logging.go:303-353] formatHeader *)
Definition formatHeader (t : Time) (prefix : text) (flag : Z) (file : text) (line : Z) : M text unit :=
  when (negb (has_flag flag Lmsgprefix)) (append prefix);;
  when (has_flag flag (Z.lor Ldate (Z.lor Ltime Lmicroseconds)))
    (let t := if has_flag flag LUTC then Time_UTC t else t in
     when (has_flag flag Ldate)
       (let '(year, month, day) := Time_Date t in
        itoa year 4;; append (chars "/");; itoa month 2;; append (chars "/");; itoa day 2;; append (chars " "));;
     when (has_flag flag (Z.lor Ltime Lmicroseconds))
       (let '(hour, min, sec) := Time_Clock t in
        itoa hour 2;; append (chars ":");; itoa min 2;; append (chars ":");; itoa sec 2;;
        when (has_flag flag Lmicroseconds) (append (chars ".");; itoa (Z.quot (Time_Nanosecond t) 1000) 6);;
        append (chars " ")));;
  when (has_flag flag (Z.lor Lshortfile Llongfile))
    (let file := if has_flag flag Lshortfile then short_name (length file - 1) file else file in
     append file;; append (chars ":");; itoa line (-1);; append (chars ": "));;
  when (has_flag flag Lmsgprefix) (append prefix).

(** ** Writing a line *)

(** Where the lines go. *)
Inductive Writer : Set := Stdout | Stderr | LogFile (path : text) | Discard.
#[export] Instance Writer_eq_dec : EqDecision Writer.
Proof. solve_decision. Defined.

(** [src/logging/logging.go:244-252] StdLogger *)
Record StdLogger : Set := mkStdLogger {
  out : Writer; depth : nat; l_prefix : option text; l_flag : Z; isDiscard : bool }.

(** [src/logging/logging.go:269-274] StdLogger.SetOutput *)
Definition SetOutput (w : Writer) (l : StdLogger) : StdLogger :=
  mkStdLogger w (depth l) (l_prefix l) (l_flag l) (bool_decide (w = Discard)).
(** [src/logging/logging.go:500-502] StdLogger.SetFlags *)
Definition SetFlags (flag : Z) (l : StdLogger) : StdLogger :=
  mkStdLogger (out l) (depth l) (l_prefix l) (wraps 32 flag) (isDiscard l).
(** [src/logging/logging.go:513-515] StdLogger.SetPrefix *)
Definition SetPrefix (p : text) (l : StdLogger) : StdLogger :=
  mkStdLogger (out l) (depth l) (Some p) (l_flag l) (isDiscard l).
(** [src/logging/logging.go:494-496] StdLogger.Flags *)
Definition Flags (l : StdLogger) : Z := l_flag l.
(** [src/logging/logging.go:505-510] StdLogger.Prefix *)
Definition Prefix (l : StdLogger) : text := default [] (l_prefix l).

(** [src/logging/logging.go:259-266] NewStdLogger *)
Definition NewStdLogger (w : Writer) (prefix : text) (flag : Z) : StdLogger :=
  SetFlags flag (SetPrefix prefix (SetOutput w (mkStdLogger w 3%nat None 0 false))).
(** [src/logging/logging.go:518-522] StdLogger.Writer *)
Definition StdLogger_Writer (l : StdLogger) : Writer := out l.
(** [src/logging/logging.go:276-276] std *)
Definition std : StdLogger := NewStdLogger Stderr [] (Z.lor Ldate Ltime).

(** The writes made so far, in order. *)
Definition Writes : Set := list (Writer * text).
(** A frame of the call stack: the file and the line. *)
Definition Frame : Set := text * Z.

Definition newline : Ascii.ascii := "010"%char.
Definition terminated (buf : text) : bool := bool_decide (last buf = Some newline).

(** What [formatHeader] writes into an empty buffer. *)
Definition header_text (t : Time) (prefix : text) (flag : Z) (file : text) (line : Z) : res text :=
  match formatHeader t prefix flag file line [] with
  | (Ret _, buf) => Ret buf
  | (Fail e, _) => Fail e
  | (Panic p, _) => Panic p
  end.

Section logger.
(** A line inside this package, the clock at a write, the result of a write,
    and what [fmt] prints for the arguments of a call. *)
Context (here : Frame) (now : Writes -> Time) (write_err : Writes -> option error).
Context {any : Type} (Sprint Sprintln : list any -> text) (Sprintf : text -> list any -> text).
Context (any_of_error : error -> any).

(** [l.out.Write] *)
Definition writer_Write (w : Writer) (b : text) : M Writes unit := fun s =>
  (match write_err s with None => Ret tt | Some e => Fail e end, s ++ [(w, b)]).

(** [src/logging/logging.go:391-436] StdLogger.output, for pc = 0, which all
    its callers pass; [callers] are the frames outside, the innermost first
    (for the buffer see [LogPool.v]) *)
Definition output (l : StdLogger) (calldepth : nat) (callers : list Frame) (s : text) : M Writes unit :=
  if isDiscard l then mret tt else
  t ← gets now;
  let prefix := Prefix l in
  let flag := Flags l in
  let frame := if has_flag flag (Z.lor Lshortfile Llongfile)
               then default (chars "???", 0) ((here :: callers) !! calldepth) else ([], 0) in
  header ← lift (header_text t prefix flag frame.1 frame.2);
  let buf := header ++ s in
  writer_Write (out l) (if terminated buf then buf else buf ++ [newline]).

Definition ignore (m : M Writes unit) : M Writes unit := attempt_err m;; mret tt.

(** [src/logging/logging.go:382-387] StdLogger.Output *)
Definition StdLogger_Output (l : StdLogger) (calldepth : nat) (callers : list Frame) (s : text) : M Writes unit :=
  output l (S calldepth) (here :: callers) s.
(** [src/logging/logging.go:440-444] StdLogger.Print *)
Definition Print (l : StdLogger) (callers : list Frame) (v : list any) : M Writes unit :=
  ignore (output l (depth l) (here :: callers) (Sprint v)).
(** [src/logging/logging.go:448-452] StdLogger.Printf *)
Definition Printf (l : StdLogger) (callers : list Frame) (format : text) (v : list any) : M Writes unit :=
  ignore (output l (depth l) (here :: callers) (Sprintf format v)).
(** [src/logging/logging.go:456-460] StdLogger.Println *)
Definition Println (l : StdLogger) (callers : list Frame) (v : list any) : M Writes unit :=
  ignore (output l (depth l) (here :: callers) (Sprintln v)).
(** [src/logging/logging.go:463-465] StdLogger.Fatal *)
Definition StdLogger_Fatal (l : StdLogger) (callers : list Frame) (v : list any) : M Writes unit :=
  ignore (StdLogger_Output l (depth l) (here :: callers) (Sprint v)).
(** [src/logging/logging.go:468-470] StdLogger.Fatalf *)
Definition StdLogger_Fatalf (l : StdLogger) (callers : list Frame) (format : text) (v : list any) : M Writes unit :=
  ignore (StdLogger_Output l (depth l) (here :: callers) (Sprintf format v)).
(** [src/logging/logging.go:473-475] StdLogger.Fatalln *)
Definition StdLogger_Fatalln (l : StdLogger) (callers : list Frame) (v : list any) : M Writes unit :=
  ignore (StdLogger_Output l (depth l) (here :: callers) (Sprintln v)).
(** [src/logging/logging.go:478-480] StdLogger.Panic *)
Definition StdLogger_Panic (l : StdLogger) (callers : list Frame) (v : list any) : M Writes unit :=
  ignore (StdLogger_Output l (depth l) (here :: callers) (Sprint v)).
(** [src/logging/logging.go:483-485] StdLogger.Panicf *)
Definition StdLogger_Panicf (l : StdLogger) (callers : list Frame) (format : text) (v : list any) : M Writes unit :=
  ignore (StdLogger_Output l (depth l) (here :: callers) (Sprintf format v)).
(** [src/logging/logging.go:488-490] StdLogger.Panicln *)
Definition StdLogger_Panicln (l : StdLogger) (callers : list Frame) (v : list any) : M Writes unit :=
  ignore (StdLogger_Output l (depth l) (here :: callers) (Sprintln v)).

(** [src/logging/logging.go:560-564] Print: the functions of the package, on
    the standard logger *)
Definition std_Print (std : StdLogger) (callers : list Frame) (v : list any) : M Writes unit :=
  ignore (output std 3 (here :: callers) (Sprint v)).
(** [src/logging/logging.go:568-572] Printf *)
Definition std_Printf (std : StdLogger) (callers : list Frame) (format : text) (v : list any) : M Writes unit :=
  ignore (output std 3 (here :: callers) (Sprintf format v)).
(** [src/logging/logging.go:576-580] Println *)
Definition std_Println (std : StdLogger) (callers : list Frame) (v : list any) : M Writes unit :=
  ignore (output std 3 (here :: callers) (Sprintln v)).
(** [src/logging/logging.go:583-585] Fatal *)
Definition std_Fatal (std : StdLogger) (callers : list Frame) (v : list any) : M Writes unit :=
  ignore (StdLogger_Output std 3 (here :: callers) (Sprint v)).
(** [src/logging/logging.go:588-590] Fatalf *)
Definition std_Fatalf (std : StdLogger) (callers : list Frame) (format : text) (v : list any) : M Writes unit :=
  ignore (StdLogger_Output std 3 (here :: callers) (Sprintf format v)).
(** [src/logging/logging.go:593-595] Fatalln *)
Definition std_Fatalln (std : StdLogger) (callers : list Frame) (v : list any) : M Writes unit :=
  ignore (StdLogger_Output std 3 (here :: callers) (Sprintln v)).
(** [src/logging/logging.go:598-600] Panic *)
Definition std_Panic (std : StdLogger) (callers : list Frame) (v : list any) : M Writes unit :=
  ignore (StdLogger_Output std 3 (here :: callers) (Sprint v)).
(** [src/logging/logging.go:603-605] Panicf *)
Definition std_Panicf (std : StdLogger) (callers : list Frame) (format : text) (v : list any) : M Writes unit :=
  ignore (StdLogger_Output std 3 (here :: callers) (Sprintf format v)).
(** [src/logging/logging.go:608-610] Panicln *)
Definition std_Panicln (std : StdLogger) (callers : list Frame) (v : list any) : M Writes unit :=
  ignore (StdLogger_Output std 3 (here :: callers) (Sprintln v)).
(** [src/logging/logging.go:619-621] Output *)
Definition std_Output (std : StdLogger) (calldepth : nat) (callers : list Frame) (s : text) : M Writes unit :=
  StdLogger_Output std (S calldepth) (here :: callers) s.

(** ** The loggers of the levels *)

(** [src/logging/logging.go:46-56] DefaultLogger; [ownedOutput] is the file
    that [New] opened, [onceDone] whether [closeOnce] has run *)
Record DefaultLogger : Set := mkDefaultLogger {
  ogLogLevel : Z;
  ogDebugLogger : StdLogger; ogFatalLogger : StdLogger; ogErrLogger : StdLogger;
  ogWarnLogger : StdLogger; ogInfoLogger : StdLogger;
  ownedOutput : option text; onceDone : bool; closeErr : option error }.

(** [src/logging/logging.go:119-121] DefaultLogger.SetLevel *)
Definition SetLevel (level : LogLevel) (l : DefaultLogger) : DefaultLogger :=
  mkDefaultLogger (wraps 32 level) (ogDebugLogger l) (ogFatalLogger l) (ogErrLogger l)
    (ogWarnLogger l) (ogInfoLogger l) (ownedOutput l) (onceDone l) (closeErr l).
(** [src/logging/logging.go:196-198] DefaultLogger.level *)
Definition level (l : DefaultLogger) : LogLevel := ogLogLevel l.

Definition standard_flags : Z := Z.lor Ldate (Z.lor Ltime Lshortfile).
Definition loggers_on (w : Writer) (owned : option text) : DefaultLogger :=
  mkDefaultLogger 0
    (NewStdLogger w (chars "DEBUG: ") standard_flags) (NewStdLogger w (chars "FATAL: ") standard_flags)
    (NewStdLogger w (chars "ERROR: ") standard_flags) (NewStdLogger w (chars "WARN: ") standard_flags)
    (NewStdLogger w (chars "INFO: ") standard_flags) owned false None.

(** [src/logging/logging.go:58-68] NewDefault *)
Definition NewDefault : DefaultLogger := SetLevel LevelInfo (loggers_on Stderr None).

(** [src/logging/logging.go:70-100] New; [opened] is the error of opening the
    file, when the output is one *)
Definition New (level output : text) (opened : option error) : error + DefaultLogger :=
  match ParseLevel level with
  | inl e => inl e
  | inr parsed =>
      if bool_decide (output = chars "stdout") then inr (SetLevel parsed (loggers_on Stdout None)) else
      if bool_decide (output = chars "stderr") || bool_decide (output = [])
      then inr (SetLevel parsed (loggers_on Stderr None)) else
      match opened with
      | Some e => inl (ErrWrap "open log output" e)
      | None => inr (SetLevel parsed (loggers_on (LogFile output) (Some output)))
      end
  end.

(** [if level <= l.level() { ... }] *)
Definition gated (at_level : LogLevel) (l : DefaultLogger) (m : M Writes unit) : M Writes unit :=
  if at_level <=? level l then m else mret tt.

(** [src/logging/logging.go:123-127] DefaultLogger.LogDebug *)
Definition LogDebug (l : DefaultLogger) (callers : list Frame) (v : list any) : M Writes unit :=
  gated LevelDebug l (Println (ogDebugLogger l) (here :: callers) v).
(** [src/logging/logging.go:129-134] DefaultLogger.LogFatal *)
Definition LogFatal (l : DefaultLogger) (callers : list Frame) (err : error) (v : list any) : M Writes unit :=
  gated LevelFatal l
    (Print (ogFatalLogger l) (here :: callers) [any_of_error err];; Println (ogFatalLogger l) (here :: callers) v).
(** [src/logging/logging.go:136-141] DefaultLogger.LogError *)
Definition LogError (l : DefaultLogger) (callers : list Frame) (err : error) (v : list any) : M Writes unit :=
  gated LevelError l
    (Print (ogErrLogger l) (here :: callers) [any_of_error err];; Println (ogErrLogger l) (here :: callers) v).
(** [src/logging/logging.go:143-147] DefaultLogger.LogWarning *)
Definition LogWarning (l : DefaultLogger) (callers : list Frame) (v : list any) : M Writes unit :=
  gated LevelWarning l (Println (ogWarnLogger l) (here :: callers) v).
(** [src/logging/logging.go:149-153] DefaultLogger.LogInfo *)
Definition LogInfo (l : DefaultLogger) (callers : list Frame) (v : list any) : M Writes unit :=
  gated LevelInfo l (Print (ogInfoLogger l) (here :: callers) v).
(** [src/logging/logging.go:155-159] DefaultLogger.LogDebugf *)
Definition LogDebugf (l : DefaultLogger) (callers : list Frame) (format : text) (v : list any) : M Writes unit :=
  gated LevelDebug l (Printf (ogDebugLogger l) (here :: callers) format v).
(** [src/logging/logging.go:161-166] DefaultLogger.LogFatalf *)
Definition LogFatalf (l : DefaultLogger) (callers : list Frame) (err : error) (format : text) (v : list any)
    : M Writes unit :=
  gated LevelFatal l
    (Print (ogFatalLogger l) (here :: callers) [any_of_error err];; Printf (ogFatalLogger l) (here :: callers) format v).
(** [src/logging/logging.go:168-173] DefaultLogger.LogErrorf *)
Definition LogErrorf (l : DefaultLogger) (callers : list Frame) (err : error) (format : text) (v : list any)
    : M Writes unit :=
  gated LevelError l
    (Print (ogErrLogger l) (here :: callers) [any_of_error err];; Printf (ogErrLogger l) (here :: callers) format v).
(** [src/logging/logging.go:175-179] DefaultLogger.LogWarningf *)
Definition LogWarningf (l : DefaultLogger) (callers : list Frame) (format : text) (v : list any) : M Writes unit :=
  gated LevelWarning l (Printf (ogWarnLogger l) (here :: callers) format v).
(** [src/logging/logging.go:181-185] DefaultLogger.LogInfof *)
Definition LogInfof (l : DefaultLogger) (callers : list Frame) (format : text) (v : list any) : M Writes unit :=
  gated LevelInfo l (Printf (ogInfoLogger l) (here :: callers) format v).

(** [src/logging/logging.go:187-194] DefaultLogger.Close; [closed] is the
    result of closing the file, if it is closed *)
Definition DefaultLogger_Close (closed : option error) (l : DefaultLogger) : option error * DefaultLogger :=
  let l := if onceDone l then l else
           mkDefaultLogger (ogLogLevel l) (ogDebugLogger l) (ogFatalLogger l) (ogErrLogger l)
             (ogWarnLogger l) (ogInfoLogger l) (ownedOutput l) true
             (match ownedOutput l with Some _ => closed | None => closeErr l end) in
  (closeErr l, l).

(** ** The limiter *)

(** [src/logging/logging.go:200-205] RateLimiter *)
Record RateLimiter : Type := mkRateLimiter { interval : Z; r_last : gmap string Time }.

(** [src/logging/logging.go:207-215] NewRateLimiter *)
Definition NewRateLimiter (interval : Z) : error + RateLimiter :=
  if interval <=? 0 then inl (ErrText "new log rate limiter: interval must be positive")
  else inr (mkRateLimiter interval ∅).

(** [src/logging/logging.go:217-227] RateLimiter.Allow, [t] being the time the
    clock gave before the lock was taken *)
Definition Allow (key : string) (t : Time) (limiter : RateLimiter) : bool * RateLimiter :=
  match r_last limiter !! key with
  | Some last =>
      if Time_Sub t last <? interval limiter then (false, limiter)
      else (true, mkRateLimiter (interval limiter) (<[key := t]> (r_last limiter)))
  | None => (true, mkRateLimiter (interval limiter) (<[key := t]> (r_last limiter)))
  end.

(** [src/logging/logging.go:229-235] RateLimiter.WarningCallback; [message] is
    the text of the error *)
Definition WarningCallback (message : error -> string) (logger : DefaultLogger) (callers : list Frame)
    (err : option error) (t : Time) : M (RateLimiter * Writes) unit := fun '(limiter, s) =>
  match err with
  | None => (Ret tt, (limiter, s))
  | Some e =>
      let '(allowed, limiter) := Allow (message e) t limiter in
      if allowed
      then let '(r, s) := LogWarning logger (here :: callers) [any_of_error e] s in (r, (limiter, s))
      else (Ret tt, (limiter, s))
  end.
End logger.

(** ** Lemmas: numbers *)

Lemma byte_char_digit d : 0 <= d < 10 -> byte_char (48 + d) = digit_char d.
Proof. intros H. unfold byte_char, digit_char. by rewrite Z.mod_small by lia. Qed.

(** The digits of a number are those of its tenth and the last one. *)
Lemma format_0d_step w n :
  10 <= n \/ (1 < w)%nat -> 0 <= n < 2 ^ 64 ->
  format_0d w n = format_0d (w - 1) (n / 10) ++ [digit_char (n mod 10)].
Proof.
  intros Hc Hn. destruct (decide (1 < w)%nat) as [Hw|Hw].
  - replace w with (S (w - 1)) at 1 by lia. apply format_0d_snoc; lia.
  - assert (10 <= n) by lia. unfold format_0d.
    change (decimal 20 n) with (if n <? 10 then [digit_char n] else decimal 19 (n / 10) ++ [digit_char (n mod 10)]).
    destruct (Z.ltb_spec n 10); [lia|].
    rewrite (decimal_fuel 19 18 (n / 10)) by (try mod_lia;
      change (10 ^ Z.of_nat 20) with 100000000000000000000;
      change (10 ^ Z.of_nat 19) with 10000000000000000000; mod_lia).
    rewrite length_app, app_assoc. f_equal. f_equal. f_equal. cbn [length]. lia.
Qed.

Lemma format_0d_small w n : (w <= 1)%nat -> 0 <= n < 10 -> format_0d w n = [digit_char n].
Proof.
  intros Hw Hn. unfold format_0d.
  change (decimal 20 n) with (if n <? 10 then [digit_char n] else decimal 19 (n / 10) ++ [digit_char (n mod 10)]).
  destruct (Z.ltb_spec n 10); [|lia]. cbn [length]. by replace (w - 1)%nat with 0%nat by lia.
Qed.

Lemma format_0d_nonempty w n : (0 < length (format_0d w n))%nat.
Proof.
  unfold format_0d. rewrite length_app.
  change (decimal 20 n) with (if n <? 10 then [digit_char n] else decimal 19 (n / 10) ++ [digit_char (n mod 10)]).
  destruct (n <? 10); rewrite ?length_app; cbn [length]; lia.
Qed.

Lemma drop_insert_cons (b : text) (n : nat) c :
  (n < length b)%nat -> drop n (<[n := c]> b) = c :: drop (S n) b.
Proof.
  intros Hn. assert (<[n := c]> b !! n = Some c) as E by (by apply list_lookup_insert_eq).
  rewrite (drop_S _ _ _ E). f_equal. apply drop_insert_lt. lia.
Qed.

(** The loop writes the digits in front of those already written. *)
Lemma itoa_loop_spec fuel : forall b bp i wid,
  length b = 20%nat -> 0 <= i < 2 ^ 63 -> bp < 20 ->
  Z.of_nat (length (format_0d (Z.to_nat wid) i)) <= bp + 1 ->
  (length (format_0d (Z.to_nat wid) i) <= S fuel)%nat ->
  itoa_loop fuel b bp i wid = Ret (format_0d (Z.to_nat wid) i ++ drop (S (Z.to_nat bp)) b).
Proof.
  induction fuel as [|fuel IH]; intros b bp i wid Hb Hi Hbp Hl Hf;
    pose proof (format_0d_nonempty (Z.to_nat wid) i) as Hne; cbn [itoa_loop];
    (replace (negb _) with false by (symmetry; apply negb_false_iff, andb_true_iff; lia));
    (destruct ((10 <=? i) || (1 <? wid)) eqn:Ec;
     [|rewrite orb_false_iff in Ec; rewrite drop_insert_cons, byte_char_digit, format_0d_small by lia; done]);
    (rewrite format_0d_step in Hl, Hf |- * by lia); rewrite length_app in Hl, Hf; cbn [length] in Hl, Hf;
    pose proof (format_0d_nonempty (Z.to_nat wid - 1) (i / 10)); [lia|].
  rewrite Z.quot_div_nonneg by lia. replace (Z.to_nat wid - 1)%nat with (Z.to_nat (wid - 1)) in * by lia.
  rewrite IH; [|by etrans; [apply length_insert|]|mod_lia|lia..].
  replace (S (Z.to_nat (bp - 1))) with (Z.to_nat bp) by lia.
  rewrite drop_insert_cons by lia.
  replace (48 + i - i / 10 * 10) with (48 + i mod 10) by mod_lia.
  rewrite byte_char_digit by mod_lia. by rewrite <- app_assoc.
Qed.

Lemma format_0d_bound w n k :
  0 <= n < 10 ^ Z.of_nat k -> (0 < k)%nat -> (w <= k)%nat -> (length (format_0d w n) <= k)%nat.
Proof.
  intros Hn Hk Hw. unfold format_0d. rewrite length_app, length_replicate.
  pose proof (decimal_length 20 n k Hn Hk). lia.
Qed.

Lemma itoa_eq buf i wid :
  0 <= i < 2 ^ 63 -> wid <= 20 -> itoa i wid buf = (Ret tt, buf ++ format_0d (Z.to_nat wid) i).
Proof.
  intros Hi Hw. unfold itoa, mbind, M_bind, lift.
  assert (length (format_0d (Z.to_nat wid) i) <= 20)%nat.
  { apply format_0d_bound; [|lia|lia]. change (10 ^ Z.of_nat 20) with 100000000000000000000. lia. }
  rewrite itoa_loop_spec; [|done|lia..]. unfold append, modify. cbn [Z.to_nat]. do 2 f_equal.
  by rewrite drop_ge, app_nil_r by (rewrite length_replicate; lia).
Qed.

(** ** Lemmas: the calendar *)

Lemma year_and_day_bounds day : 0 <= day < era_days ->
  0 <= (year_and_day day).1 < 400 /\ 0 <= (year_and_day day).2 <= 365.
Proof.
  unfold era_days, year_and_day. intros H. cbn [fst snd].
  set (c := Z.min 3 (day / 36524)).
  assert (0 <= c <= 3 /\ 0 <= day - 36524 * c <= 36524) as [Hc Hd] by (subst c; mod_lia).
  set (d := day - 36524 * c) in *. clearbody c d.
  assert (0 <= d / 1461 <= 24 /\ 0 <= d - 1461 * (d / 1461) <= 1460) as [Hq He] by mod_lia.
  set (e := d - 1461 * (d / 1461)) in *. clearbody e. mod_lia.
Qed.

Lemma month_and_day_bounds day : 0 <= day <= 365 ->
  1 <= (month_and_day day).1 <= 12 /\ 1 <= (month_and_day day).2 <= 31.
Proof.
  unfold month_and_day. intros H. cbn [fst snd].
  assert (0 <= (5 * day + 2) / 153 <= 11) by mod_lia. destruct (_ <? 10) eqn:E; mod_lia.
Qed.

(** The date of a time: a month, a day of the month and a year near the number
    of seconds. *)
Lemma Date_bounds t y m d : Time_Date t = (y, m, d) ->
  1 <= m <= 12 /\ 1 <= d <= 31.
Proof.
  unfold Time_Date. set (z := _ + 719468).
  pose proof (year_and_day_bounds (z mod era_days) ltac:(apply Z.mod_pos_bound; done)) as [_ Hd].
  destruct (year_and_day _) as [y' d']. cbn [snd] in Hd.
  pose proof (month_and_day_bounds d' Hd) as Hm. destruct (month_and_day d'). intros [= <- <- <-]. exact Hm.
Qed.

Lemma Clock_bounds t h m s : Time_Clock t = (h, m, s) -> 0 <= h < 24 /\ 0 <= m < 60 /\ 0 <= s < 60.
Proof.
  unfold Time_Clock. pose proof (Z.mod_pos_bound (wall_seconds t) 86400 eq_refl) as H.
  set (x := _ mod 86400) in *. clearbody x. intros [= <- <- <-]. mod_lia.
Qed.

Lemma Nanosecond_bounds t : 0 <= Time_Nanosecond t < 1000000000.
Proof. by apply Z.mod_pos_bound. Qed.

(** ** Lemmas: the header *)

(** [m] appends [x] to the buffer. *)
Definition appends (m : M text unit) (x : text) : Prop := forall buf, m buf = (Ret tt, buf ++ x).

Lemma appends_append x : appends (append x) x.
Proof. by intros buf. Qed.
Lemma appends_seq m m' x y : appends m x -> appends m' y -> appends (m;; m') (x ++ y).
Proof. intros H H' buf. unfold mbind, M_bind. by rewrite H, H', app_assoc. Qed.
Lemma appends_when (b : bool) m x : (b = true -> appends m x) -> appends (when b m) (if b then x else []).
Proof. destruct b; intros H; [by apply H|]. intros buf. by rewrite app_nil_r. Qed.
Lemma appends_unless (b : bool) m x : appends m x -> appends (when (negb b) m) (if b then [] else x).
Proof. destruct b; intros H; [|by apply H]. intros buf. by rewrite app_nil_r. Qed.
Lemma appends_itoa i wid : 0 <= i < 2 ^ 63 -> wid <= 20 -> appends (itoa i wid) (format_0d (Z.to_nat wid) i).
Proof. intros Hi Hw buf. by apply itoa_eq. Qed.
Create HintDb appends discriminated.
#[export] Hint Resolve appends_append appends_seq appends_when appends_itoa : appends.

(** The date, the time of day and the place of a line. *)
Definition date_text (t : Time) : text :=
  let '(y, m, d) := Time_Date t in
  format_0d 4 y ++ chars "/" ++ format_0d 2 m ++ chars "/" ++ format_0d 2 d ++ chars " ".
Definition time_text (t : Time) (micro : bool) : text :=
  let '(h, m, s) := Time_Clock t in
  format_0d 2 h ++ chars ":" ++ format_0d 2 m ++ chars ":" ++ format_0d 2 s ++
  (if micro then chars "." ++ format_0d 6 (Time_Nanosecond t / 1000) else []) ++ chars " ".
Definition place_text (file : text) (line : Z) : text := file ++ chars ":" ++ format_0d 0 line ++ chars ": ".

(** The header as the documentation of the flags has it. *)
Definition header_ref (t : Time) (prefix : text) (flag : Z) (file : text) (line : Z) : text :=
  let has := has_flag flag in
  let t := if has LUTC then Time_UTC t else t in
  let file := if has Lshortfile then short_name (length file - 1) file else file in
  (if has Lmsgprefix then [] else prefix) ++
  (if has Ldate then date_text t else []) ++
  (if has (Z.lor Ltime Lmicroseconds) then time_text t (has Lmicroseconds) else []) ++
  (if has (Z.lor Lshortfile Llongfile) then place_text file line else []) ++
  (if has Lmsgprefix then prefix else []).

(** The year of a time is one that [Date] can print. *)
Definition year_ok (t : Time) : Prop := 0 <= (Time_Date t).1.1 < 2 ^ 63.

Lemma appends_date t : year_ok t ->
  appends (let '(year, month, day) := Time_Date t in
    itoa year 4;; append (chars "/");; itoa month 2;; append (chars "/");; itoa day 2;; append (chars " "))
    (date_text t).
Proof.
  unfold year_ok, date_text. pose proof (Date_bounds t) as H. destruct (Time_Date t) as [[y m] d].
  destruct (H _ _ _ eq_refl). cbn [fst]. intros Hy.
  apply appends_seq; [apply (appends_itoa y 4); lia|]. apply appends_seq; [apply appends_append|].
  apply appends_seq; [apply (appends_itoa m 2); lia|]. apply appends_seq; [apply appends_append|].
  apply appends_seq; [apply (appends_itoa d 2); lia|apply appends_append].
Qed.

Lemma appends_time t micro :
  appends (let '(hour, min, sec) := Time_Clock t in
    itoa hour 2;; append (chars ":");; itoa min 2;; append (chars ":");; itoa sec 2;;
    when micro (append (chars ".");; itoa (Z.quot (Time_Nanosecond t) 1000) 6);; append (chars " "))
    (time_text t micro).
Proof.
  unfold time_text. pose proof (Clock_bounds t) as H. pose proof (Nanosecond_bounds t) as Hn.
  destruct (Time_Clock t) as [[h m] s]. destruct (H _ _ _ eq_refl) as (Hh & Hm & Hs).
  apply appends_seq; [apply (appends_itoa h 2); lia|]. apply appends_seq; [apply appends_append|].
  apply appends_seq; [apply (appends_itoa m 2); lia|]. apply appends_seq; [apply appends_append|].
  apply appends_seq; [apply (appends_itoa s 2); lia|].
  apply appends_seq; [apply appends_when; intros _|apply appends_append].
  rewrite Z.quot_div_nonneg by lia.
  apply appends_seq; [apply appends_append|apply (appends_itoa _ 6); [mod_lia|lia]].
Qed.

Lemma appends_ext m x y : appends m x -> x = y -> appends m y.
Proof. by intros H <-. Qed.

Lemma has_flag_lor flag a b : has_flag flag (Z.lor a b) = has_flag flag a || has_flag flag b.
Proof.
  unfold has_flag. rewrite Z.land_lor_distr_r.
  destruct (Z.eqb_spec (Z.lor (Z.land flag a) (Z.land flag b)) 0) as [[-> ->]%Z.lor_eq_0_iff|H]; [done|].
  symmetry. apply orb_true_iff. rewrite !negb_true_iff, !Z.eqb_neq.
  destruct (decide (Z.land flag a = 0)) as [E1|]; [|by left].
  right. intros E2. by apply H, Z.lor_eq_0_iff.
Qed.

(** The header is the one its documentation describes, whatever the flags. *)
Lemma formatHeader_appends t prefix flag file line :
  year_ok (if has_flag flag LUTC then Time_UTC t else t) -> 0 <= line < 2 ^ 63 ->
  appends (formatHeader t prefix flag file line) (header_ref t prefix flag file line).
Proof.
  intros Hy Hl. unfold formatHeader, header_ref. rewrite !has_flag_lor.
  set (u := if has_flag flag LUTC then _ else _) in *.
  apply appends_seq; [apply appends_unless, appends_append|].
  eapply appends_ext.
  - apply appends_seq; [apply appends_when; intros _; apply appends_seq; apply appends_when; intros _;
      [by apply appends_date|apply appends_time]|].
    apply appends_seq; apply appends_when; intros _; [|apply appends_append].
    apply appends_seq; [apply appends_append|]. apply appends_seq; [apply appends_append|].
    apply appends_seq; [by apply appends_itoa|apply appends_append].
  - unfold place_text. by destruct (has_flag flag Ldate), (has_flag flag Ltime), (has_flag flag Lmicroseconds);
      cbn [orb app]; rewrite <- ?app_assoc.
Qed.

Lemma header_text_eq t prefix flag file line :
  year_ok (if has_flag flag LUTC then Time_UTC t else t) -> 0 <= line < 2 ^ 63 ->
  header_text t prefix flag file line = Ret (header_ref t prefix flag file line).
Proof. intros Hy Hl. unfold header_text. by rewrite formatHeader_appends. Qed.

(** The base name is what follows the last slash that is not the first
    character. *)
Lemma short_name_base dir base :
  dir <> [] -> Forall (fun c => Ascii.eqb c "/" = false) base ->
  short_name (length (dir ++ "/"%char :: base) - 1) (dir ++ "/"%char :: base) = base.
Proof.
  intros Hd Hb. rewrite length_app. cbn [length].
  replace (length dir + S (length base) - 1)%nat with (length dir + length base)%nat by lia.
  assert (forall n, (n <= length base)%nat ->
    short_name (length dir + n) (dir ++ "/"%char :: base) = base) as H; [|by apply H].
  induction n as [|n IH]; intros Hn.
  - rewrite Nat.add_0_r. destruct (length dir) as [|k] eqn:E; [by destruct dir|]. cbn [short_name].
    rewrite <- E, list_lookup_middle by done. cbn [Ascii.eqb].
    replace (S (length dir)) with (length (dir ++ ["/"%char])) by (rewrite length_app; cbn; lia).
    rewrite (cons_middle _ dir base), (app_assoc dir). apply drop_app_length.
  - rewrite Nat.add_succ_r. cbn [short_name].
    destruct ((dir ++ "/"%char :: base) !! S (length dir + n)) as [c|] eqn:E; [|apply IH; lia].
    rewrite lookup_app_r in E by lia. replace (S (length dir + n) - length dir)%nat with (S n) in E by lia.
    cbn in E. rewrite Forall_lookup in Hb. rewrite (Hb _ _ E). apply IH. lia.
Qed.

(** ** Lemmas: lines *)

Section lines.
Context (here : Frame) (now : Writes -> Time) (write_err : Writes -> option error).
Context {any : Type} (Sprint Sprintln : list any -> text) (Sprintf : text -> list any -> text).
Context (any_of_error : error -> any).

(** The calls of a [Logger]. *)
Inductive log_call : Type :=
| CDebug (v : list any) | CFatal (err : error) (v : list any) | CError (err : error) (v : list any)
| CWarning (v : list any) | CInfo (v : list any)
| CDebugf (format : text) (v : list any) | CFatalf (err : error) (format : text) (v : list any)
| CErrorf (err : error) (format : text) (v : list any)
| CWarningf (format : text) (v : list any) | CInfof (format : text) (v : list any).

Definition call (c : log_call) (l : DefaultLogger) (callers : list Frame) : M Writes unit :=
  match c with
  | CDebug v => LogDebug here now write_err Sprintln l callers v
  | CFatal err v => LogFatal here now write_err Sprint Sprintln any_of_error l callers err v
  | CError err v => LogError here now write_err Sprint Sprintln any_of_error l callers err v
  | CWarning v => LogWarning here now write_err Sprintln l callers v
  | CInfo v => LogInfo here now write_err Sprint l callers v
  | CDebugf format v => LogDebugf here now write_err Sprintf l callers format v
  | CFatalf err format v => LogFatalf here now write_err Sprint Sprintf any_of_error l callers err format v
  | CErrorf err format v => LogErrorf here now write_err Sprint Sprintf any_of_error l callers err format v
  | CWarningf format v => LogWarningf here now write_err Sprintf l callers format v
  | CInfof format v => LogInfof here now write_err Sprintf l callers format v
  end.

(** What the documentation of the logger promises: the level, the prefix and
    the texts of a call. *)
Definition call_level (c : log_call) : LogLevel :=
  match c with
  | CDebug _ | CDebugf _ _ => LevelDebug
  | CFatal _ _ | CFatalf _ _ _ => LevelFatal
  | CError _ _ | CErrorf _ _ _ => LevelError
  | CWarning _ | CWarningf _ _ => LevelWarning
  | CInfo _ | CInfof _ _ => LevelInfo
  end.
Definition call_prefix (c : log_call) : text :=
  match c with
  | CDebug _ | CDebugf _ _ => chars "DEBUG: "
  | CFatal _ _ | CFatalf _ _ _ => chars "FATAL: "
  | CError _ _ | CErrorf _ _ _ => chars "ERROR: "
  | CWarning _ | CWarningf _ _ => chars "WARN: "
  | CInfo _ | CInfof _ _ => chars "INFO: "
  end.
Definition call_texts (c : log_call) : list text :=
  match c with
  | CDebug v | CWarning v => [Sprintln v]
  | CInfo v => [Sprint v]
  | CFatal err v | CError err v => [Sprint [any_of_error err]; Sprintln v]
  | CDebugf format v | CWarningf format v | CInfof format v => [Sprintf format v]
  | CFatalf err format v | CErrorf err format v => [Sprint [any_of_error err]; Sprintf format v]
  end.

(** A line: the prefix, the date and the time, the base name and the line of
    the caller, the text, and a newline unless the text ends with one. *)
Definition line_text (t : Time) (prefix : text) (frame : Frame) (s : text) : text :=
  let buf := prefix ++ date_text t ++ time_text t false ++
    place_text (short_name (length frame.1 - 1) frame.1) frame.2 ++ s in
  if terminated buf then buf else buf ++ [newline].
Definition add_line (w : Writer) (prefix : text) (frame : Frame) (s : Writes) (x : text) : Writes :=
  s ++ [(w, line_text (now s) prefix frame x)].
Definition add_lines (w : Writer) (prefix : text) (frame : Frame) (texts : list text) (s : Writes) : Writes :=
  fold_left (add_line w prefix frame) texts s.

Lemma output_line w prefix callers s st frame n :
  w <> Discard -> year_ok (now st) -> 0 <= frame.2 < 2 ^ 63 -> (here :: callers) !! n = Some frame ->
  ignore (output here now write_err (NewStdLogger w prefix standard_flags) n callers s) st
  = (Ret tt, add_line w prefix frame st s).
Proof.
  intros Hw Hy Hl Hf. unfold ignore, output, attempt_err, gets, lift, writer_Write, mbind, M_bind.
  cbn [NewStdLogger SetFlags SetPrefix SetOutput isDiscard]. rewrite bool_decide_eq_false_2 by done.
  change (Flags (NewStdLogger w prefix standard_flags)) with standard_flags.
  change (has_flag standard_flags (Z.lor Lshortfile Llongfile)) with true. cbv iota. rewrite Hf. cbn [default].
  rewrite header_text_eq by done. unfold add_line, line_text, header_ref.
  change (Prefix (NewStdLogger w prefix standard_flags)) with prefix.
  change (has_flag standard_flags LUTC) with false. change (has_flag standard_flags Lshortfile) with true.
  change (has_flag standard_flags Lmsgprefix) with false. change (has_flag standard_flags Ldate) with true.
  change (has_flag standard_flags (Z.lor Ltime Lmicroseconds)) with true.
  change (has_flag standard_flags Lmicroseconds) with false.
  change (has_flag standard_flags (Z.lor Lshortfile Llongfile)) with true. cbv iota.
  rewrite app_nil_r, <- !app_assoc. cbn [out NewStdLogger SetFlags SetPrefix SetOutput].
  by destruct (write_err st).
Qed.

Lemma call_lines w owned k c frame rest st :
  w <> Discard -> 0 <= k <= 5 -> (forall st, year_ok (now st)) -> 0 <= frame.2 < 2 ^ 63 ->
  call c (SetLevel k (loggers_on w owned)) (frame :: rest) st
  = (Ret tt, if call_level c <=? k then add_lines w (call_prefix c) frame (call_texts c) st else st).
Proof.
  intros Hw Hk Hy Hf.
  assert (level (SetLevel k (loggers_on w owned)) = k) as Hlevel.
  { cbn. unfold wraps. rewrite Z.mod_small; lia. }
  assert (forall m x, (forall st, m st = (Ret tt, x st)) -> forall lv,
    gated lv (SetLevel k (loggers_on w owned)) m st = (Ret tt, if lv <=? k then x st else st)) as Hg.
  { intros m x H lv. unfold gated. rewrite Hlevel. destruct (lv <=? k); [apply H|done]. }
  assert (forall p s st, ignore (output here now write_err (NewStdLogger w p standard_flags) 3
      (here :: here :: frame :: rest) s) st = (Ret tt, add_line w p frame st s)) as Ho
    by (intros; by apply output_line).
  destruct c; cbn [call]; unfold LogDebug, LogFatal, LogError, LogWarning, LogInfo, LogDebugf, LogFatalf,
    LogErrorf, LogWarningf, LogInfof; (apply (Hg _ (add_lines w _ frame _)); intros st';
    cbn [SetLevel loggers_on ogDebugLogger ogFatalLogger ogErrLogger ogWarnLogger ogInfoLogger];
    unfold Print, Println, Printf, mbind, M_bind; change (depth _) with 3%nat; by rewrite ?Ho).
Qed.

(** The output a logger of [New] writes to. *)
Definition writer_of (output : text) : Writer :=
  if bool_decide (output = chars "stdout") then Stdout else
  if bool_decide (output = chars "stderr") || bool_decide (output = []) then Stderr else LogFile output.

Lemma New_spec lvl output opened l : New lvl output opened = inr l ->
  exists k owned, ParseLevel lvl = inr k /\ 0 <= k <= 5 /\ l = SetLevel k (loggers_on (writer_of output) owned) /\
    level l = k.
Proof.
  unfold New, writer_of. intros H. assert (forall k, ParseLevel lvl = inr k -> 0 <= k <= 5) as Hk.
  { intros k. unfold ParseLevel. repeat case_match; by intros [= <-]. }
  destruct (ParseLevel lvl) as [e|k]; [done|]. specialize (Hk k eq_refl).
  assert (forall w o, level (SetLevel k (loggers_on w o)) = k) as Hl.
  { intros w o. cbn. unfold wraps. rewrite Z.mod_small; lia. }
  repeat case_match; simplify_eq; eauto 10.
Qed.

(** C37. The lines of a logger.  A call writes nothing below the level of the
    logger; at or above it, it writes one line for the error, if it has one,
    and one for its text, each in one write to the output the logger was made
    for, with the prefix of the level, the date and the time, and the file and
    line of the caller, ending in a newline, whatever the writes return. *)
Theorem logging_lines lvl output opened l k c frame rest st :
  New lvl output opened = inr l -> 0 <= k <= 5 -> (forall st, year_ok (now st)) -> 0 <= frame.2 < 2 ^ 63 ->
  ParseLevel lvl = inr (level l) /\
  call c (SetLevel k l) (frame :: rest) st
  = (Ret tt, if call_level c <=? k
             then add_lines (writer_of output) (call_prefix c) frame (call_texts c) st else st).
Proof.
  intros (k0 & owned & Hp & Hk0 & -> & Hl)%New_spec Hk Hy Hf. split; [by rewrite Hl|].
  change (SetLevel k (SetLevel k0 (loggers_on (writer_of output) owned)))
    with (SetLevel k (loggers_on (writer_of output) owned)).
  apply call_lines; [|done..]. unfold writer_of. by repeat case_match.
Qed.
End lines.

(** ** The limiter *)

(** A sequence of calls of [Allow], each with its result. *)
Fixpoint allow_run (calls : list (string * Time)) (limiter : RateLimiter) : list (string * Time * bool) :=
  match calls with
  | [] => []
  | (key, t) :: calls =>
      let '(allowed, limiter) := Allow key t limiter in (key, t, allowed) :: allow_run calls limiter
  end.

(** What the limiter remembers after the calls [tr]: for each key the last
    time it was allowed, which is the latest. *)
Definition limiter_inv (d : Z) (tr : list (string * Time * bool)) (limiter : RateLimiter) : Prop :=
  interval limiter = d /\
  (forall key t, r_last limiter !! key = Some t ->
     (key, t, true) ∈ tr /\ forall t', (key, t', true) ∈ tr -> unix t' <= unix t) /\
  (forall key t, r_last limiter !! key = None -> (key, t, true) ∉ tr).

(** The calls of a trace are apart, and the refused ones too close. *)
Definition limited (d : Z) (tr : list (string * Time * bool)) : Prop :=
  forall j key t b, tr !! j = Some (key, t, b) ->
    if b : bool
    then forall i t', (i < j)%nat -> tr !! i = Some (key, t', true) -> unix t' + d <= unix t
    else exists i t', (i < j)%nat /\ tr !! i = Some (key, t', true) /\ Time_Sub t t' < d.

Lemma limited_snoc d tr key t (b : bool) :
  limited d tr ->
  (if b then forall t', (key, t', true) ∈ tr -> unix t' + d <= unix t
   else exists t', (key, t', true) ∈ tr /\ Time_Sub t t' < d) ->
  limited d (tr ++ [(key, t, b)]).
Proof.
  intros H Hn j key' t' b' Hj.
  assert (forall i x, (i < length tr)%nat -> (tr ++ [(key, t, b)]) !! i = Some x -> tr !! i = Some x) as Hl
    by (intros i x Hi E; by rewrite lookup_app_l in E).
  apply lookup_app_Some in Hj as [Hj|[Hj E]].
  - pose proof (lookup_lt_Some _ _ _ Hj). specialize (H j key' t' b' Hj). destruct b'.
    + intros i t0 Hi E. eapply H; [done|]. apply Hl; [lia|done].
    + destruct H as (i & t0 & Hi & E & Hs). exists i, t0. split_and!; [done| |done].
      rewrite lookup_app_l; [done|lia].
  - apply list_lookup_singleton_Some in E as [E1 [= <- <- <-]]. destruct b.
    + intros i t0 Hi E. apply Hn, list_elem_of_lookup. exists i. apply Hl; [lia|done].
    + destruct Hn as (t0 & (i & E)%list_elem_of_lookup & Hs). exists i, t0.
      pose proof (lookup_lt_Some _ _ _ E). split_and!; [lia| |done]. rewrite lookup_app_l; [done|lia].
Qed.

Lemma Time_Sub_ge t u d : 0 < d -> d <= Time_Sub t u -> unix u + d <= unix t.
Proof. unfold Time_Sub. lia. Qed.

Lemma Allow_inv d tr limiter key t b limiter' :
  0 < d -> limiter_inv d tr limiter -> limited d tr -> Allow key t limiter = (b, limiter') ->
  limiter_inv d (tr ++ [(key, t, b)]) limiter' /\ limited d (tr ++ [(key, t, b)]).
Proof.
  intros Hd (Hi & Hs & Hn) Hl. unfold Allow.
  assert (forall t0, (forall t', (key, t', true) ∈ tr -> unix t' <= unix t) -> t0 = t ->
    limiter_inv d (tr ++ [(key, t, true)]) (mkRateLimiter (interval limiter) (<[key := t]> (r_last limiter)))) as Hset.
  { intros t0 Hmax ->. split; [done|]. cbn. split.
    - intros k u [[<- <-]|[Hne Hk]]%lookup_insert_Some.
      + split; [set_solver|]. intros t'. rewrite elem_of_app, list_elem_of_singleton.
        intros [H|[= <-]]; [by apply Hmax|lia].
      + destruct (Hs _ _ Hk) as [H1 H2]. split; [set_solver|]. intros t'.
        rewrite elem_of_app, list_elem_of_singleton. intros [H|[= <- <-]]; [by apply H2|done].
    - intros k u [Hk Hne]%lookup_insert_None. rewrite elem_of_app, list_elem_of_singleton.
      intros [H|[= <- <-]]; [by eapply Hn|done]. }
  destruct (r_last limiter !! key) as [last|] eqn:E.
  - destruct (Hs _ _ E) as [Hin Hmax]. destruct (Time_Sub t last <? interval limiter) eqn:Es; intros [= <- <-].
    + split; [|apply limited_snoc; [done|]; exists last; split; [done|lia]].
      split; [done|]. split.
      * intros k u Hk. destruct (Hs _ _ Hk) as [H1 H2]. split; [set_solver|]. intros t'.
        rewrite elem_of_app, list_elem_of_singleton. intros [H|[=]]. by apply H2.
      * intros k u Hk. rewrite elem_of_app, list_elem_of_singleton. intros [H|[=]]. by eapply Hn.
    + apply Z.ltb_ge in Es. rewrite Hi in Es. apply Time_Sub_ge in Es; [|done].
      split; [apply (Hset t); [|done]; intros t' Ht; specialize (Hmax _ Ht); lia|].
      apply limited_snoc; [done|]. intros t' Ht. specialize (Hmax _ Ht). lia.
  - intros [= <- <-]. split; [apply (Hset t); [|done]|apply limited_snoc; [done|]];
      intros t' Ht; by destruct (Hn key t' E).
Qed.

Lemma allow_run_inv d calls : forall tr limiter,
  0 < d -> limiter_inv d tr limiter -> limited d tr -> limited d (tr ++ allow_run calls limiter).
Proof.
  induction calls as [|[key t] calls IH]; intros tr limiter Hd Hi Hl; cbn [allow_run]; [by rewrite app_nil_r|].
  destruct (Allow key t limiter) as [b limiter'] eqn:E.
  destruct (Allow_inv d tr limiter key t b limiter' Hd Hi Hl E) as [Hi' Hl'].
  rewrite cons_middle, app_assoc. by apply IH.
Qed.

(** C39. The limiter.  In every sequence of calls, in any order of their times,
    two allowed calls with the same key are at least the interval apart, and a
    call is refused only when an earlier call with its key was allowed less
    than the interval before it: the keys do not disturb each other. *)
Theorem limiter_spacing d limiter calls :
  NewRateLimiter d = inr limiter -> limited d (allow_run calls limiter) /\
  (allow_run calls limiter).*1 = calls.
Proof.
  unfold NewRateLimiter. destruct (Z.leb_spec d 0); [done|]. intros [= <-]. split.
  - apply (allow_run_inv d calls []); [done| |done]. split; [done|]. cbn.
    split; intros key t; rewrite lookup_empty; [done|]. intros _. apply not_elem_of_nil.
  - generalize (mkRateLimiter d ∅). induction calls as [|[key t] calls IH]; intros l; [done|].
    cbn. destruct (Allow key t l). cbn. by rewrite IH.
Qed.

(** ** The configured logger *)

(** Every accepted configuration gives a logger: the level that validation
    accepts is one that [ParseLevel] knows, so [New] fails only when the output
    file cannot be opened. *)
Lemma configured_logger c s opened :
  NewConfigSnapshot c = inr s ->
  let level := chars (Level (Logging (config s))) in
  let output := chars (Output (Logging (config s))) in
  (exists l, New level output opened = inr l) \/
  (exists e, opened = Some e /\ New level output opened = inl (ErrWrap "open log output" e)).
Proof.
  intros H. assert (validateLogging (Logging (config s)) = None) as [Hl _]%validateLogging_None.
  { revert H. unfold NewConfigSnapshot. destruct (validateConfig _) eqn:E; [done|]. intros [= <-]. cbn.
    unfold validateConfig in E. rewrite !orelse_None in E. tauto. }
  cbn zeta. set (lv := chars (Level _)) in *. set (out := chars (Output _)).
  assert (exists k, ParseLevel lv = inr k) as [k Hk].
  { unfold ParseLevel. cbn [map] in Hl. repeat setoid_rewrite elem_of_cons in Hl. rewrite elem_of_nil in Hl.
    destruct Hl as [->|[->|[->|[->|[->|[]]]]]]; by eexists. }
  unfold New. rewrite Hk. destruct (bool_decide _); [eauto|]. destruct (_ || _); [eauto|]. destruct opened; eauto.
Qed.

(** ** Concrete runs *)

Definition sample_time : Time := mkTime (1767225599 * 1000000000) 3600.
Definition sample_frame : Frame := (chars "/src/cmd/main.go", 42).
Definition sample_here : Frame := (chars "/src/logging/logging.go", 1).
Definition sample_call (c : log_call (any := text)) : DefaultLogger -> list Frame -> M Writes unit :=
  call sample_here (fun _ => sample_time) (fun _ => None) (@concat Ascii.ascii)
    (fun v => concat v ++ [newline]) (fun format v => format ++ concat v) (fun _ => chars "broken") c.

Example line_1 :
  exists l, New (chars "Info") (chars "stdout") None = inr l /\
    sample_call (CInfo [chars "ready"]) l [sample_frame] []
    = (Ret tt, [(Stdout, chars "INFO: 2026/01/01 00:59:59 main.go:42: ready" ++ [newline])]).
Proof. exists (SetLevel LevelInfo (loggers_on Stdout None)). split; by vm_compute. Qed.

Lemma sample_year st : year_ok ((fun _ : Writes => sample_time) st).
Proof. unfold year_ok. change (Time_Date _) with (2026, 1, 1). cbn. lia. Qed.

Lemma logging_lines_witness :
  exists l, New (chars "error") (chars "stderr") None = inr l /\
    ParseLevel (chars "error") = inr (level l) /\
    sample_call (CError (ErrText "broken") [chars "late"]) (SetLevel LevelError l) [sample_frame] []
    = (Ret tt, add_lines (fun _ => sample_time) Stderr (chars "ERROR: ") sample_frame
                 [chars "broken"; chars "late" ++ [newline]] []).
Proof.
  destruct (New (chars "error") (chars "stderr") None) as [e|l] eqn:E; [discriminate E|].
  exists l. split; [reflexivity|].
  apply (logging_lines sample_here (fun _ => sample_time) (fun _ => None) (@concat Ascii.ascii)
    (fun v => concat v ++ [newline]) (fun format v => format ++ concat v) (fun _ => chars "broken")
    (chars "error") (chars "stderr") None l LevelError (CError (ErrText "broken") [chars "late"]) sample_frame [] []).
  - exact E.
  - unfold LevelError. lia.
  - exact sample_year.
  - cbn. lia.
Defined.

(** The functions of the package pass the depth of the methods: the line names
    the caller of their caller. *)
Example package_call_site user user2 :
  let std := SetFlags Lshortfile (NewStdLogger Stderr [] 3) in
  user = (chars "/src/user.go", 7) -> user2 = (chars "/src/outer.go", 8) ->
  std_Print sample_here (fun _ => sample_time) (fun _ => None) (@concat Ascii.ascii) std [user; user2] [chars "x"] []
  = (Ret tt, [(Stderr, chars "outer.go:8: x" ++ [newline])]).
Proof. intros std -> ->. by vm_compute. Qed.

Definition at_second (n : Z) : Time := mkTime (n * 1000000000) 0.
Definition sample_calls : list (string * Time) :=
  [("malformed"%string, at_second 100); ("malformed"%string, at_second 100); ("queue-full"%string, at_second 100);
   ("malformed"%string, at_second 159); ("malformed"%string, at_second 160)].

Example limiter_1 : allow_run sample_calls (mkRateLimiter time_Minute ∅) =
  zip sample_calls [true; false; true; false; true].
Proof. by vm_compute. Qed.

Lemma limiter_spacing_witness :
  NewRateLimiter time_Minute = inr (mkRateLimiter time_Minute ∅) /\
  limited time_Minute (allow_run sample_calls (mkRateLimiter time_Minute ∅)) /\
  (allow_run sample_calls (mkRateLimiter time_Minute ∅)).*1 = sample_calls.
Proof.
  split; [reflexivity|]. by apply (limiter_spacing time_Minute (mkRateLimiter time_Minute ∅) sample_calls).
Defined.
