(* ===== verification/LogPool.v ===== *)
(** * Buffers and the standard logger

    The rest of [src/logging/logging.go]: the pool that saves the buffers of
    the lines, with the bytes of earlier lines still in their arrays, and the
    functions of the package, which work on the one standard logger. *)

From S2P Require Import Prelude GoRuntime GoStrings Logging.
Open Scope Z_scope.

(** ** Buffers *)

(** A slice of bytes: its array, as long as its capacity, and its length. *)
Record Buffer : Type := mkBuffer { barray : text; blen : nat }.
Definition contents (b : Buffer) : text := take (blen b) (barray b).
Definition zero_char : Ascii.ascii := Ascii.zero.

(** [append(b, s...)]: in place when the capacity suffices; a new array is
    at least as long as needed. *)
Definition buffer_append (spare : nat) (s : text) (b : Buffer) : Buffer :=
  let n := (blen b + length s)%nat in
  mkBuffer (contents b ++ s ++
            if (n <=? length (barray b))%nat then drop n (barray b) else replicate spare zero_char) n.

(** [src/logging/logging.go:355-355] bufferPool *)
Definition bufferPool : Type := list Buffer.

(** [src/logging/logging.go:357-361] getBuffer; [pick] is the buffer the pool
    gives, if it does not make a new one *)
Definition getBuffer (pick : option nat) : M bufferPool Buffer := fun pool =>
  match pick with
  | Some i =>
      match pool !! i with
      | Some p => (Ret (mkBuffer (barray p) 0), delete i pool)
      | None => (Ret (mkBuffer [] 0), pool)
      end
  | None => (Ret (mkBuffer [] 0), pool)
  end.

(** [src/logging/logging.go:363-374] putBuffer *)
Definition putBuffer (p : Buffer) : M bufferPool unit :=
  modify (fun pool => pool ++ [if 64 * 1024 <? Z.of_nat (length (barray p)) then mkBuffer [] 0 else p]).

Section pooled.
Context (here : Frame) (now : Writes -> Time) (write_err : Writes -> option error).
(** What the pool gives, and the spare capacity of a new array. *)
Context (pick : option nat) (spare : nat).

Definition on_pool {A} (m : M bufferPool A) : M (Writes * bufferPool) A :=
  zoom snd (fun pool s => (s.1, pool)) m.
Definition on_log {A} (m : M Writes A) : M (Writes * bufferPool) A :=
  zoom fst (fun w s => (w, s.2)) m.
(** [defer putBuffer(buf)] *)
Definition then_put {A} (p : Buffer) (m : M (Writes * bufferPool) A) : M (Writes * bufferPool) A := fun s =>
  let '(r, s) := m s in (r, (on_pool (putBuffer p) s).2).

(** [src/logging/logging.go:391-436] StdLogger.output, with its buffer (the
    parts of the header are appended at once) *)
Definition pooled_output (l : StdLogger) (calldepth : nat) (callers : list Frame) (s : text)
    : M (Writes * bufferPool) unit :=
  if isDiscard l then mret tt else
  t ← on_log (gets now);
  let prefix := Prefix l in
  let flag := Flags l in
  let frame := if has_flag flag (Z.lor Lshortfile Llongfile)
               then default (chars "???", 0) ((here :: callers) !! calldepth) else ([], 0) in
  buf ← on_pool (getBuffer pick);
  match header_text t prefix flag frame.1 frame.2 with
  | Ret header =>
      let buf := buffer_append spare s (buffer_append spare header buf) in
      let buf := if terminated (contents buf) then buf else buffer_append spare [newline] buf in
      then_put buf (on_log (writer_Write write_err (out l) (contents buf)))
  | Fail e => then_put buf (fail e)
  | Panic p => then_put buf (throw p)
  end.
End pooled.

(** ** The functions of the package *)

(** [src/logging/logging.go:279-279] Default *)
Definition Default : M StdLogger StdLogger := get.
(** [src/logging/logging.go:525-527] SetOutput *)
Definition std_SetOutput (w : Writer) : M StdLogger unit := modify (SetOutput w).
(** [src/logging/logging.go:531-533] Flags *)
Definition std_Flags : M StdLogger Z := gets Flags.
(** [src/logging/logging.go:537-539] SetFlags *)
Definition std_SetFlags (flag : Z) : M StdLogger unit := modify (SetFlags flag).
(** [src/logging/logging.go:542-544] Prefix *)
Definition std_Prefix : M StdLogger text := gets Prefix.
(** [src/logging/logging.go:547-549] SetPrefix *)
Definition std_SetPrefix (p : text) : M StdLogger unit := modify (SetPrefix p).
(** [src/logging/logging.go:552-554] Writer *)
Definition std_Writer : M StdLogger Writer := gets StdLogger_Writer.

(** ** Lemmas *)

Definition buffer_ok (b : Buffer) : Prop := (blen b <= length (barray b))%nat.

Lemma append_ok spare s b : buffer_ok b -> buffer_ok (buffer_append spare s b).
Proof.
  unfold buffer_ok, buffer_append, contents. cbn [barray blen]. intros H. rewrite !length_app, length_take. lia.
Qed.

Lemma append_contents spare s b : buffer_ok b -> contents (buffer_append spare s b) = contents b ++ s.
Proof.
  unfold buffer_ok, contents at 1, buffer_append. cbn [barray blen]. intros H.
  assert (length (contents b ++ s) = (blen b + length s)%nat) as E
    by (rewrite length_app; unfold contents; rewrite length_take; lia).
  rewrite app_assoc, <- E. apply take_app_length.
Qed.

(** The pool holds no big buffers. *)
Definition small_buffers (pool : bufferPool) : Prop := Forall (fun b => Z.of_nat (length (barray b)) <= 64 * 1024) pool.

Lemma put_small p pool : small_buffers pool -> small_buffers (putBuffer p pool).2.
Proof.
  intros H. unfold putBuffer, modify. cbn [snd]. apply Forall_app. split; [done|]. apply Forall_singleton.
  destruct (Z.ltb_spec (64 * 1024) (Z.of_nat (length (barray p)))); [by apply Z.leb_le|lia].
Qed.

(** ** Properties *)

(** Saving the buffers is not observable.  Whatever buffers the pool holds,
    with whatever bytes of earlier lines in their arrays, whichever of them it
    gives and however arrays grow: a call of [output] with the pool returns
    what [output] without it returns and makes the same writes, with nothing of
    an earlier line; and no buffer of more than 64 KiB is kept. *)
Theorem pooled_output_same here now write_err pick spare l calldepth callers s writes pool :
  let '(r, (writes', pool')) := pooled_output here now write_err pick spare l calldepth callers s (writes, pool) in
  (r, writes') = Logging.output here now write_err l calldepth callers s writes /\
  (small_buffers pool -> small_buffers pool').
Proof.
  unfold pooled_output, Logging.output. destruct (isDiscard l); [done|].
  unfold mbind, M_bind, on_log at 1, on_pool at 1, zoom, gets, lift. cbn [fst snd].
  set (frame := if has_flag _ _ then _ else _). set (h := header_text _ _ _ _ _).
  assert (exists b pool1, getBuffer pick pool = (Ret b, pool1) /\ buffer_ok b /\ contents b = [] /\
    (small_buffers pool -> small_buffers pool1)) as (b & pool1 & -> & Hok & Hc & Hs).
  { assert (exists b pool1, (Ret (mkBuffer [] 0), pool) = (Ret b, pool1) /\ buffer_ok b /\ contents b = [] /\
      (small_buffers pool -> small_buffers pool1)) as Hnew
      by (exists (mkBuffer [] 0), pool; split_and!; [done|unfold buffer_ok; cbn; lia|done|done]).
    unfold getBuffer. destruct pick as [i|]; [|exact Hnew]. destruct (pool !! i) as [p|]; [|exact Hnew].
    do 2 eexists. split; [done|]. split; [unfold buffer_ok; cbn; lia|]. split; [done|]. intros H. by apply Forall_delete. }
  destruct h as [header|e|q]; cbn [fst snd].
  - set (b1 := buffer_append spare s (buffer_append spare header b)).
    assert (buffer_ok b1) as Hok1 by by do 2 apply append_ok.
    assert (contents b1 = header ++ s) as E1
      by (unfold b1; rewrite !append_contents by (done || by apply append_ok); by rewrite Hc).
    set (b2 := if terminated (contents b1) then _ else _).
    assert (contents b2 = if terminated (header ++ s) then header ++ s else (header ++ s) ++ [newline]) as E2.
    { subst b2. rewrite E1. destruct (terminated (header ++ s)); [exact E1|]. by rewrite append_contents, E1. }
    unfold then_put, on_log, zoom. cbn [fst]. rewrite E2. cbv zeta.
    destruct (writer_Write _ _ _ _) as [r w]. split; [done|]. intros H. by apply put_small, Hs.
  - split; [done|]. intros H. by apply put_small, Hs.
  - split; [done|]. intros H. by apply put_small, Hs.
Qed.

Example stale_buffer :
  let line := chars "secret of an earlier line, quite long enough to be longer than the next" in
  pooled_output sample_here (fun _ => sample_time) (fun _ => None) (Some 0%nat) 8 (NewStdLogger Stderr (chars "a: ") 0) 0 []
    (chars "b") ([], [mkBuffer line (length line)]) =
  (Ret tt, ([(Stderr, chars "a: b" ++ [newline])],
            [mkBuffer (chars "a: b" ++ [newline] ++ drop 5 line) 5])).
Proof. by vm_compute. Qed.
