(* ===== verification/Http.v ===== *)
(** * The HTTP handlers of the plugin

    Model of [src/plugins/http/http-server.go]: the routing of [net/http] on
    paths that need no escaping, the handlers with their status codes and
    bodies, the health of the server, the headers for other origins, the event
    stream, and the goroutine that serves.  Bodies are the values that the JSON
    encoder is given. *)

From S2P Require Import Prelude GoRuntime GoStrings House BinaryData Config DataStream DataEngine Router TcpServer UdpServer Monitor.
From Stdlib Require Import Ascii.
Open Scope Z_scope.

(** ** The core server *)

(** [src/sensor-server/server.go:51-56] ServerCounters *)
Record ServerCounters : Type := mkServerCounters {
  sc_TCP : TCPServerCounters; sc_UDP : UDPServerCounters; sc_Router : RouterCounters;
  sc_DataStreams : list DataStreamSnapshot }.

(** [src/sensor-server/server.go:200-207] Counters; [streams] is what
    [engine.Counters] returns *)
Definition Server_Counters {H H' D U : Type} (tcp : TCPServer H) (udp : UDPServer H') (router : MessageRouter D U)
    (streams : list DataStreamSnapshot) : ServerCounters :=
  mkServerCounters (TcpServer.Counters tcp) (UCounters udp) (Router.Counters router) streams.

(** [src/plugins/http/http-server.go:19-23] CoreServer: what its three methods
    return; [core_done] tells whether the channel of [Done] is closed *)
Record CoreServer : Type := mkCore {
  core_counters : ServerCounters; core_registry : ConfigRegistry; core_done : bool }.

(** [src/plugins/http/http-server.go:34-38] StatusResponse *)
Record StatusResponse : Type := mkStatus { Status : string; Issues : list string; st_Counters : ServerCounters }.

(** [src/plugins/http/http-server.go:231-233] buildStatus, the issue of a
    stream *)
Definition stream_issue (s : DataStreamSnapshot) : string :=
  "data stream " +:+ FloorType_String (DataEngine.floor (sn_key s)) +:+ "/" +:+
  RoomType_String (DataEngine.room (sn_key s)) +:+ "/" +:+
  SensorType_String (sensorType (sn_key s)) +:+ " has write errors or dropped samples".

(** [src/plugins/http/http-server.go:216-241] buildStatus *)
Definition buildStatus (core : CoreServer) : StatusResponse :=
  let counters := core_counters core in
  let issues := if core_done core then ["sensor server is stopped"%string] else [] in
  let issues := if 0 <? DataEngineFailures (sc_Router counters)
                then issues ++ ["sensor data writes have failed"%string] else issues in
  let issues := if 0 <? QuarantineFailures (sc_Router counters)
                then issues ++ ["unknown message quarantine writes have failed"%string] else issues in
  let issues := issues ++ omap (fun s =>
        if (0 <? DataStream.Errors (sn_counters s)) || (0 <? DataStream.Dropped (sn_counters s)) then Some (stream_issue s) else None)
      (sc_DataStreams counters) in
  let issues := merge_sort string_le issues in
  mkStatus (if (0 <? Z.of_nat (length issues)) then "unhealthy" else "healthy") issues counters.

(** ** Requests and responses *)

Definition StatusOK : Z := 200.
Definition StatusNoContent : Z := 204.
Definition StatusBadRequest : Z := 400.
Definition StatusNotFound : Z := 404.
Definition StatusInternalServerError : Z := 500.
Definition StatusServiceUnavailable : Z := 503.

(** The bodies. *)
Inductive body : Type :=
| NoBody
| HealthBody (status : string) (issues : list string)
| StatusBody (s : StatusResponse)
| RoomsBody (rooms : list RoomSnapshot)
| DevicesBody (devices : list DeviceSnapshot)
| DeviceBody (device : DeviceSnapshot)
| ReadingsBody (readings : list Sample)
| ErrorBody (message : string)
| PageNotFound.            (* [http.NotFound] *)

Record response : Type := mkResponse { code : Z; headers : list (string * string); content : body }.

(** What a handler does: a response, a redirect of the multiplexer, or the
    event stream. *)
Inductive reply : Type :=
| Reply (r : response)
| Redirect (path : list Ascii.ascii)
| EventStream.

(** [src/plugins/http/http-server.go:256-260] writeJSON *)
Definition writeJSON (status : Z) (value : body) : response :=
  mkResponse status [("Content-Type", "application/json")%string] value.

(** [src/plugins/http/http-server.go:262-266] writeError (no message has
    spaces around it) *)
Definition writeError (status : Z) (message : string) : response := writeJSON status (ErrorBody message).

Definition NotFound : response :=
  mkResponse StatusNotFound [("Content-Type", "text/plain; charset=utf-8"); ("X-Content-Type-Options", "nosniff")]%string
    PageNotFound.

(** ** The handlers *)

Definition slash : Ascii.ascii := "/".

(** [strings.Trim(s, "/")] *)
Fixpoint trim_left_slashes (l : list Ascii.ascii) : list Ascii.ascii :=
  match l with
  | c :: l' => if Ascii.eqb c slash then trim_left_slashes l' else l
  | [] => []
  end.
Definition trim_slashes (l : list Ascii.ascii) : list Ascii.ascii :=
  rev (trim_left_slashes (rev (trim_left_slashes l))).
Definition path_parts (path : list Ascii.ascii) : list (list Ascii.ascii) := split_on slash (trim_slashes path).

Section handlers.
Context (core : CoreServer) (state : MonitoringState).

Definition current_snapshot : ConfigSnapshot := Router.Snapshot (core_registry core).

(** [src/plugins/http/http-server.go:90-100] newHandler, /health *)
Definition handle_health : response :=
  let status := buildStatus core in
  writeJSON (if bool_decide (Status status = "healthy"%string) then StatusOK else StatusServiceUnavailable)
    (HealthBody (Status status) (Issues status)).

(** [src/plugins/http/http-server.go:101-103] newHandler, /api/v1/status *)
Definition handle_status : response := writeJSON StatusOK (StatusBody (buildStatus core)).

(** [src/plugins/http/http-server.go:107-109] newHandler, /api/v1/rooms *)
Definition handle_rooms : response := writeJSON StatusOK (RoomsBody (Rooms current_snapshot state)).

(** [src/plugins/http/http-server.go:110-130] newHandler, /api/v1/rooms/ *)
Definition handle_room (path : list Ascii.ascii) : response :=
  let parts := path_parts path in
  let part := fun i => default [] (parts !! i) in
  if negb (length parts =? 6)%nat || negb (bool_decide (part 5%nat = chars "devices")) then NotFound else
  let floor := of_chars (part 3%nat) in
  let room := of_chars (part 4%nat) in
  let filtered := filter (fun d => dv_Floor d = floor /\ dv_Room d = room) (Devices current_snapshot state) in
  if (length filtered =? 0)%nat then writeError StatusNotFound "room not found"
  else writeJSON StatusOK (DevicesBody filtered).

(** [src/plugins/http/http-server.go:131-172] newHandler, /api/v1/devices/ *)
Definition handle_device (path : list Ascii.ascii) : res response :=
  let parts := path_parts path in
  let part := fun i => default [] (parts !! i) in
  if negb (length parts =? 4)%nat &&
     (negb (length parts =? 7)%nat || negb (bool_decide (part 4%nat = chars "sensors"))
      || negb (bool_decide (part 6%nat = chars "readings")))
  then Ret NotFound else
  match ParseMACAddress (of_chars (part 3%nat)) with
  | None => Ret (writeError StatusBadRequest "invalid MAC address")
  | Some mac =>
      if (length parts =? 4)%nat then
        match Device current_snapshot mac state with
        | None => Ret (writeError StatusNotFound "device not found")
        | Some device => Ret (writeJSON StatusOK (DeviceBody device))
        end
      else
        match ParseUint 16 (part 5%nat) with
        | None => Ret (writeError StatusBadRequest "invalid sensor ID")
        | Some sensorID =>
            if sensorID =? 0 then Ret (writeError StatusBadRequest "invalid sensor ID") else
            match snapshot_Device current_snapshot mac with
            | None => Ret (writeError StatusNotFound "device not found")
            | Some _ =>
                let sensorType := ToSensorType (u16 sensorID) in
                match snapshot_Sensor current_snapshot sensorType with
                | None => Ret (writeError StatusNotFound "sensor not found")
                | Some _ =>
                    match Readings mac sensorType state with
                    | Ret readings => Ret (writeJSON StatusOK (ReadingsBody (default [] readings)))
                    | Fail e => Fail e
                    | Panic p => Panic p
                    end
                end
            end
        end
  end.

(** [src/plugins/http/http-server.go:176-181] handleEvents, before the loop *)
Definition handle_events (flusher : bool) : reply :=
  if flusher then EventStream
  else Reply (writeError StatusInternalServerError "streaming is unsupported").

(** ** The multiplexer *)

Fixpoint join_parts (parts : list (list Ascii.ascii)) : list Ascii.ascii :=
  match parts with
  | [] => []
  | p :: parts => slash :: p ++ join_parts parts
  end.

(** The path that [net/http] cleans a path to: rooted, without empty parts,
    [.] and [..], with the slash at its end kept. *)
Definition cleanPath (p : list Ascii.ascii) : list Ascii.ascii :=
  let parts := rev (clean_parts true [] (split_on slash p)) in
  match parts with
  | [] => [slash]
  | _ => join_parts parts ++ (if bool_decide (last p = Some slash) then [slash] else [])
  end.

Definition reply_of (r : res response) : res reply :=
  match r with Ret r => Ret (Reply r) | Fail e => Fail e | Panic p => Panic p end.

(** [src/plugins/http/http-server.go:88-174] newHandler: the patterns in the
    order of [http.ServeMux], an exact one before a subtree, the root of a
    subtree without its slash and unclean paths redirected *)
Definition newHandler (flusher : bool) (path : list Ascii.ascii) : res reply :=
  let at_path := fun p : string => bool_decide (path = chars p) in
  let under := fun p : string => has_prefix path (chars p) in
  if negb (bool_decide (cleanPath path = path)) then Ret (Redirect (cleanPath path)) else
  if at_path "/health"%string then Ret (Reply handle_health) else
  if at_path "/api/v1/status"%string then Ret (Reply handle_status) else
  if at_path "/api/v1/events"%string then Ret (handle_events flusher) else
  if at_path "/api/v1/rooms"%string then Ret (Reply handle_rooms) else
  if under "/api/v1/rooms/"%string then Ret (Reply (handle_room path)) else
  if under "/api/v1/devices/"%string then reply_of (handle_device path) else
  if at_path "/api/v1/devices"%string then Ret (Redirect (path ++ [slash])) else
  Ret (Reply NotFound).

(** [src/plugins/http/http-server.go:243-254] corsHandler; the headers come
    before those of the handler *)
Definition cors_headers : list (string * string) :=
  [("Access-Control-Allow-Origin", "*"); ("Access-Control-Allow-Methods", "GET, OPTIONS");
   ("Access-Control-Allow-Headers", "Content-Type")]%string.

Definition corsHandler (method : string) (flusher : bool) (path : list Ascii.ascii)
    : list (string * string) * res reply :=
  (cors_headers,
   if bool_decide (method = "OPTIONS"%string) then Ret (Reply (mkResponse StatusNoContent [] NoBody))
   else newHandler flusher path).
End handlers.

(** ** The event stream *)

(** What happens during a stream: the server publishes an event, or the loop
    of [handleEvents] takes an event of the subscription or the heartbeat, each
    with the result of the write, or finds one of the three contexts done. *)
Inductive stream_input : Type :=
| Publishes (e : Event)
| NextEvent (written : bool)
| Heartbeat (written : bool)
| StreamDone.

(** What the handler writes. *)
Inductive frame : Type :=
| Preamble
| EventFrame (e : Event)
| HeartbeatFrame.

Definition frame_bytes (f : frame) : list byte :=
  match f with
  | Preamble => string_bytes ": connected" ++ [Byte.x0a] ++ string_bytes "retry: 5000" ++ [Byte.x0a; Byte.x0a]
  | EventFrame e =>
      string_bytes "event: " ++ string_bytes (Name e) ++ [Byte.x0a] ++
      string_bytes "data: " ++ Data e ++ [Byte.x0a; Byte.x0a]
  | HeartbeatFrame => string_bytes ": heartbeat" ++ [Byte.x0a; Byte.x0a]
  end.

(** [src/plugins/http/http-server.go:194-213] handleEvents, the loop: the
    frames written and flushed, and whether it has returned; an event is
    received only when the subscription has one *)
Fixpoint events_loop (id : Z) (ins : list stream_input) (hub : eventHub) : list frame * bool * eventHub :=
  match ins with
  | [] => ([], false, hub)
  | Publishes e :: ins => events_loop id ins (publish_event e hub)
  | StreamDone :: _ => ([], true, hub)
  | Heartbeat written :: ins =>
      if written
      then let '(frames, ended, hub) := events_loop id ins hub in (HeartbeatFrame :: frames, ended, hub)
      else ([], true, hub)
  | NextEvent written :: ins =>
      match receive id hub with
      | (None, hub) => events_loop id ins hub
      | (Some e, hub) =>
          if written
          then let '(frames, ended, hub) := events_loop id ins hub in (EventFrame e :: frames, ended, hub)
          else ([], true, hub)
      end
  end.

(** [src/plugins/http/http-server.go:176-214] handleEvents, with a flusher:
    the subscription, the first frame, the loop, and the end of the
    subscription when it returns *)
Definition handleEvents (ins : list stream_input) (hub : eventHub) : list frame * bool * eventHub :=
  let '(id, hub) := Subscribe hub in
  let '(frames, ended, hub) := events_loop id ins hub in
  (Preamble :: frames, ended, if ended then unsubscribe id hub else hub).

(** ** The server of the plugin *)

(** How [http.Server.Serve] returns. *)
Inductive serve_end : Type := ServeClosed | ServeFailed (e : error) | ServeNil.

(** [src/plugins/http/http-server.go:25-32] Server *)
Record PluginServer : Type := mkPluginServer { ps_cancelled : bool; ps_done : bool; ps_err : option error }.

(** [src/plugins/http/http-server.go:40-60] NewServer, [listen] being the
    error of listening (a nil dependency cannot be expressed) *)
Definition NewServer (config : HTTPConfig) (listen : option error) : error + PluginServer :=
  match Validate config with
  | Some e => inl e
  | None => match listen with
            | Some e => inl (ErrWrap "listen HTTP" e)
            | None => inr (mkPluginServer false false None)
            end
  end.

(** [src/plugins/http/http-server.go:65-74] Serve, the end of its goroutine *)
Definition Serve_returns (r : serve_end) (s : PluginServer) : PluginServer :=
  mkPluginServer (ps_cancelled s) true (match r with ServeFailed e => Some e | _ => ps_err s end).

(** [src/plugins/http/http-server.go:80-80] Shutdown, the call of cancel *)
Definition plugin_cancel (s : PluginServer) : PluginServer :=
  mkPluginServer true (ps_done s) (ps_err s).
(** [src/plugins/http/http-server.go:76-86] Shutdown; [shutdown] is the result
    of [http.Server.Shutdown], and nothing is returned before the goroutine of
    [Serve] has ended *)
Definition Shutdown_result (shutdown : option error) (s : PluginServer) : option (option error) :=
  if ps_done s then Some (errors_Join [shutdown; ps_err s]) else None.

(** ** Lemmas: paths *)

(** A part of a clean path. *)
Definition plain (p : list Ascii.ascii) : Prop :=
  p <> [] /\ p <> chars "." /\ p <> chars ".." /\ Forall (fun c => Ascii.eqb c slash = false) p.

Lemma split_join p parts : Forall (fun c => Ascii.eqb c slash = false) p -> Forall plain parts ->
  split_on slash (p ++ join_parts parts) = p :: parts.
Proof.
  intros Hp H. revert p Hp. induction H as [|q parts (_ & _ & _ & Hq) _ IH]; intros p Hp; cbn [join_parts].
  - rewrite app_nil_r. by apply split_on_one.
  - rewrite split_on_app by done. by rewrite IH.
Qed.

Lemma split_path parts : Forall plain parts -> split_on slash (join_parts parts) = [] :: parts.
Proof. intros H. by apply (split_join []). Qed.

Lemma clean_plain parts stack : Forall plain parts -> clean_parts true stack parts = rev parts ++ stack.
Proof.
  intros H. revert stack. induction H as [|p parts (H1 & H2 & H3 & _) _ IH]; intros stack; [done|].
  cbn [clean_parts]. rewrite !bool_decide_eq_false_2 by done. cbn [orb]. rewrite IH. cbn [rev].
  by rewrite <- app_assoc.
Qed.

Lemma join_last parts p : Forall plain (parts ++ [p]) -> exists l c,
  join_parts (parts ++ [p]) = l ++ [c] /\ Ascii.eqb c slash = false.
Proof.
  intros [_ H]%Forall_app. apply Forall_cons in H as [(Hne & _ & _ & Hs) _].
  destruct (exists_last Hne) as (q & c & ->). apply Forall_app in Hs as [_ Hc]. apply Forall_cons in Hc as [Hc _].
  assert (exists l, join_parts (parts ++ [q ++ [c]]) = l ++ [c]) as [l ->]; [|eauto].
  induction parts as [|x parts [l IH]].
  - cbn. exists (slash :: q). by rewrite app_nil_r.
  - cbn [app join_parts]. rewrite IH. exists (slash :: x ++ l). cbn. by rewrite app_assoc.
Qed.

Lemma cleanPath_plain parts : parts <> [] -> Forall plain parts -> cleanPath (join_parts parts) = join_parts parts.
Proof.
  intros Hne H. unfold cleanPath. rewrite split_path by done. cbn [clean_parts].
  rewrite bool_decide_eq_true_2 by done. cbn [orb]. rewrite clean_plain, app_nil_r, rev_involutive by done.
  destruct (exists_last Hne) as (ps & p & ->). destruct (join_last ps p H) as (l & c & -> & Hc).
  rewrite last_snoc. rewrite bool_decide_eq_false_2; [|intros [= ->]; by rewrite Ascii.eqb_refl in Hc].
  rewrite app_nil_r. by destruct (ps ++ [p]) eqn:E; [destruct ps|].
Qed.

Lemma trim_join parts : parts <> [] -> Forall plain parts ->
  trim_slashes (join_parts parts) = drop 1 (join_parts parts).
Proof.
  intros Hne H. destruct (exists_last Hne) as (ps & p & E).
  assert (exists l c, join_parts parts = slash :: l ++ [c] /\ Ascii.eqb c slash = false /\
    trim_left_slashes (l ++ [c]) = l ++ [c]) as (l & c & -> & Hc & Ht).
  { destruct parts as [|q parts]; [done|]. assert (Forall plain (ps ++ [p])) as H' by (by rewrite <- E).
    destruct (join_last ps p H') as (l & c & El & Hc). rewrite <- E in El. cbn [join_parts] in El |- *.
    apply Forall_cons in H as [(Hq & _ & _ & Hs) _]. destruct q as [|x q]; [done|].
    apply Forall_cons in Hs as [Hx _]. destruct l as [|y l]; [by destruct q|].
    injection El as <- El. exists l, c. cbn [app] in El |- *. rewrite El. split; [done|]. split; [done|].
    rewrite <- El. cbn [trim_left_slashes]. by rewrite Hx. }
  unfold trim_slashes. cbn [trim_left_slashes drop]. rewrite Ascii.eqb_refl, Ht, rev_app_distr. cbn [rev app trim_left_slashes].
  rewrite Hc. by rewrite <- rev_unit, rev_involutive.
Qed.

Lemma path_parts_join parts : parts <> [] -> Forall plain parts -> path_parts (join_parts parts) = parts.
Proof.
  intros Hne H. unfold path_parts. rewrite trim_join by done. destruct parts as [|p parts]; [done|].
  apply Forall_cons in H as [(_ & _ & _ & Hs) H]. cbn [join_parts drop]. by apply split_join.
Qed.

(** The patterns of the multiplexer, on the parts. *)
Lemma join_eq parts s : Forall plain parts ->
  bool_decide (join_parts parts = chars s) = bool_decide ([] :: parts = split_on slash (chars s) /\ join_parts parts = chars s).
Proof.
  intros H. apply bool_decide_ext. split; [|by intros []]. intros E. split; [|done]. by rewrite <- E, split_path.
Qed.

Lemma join_prefix parts pre : Forall plain pre -> Forall plain parts -> parts <> [] ->
  has_prefix (join_parts parts) (join_parts pre ++ [slash]) = true <-> exists rest, rest <> [] /\ parts = pre ++ rest.
Proof.
  intros Hpre Hparts Hne. split.
  - intros E%has_prefix_split. set (t := drop _ _) in E. rewrite <- app_assoc in E. cbn [app] in E.
    exists (split_on slash t). split; [apply split_on_nil|].
    apply (f_equal (split_on slash)) in E. rewrite split_path in E by done.
    assert (forall pre, Forall plain pre -> forall p, Forall (fun c => Ascii.eqb c slash = false) p ->
      split_on slash (p ++ join_parts pre ++ slash :: t) = p :: pre ++ split_on slash t) as K.
    { clear. intros l. induction 1 as [|q l (_ & _ & _ & Hq) _ IH]; intros p Hp; cbn [join_parts app].
      - by rewrite split_on_app.
      - rewrite split_on_app by done. by rewrite <- app_assoc, IH. }
    pose proof (K pre Hpre [] ltac:(constructor)) as K'. cbn [app] in K'. rewrite K' in E. by injection E.
  - intros ([|r rest] & Hr & ->); [done|].
    assert (forall a b, join_parts (a ++ b) = join_parts a ++ join_parts b) as J.
    { induction a as [|x a IH]; intros b; [done|]. cbn. by rewrite IH, app_assoc. }
    rewrite J. cbn [join_parts]. rewrite cons_middle, app_assoc. apply has_prefix_app.
Qed.

(** ** What the paths serve *)

Definition path_of (names : list string) : list Ascii.ascii := join_parts (map chars names).
Definition plain_name (name : string) : Prop := plain (chars name).

Section spec.
Context (core : CoreServer) (state : MonitoringState) (flusher : bool).
(** The samples of a sensor of a device. *)
Context (history : MACAddress -> SensorType -> list Sample).
Abbreviation snap := (current_snapshot core).

(** The documented resources below [/api/v1/devices]. *)
Inductive serves_device : list string -> response -> Prop :=
| bad_mac m rest : (rest = [] \/ exists s, rest = ["sensors"; s; "readings"]%string) ->
    ParseMACAddress m = None -> serves_device (m :: rest) (writeError StatusBadRequest "invalid MAC address")
| device_found m mac d : ParseMACAddress m = Some mac -> Device snap mac state = Some d ->
    serves_device [m] (writeJSON StatusOK (DeviceBody d))
| device_missing m mac : ParseMACAddress m = Some mac -> snapshot_Device snap mac = None ->
    serves_device [m] (writeError StatusNotFound "device not found")
| bad_sensor m mac s : ParseMACAddress m = Some mac ->
    (ParseUint 16 (chars s) = None \/ ParseUint 16 (chars s) = Some 0) ->
    serves_device [m; "sensors"; s; "readings"]%string (writeError StatusBadRequest "invalid sensor ID")
| readings_no_device m mac s n : ParseMACAddress m = Some mac -> ParseUint 16 (chars s) = Some n -> n <> 0 ->
    snapshot_Device snap mac = None ->
    serves_device [m; "sensors"; s; "readings"]%string (writeError StatusNotFound "device not found")
| readings_no_sensor m mac s n d : ParseMACAddress m = Some mac -> ParseUint 16 (chars s) = Some n -> n <> 0 ->
    snapshot_Device snap mac = Some d -> snapshot_Sensor snap (ToSensorType n) = None ->
    serves_device [m; "sensors"; s; "readings"]%string (writeError StatusNotFound "sensor not found")
| readings_found m mac s n d def : ParseMACAddress m = Some mac -> ParseUint 16 (chars s) = Some n -> n <> 0 ->
    snapshot_Device snap mac = Some d -> snapshot_Sensor snap (ToSensorType n) = Some def ->
    serves_device [m; "sensors"; s; "readings"]%string
      (writeJSON StatusOK (ReadingsBody (history mac (ToSensorType n))))
| other_device names : length names <> 1%nat -> (forall m s, names <> [m; "sensors"; s; "readings"]%string) ->
    serves_device names NotFound.

(** The documented resources. *)
Inductive serves : list string -> reply -> Prop :=
| serves_health : serves ["health"%string] (Reply (handle_health core))
| serves_status : serves ["api"; "v1"; "status"]%string (Reply (handle_status core))
| serves_events : serves ["api"; "v1"; "events"]%string (handle_events flusher)
| serves_rooms : serves ["api"; "v1"; "rooms"]%string (Reply (writeJSON StatusOK (RoomsBody (Rooms snap state))))
| serves_room f r ds : ds = filter (fun d => dv_Floor d = f /\ dv_Room d = r) (Devices snap state) -> ds <> [] ->
    serves ["api"; "v1"; "rooms"; f; r; "devices"]%string (Reply (writeJSON StatusOK (DevicesBody ds)))
| serves_no_room f r : Forall (fun d => ~ (dv_Floor d = f /\ dv_Room d = r)) (Devices snap state) ->
    serves ["api"; "v1"; "rooms"; f; r; "devices"]%string (Reply (writeError StatusNotFound "room not found"))
| serves_other_room names : names <> [] -> (forall f r, names <> [f; r; "devices"]%string) ->
    serves ("api" :: "v1" :: "rooms" :: names)%string (Reply NotFound)
| serves_devices names r : names <> [] -> serves_device names r ->
    serves ("api" :: "v1" :: "devices" :: names)%string (Reply r)
| serves_devices_root : serves ["api"; "v1"; "devices"]%string (Redirect (chars "/api/v1/devices/"))
| serves_nothing names : names <> ["health"%string] ->
    (forall x rest, names = ("api" :: "v1" :: x :: rest)%string ->
       (x ∉ ["rooms"; "devices"]%string) /\ ((x ∈ ["status"; "events"]%string) -> rest <> [])) ->
    serves names (Reply NotFound).
End spec.

Lemma chars_inj a b : chars a = chars b -> a = b.
Proof. intros E. by rewrite <- (of_chars_chars a), E, of_chars_chars. Qed.
#[export] Instance chars_Inj : Inj (=) (=) chars.
Proof. intros a b. apply chars_inj. Qed.

(** A pattern that is one path matches the names of that path. *)
Lemma at_path names pat : Forall plain_name names -> Forall plain_name pat ->
  bool_decide ((path_of names) = (path_of pat)) = bool_decide (names = pat).
Proof.
  intros Hn Hp. apply bool_decide_ext. split; [|by intros ->]. unfold path_of. intros E.
  apply (f_equal (split_on slash)) in E. rewrite !split_path in E by (by apply Forall_map).
  injection E as E. by apply (inj (map chars)).
Qed.

Lemma under_path names pat : Forall plain_name names -> Forall plain_name pat -> names <> [] ->
  has_prefix (path_of names) (path_of pat ++ [slash]) = true <-> exists rest, rest <> [] /\ names = pat ++ rest.
Proof.
  intros Hn Hp Hne. unfold path_of. rewrite join_prefix;
    [|by apply Forall_map|by apply Forall_map|by destruct names]. split.
  - intros (rest & Hr & E). exists (map of_chars rest). split; [by destruct rest|].
    apply (inj (map chars)). rewrite E, map_app. f_equal.
    clear. induction rest as [|r rest IH]; [done|]. cbn. by rewrite chars_of_chars, <- IH.
  - intros (rest & Hr & ->). exists (map chars rest). split; [by destruct rest|]. by rewrite map_app.
Qed.

Lemma path_parts_of names : names <> [] -> Forall plain_name names -> path_parts (path_of names) = map chars names.
Proof. intros Hne H. apply path_parts_join; [by destruct names|by apply Forall_map]. Qed.

#[local] Arguments chars : simpl never.

Section serving.
Context (core : CoreServer) (state : MonitoringState) (flusher : bool).
Context (history : MACAddress -> SensorType -> list Sample).
Context (Hreadings : forall m s, exists l, Readings m s state = Ret l /\ default [] l = history m s).

Lemma chars_eq a b : bool_decide (chars a = chars b) = bool_decide (a = b).
Proof. apply bool_decide_ext. split; [apply chars_inj|congruence]. Qed.

Lemma Device_None mac : Device (current_snapshot core) mac state = None <->
  snapshot_Device (current_snapshot core) mac = None.
Proof. unfold Device. by destruct (snapshot_Device _ _). Qed.

Lemma ParseUint_range bits l n : ParseUint bits l = Some n -> 0 <= n < 2 ^ bits.
Proof.
  unfold ParseUint. destruct l as [|c l]; [done|]. destruct (parse_digits 0 (c :: l)) as [v|] eqn:E; [|done].
  destruct (Z.ltb_spec v (2 ^ bits)); [|done]. intros [= <-].
  apply parse_digits_bound in E; lia.
Qed.

(** The handler of the devices, on the names of its path. *)
Lemma handle_device_serves names : names <> [] ->
  Forall plain_name ("api" :: "v1" :: "devices" :: names)%string ->
  exists r, handle_device core state (path_of ("api" :: "v1" :: "devices" :: names)%string) = Ret r /\
    serves_device core state history names r.
Proof.
  intros Hne Hp. unfold handle_device. rewrite path_parts_of by done. cbn [map].
  set (bad := negb _ && _).
  assert (bad = false <-> length names = 1%nat \/ exists m s, names = [m; "sensors"; s; "readings"]%string) as Hbad.
  { subst bad. destruct names as [|m [|a [|s [|b [|c names]]]]]; cbn; rewrite ?chars_eq; [done|..].
    - split; [by left|done].
    - split; [done|]. by intros [|(? & ? & ?)].
    - split; [done|]. by intros [|(? & ? & ?)].
    - split; [|intros [|(m' & s' & [= -> -> -> ->])]; [done|]; by rewrite !bool_decide_eq_true_2].
      repeat case_bool_decide; subst; try done. eauto.
    - split; [done|]. by intros [|(? & ? & ?)]. }
  destruct bad.
  { eexists. split; [done|]. constructor.
    - intros H. assert (true = false) by (apply Hbad; by left). done.
    - intros m s H. assert (true = false) by (apply Hbad; right; eauto). done. }
  destruct (proj1 Hbad eq_refl) as [H|(m & s & ->)]; clear Hbad.
  - destruct names as [|m [|]]; try done. cbn. rewrite of_chars_chars.
    destruct (ParseMACAddress m) as [mac|] eqn:Em; [|eexists; split; [done|]; constructor; auto].
    destruct (Device _ mac state) as [d|] eqn:Ed; eexists; (split; [done|]); econstructor; eauto.
    by apply Device_None.
  - cbn. rewrite of_chars_chars.
    destruct (ParseMACAddress m) as [mac|] eqn:Em; [|eexists; split; [done|]; constructor; eauto].
    destruct (ParseUint 16 (chars s)) as [n|] eqn:En; [|eexists; split; [done|]; econstructor; eauto].
    destruct (Z.eqb_spec n 0) as [->|Hn]; [eexists; split; [done|]; econstructor; eauto|].
    replace (u16 n) with n by (symmetry; apply wrapu_small; by eapply ParseUint_range).
    destruct (snapshot_Device _ mac) as [d|] eqn:Ed; [|eexists; split; [done|]; econstructor; eauto].
    destruct (snapshot_Sensor _ _) as [def|] eqn:Es; [|eexists; split; [done|]; econstructor; eauto].
    destruct (Hreadings mac (ToSensorType n)) as (l & -> & E). eexists. split; [done|]. rewrite E. econstructor; eauto.
Qed.

(** The handler of the rooms. *)
Lemma handle_room_serves names : names <> [] -> Forall plain_name ("api" :: "v1" :: "rooms" :: names)%string ->
  serves core state flusher history ("api" :: "v1" :: "rooms" :: names)%string
    (Reply (handle_room core state (path_of ("api" :: "v1" :: "rooms" :: names)%string))).
Proof.
  intros Hne Hp. unfold handle_room. rewrite path_parts_of by done. cbn [map].
  destruct names as [|f [|r [|d [|]]]]; try done; try (apply serves_other_room; [done|]; by intros).
  cbn. rewrite chars_eq, !of_chars_chars. case_bool_decide as Hd; cbn [negb].
  2: { apply serves_other_room; [done|]. by intros f' r' [= -> -> ->]. }
  subst d. set (ds := filter _ _). destruct (length ds =? 0)%nat eqn:E.
  - apply Nat.eqb_eq in E. apply nil_length_inv in E. apply serves_no_room.
    apply Forall_forall. intros d Hin Hd. assert (d ∈ ds) as Hds by (by apply list_elem_of_filter).
    rewrite E in Hds. by apply elem_of_nil in Hds.
  - apply serves_room with (ds := ds); [done|]. intros E'. by rewrite E' in E.
Qed.
End serving.

Lemma plain_dec (s : string) :
  bool_decide (s <> ""%string /\ s <> "."%string /\ s <> ".."%string) &&
  forallb (fun c => negb (Ascii.eqb c slash)) (chars s) = true -> plain_name s.
Proof.
  intros [(H1 & H2 & H3)%bool_decide_eq_true H]%andb_prop. unfold plain_name, plain. split_and!.
  - intros E. by apply H1, (chars_inj _ ""%string).
  - intros E. by apply H2, chars_inj.
  - intros E. by apply H3, chars_inj.
  - apply Forall_forall. intros c Hc. rewrite forallb_forall in H.
    apply negb_true_iff, H. by apply list_elem_of_In.
Qed.

(** The multiplexer, on the names of a path. *)
Lemma newHandler_serves core state flusher history names :
  (forall m s, exists l, Readings m s state = Ret l /\ default [] l = history m s) ->
  names <> [] -> Forall plain_name names ->
  exists r, newHandler core state flusher (path_of names) = Ret r /\ serves core state flusher history names r.
Proof.
  intros Hr Hne Hp. unfold newHandler.
  assert (cleanPath (path_of names) = path_of names) as ->
    by (apply cleanPath_plain; [by destruct names|by apply Forall_map]).
  rewrite (bool_decide_eq_true_2 (_ = _)) by done. cbn [negb].
  change (chars "/health") with (path_of ["health"%string]).
  change (chars "/api/v1/status") with (path_of ["api"; "v1"; "status"]%string).
  change (chars "/api/v1/events") with (path_of ["api"; "v1"; "events"]%string).
  change (chars "/api/v1/rooms") with (path_of ["api"; "v1"; "rooms"]%string).
  change (chars "/api/v1/devices") with (path_of ["api"; "v1"; "devices"]%string).
  change (chars "/api/v1/rooms/") with (path_of ["api"; "v1"; "rooms"]%string ++ [slash]).
  change (chars "/api/v1/devices/") with (path_of ["api"; "v1"; "devices"]%string ++ [slash]).
  assert (forall x, x ∈ ["status"; "events"; "rooms"; "devices"]%string -> Forall plain_name ["api"; "v1"; x]%string) as Hpat.
  { intros x Hx. apply Forall_cons; split; [by apply plain_dec; vm_compute|].
    apply Forall_cons; split; [by apply plain_dec; vm_compute|]. apply Forall_singleton.
    repeat (apply elem_of_cons in Hx as [->|Hx]; [by apply plain_dec; vm_compute|]). by apply elem_of_nil in Hx. }
  assert (Forall plain_name ["health"%string]) by (apply Forall_singleton; by apply plain_dec; vm_compute).
  rewrite !at_path by (done || (apply Hpat; set_solver)).
  case_bool_decide as E1; [subst; eexists; split; [done|constructor]|].
  case_bool_decide as E2; [subst; eexists; split; [done|constructor]|].
  case_bool_decide as E3; [subst; eexists; split; [done|constructor]|].
  case_bool_decide as E4; [subst; eexists; split; [done|constructor]|].
  destruct (has_prefix _ _) eqn:E5.
  { apply under_path in E5 as (rest & Hrest & ->); [|done|apply Hpat; set_solver|done].
    eexists. split; [done|]. cbn [app] in *. by apply handle_room_serves. }
  destruct (has_prefix (path_of names) (path_of ["api"; "v1"; "devices"]%string ++ [slash])) eqn:E6.
  { apply under_path in E6 as (rest & Hrest & ->); [|done|apply Hpat; set_solver|done]. cbn [app] in *.
    destruct (handle_device_serves core state history Hr rest Hrest Hp) as (r & -> & Hs).
    eexists. split; [done|]. by constructor. }
  case_bool_decide as E7; [subst; eexists; split; [done|constructor]|].
  eexists. split; [done|]. constructor; [done|]. intros x rest ->.
  assert (x ∈ ["rooms"; "devices"]%string -> False) as Hx.
  { intros Hx. destruct rest as [|y rest].
    - repeat (apply elem_of_cons in Hx as [->|Hx]; [done|]). by apply elem_of_nil in Hx.
    - apply elem_of_cons in Hx as [->|Hx].
      + apply not_true_iff_false in E5. apply E5, under_path; [done|apply Hpat; set_solver|done|]. by exists (y :: rest).
      + apply list_elem_of_singleton in Hx as ->.
        apply not_true_iff_false in E6. apply E6, under_path; [done|apply Hpat; set_solver|done|]. by exists (y :: rest). }
  split; [exact Hx|]. intros Hin ->.
  repeat (apply elem_of_cons in Hin as [->|Hin]; [done|]). by apply elem_of_nil in Hin.
Qed.


Lemma stream_issues_nil ss :
  omap (fun s => if (0 <? DataStream.Errors (sn_counters s)) || (0 <? DataStream.Dropped (sn_counters s))
        then Some (stream_issue s) else None) ss = [] <->
  Forall (fun s => DataStream.Errors (sn_counters s) <= 0 /\ DataStream.Dropped (sn_counters s) <= 0) ss.
Proof.
  induction ss as [|s ss IH]; [by split|]. rewrite Forall_cons. cbn [omap list_omap].
  destruct (Z.ltb_spec 0 (DataStream.Errors (sn_counters s))) as [H1|H1]; cbn [orb];
    [split; [done|intros [[H2 _] _]; lia]|].
  destruct (Z.ltb_spec 0 (DataStream.Dropped (sn_counters s))) as [H2|H2];
    [split; [done|intros [[_ H3] _]; lia]|].
  rewrite IH. split; [by split|by intros [_ H]].
Qed.

(** Health.  The server is healthy exactly when it runs, no message was
    lost on its way to the disk or the quarantine and no stream has errors or
    dropped samples; otherwise the health resource answers 503 and names every
    cause, sorted. *)
Theorem health_verdict core :
  let issues := Issues (buildStatus core) in
  (code (handle_health core) = StatusOK <-> issues = []) /\
  (code (handle_health core) = StatusServiceUnavailable <-> issues <> []) /\
  (issues = [] <->
     core_done core = false /\ DataEngineFailures (sc_Router (core_counters core)) <= 0 /\
     QuarantineFailures (sc_Router (core_counters core)) <= 0 /\
     Forall (fun s => DataStream.Errors (sn_counters s) <= 0 /\ DataStream.Dropped (sn_counters s) <= 0)
       (sc_DataStreams (core_counters core))) /\
  Sorted string_le issues /\
  (forall s, s ∈ sc_DataStreams (core_counters core) ->
     0 < DataStream.Errors (sn_counters s) \/ 0 < DataStream.Dropped (sn_counters s) -> stream_issue s ∈ issues).
Proof.
  cbn zeta. unfold handle_health, buildStatus. cbn [Issues Status writeJSON code].
  set (base := (if 0 <? QuarantineFailures _ then _ else _)).
  set (streams := omap _ _). set (l := merge_sort string_le (base ++ streams)).
  assert (l ≡ₚ base ++ streams) as Hl by apply merge_sort_Permutation.
  assert (l = [] <-> base = [] /\ streams = []) as Hnil.
  { split; [intros E; rewrite E in Hl; apply Permutation_nil_l in Hl; symmetry in Hl; by apply app_nil in Hl|].
    intros [E1 E2]. rewrite E1, E2 in Hl. by apply Permutation_nil_r in Hl. }
  assert ((0 <? Z.of_nat (length l)) = false <-> l = []) as Hlen.
  { rewrite Z.ltb_ge. destruct l; cbn; [done|]. split; [lia|done]. }
  split_and!.
  - rewrite <- Hlen. destruct (0 <? Z.of_nat (length l)); change (bool_decide _) with false || change (bool_decide _) with true; by split.
  - rewrite <- Hlen. destruct (0 <? Z.of_nat (length l)); change (bool_decide _) with false || change (bool_decide _) with true; by split.
  - rewrite Hnil. subst base streams.
    rewrite stream_issues_nil.
    destruct (core_done core), (Z.ltb_spec 0 (DataEngineFailures (sc_Router (core_counters core)))),
      (Z.ltb_spec 0 (QuarantineFailures (sc_Router (core_counters core)))); cbn; (split;
      [intros [E1 E2]; try discriminate E1; by split_and!
      |intros (E1 & E2 & E3 & E4); try discriminate; try lia; by split]).
  - apply Sorted_merge_sort. intros a b. unfold string_le. destruct (String.leb_total a b); auto.
  - intros s Hs Hb. rewrite Hl. apply elem_of_app. right. apply list_elem_of_omap. exists s. split; [done|].
    destruct (Z.ltb_spec 0 (DataStream.Errors (sn_counters s))); [done|].
    destruct (Z.ltb_spec 0 (DataStream.Dropped (sn_counters s))); [done|lia].
Qed.

(** ** The event stream *)

Definition stream_published (ins : list stream_input) : list Event :=
  omap (fun i => match i with Publishes e => Some e | _ => None end) ins.
Definition frame_events (frames : list frame) : list Event :=
  omap (fun f => match f with EventFrame e => Some e | _ => None end) frames.

(** The events written are the next ones of the queue, in order. *)
Lemma events_loop_fifo id ins : forall hub q frames ended hub',
  subscribers hub !! id = Some q -> events_loop id ins hub = (frames, ended, hub') ->
  frame_events frames `sublist_of` q ++ stream_published ins /\
  (Z.of_nat (length q + length (stream_published ins)) <= eventQueueCapacity ->
   frame_events frames `prefix_of` q ++ stream_published ins) /\
  Preamble ∉ frames.
Proof.
  induction ins as [|i ins IH]; intros hub q frames ended hub' Hq E; cbn in E.
  { injection E as <- _ _. split_and!; [apply sublist_nil_l|intros _; apply prefix_nil|apply not_elem_of_nil]. }
  destruct i as [e|w|w|].
  - assert (subscribers (publish_event e hub) !! id
        = Some (if Z.of_nat (length q) <? eventQueueCapacity then q ++ [e] else q)) as Hq'
      by (cbn; by rewrite lookup_fmap, Hq).
    destruct (IH _ _ _ _ _ Hq' E) as (H1 & H2 & H3).
    change (stream_published (Publishes e :: ins)) with (e :: stream_published ins).
    destruct (Z.ltb_spec (Z.of_nat (length q)) eventQueueCapacity) as [Hlt|Hge].
    + rewrite <- app_assoc in H1, H2. split; [done|]. split; [|done]. intros Hc. apply H2.
      rewrite length_app. cbn [length] in Hc |- *. lia.
    + split; [|split; [|done]].
      * etrans; [exact H1|]. apply sublist_app; [done|]. by apply sublist_cons.
      * cbn [length]. intros Hc. lia.
  - unfold receive in E. rewrite Hq in E. destruct q as [|e q].
    { by apply (IH hub [] frames ended hub'). }
    destruct w.
    + destruct (events_loop id ins _) as [[fs en] h] eqn:El. injection E as <- <- <-.
      eapply IH in El as (H1 & H2 & H3); [|cbn; by apply lookup_insert_eq].
      change (stream_published (NextEvent true :: ins)) with (stream_published ins).
      change (frame_events (EventFrame e :: fs)) with (e :: frame_events fs). cbn [app]. split_and!.
      * by apply sublist_skip.
      * intros Hc. apply prefix_cons, H2. cbn [length] in Hc. lia.
      * by apply not_elem_of_cons.
    + injection E as <- _ _. split_and!; [apply sublist_nil_l|intros _; apply prefix_nil|apply not_elem_of_nil].
  - destruct w.
    + destruct (events_loop id ins _) as [[fs en] h] eqn:El. injection E as <- <- <-.
      destruct (IH _ _ _ _ _ Hq El) as (H1 & H2 & H3). cbn. split_and!; [done|done|by apply not_elem_of_cons].
    + injection E as <- _ _. split_and!; [apply sublist_nil_l|intros _; apply prefix_nil|apply not_elem_of_nil].
  - injection E as <- _ _. split_and!; [apply sublist_nil_l|intros _; apply prefix_nil|apply not_elem_of_nil].
Qed.

(** C40. The event stream.  A stream begins with its preamble, once, and writes
    events published after it subscribed, in the order they were published,
    each at most once; none is missing before the last one written while no
    more than the queue holds are published; and when the handler has returned
    its subscription is gone. *)
Theorem event_stream ins hub frames ended hub' :
  handleEvents ins hub = (frames, ended, hub') ->
  exists rest, frames = Preamble :: rest /\ (Preamble ∉ rest) /\
    frame_events rest `sublist_of` stream_published ins /\
    (Z.of_nat (length (stream_published ins)) <= eventQueueCapacity ->
     frame_events rest `prefix_of` stream_published ins) /\
    (ended = true -> subscribers hub' !! u64 (nextID hub + 1) = None).
Proof.
  unfold handleEvents, Subscribe. destruct (events_loop _ ins _) as [[fs en] h] eqn:E. intros [= <- <- <-].
  eapply events_loop_fifo in E as (H1 & H2 & H3); [|cbn; by apply lookup_insert_eq].
  exists fs. split_and!; [done|done|done|done|]. intros ->. apply lookup_delete_eq.
Qed.

(** Every reply carries the headers that allow other
    origins, and a preflight request for any path is answered 204 without
    reaching a handler. *)
Lemma preflight core state method flusher path :
  (corsHandler core state method flusher path).1 = cors_headers /\
  (method = "OPTIONS"%string ->
   (corsHandler core state method flusher path).2 = Ret (Reply (mkResponse StatusNoContent [] NoBody))) /\
  (method <> "OPTIONS"%string ->
   (corsHandler core state method flusher path).2 = newHandler core state flusher path).
Proof.
  split; [done|]. unfold corsHandler. cbn. split; intros H; case_bool_decide; done.
Qed.

(** ** Concrete requests *)

Definition sample_http_config : HTTPConfig := mkHTTPConfig true ":8080" 10.
Definition sample_monitoring : MonitoringState := mkMonitoring 10 ∅ newEventHub.
Definition zero_tcp : TCPServerCounters := mkTCPCounters 0 0 0 0 0 0.
Definition zero_udp : UDPServerCounters := mkUDPCounters 0 0 0 0.
Definition core_of (s : ConfigSnapshot) : CoreServer :=
  mkCore (mkServerCounters zero_tcp zero_udp zero_counters []) (mkRegistry s) false.
Definition sample_core : CoreServer := core_of sample_snapshot.

Example unknown_device :
  newHandler sample_core sample_monitoring true (chars "/api/v1/devices/02:00:00:ab:cd:ef") =
    Ret (Reply (writeError StatusNotFound "device not found")).
Proof. by vm_compute. Qed.
Example bad_device :
  newHandler sample_core sample_monitoring true (chars "/api/v1/devices/kitchen") =
    Ret (Reply (writeError StatusBadRequest "invalid MAC address")).
Proof. by vm_compute. Qed.
Example unclean_path :
  newHandler sample_core sample_monitoring true (chars "/api//v1/./rooms/") = Ret (Redirect (chars "/api/v1/rooms/")).
Proof. by vm_compute. Qed.

Definition sample_observation : SensorObservation :=
  mkObservation sample_address FLOOR_FIRST ROOM_KITCHEN TransportUDP SENSOR_ID_TEMPERATURE UTemperature 1234 21.
Definition sample_inputs : list input := [Connected_ 1 sample_address; Observed sample_observation].
Definition sample_names : list string := ["api"; "v1"; "devices"; format_mac sample_address; "sensors"; "1"; "readings"].

Example sample_readings :
  newHandler sample_core (run_inputs (fun _ => None) sample_inputs sample_monitoring).2 true (path_of sample_names)
  = Ret (Reply (writeJSON StatusOK (ReadingsBody [mkSample 1234 21]))).
Proof. by vm_compute. Qed.


Definition sample_event : Event := mkEvent "sensor_observation" [Byte.x7b; Byte.x7d].
Definition sample_stream : list stream_input :=
  [Publishes sample_event; Heartbeat true; NextEvent true; NextEvent true; StreamDone; Publishes sample_event].

Lemma event_stream_witness :
  exists frames ended hub', handleEvents sample_stream newEventHub = (frames, ended, hub') /\
    frames = [Preamble; HeartbeatFrame; EventFrame sample_event] /\ ended = true /\
  exists rest, frames = Preamble :: rest /\ (Preamble ∉ rest) /\
    frame_events rest `sublist_of` stream_published sample_stream /\
    (Z.of_nat (length (stream_published sample_stream)) <= eventQueueCapacity ->
     frame_events rest `prefix_of` stream_published sample_stream) /\
    (ended = true -> subscribers hub' !! u64 (nextID newEventHub + 1) = None).
Proof.
  destruct (handleEvents sample_stream newEventHub) as [[frames ended] hub'] eqn:E.
  exists frames, ended, hub'. split; [reflexivity|].
  split; [vm_compute in E; by injection E as <- _ _|]. split; [vm_compute in E; by injection E as _ <- _|].
  exact (event_stream sample_stream newEventHub frames ended hub' E).
Defined.
