(* ===== verification/Command.v ===== *)
(** * The command

    Model of [src/cmd/sensor-server/main.go]: what [run] acquires, what it
    waits for and what it gives back, over the models of the parts it puts
    together: the configuration file and the life cycle of the server
    ([Server.v]), the logger ([Logging.v]) and the plugin ([Monitor.v],
    [Http.v]).  What the environment decides (the results of opening,
    listening and decoding, the steps of the goroutines of the server, what
    ends the wait) is a record; [run] is a partial function of it, undefined
    where the steps given do not take a call it waits for to its end.  The
    callbacks from the server to the logger and the monitoring state are not
    part of this file. *)

From S2P Require Import Prelude GoRuntime GoStrings Platform DataFile Config Router Monitor Server Logging Http.
Open Scope Z_scope.

(** ** The environment *)

(** What happened, in order. *)
Inductive event : Type :=
| LogOpened | LogClosed (r : option error)
| SignalsOn | SignalsOff              (* signal.NotifyContext, stopSignals *)
| OfOpening (e : part_event)          (* inside OpenServer *)
| Started                             (* OpenServer has returned a server *)
| OfServer (e : server_event)
| PluginListening | PluginServing     (* httpplugin.NewServer, Serve *)
| PluginDown (r : option error).      (* Shutdown of the plugin has returned *)

(** What ends the [select]. *)
Inductive wake : Type := BySignal | ByServer | ByPlugin.

Record Env : Type := mkEnv {
  e_log_open : option error;            (* opening the log file, if it is one *)
  e_log_close : option error;
  e_http_open : option error;           (* opening the plugin's configuration *)
  e_http_decoded : error + HTTPConfig;  (* the two Decode of its LoadConfig *)
  e_http_trailer : option error;
  e_http_close : option error;
  e_opening : opening;                  (* the calls of OpenServer *)
  e_http_listen : option error;
  e_running : list server_action;       (* the server, up to the end of the wait *)
  e_serve_early : option serve_end;     (* the plugin's Serve returns before *)
  e_wake : wake;
  e_meanwhile : list server_action;     (* the server, while the plugin is shut down *)
  e_http_down : option error;           (* http.Server.Shutdown *)
  e_serve_end : serve_end;              (* Serve, when it has not returned before *)
  e_closing : list server_action;       (* the server, until Close returns *)
  e_deadline : option error }.          (* the error of the context, if it ends before Close *)

Record World : Type := mkWorld {
  w_files : FS; w_writes : Writes; w_events : list event; w_server : Server }.

(** A call that may wait: no outcome when the steps given do not end it. *)
Definition C (A : Type) : Type := World -> option (res A * World).
#[export] Instance C_ret : MRet C := fun A a w => Some (Ret a, w).
#[export] Instance C_bind : MBind C := fun A B f m w =>
  match m w with
  | Some (Ret a, w) => f a w
  | Some (Fail e, w) => Some (Fail e, w)
  | Some (Panic p, w) => Some (Panic p, w)
  | None => None
  end.

Definition run_part {T A} (view : World -> T) (update : T -> World -> World) (m : M T A) : C A :=
  fun w => Some (zoom view update m w).
Definition on_files {A} (m : M FS A) : C A :=
  run_part w_files (fun fs w => mkWorld fs (w_writes w) (w_events w) (w_server w)) m.
Definition on_writes (m : M Writes unit) : C unit :=
  run_part w_writes (fun s w => mkWorld (w_files w) s (w_events w) (w_server w)) m.
Definition on_events (l : list event) : C unit := fun w =>
  Some (Ret tt, mkWorld (w_files w) (w_writes w) (w_events w ++ l) (w_server w)).
Definition set_server (s : Server) : C unit := fun w =>
  Some (Ret tt, mkWorld (w_files w) (w_writes w) (w_events w) s).
Definition returns {A} (r : error + A) : C A := fun w =>
  Some (match r with inl e => Fail e | inr a => Ret a end, w).
Definition returns_err (e : option error) : C unit :=
  returns (match e with Some e => inl e | None => inr tt end).

(** [defer cleanup()], the rest of the function being [m]. *)
Definition deferred {A} (cleanup : C unit) (m : C A) : C A := fun w =>
  match m w with
  | Some (r, w) => match cleanup w with Some (_, w) => Some (r, w) | None => None end
  | None => None
  end.

Definition waits {A} : C A := fun _ => None.

(** Steps of the goroutines of the server.  [Close] is called by [run], when
    [asked], and by [fail]. *)
Definition may_step (asked : bool) (a : server_action) (s : Server) : bool :=
  match a with
  | SCancel => asked || bool_decide (is_Some (runErr s))
  | _ => true
  end.
Fixpoint server_runs (asked : bool) (l : list server_action) (s : Server) : option (list server_event * Server) :=
  match l with
  | [] => Some ([], s)
  | a :: l =>
      if may_step asked a s then
        match server_step a s with
        | Some (evs, s) =>
            match server_runs asked l s with
            | Some (evs', s) => Some (evs ++ evs', s)
            | None => None
            end
        | None => None
        end
      else None
  end.
Definition let_run (asked : bool) (l : list server_action) : C unit := fun w =>
  match server_runs asked l (w_server w) with
  | Some (evs, s) =>
      Some (Ret tt, mkWorld (w_files w) (w_writes w) (w_events w ++ map OfServer evs) s)
  | None => None
  end.

(** ** The command *)

Section run.
Context (decode : list byte -> (error + Config.Config) * option error).
(** The logger's parameters, and the calls' places in this file. *)
Context (here : Frame) (now : Writes -> Time) (write_err : Writes -> option error).
Context {any : Type} (Sprint : list any -> text) (Sprintf : text -> list any -> text).
Context (any_string : string -> any) (any_counters : any).
Context (main_go : text) (outer : list Frame).
Context (env : Env).

Definition say (logger : DefaultLogger) (line : Z) (format : string) (v : list any) : C unit :=
  on_writes (LogInfof here now write_err Sprintf logger ((main_go, line) :: outer) (chars format) v).
Definition say_info (logger : DefaultLogger) (line : Z) (v : list any) : C unit :=
  on_writes (LogInfo here now write_err Sprint logger ((main_go, line) :: outer) v).

(** [defer logger.Close()] *)
Definition log_close (logger : DefaultLogger) : C unit :=
  on_events [LogClosed (DefaultLogger_Close (e_log_close env) logger).1].

(** [src/cmd/sensor-server/main.go:48-66] run, the plugin's configuration: the
    state to monitor with, if the plugin is enabled *)
Definition load_plugin (httpConfigPath : string) : C (option (HTTPConfig * MonitoringState)) :=
  if bool_decide (httpConfigPath = ""%string) then mret None else
  returns_err (match e_http_open env with
               | Some e => Some (ErrWrap "open HTTP plugin configuration" e)
               | None => None
               end);;
  match Monitor.LoadConfig (e_http_decoded env) (e_http_trailer env), e_http_close env with
  | inr httpConfig, None =>
      if Enabled httpConfig then
        monitoring ← returns (NewMonitoringState httpConfig);
        mret (Some (httpConfig, monitoring))
      else mret None
  | inl err, closeErr => returns_err (errors_Join [Some err; closeErr]);; mret None
  | inr _, Some closeErr => returns_err (errors_Join [None; Some closeErr]);; mret None
  end.

(** [OpenServer], on the results of its calls. *)
Definition open_server : C unit := fun w =>
  let '(r, l) := OpenServer (e_opening env) [] in
  Some (r, mkWorld (w_files w) (w_writes w) (w_events w ++ map OfOpening l ++ match r with Ret _ => [Started] | _ => [] end)
             started_server).

(** [server.Close()]: it returns when the closing is over. *)
Definition server_Close : C (option error) := fun w =>
  match let_run true (e_closing env) w with
  | Some (_, w) => if done_closed (w_server w) then Some (Ret (Server.closeErr (w_server w)), w) else None
  | None => None
  end.
(** [server.Shutdown(context.Background())]: it returns as [Close] does, or
    with the deadline. *)
Definition server_Shutdown : C (option error) := fun w =>
  match let_run true (e_closing env) w with
  | Some (_, w) =>
      match e_deadline env with
      | Some e => Some (Ret (Server.Shutdown None e), w)
      | None => if done_closed (w_server w)
                then Some (Ret (Server.Shutdown (Some (Server.closeErr (w_server w))) (ErrNew context_Canceled)), w)
                else None
      end
  | None => None
  end.

(** [httpServer.Shutdown(shutdownContext)], the server running on meanwhile. *)
Definition plugin_Shutdown (p : PluginServer) : C (option error) :=
  let p := plugin_cancel p in
  let p := if ps_done p then p else Serve_returns (e_serve_end env) p in
  let_run false (e_meanwhile env);;
  match Shutdown_result (e_http_down env) p with
  | Some r => on_events [PluginDown r];; mret r
  | None => waits
  end.

(** [src/cmd/sensor-server/main.go:87-97] run, the start of the plugin *)
Definition start_plugin (logger : DefaultLogger) (plugin : option (HTTPConfig * MonitoringState))
    : C (option PluginServer) :=
  match plugin with
  | None => mret None
  | Some (httpConfig, _) =>
      match Http.NewServer httpConfig (e_http_listen env) with
      | inl err =>
          closed ← server_Close;
          returns_err (errors_Join [Some err; closed]);; mret None
      | inr p =>
          on_events [PluginListening];;
          on_events [PluginServing];;
          say logger 96 "HTTP plugin ready: http=%s" [any_string (Address httpConfig)];;
          mret (Some p)
      end
  end.

(** [src/cmd/sensor-server/main.go:99-103] run, the select; a nil channel never
    ends it *)
Definition select_wakes (p : option PluginServer) : C unit := fun w =>
  if match e_wake env with
     | BySignal => true
     | ByServer => done_closed (w_server w)
     | ByPlugin => match p with Some p => ps_done p | None => false end
     end
  then Some (Ret tt, w) else None.

(** The server and the plugin, up to the end of the wait. *)
Definition wait (p : option PluginServer) : C (option PluginServer) :=
  let p := match p, e_serve_early env with
           | Some p, Some r => Some (Serve_returns r p)
           | p, _ => p
           end in
  let_run false (e_running env);;
  select_wakes p;;
  mret p.

(** [src/cmd/sensor-server/main.go:104-118] run, the shutdown *)
Definition stop (logger : DefaultLogger) (p : option PluginServer) : C unit :=
  say_info logger 104 [any_string "graceful shutdown started"];;
  match p with
  | Some p =>
      err ← plugin_Shutdown p;
      match err with
      | Some e => closed ← server_Close; returns_err (Some e)
      | None => mret tt
      end
  | None => mret tt
  end;;
  err ← server_Shutdown;
  returns_err err;;
  say logger 117 "shutdown counters: %+v" [any_counters].

(** [src/cmd/sensor-server/main.go:28-119] run *)
Definition run (configPath : file_path) (httpConfigPath : string) : C unit :=
  snapshot ← on_files (LoadConfigFile decode configPath);
  let config := Config.config snapshot in
  logger ← returns (New (chars (Level (Logging config))) (chars (Output (Logging config))) (e_log_open env));
  on_events [LogOpened];;
  deferred (log_close logger) (
    limiter ← returns (NewRateLimiter time_Second);
    on_events [SignalsOn];;
    deferred (on_events [SignalsOff]) (
      plugin ← load_plugin httpConfigPath;
      open_server;;
      p ← start_plugin logger plugin;
      say logger 98 "server ready: tcp=%s udp=%s" [any_string (TCPAddress config); any_string (UDPAddress config)];;
      p ← wait p;
      stop logger p)).

(** [src/cmd/sensor-server/main.go:18-26] main: the exit status *)
Definition main_status (configPath : file_path) (httpConfigPath : string) (w : World) : option Z :=
  match run configPath httpConfigPath w with
  | Some (Ret _, _) => Some 0
  | Some (Fail _, _) => Some 1
  | Some (Panic _, _) => Some 2
  | None => None
  end.
End run.

(** ** Lemmas: the steps of the command *)

Definition event_of_server (e : event) : option server_event := match e with OfServer e => Some e | _ => None end.
Definition event_of_part (e : event) : option part_event := match e with OfOpening e => Some e | _ => None end.
Definition server_events (tr : list event) : list server_event := omap event_of_server tr.
Definition part_events (tr : list event) : list part_event := omap event_of_part tr.

Lemma omap_inject {A B} (g : B -> A) (f : A -> option B) l : (forall b, f (g b) = Some b) -> omap f (map g l) = l.
Proof. intros H. induction l as [|b l IH]; [done|]. cbn. by rewrite H, IH. Qed.
Lemma omap_none {A B C'} (g : B -> A) (f : A -> option C') l : (forall b, f (g b) = None) -> omap f (map g l) = [].
Proof. intros H. induction l as [|b l IH]; [done|]. cbn. by rewrite H. Qed.

(** A bind that has an outcome. *)
Lemma C_bind_inv {A B} (m : C A) (k : A -> C B) w r w' : (m ≫= k) w = Some (r, w') ->
  (exists a w1, m w = Some (Ret a, w1) /\ k a w1 = Some (r, w')) \/
  (exists e, m w = Some (Fail e, w') /\ r = Fail e) \/ (exists p, m w = Some (Panic p, w') /\ r = Panic p).
Proof. unfold mbind, C_bind. destruct (m w) as [[[a|e|p] w1]|]; intros H; try done; [eauto|..]; injection H as <- <-; eauto. Qed.

Lemma deferred_inv {A} cleanup (m : C A) w r w' : deferred cleanup m w = Some (r, w') ->
  exists w1 r1, m w = Some (r, w1) /\ cleanup w1 = Some (r1, w').
Proof.
  unfold deferred. destruct (m w) as [[r0 w1]|]; [|done]. destruct (cleanup w1) as [[r1 w2]|] eqn:E; [|done].
  intros [= <- <-]. eauto.
Qed.

(** The errors and the closings account for every event of the server. *)
Lemma no_server_events evs : failures evs = [] -> closings evs = [] -> evs = [].
Proof. destruct evs as [|[] evs]; by intros. Qed.

(** Nothing is closed before it is asked for or something fails. *)
Definition unasked (evs : list server_event) (s : Server) : Prop := failures evs = [] -> shutdown s = NotClosed.

Lemma server_runs_reachable asked l : forall tr s evs s',
  server_reachable tr s -> server_runs asked l s = Some (evs, s') -> server_reachable (tr ++ evs) s'.
Proof.
  induction l as [|a l IH]; intros tr s evs s' R E; cbn [server_runs] in E; [injection E as <- <-; by rewrite app_nil_r|].
  destruct (may_step asked a s); [|done]. destruct (server_step a s) as [[e1 s1]|] eqn:E1; [|done].
  destruct (server_runs asked l s1) as [[e2 s2]|] eqn:E2; [|done]. injection E as <- <-.
  rewrite app_assoc. by eapply IH; [eapply server_reach|].
Qed.

Lemma unasked_step tr s a evs s' : server_reachable tr s -> unasked tr s -> may_step false a s = true ->
  server_step a s = Some (evs, s') -> unasked (tr ++ evs) s'.
Proof.
  intros R U Hm E Hf. rewrite failures_app in Hf. apply app_eq_nil in Hf as [Hf Hf'].
  pose proof (server_reachable_inv _ _ R) as [Hr _]. rewrite Hf in Hr. specialize (U Hf).
  destruct (match a with SReturn _ _ | SRecord _ | SDone _ => true | _ => false end) eqn:Ea.
  - assert (component_step a s = Some (evs, s')) as E' by (by destruct a).
    apply component_step_frame in E' as (-> & _). done.
  - assert (shutdown_step a s = Some (evs, s')) as E' by (by destruct a).
    unfold shutdown_step in E'. rewrite U in E'. destruct a; try done. cbn in Hm. by rewrite Hr in Hm.
Qed.

Lemma server_runs_unasked l : forall tr s evs s',
  server_reachable tr s -> unasked tr s -> server_runs false l s = Some (evs, s') -> unasked (tr ++ evs) s'.
Proof.
  induction l as [|a l IH]; intros tr s evs s' R U E; cbn [server_runs] in E; [injection E as <- <-; by rewrite app_nil_r|].
  destruct (may_step false a s) eqn:Em; [|done]. destruct (server_step a s) as [[e1 s1]|] eqn:E1; [|done].
  destruct (server_runs false l s1) as [[e2 s2]|] eqn:E2; [|done]. injection E as <- <-.
  rewrite app_assoc. eapply IH; [by eapply server_reach|by eapply unasked_step|done].
Qed.

(** A quiet server has done nothing. *)
Lemma unasked_nil evs s : server_reachable evs s -> unasked evs s -> failures evs = [] -> evs = [].
Proof.
  intros R U Hf. apply no_server_events; [done|]. pose proof (server_reachable_inv _ _ R) as [_ Hc].
  unfold closing_inv in Hc. rewrite (U Hf) in Hc. apply Hc.
Qed.

(** When [Close] returns nil, no component failed and every part was closed
    without an error. *)
Lemma clean_close evs s : server_reachable evs s -> done_closed s = true -> Server.closeErr s = None ->
  failures evs = [] /\
  closings evs = [NetworkClosed None None; QuarantineClosed None; EngineClosed None; ClosedWith None].
Proof.
  intros R Hd Hn. pose proof (server_reachable_inv _ _ R) as [_ Hc]. unfold closing_inv in Hc.
  assert (exists u t q g, closings evs = [NetworkClosed u t; QuarantineClosed q; EngineClosed g; ClosedWith (Server.closeErr s)] /\
    Server.closeErr s = errors_Join [head (failures evs); errors_Join [errors_Join [u; t]; q; g]])
    as (u & t & q & g & E & Ec) by (destruct (shutdown s); intuition congruence).
  rewrite Hn in Ec. symmetry in Ec. apply errors_Join_None in Ec.
  apply Forall_cons in Ec as [Hf [Hj _]%Forall_cons]. apply errors_Join_None in Hj.
  apply Forall_cons in Hj as [Hut [-> [-> _]%Forall_cons]%Forall_cons].
  apply errors_Join_None, Forall_cons in Hut as [-> [-> _]%Forall_cons].
  split; [by destruct (failures evs)|]. by rewrite E, Hn.
Qed.

(** Without failures the trace is the closing. *)
Lemma closings_all evs : failures evs = [] -> closings evs = evs.
Proof. induction evs as [|[] evs IH]; intros H; try done; (change (failures evs = []) in H; unfold closings in *; cbn [List.filter]; by rewrite IH). Qed.

(** ** What a run may come to *)

(** The server is up; the logger and the signals around everything else. *)
Definition up : list event :=
  map OfOpening (map Opened [EnginePart; QuarantinePart; ListenerPart; PacketPart; TCPPart; UDPPart]) ++ [Started].
Definition framed (o : option error) (mid : list event) : list event :=
  [LogOpened; SignalsOn] ++ mid ++ [SignalsOff; LogClosed o].
Definition verdict (e : option error) : res unit := match e with None => Ret tt | Some e => Fail e end.

(** The ends of a run: the result and what has happened. *)
Inductive ends : res unit -> list event -> Prop :=
| ends_config e : ends (Fail e) []
| ends_unopened e l o : released l -> ends (Fail e) (framed o (map OfOpening l))
| ends_listen err evs s o :
    server_reachable evs s -> done_closed s = true ->
    ends (verdict (errors_Join [Some err; Server.closeErr s])) (framed o (up ++ map OfServer evs))
| ends_alone evs s o :
    server_reachable evs s -> done_closed s = true ->
    ends (verdict (Server.closeErr s)) (framed o (up ++ map OfServer evs))
| ends_with_plugin before d after s o :
    server_reachable (before ++ after) s -> done_closed s = true -> (failures before = [] -> before = []) ->
    ends (verdict (match d with Some e => Some e | None => Server.closeErr s end))
      (framed o (up ++ [PluginListening; PluginServing] ++ map OfServer before ++ [PluginDown d] ++ map OfServer after))
| ends_deadline e mid o :
    (exists evs, mid = map OfServer evs) \/
    (exists before after, mid = [PluginListening; PluginServing] ++ map OfServer before ++ [PluginDown None] ++ map OfServer after) ->
    ends (Fail (ErrWrap "shutdown server" e)) (framed o (up ++ mid)).

(** ** Lemmas: the parts of a run *)

Section proofs.
Context (decode : list byte -> (error + Config.Config) * option error).
Context (here : Frame) (now : Writes -> Time) (write_err : Writes -> option error).
Context {any : Type} (Sprint : list any -> text) (Sprintf : text -> list any -> text).
Context (any_string : string -> any) (any_counters : any) (any_of_error : error -> any).
Context (main_go : text) (outer : list Frame).
Context (years : forall st, year_ok (now st)).
Context (env : Env).

(** A loggers of [New] prints and goes on. *)
Definition made (logger : DefaultLogger) : Prop := exists lvl out opened, New lvl out opened = inr logger.
(** Nothing but lines and files changed. *)
Definition quiet (w w' : World) : Prop := w_events w' = w_events w /\ w_server w' = w_server w.

Lemma log_info_returns logger line c : made logger -> 0 <= line < 2 ^ 63 -> (forall st, exists st',
  call here now write_err Sprint Sprint Sprintf any_of_error c logger ((main_go, line) :: outer) st = (Ret tt, st')).
Proof.
  intros (lvl & out & opened & E) Hl st. apply New_spec in E as (k & owned & _ & Hk & -> & _).
  eexists. apply call_lines; try done. unfold writer_of. by repeat case_match.
Qed.

Lemma say_spec logger line format v w : made logger -> 0 <= line < 2 ^ 63 ->
  exists w', say here now write_err Sprintf main_go outer logger line format v w = Some (Ret tt, w') /\ quiet w w'.
Proof.
  intros Hm Hl. destruct (log_info_returns logger line (CInfof (chars format) v) Hm Hl (w_writes w)) as (st & E).
  cbn [call] in E. unfold say, on_writes, run_part, zoom. rewrite E. eexists. by split.
Qed.
Lemma say_info_spec logger line v w : made logger -> 0 <= line < 2 ^ 63 ->
  exists w', say_info here now write_err Sprint main_go outer logger line v w = Some (Ret tt, w') /\ quiet w w'.
Proof.
  intros Hm Hl. destruct (log_info_returns logger line (CInfo v) Hm Hl (w_writes w)) as (st & E).
  cbn [call] in E. unfold say_info, on_writes, run_part, zoom. rewrite E. eexists. by split.
Qed.

Lemma let_run_spec asked l evs w r w' : server_reachable evs (w_server w) -> let_run asked l w = Some (r, w') ->
  exists evs', r = Ret tt /\ w_events w' = w_events w ++ map OfServer evs' /\
    server_reachable (evs ++ evs') (w_server w') /\
    (asked = false -> unasked evs (w_server w) -> unasked (evs ++ evs') (w_server w')).
Proof.
  intros R E. unfold let_run in E. destruct (server_runs asked l (w_server w)) as [[evs' s']|] eqn:Es; [|done].
  injection E as <- <-. exists evs'. split_and!; [done|done|by eapply server_runs_reachable|].
  intros -> U. by eapply server_runs_unasked.
Qed.

Lemma server_Close_spec evs w r w' : server_reachable evs (w_server w) -> server_Close env w = Some (r, w') ->
  exists evs', r = Ret (Server.closeErr (w_server w')) /\ w_events w' = w_events w ++ map OfServer evs' /\
    server_reachable (evs ++ evs') (w_server w') /\ done_closed (w_server w') = true.
Proof.
  intros R E. unfold server_Close in E. destruct (let_run true (e_closing env) w) as [[r1 w1]|] eqn:El; [|done].
  destruct (done_closed (w_server w1)) eqn:Hd; [|done]. injection E as <- <-.
  destruct (let_run_spec _ _ _ _ _ _ R El) as (evs' & -> & Hev & R' & _). by exists evs'.
Qed.

Lemma server_Shutdown_spec evs w r w' : server_reachable evs (w_server w) -> server_Shutdown env w = Some (r, w') ->
  exists evs', w_events w' = w_events w ++ map OfServer evs' /\ server_reachable (evs ++ evs') (w_server w') /\
    (done_closed (w_server w') = true /\ r = Ret (Server.closeErr (w_server w')) \/
     exists e, r = Ret (Some (ErrWrap "shutdown server" e))).
Proof.
  intros R E. unfold server_Shutdown in E. destruct (let_run true (e_closing env) w) as [[r1 w1]|] eqn:El; [|done].
  destruct (let_run_spec _ _ _ _ _ _ R El) as (evs' & -> & Hev & R' & _). exists evs'.
  destruct (e_deadline env) as [e|]; [|destruct (done_closed (w_server w1)) eqn:Hd; [|done]]; injection E as <- <-;
    (split_and!; [done|done|]); [right; by exists e|by left].
Qed.

(** The last part of [stop]: [server.Shutdown] and the last line. *)
Definition finish (logger : DefaultLogger) : C unit :=
  err ← server_Shutdown env;
  returns_err err;;
  say here now write_err Sprintf main_go outer logger 117 "shutdown counters: %+v" [any_counters].

Lemma finish_run_spec logger evs w r w' : made logger -> server_reachable evs (w_server w) ->
  finish logger w = Some (r, w') ->
  exists evs', w_events w' = w_events w ++ map OfServer evs' /\
    ((exists s, server_reachable (evs ++ evs') s /\ done_closed s = true /\ r = verdict (Server.closeErr s)) \/
     exists e, r = Fail (ErrWrap "shutdown server" e)).
Proof.
  intros Hm R E. unfold finish in E.
  apply C_bind_inv in E as [(err & w1 & E1 & E)|[(e & E1 & _)|(p & E1 & _)]];
    destruct (server_Shutdown_spec _ _ _ _ R E1) as (evs' & Hev & R1 & H);
    [|by destruct H as [[_ H]|[e' H]]|by destruct H as [[_ H]|[e' H]]].
  exists evs'. destruct H as [[Hd H]|[e H]]; injection H as ->.
  - destruct (Server.closeErr (w_server w1)) as [e|] eqn:Ec.
    { injection E as <- <-. split; [done|]. left. exists (w_server w1). by rewrite Ec. }
    destruct (say_spec logger 117 "shutdown counters: %+v" [any_counters] w1 Hm ltac:(lia)) as (w2 & E2 & Q1 & Q2).
    change (say here now write_err Sprintf main_go outer logger 117 "shutdown counters: %+v" [any_counters] w1 = Some (r, w')) in E.
    rewrite E2 in E. injection E as <- <-. rewrite Q1. split; [done|]. left. exists (w_server w1). by rewrite Ec.
  - injection E as <- <-. split; [done|]. right. by exists e.
Qed.

(** [stop] with a plugin. *)
Lemma plugin_Shutdown_spec p evs w r w' : server_reachable evs (w_server w) -> unasked evs (w_server w) ->
  plugin_Shutdown env p w = Some (r, w') ->
  exists evs' d, r = Ret d /\ w_events w' = w_events w ++ map OfServer evs' ++ [PluginDown d] /\
    server_reachable (evs ++ evs') (w_server w') /\ unasked (evs ++ evs') (w_server w').
Proof.
  intros R U E. unfold plugin_Shutdown in E. cbv zeta in E.
  apply C_bind_inv in E as [([] & w1 & E1 & E)|[(e & E1 & _)|(q & E1 & _)]];
    destruct (let_run_spec _ _ _ _ _ _ R E1) as (evs' & Hr & Hev & R1 & U1); try done.
  destruct (Shutdown_result _ _) as [d|]; [|done]. injection E as <- <-. exists evs', d.
  cbn [w_events w_server]. rewrite Hev, <- app_assoc. by split_and!; try apply U1.
Qed.

Lemma stop_alone logger evs w r w' : made logger -> server_reachable evs (w_server w) ->
  stop here now write_err Sprint Sprintf any_string any_counters main_go outer env logger None w = Some (r, w') ->
  exists evs', w_events w' = w_events w ++ map OfServer evs' /\
    ((exists s, server_reachable (evs ++ evs') s /\ done_closed s = true /\ r = verdict (Server.closeErr s)) \/
     exists e, r = Fail (ErrWrap "shutdown server" e)).
Proof.
  intros Hm R E. unfold stop in E.
  destruct (say_info_spec logger 104 [any_string "graceful shutdown started"] w Hm ltac:(lia)) as (w1 & E1 & Q1 & Q2).
  unfold mbind at 1, C_bind at 1 in E. rewrite E1 in E. rewrite <- Q1, <- Q2 in *.
  change (finish logger w1 = Some (r, w')) in E. by eapply finish_run_spec.
Qed.

Lemma stop_with_plugin logger p evs w r w' : made logger -> server_reachable evs (w_server w) -> unasked evs (w_server w) ->
  stop here now write_err Sprint Sprintf any_string any_counters main_go outer env logger (Some p) w = Some (r, w') ->
  exists before d after, w_events w' = w_events w ++ map OfServer before ++ [PluginDown d] ++ map OfServer after /\
    (failures (evs ++ before) = [] -> evs ++ before = []) /\
    ((exists s, server_reachable (evs ++ before ++ after) s /\ done_closed s = true /\
        r = verdict (match d with Some e => Some e | None => Server.closeErr s end)) \/
     d = None /\ exists e, r = Fail (ErrWrap "shutdown server" e)).
Proof.
  intros Hm R U E. unfold stop in E.
  destruct (say_info_spec logger 104 [any_string "graceful shutdown started"] w Hm ltac:(lia)) as (w1 & E1 & Q1 & Q2).
  unfold mbind at 1, C_bind at 1 in E. rewrite E1 in E. rewrite <- Q1. rewrite <- Q2 in R, U. clear E1 Q1 Q2 w.
  assert ((plugin_Shutdown env p ≫= fun err => match err with
            | Some e => server_Close env ≫= fun _ => returns_err (Some e) | None => finish logger end) w1 = Some (r, w')) as E2.
  { revert E. unfold mbind, C_bind, finish, mbind, C_bind. destruct (plugin_Shutdown env p w1) as [[[[e|]|e|q] w2]|]; try done.
    destruct (server_Close env w2) as [[[c|e'|q] w3]|]; done. }
  clear E. apply C_bind_inv in E2 as [(d & w2 & E1 & E)|[(e & E1 & _)|(q & E1 & _)]];
    destruct (plugin_Shutdown_spec _ _ _ _ _ R U E1) as (before & d' & Hr & Hev & R1 & U1); try done.
  injection Hr as <-. exists before, d. destruct d as [e|].
  - apply C_bind_inv in E as [(c & w3 & E2 & E)|[(e' & E2 & _)|(q & E2 & _)]];
      destruct (server_Close_spec _ _ _ _ R1 E2) as (after & Hr & Hev2 & R2 & Hd); try done.
    injection E as <- <-. exists after. rewrite Hev2, Hev, <- !app_assoc. split; [done|].
    split; [intros Hf; by eapply unasked_nil|]. left. exists (w_server w3). rewrite <- app_assoc in R2. by split_and!.
  - destruct (finish_run_spec _ _ _ _ _ Hm R1 E) as (after & Hev2 & H). exists after.
    rewrite Hev2, Hev, <- !app_assoc. split; [done|]. split; [intros Hf; by eapply unasked_nil|].
    rewrite <- app_assoc in H. destruct H as [H|H]; [by left|by right].
Qed.

(** Once the server is open. *)
Definition serve (logger : DefaultLogger) (config : Config.Config) (plugin : option (HTTPConfig * MonitoringState)) : C unit :=
  p ← start_plugin here now write_err Sprintf any_string main_go outer env logger plugin;
  say here now write_err Sprintf main_go outer logger 98 "server ready: tcp=%s udp=%s"
    [any_string (TCPAddress config); any_string (UDPAddress config)];;
  p ← wait env p;
  stop here now write_err Sprint Sprintf any_string any_counters main_go outer env logger p.

Lemma unasked_start : unasked [] started_server.
Proof. by intros _. Qed.

Lemma wait_spec p evs w r w' : server_reachable evs (w_server w) -> unasked evs (w_server w) -> wait env p w = Some (r, w') ->
  exists evs' p', r = Ret p' /\ (is_Some p' <-> is_Some p) /\ w_events w' = w_events w ++ map OfServer evs' /\
    server_reachable (evs ++ evs') (w_server w') /\ unasked (evs ++ evs') (w_server w').
Proof.
  intros R U E. unfold wait in E. cbv zeta in E.
  apply C_bind_inv in E as [([] & w1 & E1 & E)|[(e & E1 & _)|(q & E1 & _)]];
    destruct (let_run_spec _ _ _ _ _ _ R E1) as (evs' & Hr & Hev & R1 & U1); try done.
  apply C_bind_inv in E as [([] & w2 & E2 & E)|[(e & E2 & _)|(q & E2 & _)]]; unfold select_wakes in E2;
    (match type of E2 with (if ?b then _ else _) = _ => destruct b end; [|done]); try done.
  injection E2 as <-. injection E as <- <-. eexists evs', _. split; [done|]. split; [|by split_and!; try apply U1].
  destruct p as [p|], (e_serve_early env) as [s|]; by split; intros [? ?]; eexists.
Qed.

Lemma say_bind {A} logger line format v (k : C A) w : made logger -> 0 <= line < 2 ^ 63 -> exists w', quiet w w' /\
  (say here now write_err Sprintf main_go outer logger line format v;; k) w = k w'.
Proof.
  intros Hm Hl. destruct (say_spec logger line format v w Hm Hl) as (w' & E & Q). exists w'. split; [done|].
  unfold mbind, C_bind. by rewrite E.
Qed.

(** The plugin is serving, or it is not there, or the server has been closed
    because the plugin could not listen. *)
Lemma start_plugin_spec logger plugin w r w' : made logger -> server_reachable [] (w_server w) ->
  start_plugin here now write_err Sprintf any_string main_go outer env logger plugin w = Some (r, w') ->
  (exists p pre, r = Ret p /\ w_events w' = w_events w ++ pre /\ w_server w' = w_server w /\
     (p = None /\ pre = [] \/ is_Some p /\ pre = [PluginListening; PluginServing])) \/
  (exists err e evs, r = Fail e /\ w_events w' = w_events w ++ map OfServer evs /\
     server_reachable evs (w_server w') /\ done_closed (w_server w') = true /\
     errors_Join [Some err; Server.closeErr (w_server w')] = Some e).
Proof.
  intros Hm R E. unfold start_plugin in E. destruct plugin as [[hc m]|].
  2: { injection E as <- <-. left. exists None, []. rewrite app_nil_r. split_and!; auto. }
  destruct (Http.NewServer hc (e_http_listen env)) as [err|p].
  - right. apply C_bind_inv in E as [(c & w1 & E1 & E)|[(e & E1 & _)|(q & E1 & _)]];
      destruct (server_Close_spec _ _ _ _ R E1) as (evs & Hr & Hev & R1 & Hd); try done. injection Hr as ->.
    destruct (errors_Join [Some err; Server.closeErr (w_server w1)]) as [e|] eqn:Ej;
      [|apply errors_Join_None, Forall_cons in Ej as [? _]; done].
    injection E as <- <-. by exists err, e, evs.
  - left. unfold on_events at 1 2, mbind at 1 2, C_bind at 1 2 in E.
    match type of E with (say _ _ _ _ _ _ _ ?l ?f ?v;; ?k) ?w0 = _ =>
      destruct (say_bind logger l f v k w0 Hm ltac:(lia)) as (w1 & [Q1 Q2] & E1) end.
    rewrite E1 in E. injection E as <- <-. exists (Some p), [PluginListening; PluginServing].
    rewrite Q1, Q2. cbn [w_events w_server]. rewrite <- app_assoc. split_and!; [done..|]. right. by split.
Qed.

(** The ends of a served run, up to what was there before. *)
Definition comes_to (r : res unit) (mid : list event) : Prop := forall o, ends r (framed o (up ++ mid)).

Lemma serve_spec logger config plugin w r w' : made logger -> w_server w = started_server ->
  serve logger config plugin w = Some (r, w') -> exists mid, w_events w' = w_events w ++ mid /\ comes_to r mid.
Proof.
  intros Hm Hs E. pose proof unasked_start as U0. pose proof server_init as R0. rewrite <- Hs in U0, R0. clear Hs.
  unfold serve in E. apply C_bind_inv in E as [(p & w1 & E1 & E)|E].
  2: { assert (exists r0, start_plugin here now write_err Sprintf any_string main_go outer env logger plugin w = Some (r0, w') /\
         (forall p, r0 <> Ret p) /\ forall e, r0 = Fail e -> r = Fail e) as (r0 & E0 & Hn & He)
         by (destruct E as [(e & E & ->)|(q & E & ->)]; eexists; split_and!; [exact E|done|congruence|exact E|done|congruence]).
       apply (start_plugin_spec _ _ _ _ _ Hm R0) in E0 as [(p & _ & Hr & _)|(err & e & evs & Hr & Hev & R1 & Hd & Ej)];
         [by destruct (Hn p)|]. rewrite (He e Hr). exists (map OfServer evs). split; [done|]. intros o.
       pose proof (ends_listen err evs _ o R1 Hd) as K. by rewrite Ej in K. }
  apply (start_plugin_spec _ _ _ _ _ Hm R0) in E1 as [(? & pre & [= <-] & Hev & Hs & Hp)|(? & ? & ? & ? & _)]; [|done].
  rewrite <- Hs in R0, U0. clear Hs.
  match type of E with (say _ _ _ _ _ _ _ ?l ?f ?v;; ?k) w1 = _ =>
    destruct (say_bind logger l f v k w1 Hm ltac:(lia)) as (w2 & [Q1 Q2] & E2) end.
  rewrite E2 in E. rewrite <- Q2 in R0, U0. rewrite <- Q1 in Hev. clear E2 Q1 Q2 w1.
  apply C_bind_inv in E as [(p' & w3 & E3 & E)|[(e & E3 & _)|(q & E3 & _)]];
    destruct (wait_spec _ _ _ _ _ R0 U0 E3) as (evs & p2 & Hr & Hpp & Hev3 & R3 & U3); try done.
  injection Hr as <-. cbn [app] in R3, U3. destruct p' as [p'|].
  - destruct (stop_with_plugin _ _ _ _ _ _ Hm R3 U3 E) as (before & d & after & Hev4 & Hq & H).
    destruct Hp as [[-> _]|[_ ->]]; [by destruct (proj1 Hpp (ex_intro _ p' eq_refl))|].
    exists ([PluginListening; PluginServing] ++ map OfServer (evs ++ before) ++ [PluginDown d] ++ map OfServer after).
    rewrite Hev4, Hev3, Hev, map_app, <- !app_assoc. split; [done|]. intros o.
    rewrite (app_assoc (map OfServer evs)), <- map_app. destruct H as [(s & R4 & Hd & ->)|[-> [e ->]]].
    + by apply (ends_with_plugin _ _ _ s); [rewrite <- app_assoc|..].
    + apply ends_deadline. right. by exists (evs ++ before), after.
  - destruct (stop_alone _ _ _ _ _ Hm R3 E) as (after & Hev4 & H).
    destruct Hp as [[_ ->]|[Hp _]]; [|by apply Hpp in Hp as [? ?]].
    exists (map OfServer (evs ++ after)). rewrite Hev4, Hev3, Hev, map_app, app_nil_r, <- !app_assoc. split; [done|].
    intros o. rewrite <- map_app. destruct H as [(s & R4 & Hd & ->)|[e ->]]; [by apply ends_alone|].
    apply ends_deadline. left. by eexists.
Qed.

Lemma LoadConfigFile_outcome path fs q : (LoadConfigFile decode path fs).1 <> Panic q.
Proof.
  unfold LoadConfigFile, wrap_err, mbind, M_bind, load_open_file, attempt, attempt_err, OpenFile, file_ReadAll, file_Close,
    fs_call, next_fault, mbind, M_bind. cbn [mret M_ret mbind].
  repeat (case_match; simplify_eq; try done).
Qed.

Lemma load_plugin_spec path w r w' : load_plugin env path w = Some (r, w') ->
  w' = w /\ ((exists p, r = Ret p) \/ exists e, r = Fail e).
Proof.
  unfold load_plugin. destruct (bool_decide _); [intros [= <- <-]; eauto|].
  destruct (e_http_open env); [intros [= <- <-]; eauto|].
  intros E. unfold mbind, C_bind, returns_err, returns in E. cbn in E.
  destruct (Monitor.LoadConfig _ _) as [err|hc]; destruct (e_http_close env); cbn in E;
    try (injection E as <- <-; eauto; fail).
  destruct (Enabled hc); [|injection E as <- <-; eauto]. by destruct (NewMonitoringState hc); injection E as <- <-; eauto.
Qed.

Abbreviation command := (run decode here now write_err Sprint Sprintf any_string any_counters main_go outer).

(** What is done between the start and the end of the signals. *)
Definition guarded (logger : DefaultLogger) (config : Config.Config) (http : string) : C unit :=
  plugin ← load_plugin env http;
  open_server env;;
  serve logger config plugin.

Lemma guarded_spec logger config http w r w' : made logger -> guarded logger config http w = Some (r, w') ->
  exists mid, w_events w' = w_events w ++ mid /\ forall o, ends r (framed o mid).
Proof.
  intros Hm E. unfold guarded in E.
  apply C_bind_inv in E as [(plugin & w1 & E1 & E)|[(e & E1 & ->)|(q & E1 & _)]];
    destruct (load_plugin_spec _ _ _ _ E1) as [-> Hr].
  2: { exists (map OfOpening []). rewrite app_nil_r. split; [done|]. intros o. apply ends_unopened.
       split; [intros p; set_solver|constructor]. }
  2: by destruct Hr as [[? ?]|[? ?]].
  pose proof (open_releases (e_opening env)) as K. unfold mbind at 1, C_bind at 1, open_server in E.
  destruct (OpenServer (e_opening env) []) as [[u|e|q] l]; [subst l| |done].
  - apply serve_spec in E as (mid & Hev & H); [|done..]. cbn [w_events] in Hev. rewrite <- app_assoc in Hev.
    exists (up ++ mid). split; [exact Hev|exact H].
  - injection E as <- <-. destruct K as [K _]. exists (map OfOpening l). cbn [w_events]. rewrite app_nil_r.
    split; [done|]. intros o. by apply ends_unopened.
Qed.

(** Every run is one of the ends. *)
Lemma run_ends path http w r w' : w_events w = [] -> command env path http w = Some (r, w') -> ends r (w_events w').
Proof.
  intros Hw E. unfold run in E.
  apply C_bind_inv in E as [(snapshot & w1 & E1 & E)|E].
  2: { destruct E as [(e & E & ->)|(q & E & _)]; unfold on_files, run_part, zoom in E;
       pose proof (LoadConfigFile_outcome path (w_files w)) as K; destruct (LoadConfigFile _ _ _) as [r0 fs];
       injection E as -> <-; cbn [w_events]; rewrite ?Hw; [constructor|by destruct (K q)]. }
  assert (w_events w1 = []) as Hw1.
  { unfold on_files, run_part, zoom in E1. destruct (LoadConfigFile _ _ _). by injection E1 as _ <-. }
  clear E1 Hw w. unfold mbind at 1, C_bind at 1, returns in E.
  destruct (New _ _ _) as [e|logger] eqn:En; [injection E as <- <-; rewrite Hw1; constructor|].
  assert (made logger) as Hm by (by do 3 eexists).
  unfold mbind at 1, C_bind at 1, on_events at 1 in E. cbv beta iota zeta in E.
  apply deferred_inv in E as (w2 & r1 & E & Ec). unfold mbind at 1, C_bind at 1 in E.
  change (NewRateLimiter time_Second) with (@inr error _ (mkRateLimiter time_Second ∅)) in E. cbv beta iota in E.
  unfold mbind at 1, C_bind at 1, on_events at 1 in E. cbv beta iota zeta in E.
  apply deferred_inv in E as (w3 & r2 & E & Ec'). injection Ec' as _ <-. injection Ec as _ <-.
  change (guarded logger (Config.config snapshot) http
            (mkWorld (w_files w1) (w_writes w1) ((w_events w1 ++ [LogOpened]) ++ [SignalsOn]) (w_server w1)) = Some (r, w3)) in E.
  apply guarded_spec in E as (mid & Hev & H); [|done]. cbn [w_events] in Hev |- *. rewrite Hev, Hw1. cbn [app].
  rewrite <- app_assoc. apply H.
Qed.

(** *** A run can come to an end *)

(** The steps of an orderly closing: nothing fails, the servers are closed and
    return. *)
Definition orderly_closing : list server_action :=
  [SCancel; SCloseNetwork None None; SReturn PollerRun None; SRecord PollerRun; SDone PollerRun;
   SReturn TCPServe None; SRecord TCPServe; SDone TCPServe; SReturn UDPServe None; SRecord UDPServe; SDone UDPServe;
   SCloseQuarantine None; SCloseEngine None; SJoin].
(** The same results of the calls, with a signal and an orderly closing. *)
Definition orderly (e : Env) : Env :=
  mkEnv (e_log_open e) (e_log_close e) (e_http_open e) (e_http_decoded e) (e_http_trailer e) (e_http_close e)
    (e_opening e) (e_http_listen e) [] (e_serve_early e) BySignal [] (e_http_down e) (e_serve_end e) orderly_closing None.

(** A call that has an outcome. *)
Definition ends_from {A} (m : C A) (P : World -> Prop) (Q : World -> Prop) : Prop :=
  forall w, P w -> exists r w', m w = Some (r, w') /\ ((exists a, r = Ret a) -> Q w').

Lemma ends_bind {A B} (m : C A) (k : A -> C B) P Q R :
  ends_from m P Q -> (forall a, ends_from (k a) Q R) -> ends_from (m ≫= k) P R.
Proof.
  intros Hm Hk w Hw. destruct (Hm w Hw) as (r & w' & E & HQ). unfold mbind, C_bind. rewrite E.
  destruct r as [a|e|q]; [apply Hk; eauto|..]; do 2 eexists; (split; [done|]); by intros [? ?].
Qed.
Lemma ends_part {A} (m : C A) (P : World -> Prop) :
  (forall w, exists r w', m w = Some (r, w') /\ w_server w' = w_server w) ->
  (forall w w', w_server w' = w_server w -> P w -> P w') -> ends_from m P P.
Proof. intros H HP w Hw. destruct (H w) as (r & w' & E & Es). do 2 eexists. split; [done|]. intros _. by eapply HP. Qed.
Lemma ends_deferred {A} cleanup (m : C A) P Q : ends_from m P Q -> (forall w, is_Some (cleanup w)) ->
  ends_from (deferred cleanup m) P (fun _ => True).
Proof.
  intros Hm Hc w Hw. destruct (Hm w Hw) as (r & w' & E & _). unfold deferred. rewrite E.
  destruct (Hc w') as [[r1 w1] ->]. by do 2 eexists.
Qed.
End proofs.

Create HintDb ends.
Section orderly.
Context (decode : list byte -> (error + Config.Config) * option error).
Context (here : Frame) (now : Writes -> Time) (write_err : Writes -> option error).
Context {any : Type} (Sprint : list any -> text) (Sprintf : text -> list any -> text).
Context (any_string : string -> any) (any_counters : any) (any_of_error : error -> any).
Context (main_go : text) (outer : list Frame) (env : Env).
Abbreviation fresh := (fun w => w_server w = started_server).
Abbreviation env' := (orderly env).

Lemma fresh_part {A} (m : C A) :
  (forall w, exists r w', m w = Some (r, w') /\ w_server w' = w_server w) -> ends_from m fresh fresh.
Proof. intros H. apply ends_part; [done|]. by intros w w' ->. Qed.

Lemma run_part_ends {T A} view update (m : M T A) : (forall t w, w_server (update t w) = w_server w) ->
  ends_from (run_part view update m) fresh fresh.
Proof.
  intros H. apply fresh_part. intros w. unfold run_part, zoom. destruct (m (view w)). do 2 eexists. split; [done|apply H].
Qed.
Lemma returns_ends {A} (r : error + A) : ends_from (returns r) fresh fresh.
Proof. apply fresh_part. intros w. by do 2 eexists. Qed.
Lemma events_ends l : ends_from (on_events l) fresh fresh.
Proof. apply fresh_part. intros w. by do 2 eexists. Qed.
Lemma ret_ends {A} (a : A) P : ends_from (mret a) P P.
Proof. intros w Hw. do 2 eexists. split; [done|]. done. Qed.
Lemma no_steps_ends asked : ends_from (let_run asked []) fresh fresh.
Proof. apply fresh_part. intros w. unfold let_run. cbn. by do 2 eexists. Qed.
Lemma ends_weaken {A} (m : C A) (P Q : World -> Prop) : ends_from m P Q -> ends_from m P (fun _ => True).
Proof. intros H w Hw. destruct (H w Hw) as (r & w' & E & _). by do 2 eexists. Qed.

Lemma close_ends : ends_from (server_Close env') fresh (fun _ => True).
Proof.
  intros w Hw. unfold server_Close, let_run. rewrite Hw. cbn. by do 2 eexists.
Qed.
Lemma shutdown_ends : ends_from (server_Shutdown env') fresh (fun _ => True).
Proof. intros w Hw. unfold server_Shutdown, let_run. rewrite Hw. cbn. by do 2 eexists. Qed.
Lemma returns_any {A} (r : error + A) : ends_from (returns r) (fun _ => True) (fun _ => True).
Proof. intros w _. by do 2 eexists. Qed.
Lemma writes_any m : ends_from (on_writes m) (fun _ => True) (fun _ => True).
Proof. intros w _. unfold on_writes, run_part, zoom. destruct (m (w_writes w)). by do 2 eexists. Qed.

Lemma events_any l : ends_from (on_events l) (fun _ => True) (fun _ => True).
Proof. intros w _. by do 2 eexists. Qed.
Lemma fails_any {A} e P Q : ends_from (@returns A (inl e)) P Q.
Proof. intros w _. do 2 eexists. split; [done|]. by intros [? ?]. Qed.
Lemma writes_ends m : ends_from (on_writes m) fresh fresh.
Proof. by apply run_part_ends. Qed.
Lemma files_any {A} (m : M FS A) : ends_from (on_files m) (fun _ => True) (fun _ => True).
Proof. intros w _. unfold on_files, run_part, zoom. destruct (m (w_files w)). by do 2 eexists. Qed.

#[local] Hint Resolve returns_ends events_ends ret_ends no_steps_ends close_ends shutdown_ends returns_any writes_any events_any writes_ends files_any : ends.
Ltac ends_step :=
  first
    [ solve [eauto with ends]
    | solve [apply run_part_ends; done]
    | eapply ends_bind; [ends_step|intros ?]
    | eapply ends_deferred; [ends_step|intros ?; by eexists]
    | match goal with |- ends_from (match ?x with _ => _ end) _ _ => destruct x end; ends_step ].
Ltac ends := repeat ends_step.

Lemma plugin_Shutdown_ends p : ends_from (plugin_Shutdown env' p) fresh fresh.
Proof.
  unfold plugin_Shutdown. cbv zeta. eapply ends_bind; [apply no_steps_ends|intros _].
  assert (forall r p0, ps_done p0 = true -> exists d, Shutdown_result r p0 = Some d) as K.
  { intros r p0 E. unfold Shutdown_result. rewrite E. by eexists. }
  edestruct K as [d ->]; [by destruct (ps_done (plugin_cancel p)) eqn:E|]. ends.
Qed.

Lemma stop_ends logger p :
  ends_from (stop here now write_err Sprint Sprintf any_string any_counters main_go outer env' logger p) fresh (fun _ => True).
Proof.
  unfold stop, say_info, say, returns_err. eapply ends_bind; [apply writes_ends|intros _].
  apply ends_bind with fresh.
  - destruct p as [p|]; [|apply ret_ends]. eapply ends_bind; [apply plugin_Shutdown_ends|intros [e|]; [|apply ret_ends]].
    eapply ends_bind; [apply close_ends|intros ?; apply fails_any].
  - intros _. ends.
Qed.

Lemma wait_ends p : ends_from (wait env' p) fresh fresh.
Proof.
  unfold wait. cbv zeta. eapply ends_bind; [apply no_steps_ends|intros _].
  eapply ends_bind; [|intros _; apply ret_ends]. apply fresh_part. intros w. by do 2 eexists.
Qed.

Lemma start_plugin_ends logger plugin :
  ends_from (start_plugin here now write_err Sprintf any_string main_go outer env' logger plugin) fresh fresh.
Proof.
  unfold start_plugin, say. destruct plugin as [[hc m]|]; [|apply ret_ends].
  destruct (Http.NewServer _ _) as [err|p]; [|ends].
  eapply ends_bind; [apply close_ends|intros c]. unfold returns_err, errors_Join. cbn.
  destruct c; (eapply ends_bind; [apply fails_any|intros ?; apply ret_ends]).
Qed.

Lemma open_server_ends : ends_from (open_server env') (fun _ => True) fresh.
Proof. intros w _. unfold open_server. destruct (OpenServer _ _). do 2 eexists. split; [done|]. done. Qed.

Lemma load_plugin_ends http : ends_from (load_plugin env' http) (fun _ => True) (fun _ => True).
Proof. unfold load_plugin, returns_err. ends. Qed.

(** Whatever the calls return, a signal and an orderly closing end the run. *)
Lemma run_can_end path http w : exists r w',
  run decode here now write_err Sprint Sprintf any_string any_counters main_go outer env' path http w = Some (r, w').
Proof.
  assert (ends_from (run decode here now write_err Sprint Sprintf any_string any_counters main_go outer env' path http)
            (fun _ => True) (fun _ => True)) as K.
  { unfold run. eapply ends_bind; [apply files_any|intros snapshot]. cbv zeta.
    eapply ends_bind; [apply returns_any|intros logger]. eapply ends_bind; [apply events_any|intros _].
    eapply ends_deferred; [|intros ?; by eexists]. eapply ends_bind; [apply returns_any|intros _].
    eapply ends_bind; [apply events_any|intros _]. eapply ends_deferred; [|intros ?; by eexists].
    eapply ends_bind; [apply load_plugin_ends|intros plugin]. eapply ends_bind; [apply open_server_ends|intros _].
    eapply ends_bind; [apply start_plugin_ends|intros p]. unfold say.
    eapply ends_bind; [apply writes_ends|intros _]. eapply ends_bind; [apply wait_ends|intros p']. apply stop_ends. }
  destruct (K w I) as (r & w' & E & _). eauto.
Qed.
End orderly.

(** ** Properties *)

Lemma events_of_framed {A} (f : event -> option A) o mid :
  f LogOpened = None -> f SignalsOn = None -> f SignalsOff = None -> f (LogClosed o) = None ->
  omap f (framed o mid) = omap f mid.
Proof.
  intros H1 H2 H3 H4. unfold framed. rewrite !omap_app. cbn. rewrite H1, H2, H3, H4. cbn. by rewrite app_nil_r.
Qed.

Lemma server_events_mid o mid : server_events (framed o mid) = server_events mid.
Proof. by apply events_of_framed. Qed.
Lemma server_events_up o mid : server_events (framed o (up ++ mid)) = server_events mid.
Proof. rewrite server_events_mid. unfold server_events. by rewrite omap_app. Qed.
Lemma server_events_of evs : server_events (map OfServer evs) = evs.
Proof. by apply omap_inject. Qed.
Lemma server_events_app a b : server_events (a ++ b) = server_events a ++ server_events b.
Proof. apply omap_app. Qed.
Lemma not_started e l o : e ∈ framed o (map OfOpening l) -> e <> Started /\ e <> PluginListening.
Proof.
  unfold framed. rewrite !elem_of_app. intros [H|[H|H]].
  - rewrite !elem_of_cons in H. by destruct H as [->|[->|H%elem_of_nil]].
  - change (e ∈ OfOpening <$> l) in H. apply list_elem_of_fmap in H as (x & -> & _). done.
  - rewrite !elem_of_cons in H. by destruct H as [->|[->|H%elem_of_nil]].
Qed.
Lemma no_plugin evs o d : PluginListening ∈ framed o (up ++ map OfServer evs) -> PluginDown d ∈ framed o (up ++ map OfServer evs).
Proof.
  unfold framed, up. rewrite !elem_of_app. intros [H|[[[H|H]|H]|H]]; exfalso.
  1,2,3,5: cbn in H; rewrite !elem_of_cons in H; intuition congruence || set_solver.
  change (PluginListening ∈ OfServer <$> evs) in H. by apply list_elem_of_fmap in H as (x & ? & _).
Qed.

(** What has been acquired is given back. *)
Lemma ends_releases r tr : ends r tr ->
  (Started ∉ tr -> server_events tr = [] /\ released (part_events tr)) /\
  (Started ∈ tr -> (exists s, server_reachable (server_events tr) s /\ done_closed s = true) \/
     exists e, r = Fail (ErrWrap "shutdown server" e)) /\
  (PluginListening ∈ tr -> exists d, PluginDown d ∈ tr).
Proof.
  assert (forall o mid, Started ∈ framed o (up ++ mid)) as Hup.
  { intros o mid. unfold framed, up. rewrite !elem_of_app. right. left. left. right. by left. }
  intros [e|e l o Hl|err evs s o R Hd|evs s o R Hd|before d after s o R Hd Hq|e mid o Hm].
  - split_and!; [|by intros ?%elem_of_nil..]. intros _. split; [done|]. split; [intros p; set_solver|constructor].
  - split_and!; [intros _|intros H; by apply not_started in H as []..].
    rewrite server_events_mid. unfold part_events. rewrite events_of_framed by done.
    split; [by apply omap_none|]. by rewrite omap_inject.
  - split_and!; [by intros []|intros _|intros H; exists None; by apply no_plugin].
    left. exists s. by rewrite server_events_up, server_events_of.
  - split_and!; [by intros []|intros _|intros H; exists None; by apply no_plugin].
    left. exists s. by rewrite server_events_up, server_events_of.
  - split_and!; [by intros []|intros _|intros _; exists d; unfold framed; rewrite !elem_of_app, list_elem_of_singleton; tauto].
    left. exists s. rewrite server_events_up, !server_events_app, !server_events_of. cbn. by split.
  - split_and!; [by intros []|intros _; right; by exists e|].
    destruct Hm as [[evs ->]|(before & after & ->)]; intros H; [exists None; by apply no_plugin|].
    exists None. unfold framed. rewrite !elem_of_app, list_elem_of_singleton. tauto.
Qed.

Definition clean : list event :=
  map OfServer [NetworkClosed None None; QuarantineClosed None; EngineClosed None; ClosedWith None].

Lemma ends_clean tr : ends (Ret tt) tr -> exists plugin o,
  (plugin = [] \/ plugin = [PluginListening; PluginServing; PluginDown None]) /\ tr = framed o (up ++ plugin ++ clean).
Proof.
  assert (forall evs s, server_reachable evs s -> done_closed s = true -> Server.closeErr s = None ->
    map OfServer evs = clean) as K.
  { intros evs s R Hd Hc. destruct (clean_close _ _ R Hd Hc) as [Hf Hcl]. rewrite closings_all in Hcl by done. by rewrite Hcl. }
  intros H. inversion H as [| |err evs s o R Hd E|evs s o R Hd E|before d after s o R Hd Hq E|]; subst.
  - exists [], o. split; [by left|]. cbn [app]. destruct (Server.closeErr s) eqn:Ec; [done|]. by rewrite (K evs s).
  - destruct d as [e|]; [done|]. destruct (Server.closeErr s) eqn:Ec; [done|].
    destruct (clean_close _ _ R Hd Ec) as [Hf _]. rewrite failures_app in Hf. apply app_eq_nil in Hf as [Hf _].
    rewrite (Hq Hf) in *. exists [PluginListening; PluginServing; PluginDown None], o. split; [by right|].
    rewrite <- (K after s R Hd Ec). done.
Qed.


(** ** A concrete run *)

(** The plugin is enabled and listens; a signal ends the run. *)
Definition sample_env : Env :=
  mkEnv None None None (inr sample_http_config) (Some (ErrNew io_EOF)) None
    (mkOpening None None None None None None None None None None None) None
    [] None BySignal [] None ServeClosed orderly_closing None.
Definition sample_world : World := mkWorld config_fs [] [] started_server.
Definition sample_command (env : Env) : option (res unit * World) :=
  run one_device_file sample_here (fun _ => sample_time) (fun _ => None) (@concat Ascii.ascii)
    (fun format v => format ++ concat v) chars [] (chars "/src/main.go") [] env config_path "http.json" sample_world.

